(** * EagleJS: a shallow embedding of the collection class and its host DOM

    The development follows the two sources of the repository:
    - the typed variant, [src/eaglejs.esm.ts] (version 0.6.1), and
    - the legacy variant (version 0.5.2), the pre-TypeScript build.

    The class [EagleJS extends Array] is embedded as the module [EagleJS]:
    every method is a computation in a state-and-exception monad over a
    host state holding the DOM heap (nodes addressed by reference), the
    heap of collection instances (arrays addressed by location), the
    registered event listeners and the timer queue.  The host DOM itself
    (tree mutation, cloning, selectors, HTML parsing) is the module [Dom];
    the selector engine and the HTML parser are an interface, [Engines]. *)

From Stdlib Require Import ZArith Ascii String List Lia Bool.
From stdpp Require Import base option list strings.

Open Scope string_scope.
Open Scope list_scope.

(** ** JavaScript values *)

(** References into the DOM heap and locations of array instances. *)
Abbreviation ref := nat (only parsing).
Abbreviation loc := nat (only parsing).

(** The values a caller can hand to the library.  [VNode] is a DOM node,
    [VTarget] an event target that is not a node and has, of the
    properties that the library looks for, [addEventListener] only (a
    window), [VObject] a plain object without [addEventListener].  An
    object with [addEventListener] and a [matches] or a [readyState] of
    its own (a media query list, a request) is not among these values. *)
Inductive Value : Type :=
| VUndefined
| VNull
| VBool (b : bool)
| VNum (z : Z)
| VStr (s : string)
| VNode (r : ref)
| VTarget (t : nat)
| VObject (o : nat).

#[global] Instance Value_eq_dec : EqDecision Value.
Proof. solve_decision. Defined.

(** [Array.prototype.includes] and [===] on the values above. *)
Definition includes (l : list Value) (v : Value) : bool :=
  existsb (fun w => bool_decide (w = v)) l.

Definition strict_eq (v w : Value) : bool := bool_decide (v = w).

(** [Boolean(value)]. *)
Definition truthy (v : Value) : bool :=
  match v with
  | VUndefined | VNull => false
  | VBool b => b
  | VNum z => negb (Z.eqb z 0%Z)
  | VStr s => negb (bool_decide (s = ""))
  | VNode _ | VTarget _ | VObject _ => true
  end.

(** ** Exceptions and the monad of the host *)

Inductive Exn : Type :=
| TypeError
| SyntaxError
| RangeError
| HierarchyRequestError
| NotFoundError
| InvalidCharacterError.

Inductive Outcome (A : Type) : Type :=
| Ok (a : A)
| Throw (e : Exn).
Arguments Ok {A} a.
Arguments Throw {A} e.

(** ** The host state

    *** Nodes

    [Shape] is what [cloneNode] copies; [Node] adds the tree links. *)
Record Shape : Type := mkShape {
  nodeType : Z;
  localName : string;
  attributes : list (string * string);
  classList : list string;
  dataset : option (list (string * string));
  nodeData : string
}.

Record Node : Type := mkNode {
  shape : Shape;
  parentNode : option ref;
  childNodes : list ref;
  readyState : string
}.

(** A registered listener: target, event type, listener. *)
Record Registration : Type := mkRegistration {
  reg_target : Value;
  reg_event : string;
  reg_listener : nat
}.

Record State : Type := mkState {
  nodes : list Node;
  arrays : list (list Value);
  document : ref;
  listeners : list Registration;
  timers : list nat;
  calls : list nat
}.

Definition with_nodes (f : list Node -> list Node) (st : State) : State :=
  mkState (f (nodes st)) (arrays st) (document st) (listeners st)
          (timers st) (calls st).

Definition with_arrays (f : list (list Value) -> list (list Value))
    (st : State) : State :=
  mkState (nodes st) (f (arrays st)) (document st) (listeners st)
          (timers st) (calls st).

Definition with_listeners (f : list Registration -> list Registration)
    (st : State) : State :=
  mkState (nodes st) (arrays st) (document st) (f (listeners st))
          (timers st) (calls st).

Definition with_timers (f : list nat -> list nat) (st : State) : State :=
  mkState (nodes st) (arrays st) (document st) (listeners st)
          (f (timers st)) (calls st).

Definition with_calls (f : list nat -> list nat) (st : State) : State :=
  mkState (nodes st) (arrays st) (document st) (listeners st)
          (timers st) (f (calls st)).

(** *** The monad: state that survives a thrown exception. *)
Definition M (A : Type) : Type := State -> Outcome A * State.

Definition ret {A} (a : A) : M A := fun st => (Ok a, st).

Definition bind {A B} (m : M A) (k : A -> M B) : M B :=
  fun st =>
    match m st with
    | (Ok a, st') => k a st'
    | (Throw e, st') => (Throw e, st')
    end.

Definition throw {A} (e : Exn) : M A := fun st => (Throw e, st).
Definition get : M State := fun st => (Ok st, st).
Definition modify (f : State -> State) : M unit := fun st => (Ok tt, f st).
Definition lift {A} (o : Outcome A) : M A := fun st => (o, st).

Declare Scope dom_scope.
Delimit Scope dom_scope with dom.
Notation "'let!' x ':=' c1 'in' c2" := (bind c1 (fun x => c2))
  (at level 10, x name, c1 at level 100, c2 at level 200) : dom_scope.
Notation "c1 ;; c2" := (bind c1 (fun _ => c2))
  (at level 100, c2 at level 200, right associativity) : dom_scope.
Open Scope dom_scope.

(** [Array.prototype.forEach] over a snapshot of the elements. *)
Fixpoint forEach {A} (f : A -> M unit) (l : list A) : M unit :=
  match l with
  | [] => ret tt
  | x :: l' => f x ;; forEach f l'
  end.

(** [[...].includes(t)] on node-type tags. *)
Definition Zincludes (l : list Z) (t : Z) : bool := existsb (Z.eqb t) l.

(** ** Strings: letter case and the keys of [data] *)

Definition lower_alpha (c : ascii) : bool :=
  (N.leb 97 (N_of_ascii c) && N.leb (N_of_ascii c) 122)%N.

Definition upper_alpha (c : ascii) : bool :=
  (N.leb 65 (N_of_ascii c) && N.leb (N_of_ascii c) 90)%N.

Definition toUpperCase (c : ascii) : ascii :=
  if lower_alpha c then ascii_of_N (N_of_ascii c - 32) else c.

Definition toLowerCase (c : ascii) : ascii :=
  if upper_alpha c then ascii_of_N (N_of_ascii c + 32) else c.

(** [key.replace(/-([a-z])/g, (_match, letter) => letter.toUpperCase())] *)
Fixpoint camelCase (key : string) : string :=
  match key with
  | EmptyString => EmptyString
  | String c rest =>
      match rest with
      | String d rest' =>
          if Ascii.eqb c "-" && lower_alpha d
          then String (toUpperCase d) (camelCase rest')
          else String c (camelCase rest)
      | EmptyString => String c EmptyString
      end
  end.

(** ASCII lower-casing, as the host applies it to the names of the
    attributes of an HTML element. *)
Fixpoint ascii_lowercase (s : string) : string :=
  match s with
  | EmptyString => EmptyString
  | String c s' => String (toLowerCase c) (ascii_lowercase s')
  end.

(** The name of the attribute behind a key of [dataset], without its
    prefix: an upper-case letter becomes a hyphen and the lower-case
    letter. *)
Fixpoint hyphenate (key : string) : string :=
  match key with
  | EmptyString => EmptyString
  | String c key' =>
      if upper_alpha c
      then String "-" (String (toLowerCase c) (hyphenate key'))
      else String c (hyphenate key')
  end.

(** [s] without the prefix [p], when it has it. *)
Fixpoint strip_prefix (p s : string) : option string :=
  match p with
  | EmptyString => Some s
  | String c p' =>
      match s with
      | String d s' => if Ascii.eqb c d then strip_prefix p' s' else None
      | EmptyString => None
      end
  end.

(** ** The host DOM *)
Module Dom.

Definition ELEMENT_NODE : Z := 1%Z.
Definition TEXT_NODE : Z := 3%Z.
Definition CDATA_SECTION_NODE : Z := 4%Z.
Definition PROCESSING_INSTRUCTION_NODE : Z := 7%Z.
Definition COMMENT_NODE : Z := 8%Z.
Definition DOCUMENT_NODE : Z := 9%Z.
Definition DOCUMENT_TYPE_NODE : Z := 10%Z.
Definition DOCUMENT_FRAGMENT_NODE : Z := 11%Z.

Definition no_shape : Shape := mkShape 0 "" [] [] None "".

Definition shape_of (ns : list Node) (r : ref) : Shape :=
  from_option shape no_shape (ns !! r).

(** [node.nodeType]; 0 stands for a reference that is not a node. *)
Definition type_of (ns : list Node) (r : ref) : Z := nodeType (shape_of ns r).

Definition parent_of (ns : list Node) (r : ref) : option ref :=
  match ns !! r with
  | Some n => parentNode n
  | None => None
  end.

Definition children_of (ns : list Node) (r : ref) : list ref :=
  from_option childNodes [] (ns !! r).

Definition set_parent (p : option ref) (n : Node) : Node :=
  mkNode (shape n) p (childNodes n) (readyState n).

Definition set_children (c : list ref) (n : Node) : Node :=
  mkNode (shape n) (parentNode n) c (readyState n).

Definition set_shape (s : Shape) (n : Node) : Node :=
  mkNode s (parentNode n) (childNodes n) (readyState n).

(** *** Reading the tree *)

(** The siblings that follow, respectively precede, [r] in a child list. *)
Fixpoint following (r : ref) (l : list ref) : list ref :=
  match l with
  | [] => []
  | x :: l' => if decide (x = r) then l' else following r l'
  end.

Fixpoint preceding (r : ref) (l : list ref) : list ref :=
  match l with
  | [] => []
  | x :: l' => if decide (x = r) then [] else x :: preceding r l'
  end.

Fixpoint sibling_after (r : ref) (l : list ref) : option ref :=
  match l with
  | [] => None
  | x :: l' => if decide (x = r) then head l' else sibling_after r l'
  end.

Definition nextSibling (ns : list Node) (r : ref) : option ref :=
  match parent_of ns r with
  | Some p => sibling_after r (children_of ns p)
  | None => None
  end.

Definition firstChild (ns : list Node) (r : ref) : option ref :=
  head (children_of ns r).

Definition is_element (ns : list Node) (r : ref) : bool :=
  Z.eqb (type_of ns r) ELEMENT_NODE.

(** [parent.children]: the element children. *)
Definition element_children (ns : list Node) (r : ref) : list ref :=
  List.filter (is_element ns) (children_of ns r).

Definition nextElementSibling (ns : list Node) (r : ref) : option ref :=
  match parent_of ns r with
  | Some p => head (List.filter (is_element ns) (following r (children_of ns p)))
  | None => None
  end.

Definition previousElementSibling (ns : list Node) (r : ref) : option ref :=
  match parent_of ns r with
  | Some p => last (List.filter (is_element ns) (preceding r (children_of ns p)))
  | None => None
  end.

(** The inclusive descendants of [r] in tree order.  The recursion follows
    the child lists of the heap; [fuel] bounds the depth, and the number of
    nodes of the heap is enough for every tree. *)
Fixpoint subtree (fuel : nat) (ns : list Node) (r : ref) : list ref :=
  match fuel with
  | O => [r]
  | S f => r :: flat_map (subtree f ns) (children_of ns r)
  end.

Definition descendants (ns : list Node) (r : ref) : list ref :=
  tail (subtree (length ns) ns r).

(** The inclusive ancestors of [r], nearest first. *)
Fixpoint ancestors (fuel : nat) (ns : list Node) (r : ref) : list ref :=
  match fuel with
  | O => [r]
  | S f => r :: match parent_of ns r with
               | Some p => ancestors f ns p
               | None => []
               end
  end.

(** *** Templates: trees without identity

    A template is what a parser produces and what a deep clone copies. *)
#[warnings="-register-all"]
Inductive Template : Type :=
| Tpl (s : Shape) (kids : list Template).

Fixpoint snapshot (fuel : nat) (ns : list Node) (r : ref) : Template :=
  match fuel with
  | O => Tpl (shape_of ns r) []
  | S f => Tpl (shape_of ns r) (map (snapshot f ns) (children_of ns r))
  end.

Definition initial_readyState (s : Shape) : string :=
  if Z.eqb (nodeType s) DOCUMENT_NODE then "complete" else "".

(** Allocate the nodes of a template under [parent]; the root comes first. *)
Fixpoint instantiate (parent : option ref) (t : Template) (ns : list Node)
    {struct t} : ref * list Node :=
  match t with
  | Tpl s kids =>
      let r := length ns in
      let go :=
        fix go (ks : list Template) (ns : list Node) : list ref * list Node :=
          match ks with
          | [] => ([], ns)
          | k :: ks' =>
              let (c, ns') := instantiate (Some r) k ns in
              let (cs, ns'') := go ks' ns' in
              (c :: cs, ns'')
          end in
      let (cs, ns2) :=
        go kids (ns ++ [mkNode s parent [] (initial_readyState s)]) in
      (r, alter (set_children cs) r ns2)
  end.

Fixpoint instantiate_all (parent : option ref) (ks : list Template)
    (ns : list Node) : list ref * list Node :=
  match ks with
  | [] => ([], ns)
  | k :: ks' =>
      let (c, ns') := instantiate parent k ns in
      let (cs, ns'') := instantiate_all parent ks' ns' in
      (c :: cs, ns'')
  end.

(** *** Creating and cloning nodes *)

Definition text_shape (data : string) : Shape :=
  mkShape TEXT_NODE "#text" [] [] None data.

(** [document.createTextNode(data)] *)
Definition createTextNode (data : string) : M ref :=
  fun st =>
    (Ok (length (nodes st)),
     with_nodes (fun ns => ns ++ [mkNode (text_shape data) None [] ""]) st).

(** [node.cloneNode(deep)] *)
Definition cloneNode (r : ref) (deep : bool) : M ref :=
  fun st =>
    let ns := nodes st in
    match ns !! r with
    | None => (Throw TypeError, st)
    | Some n =>
        let t := if deep then snapshot (length ns) ns r else Tpl (shape n) [] in
        let (c, ns') := instantiate None t ns in
        (Ok c, with_nodes (fun _ => ns') st)
    end.

(** *** Mutating the tree

    [pre_insert_error] is the pre-insertion validity check of the DOM
    standard: [None] when the insertion may proceed. *)

Definition count_type (ns : list Node) (t : Z) (l : list ref) : nat :=
  length (List.filter (fun c => Z.eqb (type_of ns c) t) l).

Definition has_type (ns : list Node) (t : Z) (l : list ref) : bool :=
  existsb (fun c => Z.eqb (type_of ns c) t) l.

Definition document_constraint_violated (ns : list Node)
    (parent node : ref) (child : option ref) : bool :=
  let kids := children_of ns parent in
  let child_is_doctype :=
    match child with
    | Some c => Z.eqb (type_of ns c) DOCUMENT_TYPE_NODE
    | None => false
    end in
  let doctype_follows :=
    match child with
    | Some c => has_type ns DOCUMENT_TYPE_NODE (following c kids)
    | None => false
    end in
  let element_blocked :=
    has_type ns ELEMENT_NODE kids || child_is_doctype || doctype_follows in
  let tn := type_of ns node in
  if Z.eqb tn DOCUMENT_FRAGMENT_NODE then
    let own := children_of ns node in
    Nat.ltb 1 (count_type ns ELEMENT_NODE own)
    || has_type ns TEXT_NODE own
    || has_type ns CDATA_SECTION_NODE own
    || (Nat.eqb (count_type ns ELEMENT_NODE own) 1 && element_blocked)
  else if Z.eqb tn ELEMENT_NODE then element_blocked
  else if Z.eqb tn DOCUMENT_TYPE_NODE then
    has_type ns DOCUMENT_TYPE_NODE kids
    || match child with
       | Some c => has_type ns ELEMENT_NODE (preceding c kids)
       | None => has_type ns ELEMENT_NODE kids
       end
  else false.

Definition pre_insert_error (ns : list Node) (parent node : ref)
    (child : option ref) : option Exn :=
  let tp := type_of ns parent in
  let tn := type_of ns node in
  if negb (Zincludes [1; 9; 11]%Z tp) then Some HierarchyRequestError
  else if bool_decide (parent ∈ subtree (length ns) ns node)
  then Some HierarchyRequestError
  else if match child with
          | Some c => negb (bool_decide (parent_of ns c = Some parent))
          | None => false
          end
  then Some NotFoundError
  else if negb (Zincludes [1; 3; 4; 7; 8; 10; 11]%Z tn)
  then Some HierarchyRequestError
  else if (Zincludes [3; 4]%Z tn && Z.eqb tp DOCUMENT_NODE)
          || (Z.eqb tn DOCUMENT_TYPE_NODE && negb (Z.eqb tp DOCUMENT_NODE))
  then Some HierarchyRequestError
  else if Z.eqb tp DOCUMENT_NODE
          && document_constraint_violated ns parent node child
  then Some HierarchyRequestError
  else None.

Definition remove_ref (r : ref) (l : list ref) : list ref :=
  List.filter (fun x => negb (bool_decide (x = r))) l.

(** Insert [ins] before the child [child] of a child list, at the end when
    [child] is [None]. *)
Fixpoint insert_before (child : option ref) (ins : list ref) (l : list ref)
    : list ref :=
  match l with
  | [] => ins
  | x :: l' =>
      if bool_decide (child = Some x) then ins ++ x :: l'
      else x :: insert_before child ins l'
  end.

(** Unlink [r] from its parent, if it has one. *)
Definition detach (r : ref) (ns : list Node) : list Node :=
  match parent_of ns r with
  | Some p =>
      alter (set_parent None) r
        (alter (fun n => set_children (remove_ref r (childNodes n)) n) p ns)
  | None => ns
  end.

(** Link the parentless [r] under [parent], before [child]. *)
Definition attach (parent : ref) (child : option ref) (r : ref)
    (ns : list Node) : list Node :=
  alter (set_parent (Some parent)) r
    (alter (fun n => set_children (insert_before child [r] (childNodes n)) n)
       parent ns).

(** [parent.insertBefore(node, child)]; a document fragment hands over its
    children. *)
Definition insertBefore (parent node : ref) (child : option ref) : M ref :=
  fun st =>
    let ns := nodes st in
    match pre_insert_error ns parent node child with
    | Some e => (Throw e, st)
    | None =>
        let reference :=
          if bool_decide (child = Some node) then nextSibling ns node
          else child in
        let moved :=
          if Z.eqb (type_of ns node) DOCUMENT_FRAGMENT_NODE
          then children_of ns node else [node] in
        let ns' :=
          fold_left (fun acc r => attach parent reference r (detach r acc))
            moved ns in
        (Ok node, with_nodes (fun _ => ns') st)
    end.

(** [parent.appendChild(node)] *)
Definition appendChild (parent node : ref) : M ref :=
  insertBefore parent node None.

(** *** Attributes, class list, dataset *)

Fixpoint assoc_get (k : string) (l : list (string * string)) : option string :=
  match l with
  | [] => None
  | (k', v) :: l' => if bool_decide (k' = k) then Some v else assoc_get k l'
  end.

Fixpoint assoc_set (k v : string) (l : list (string * string))
    : list (string * string) :=
  match l with
  | [] => [(k, v)]
  | (k', v') :: l' =>
      if bool_decide (k' = k) then (k, v) :: l'
      else (k', v') :: assoc_set k v l'
  end.

Definition with_attributes (f : list (string * string) -> list (string * string))
    (s : Shape) : Shape :=
  mkShape (nodeType s) (localName s) (f (attributes s)) (classList s)
          (dataset s) (nodeData s).

Definition with_classList (f : list string -> list string) (s : Shape) : Shape :=
  mkShape (nodeType s) (localName s) (attributes s) (f (classList s))
          (dataset s) (nodeData s).

Definition with_dataset (f : list (string * string) -> list (string * string))
    (s : Shape) : Shape :=
  mkShape (nodeType s) (localName s) (attributes s) (classList s)
          (option_map f (dataset s)) (nodeData s).

Definition with_nodeData (d : string) (s : Shape) : Shape :=
  mkShape (nodeType s) (localName s) (attributes s) (classList s)
          (dataset s) d.

Definition update_shape (r : ref) (f : Shape -> Shape) : M unit :=
  modify (with_nodes (alter (fun n => set_shape (f (shape n)) n) r)).

Definition assoc_remove (k : string) (l : list (string * string))
    : list (string * string) :=
  List.filter (fun p => negb (bool_decide (fst p = k))) l.

(** **** Token lists

    The class list of an element is the token set of its [class]
    attribute: the attribute is parsed into the set when it changes, and
    written back from the set when the set changes. *)

Definition ascii_whitespace (c : ascii) : bool :=
  existsb (N.eqb (N_of_ascii c)) [9; 10; 12; 13; 32]%N.

Fixpoint has_whitespace (s : string) : bool :=
  match s with
  | EmptyString => false
  | String c s' => ascii_whitespace c || has_whitespace s'
  end.

Definition token_in (name : string) (l : list string) : bool :=
  existsb (fun t => bool_decide (t = name)) l.

Definition token_remove (name : string) (l : list string) : list string :=
  List.filter (fun t => negb (bool_decide (t = name))) l.

Definition token_add (name : string) (l : list string) : list string :=
  if token_in name l then l else l ++ [name].

(** The string split on ASCII whitespace: the token that begins the
    string, if any, and the tokens after it. *)
Fixpoint split_whitespace (s : string) : string * list string :=
  match s with
  | EmptyString => (EmptyString, [])
  | String c s' =>
      let (t, l) := split_whitespace s' in
      if ascii_whitespace c
      then (EmptyString, if bool_decide (t = "") then l else t :: l)
      else (String c t, l)
  end.

(** The ordered set parser: every token once, at its first place. *)
Definition parse_tokens (s : string) : list string :=
  let (t, l) := split_whitespace s in
  fold_left (fun acc x => token_add x acc)
    (if bool_decide (t = "") then l else t :: l) [].

(** The ordered set serializer. *)
Definition serialize_tokens (l : list string) : string := String.concat " " l.

(** The update steps of a token list: the set is written back to the
    attribute, unless there is neither an attribute nor a token. *)
Definition update_steps (s : Shape) : Shape :=
  match assoc_get "class" (attributes s), classList s with
  | None, [] => s
  | _, l => with_attributes (assoc_set "class" (serialize_tokens l)) s
  end.

(** A change of the token set, followed by the update steps. *)
Definition tokens_changed (f : list string -> list string) (s : Shape)
    : Shape :=
  update_steps (with_classList f s).

(** **** Attributes

    The elements are HTML elements of an HTML document: the name of an
    attribute is lower-cased by [getAttribute], [setAttribute] and
    [removeAttribute].  The entries of the dataset are the attributes
    whose name begins with [data-]. *)

(** The key of [dataset] behind the name of an attribute. *)
Definition data_key (name : string) : option string :=
  option_map camelCase (strip_prefix "data-" name).

(** The attribute change steps, for the lower-cased name [name] and its
    new value, [None] when the attribute is removed. *)
Definition attribute_changed (name : string) (value : option string)
    (s : Shape) : Shape :=
  let s' :=
    if bool_decide (name = "class")
    then with_classList (fun _ => from_option parse_tokens [] value) s
    else s in
  match data_key name with
  | Some key =>
      with_dataset
        (match value with
         | Some v => assoc_set key v
         | None => assoc_remove key
         end) s'
  | None => s'
  end.

(** What [setAttribute(name, value)] leaves of a shape. *)
Definition attribute_set (name value : string) (s : Shape) : Shape :=
  let n := ascii_lowercase name in
  attribute_changed n (Some value) (with_attributes (assoc_set n value) s).

(** What [removeAttribute(name)] leaves of a shape. *)
Definition attribute_removed (name : string) (s : Shape) : Shape :=
  let n := ascii_lowercase name in
  match assoc_get n (attributes s) with
  | Some _ => attribute_changed n None (with_attributes (assoc_remove n) s)
  | None => s
  end.

(** What [dataset[key] = value] leaves of a shape: the entry, and the
    attribute behind it. *)
Definition data_set_to (key value : string) (s : Shape) : Shape :=
  with_attributes (assoc_set ("data-" +:+ hyphenate key) value)
    (with_dataset (assoc_set key value) s).

(** The host interface that the library only consumes: the selector
    engine, the HTML parser and serializer, and the check of attribute
    names. *)
Class Engines : Type := {
  selector_valid : string -> bool;
  (** selector, tree, scoping root, candidate element *)
  selector_matches : string -> list Node -> ref -> ref -> bool;
  (** the children that a [text/html] parse puts under [body] *)
  parse_document_body : string -> list Template;
  (** fragment parsing: local name of the context element, markup *)
  parse_fragment : string -> string -> list Template;
  serialize_fragment : list Template -> string;
  attribute_name_valid : string -> bool
}.

Section WithEngines.
Context `{Engines}.

(** [element.getAttribute(name)]; [None] is [null]. *)
Definition getAttribute (ns : list Node) (r : ref) (name : string)
    : option string :=
  assoc_get (ascii_lowercase name) (attributes (shape_of ns r)).

(** [element.setAttribute(name, value)] *)
Definition setAttribute (r : ref) (name value : string) : M unit :=
  if attribute_name_valid name
  then update_shape r (attribute_set name value)
  else throw InvalidCharacterError.

(** [element.dataset[key]]; [None] is [undefined]. *)
Definition dataset_get (ns : list Node) (r : ref) (key : string)
    : option string :=
  match dataset (shape_of ns r) with
  | Some d => assoc_get key d
  | None => None
  end.

(** [element.dataset[key] = value] *)
Definition dataset_set (r : ref) (key value : string) : M unit :=
  if attribute_name_valid ("data-" +:+ key)
  then update_shape r (data_set_to key value)
  else throw InvalidCharacterError.

(** [element.classList.toggle(name, force)]; [force = None] is the call
    with one argument.  The update steps run only where the set is
    changed. *)
Definition classList_toggle (r : ref) (name : string) (force : option bool)
    : M bool :=
  if bool_decide (name = "") then throw SyntaxError
  else if has_whitespace name then throw InvalidCharacterError
  else
    let! st := get in
    if token_in name (classList (shape_of (nodes st) r)) then
      match force with
      | Some true => ret true
      | _ => update_shape r (tokens_changed (token_remove name)) ;; ret false
      end
    else
      match force with
      | Some false => ret false
      | _ => update_shape r (tokens_changed (fun l => l ++ [name])) ;; ret true
      end.

(** *** Text and markup *)

Fixpoint descendant_text (t : Template) : string :=
  match t with
  | Tpl s kids =>
      (if Zincludes [3; 4]%Z (nodeType s) then nodeData s else "")
      +:+ (fix go (ks : list Template) : string :=
             match ks with
             | [] => ""
             | k :: ks' => descendant_text k +:+ go ks'
             end) kids
  end.

(** [node.textContent]; [None] is [null]. *)
Definition textContent (ns : list Node) (r : ref) : option string :=
  let t := type_of ns r in
  if Zincludes [1; 11]%Z t then Some (descendant_text (snapshot (length ns) ns r))
  else if Zincludes [3; 4; 7; 8]%Z t then Some (nodeData (shape_of ns r))
  else None.

Definition remove_children (r : ref) (ns : list Node) : list Node :=
  fold_left (fun acc c => detach c acc) (children_of ns r) ns.

(** [node.textContent = value] *)
Definition set_textContent (r : ref) (value : string) : M unit :=
  let! st := get in
  let t := type_of (nodes st) r in
  if Zincludes [1; 11]%Z t then
    modify (with_nodes (remove_children r)) ;;
    if bool_decide (value = "") then ret tt
    else
      let! c := createTextNode value in
      modify (with_nodes (attach r None c))
  else if Zincludes [3; 4; 7; 8]%Z t then update_shape r (with_nodeData value)
  else ret tt.

(** [element.innerHTML] *)
Definition innerHTML (ns : list Node) (r : ref) : string :=
  serialize_fragment (map (snapshot (length ns) ns) (children_of ns r)).

(** [element.innerHTML = markup] *)
Definition set_innerHTML (r : ref) (markup : string) : M unit :=
  fun st =>
    let ns := nodes st in
    let (cs, ns') :=
      instantiate_all (Some r)
        (parse_fragment (localName (shape_of ns r)) markup)
        (remove_children r ns) in
    (Ok tt, with_nodes (fun _ => alter (set_children cs) r ns') st).

(** *** Selectors *)

(** [element.matches(selectors)] *)
Definition matches (r : ref) (selectors : string) : M bool :=
  fun st =>
    if selector_valid selectors
    then (Ok (selector_matches selectors (nodes st) r r), st)
    else (Throw SyntaxError, st).

(** [parent.querySelectorAll(selectors)] *)
Definition querySelectorAll (root : ref) (selectors : string) : M (list ref) :=
  fun st =>
    let ns := nodes st in
    if selector_valid selectors
    then (Ok (List.filter
                (fun d => is_element ns d && selector_matches selectors ns root d)
                (descendants ns root)), st)
    else (Throw SyntaxError, st).

(** [element.closest(selectors)] *)
Definition closest (r : ref) (selectors : string) : M (option ref) :=
  fun st =>
    let ns := nodes st in
    if selector_valid selectors
    then (Ok (List.find
                (fun a => is_element ns a && selector_matches selectors ns r a)
                (ancestors (length ns) ns r)), st)
    else (Throw SyntaxError, st).

(** *** Documents *)

Definition element_shape (name : string) : Shape :=
  mkShape ELEMENT_NODE name [] [] (Some []) "".

Definition document_shape : Shape :=
  mkShape DOCUMENT_NODE "#document" [] [] None "".

Definition doctype_shape : Shape :=
  mkShape DOCUMENT_TYPE_NODE "html" [] [] None "".

(** [new DOMParser().parseFromString(markup, 'text/html')] *)
Definition parseFromString (markup : string) : M ref :=
  fun st =>
    let (d, ns') :=
      instantiate None
        (Tpl document_shape
           [Tpl (element_shape "html")
              [Tpl (element_shape "head") [];
               Tpl (element_shape "body") (parse_document_body markup)]])
        (nodes st) in
    (Ok d, with_nodes (fun _ => ns') st).

(** [document.implementation.createHTMLDocument('')] *)
Definition createHTMLDocument : M ref :=
  fun st =>
    let (d, ns') :=
      instantiate None
        (Tpl document_shape
           [Tpl doctype_shape [];
            Tpl (element_shape "html")
              [Tpl (element_shape "head")
                 [Tpl (element_shape "title") [Tpl (text_shape "") []]];
               Tpl (element_shape "body") []]])
        (nodes st) in
    (Ok d, with_nodes (fun _ => ns') st).

(** [document.body] *)
Definition body (ns : list Node) (doc : ref) : option ref :=
  match head (element_children ns doc) with
  | Some root =>
      List.find
        (fun c => is_element ns c
                  && (bool_decide (localName (shape_of ns c) = "body")
                      || bool_decide (localName (shape_of ns c) = "frameset")))
        (children_of ns root)
  | None => None
  end.

End WithEngines.

(** *** Events and timers *)

#[global] Instance Registration_eq_dec : EqDecision Registration.
Proof. solve_decision. Defined.

(** [target.addEventListener(event, listener)]: a listener already
    registered for the event is not registered again. *)
Definition addEventListener (target : Value) (event : string) (listener : nat)
    : M unit :=
  modify (with_listeners (fun l =>
    let g := mkRegistration target event listener in
    if bool_decide (g ∈ l) then l else l ++ [g])).

(** [setTimeout(listener)] *)
Definition setTimeout (listener : nat) : M unit :=
  modify (with_timers (fun l => l ++ [listener])).

(** A later turn of the event loop: the due timers run. *)
Definition run_timers (st : State) : State :=
  with_timers (fun _ => []) (with_calls (fun c => c ++ timers st) st).

(** The host fires [event] at [target]: its listeners run. *)
Definition fire (target : Value) (event : string) (st : State) : State :=
  with_calls (fun c =>
    c ++ map reg_listener
           (List.filter
              (fun g => bool_decide (reg_target g = target)
                        && bool_decide (reg_event g = event))
              (listeners st))) st.

(** *** Property probes: ['key' in item]

    The nodes are those of an HTML document, without shadow roots and
    without media or track elements: so [innerHTML] is a property of the
    elements only, and [readyState] of the documents only. *)

Inductive PropertyKey : Type :=
| K_addEventListener | K_childNodes | K_children | K_classList
| K_cloneNode | K_closest | K_dataset | K_firstChild | K_getAttribute
| K_innerHTML | K_matches | K_nextElementSibling | K_parentNode
| K_previousElementSibling | K_querySelector | K_querySelectorAll
| K_readyState | K_removeAttribute | K_setAttribute | K_textContent.

Definition node_has (k : PropertyKey) (s : Shape) : bool :=
  let t := nodeType s in
  match k with
  | K_classList | K_closest | K_getAttribute | K_innerHTML | K_matches
  | K_removeAttribute | K_setAttribute => Z.eqb t ELEMENT_NODE
  | K_children | K_querySelector | K_querySelectorAll =>
      Zincludes [1; 9; 11]%Z t
  | K_nextElementSibling | K_previousElementSibling =>
      Zincludes [1; 3; 4; 7; 8]%Z t
  | K_readyState => Z.eqb t DOCUMENT_NODE
  | K_dataset => bool_decide (is_Some (dataset s))
  | K_addEventListener | K_childNodes | K_cloneNode | K_firstChild
  | K_parentNode | K_textContent => true
  end.

(** ['key' in item]: a [TypeError] on a primitive. *)
Definition has_property (k : PropertyKey) (item : Value) : M bool :=
  fun st =>
    match item with
    | VNode r =>
        match nodes st !! r with
        | Some n => (Ok (node_has k (shape n)), st)
        | None => (Ok false, st)
        end
    | VTarget _ =>
        (Ok match k with K_addEventListener => true | _ => false end, st)
    | VObject _ => (Ok false, st)
    | _ => (Throw TypeError, st)
    end.

(** *** Removal, attributes and class lists *)

(** [parent.removeChild(child)] *)
Definition removeChild (parent child : ref) : M ref :=
  fun st =>
    if bool_decide (parent_of (nodes st) child = Some parent)
    then (Ok child, with_nodes (detach child) st)
    else (Throw NotFoundError, st).

(** [element.removeAttribute(name)] *)
Definition removeAttribute (r : ref) (name : string) : M unit :=
  update_shape r (attribute_removed name).

(** The check that [classList.add] and [classList.remove] run on all their
    tokens before they change anything. *)
Fixpoint tokens_error (tokens : list string) : option Exn :=
  match tokens with
  | [] => None
  | t :: rest =>
      if bool_decide (t = "") then Some SyntaxError
      else if has_whitespace t then Some InvalidCharacterError
      else tokens_error rest
  end.

(** [element.classList.add(...tokens)]: the tokens are appended to the
    set, then the update steps run. *)
Definition classList_add (r : ref) (tokens : list string) : M unit :=
  match tokens_error tokens with
  | Some e => throw e
  | None =>
      update_shape r
        (tokens_changed
           (fun l => fold_left (fun acc t => token_add t acc) tokens l))
  end.

(** [element.classList.remove(...tokens)]: the tokens are removed from
    the set, then the update steps run. *)
Definition classList_remove (r : ref) (tokens : list string) : M unit :=
  match tokens_error tokens with
  | Some e => throw e
  | None =>
      update_shape r
        (tokens_changed
           (fun l => fold_left (fun acc t => token_remove t acc) tokens l))
  end.

(** [element.classList.contains(name)] *)
Definition classList_contains (ns : list Node) (r : ref) (name : string)
    : bool :=
  token_in name (classList (shape_of ns r)).

(** [parent.querySelector(selectors)]; [None] is [null]. *)
Definition querySelector `{Engines} (root : ref) (selectors : string)
    : M (option ref) :=
  let! found := querySelectorAll root selectors in
  ret (head found).

End Dom.

(** ** Strings: the regular expression of the constructor *)

(** [\s] and the line terminators, on code units below 256. *)
Definition regex_space (c : ascii) : bool :=
  existsb (N.eqb (N_of_ascii c)) [9; 10; 11; 12; 13; 32; 160]%N.

Definition line_terminator (c : ascii) : bool :=
  existsb (N.eqb (N_of_ascii c)) [10; 13]%N.

Fixpoint skip_spaces (l : list ascii) : list ascii :=
  match l with
  | [] => []
  | c :: l' => if regex_space c then skip_spaces l' else l
  end.

(** [/^\s*<.+>\s*$/.test(s)]: after the leading spaces comes [<]; before the
    trailing spaces comes [>]; what lies between is not empty and, being
    matched by [.+], holds no line terminator. *)
Definition test_html_chars (l : list ascii) : bool :=
  match skip_spaces l with
  | c :: rest =>
      Ascii.eqb c "<"
      && match skip_spaces (rev rest) with
         | d :: inner =>
             Ascii.eqb d ">"
             && negb (bool_decide (inner = []))
             && forallb (fun x => negb (line_terminator x)) inner
         | [] => false
         end
  | [] => false
  end.

Definition test_html (s : string) : bool :=
  test_html_chars (list_ascii_of_string s).

(** ** The class *)

(** The two sources. *)
Inductive Variant : Type := Typed | Legacy.

(** An argument of the polymorphic parameters: a value (string, item,
    [null]), an array of values, or a callback.  A callback sees the item,
    its index and the array, and has no effect on the host. *)
Inductive Arg : Type :=
| ArgValue (v : Value)
| ArgArray (items : list Value)
| ArgFun (callback : Value -> nat -> list Value -> Value).

(** Content to insert: [string | Node]. *)
Inductive Content : Type :=
| CText (s : string)
| CNode (r : ref).

(** What the get-or-set accessors return. *)
Inductive Returned : Type :=
| RetThis (this : loc)
| RetStr (s : string)
| RetNull
| RetUndefined
| RetDataset (owner : ref)
| RetEmptyObject.

Module EagleJS.
Import Dom.

(** *** Arrays on the heap *)

Definition get_array (l : loc) : M (list Value) :=
  fun st =>
    match arrays st !! l with
    | Some a => (Ok a, st)
    | None => (Throw TypeError, st)
    end.

Definition set_array (l : loc) (a : list Value) : M unit :=
  modify (with_arrays (fun h => <[l := a]> h)).

(** [super()]: a new, empty instance. *)
Definition new_array : M loc :=
  fun st => (Ok (length (arrays st)), with_arrays (fun h => h ++ [[]]) st).

(** A loop over the elements that carries the variables its callback
    closes over. *)
Fixpoint forEach_with {A S} (f : S -> A -> M S) (s : S) (l : list A) : M S :=
  match l with
  | [] => ret s
  | x :: l' => let! s' := f s x in forEach_with f s' l'
  end.

(** [Array.prototype.some], with the variable the callback assigns. *)
Fixpoint some_with {A S} (f : S -> A -> M (bool * S)) (s : S) (l : list A)
    : M (bool * S) :=
  match l with
  | [] => ret (false, s)
  | x :: l' =>
      let! r := f s x in
      if fst r then ret (true, snd r) else some_with f (snd r) l'
  end.

(** [value.nodeType]; 0 when the value has none. *)
Definition nodeType_of (ns : list Node) (value : Value) : Z :=
  match value with
  | VNode r => type_of ns r
  | _ => 0
  end.

Definition item_parent (ns : list Node) (item : Value) : option ref :=
  match item with
  | VNode r => parent_of ns r
  | _ => None
  end.

(** The node behind an item whose capability was just checked. *)
Definition as_node (item : Value) : M ref :=
  match item with
  | VNode r => ret r
  | _ => throw TypeError
  end.

(** *** Static methods *)

(** [Boolean(value) && Boolean(value.addEventListener)] *)
Definition isDOMItem (value : Value) : bool :=
  truthy value
  && match value with
     | VNode _ | VTarget _ => true
     | _ => false
     end.

(** Legacy: [Boolean(value) && Boolean(value.nodeType)] *)
Definition isNode (ns : list Node) (value : Value) : bool :=
  truthy value && negb (Z.eqb (nodeType_of ns value) 0).

(** Typed: [Boolean(value) && Boolean(value.nodeType) &&
    [1, 3, 4, 7, 8, 10].includes(value.nodeType)];
    legacy: [this.isNode(value) && [...].includes(value.nodeType)]. *)
Definition isChildNode (ns : list Node) (value : Value) : bool :=
  truthy value && negb (Z.eqb (nodeType_of ns value) 0)
  && Zincludes [1; 3; 4; 7; 8; 10]%Z (nodeType_of ns value).

Definition isDocument (ns : list Node) (value : Value) : bool :=
  isNode ns value && Z.eqb (nodeType_of ns value) 9.

Definition isElement (ns : list Node) (value : Value) : bool :=
  isNode ns value && Z.eqb (nodeType_of ns value) 1.

Definition isParentNode (ns : list Node) (value : Value) : bool :=
  isNode ns value && Zincludes [1; 9; 11]%Z (nodeType_of ns value).

(** A capability check: a property probe in the typed source, a static
    predicate in the legacy source. *)
Definition capable (v : Variant) (k : PropertyKey)
    (legacy : list Node -> Value -> bool) (item : Value) : M bool :=
  match v with
  | Typed => has_property k item
  | Legacy => let! st := get in ret (legacy (nodes st) item)
  end.

(** *** push, unshift *)

Definition push (this : loc) (items : list Value) : M nat :=
  let! a := get_array this in
  let kept :=
    List.filter (fun item => isDOMItem item && negb (includes a item)) items in
  set_array this (a ++ kept) ;;
  ret (length (a ++ kept)).

Definition unshift (this : loc) (items : list Value) : M nat :=
  let! a := get_array this in
  let kept :=
    List.filter (fun item => isDOMItem item && negb (includes a item)) items in
  set_array this (kept ++ a) ;;
  ret (length (kept ++ a)).

(** [new EagleJS()]: the constructor with a [null] selector only runs
    [super()]. *)
Definition new_empty : M loc := new_array.

(** *** Content insertion: after, before, append, prepend *)

(** The loop that turns the arguments into [nodeArray]. *)
Fixpoint materialize (content : list Content) : M (list ref) :=
  match content with
  | [] => ret []
  | CText s :: rest =>
      let! t := createTextNode s in
      let! l := materialize rest in
      ret (t :: l)
  | CNode r :: rest =>
      let! l := materialize rest in
      ret (r :: l)
  end.

(** [first ? node : node.cloneNode(true)] *)
Definition original_or_clone (first : bool) (node : ref) : M ref :=
  if first then ret node else cloneNode node true.

Definition item_nextSibling (ns : list Node) (item : Value) : option ref :=
  match item with
  | VNode r => nextSibling ns r
  | _ => None
  end.

Definition item_firstChild (ns : list Node) (item : Value) : option ref :=
  match item with
  | VNode r => firstChild ns r
  | _ => None
  end.

Definition after (this : loc) (content : list Content) : M loc :=
  let! nodeArray := materialize content in
  let! items := get_array this in
  forEach_with (fun first item =>
    let! st := get in
    if isChildNode (nodes st) item then
      match item_parent (nodes st) item with
      | Some parent =>
          let next := item_nextSibling (nodes st) item in
          forEach (fun node =>
            let! n := original_or_clone first node in
            insertBefore parent n next ;; ret tt) nodeArray ;;
          ret false
      | None => ret first
      end
    else ret first) true (rev items) ;;
  ret this.

Definition before (this : loc) (content : list Content) : M loc :=
  let! nodeArray := materialize content in
  let! items := get_array this in
  forEach_with (fun first item =>
    let! st := get in
    if isChildNode (nodes st) item then
      match item_parent (nodes st) item with
      | Some parent =>
          let! r := as_node item in
          forEach (fun node =>
            let! n := original_or_clone first node in
            insertBefore parent n (Some r) ;; ret tt) nodeArray ;;
          ret false
      | None => ret first
      end
    else ret first) true (rev items) ;;
  ret this.

Definition append (v : Variant) (this : loc) (content : list Content) : M loc :=
  let! nodeArray := materialize content in
  let! items := get_array this in
  forEach_with (fun first item =>
    let! ok := capable v K_querySelector isParentNode item in
    if ok then
      let! r := as_node item in
      forEach (fun node =>
        let! n := original_or_clone first node in
        appendChild r n ;; ret tt) nodeArray ;;
      ret false
    else ret first) true (rev items) ;;
  ret this.

Definition prepend (v : Variant) (this : loc) (content : list Content)
    : M loc :=
  let! nodeArray := materialize content in
  let! items := get_array this in
  forEach_with (fun first item =>
    let! ok := capable v K_querySelector isParentNode item in
    if ok then
      let! r := as_node item in
      let! st := get in
      let firstChild := item_firstChild (nodes st) item in
      forEach (fun node =>
        let! n := original_or_clone first node in
        insertBefore r n firstChild ;; ret tt) nodeArray ;;
      ret false
    else ret first) true (rev items) ;;
  ret this.

(** *** The get-or-set accessors: attr, data, html, text *)

Definition of_nullable (o : option string) : Returned :=
  match o with
  | Some s => RetStr s
  | None => RetNull
  end.

Definition of_optional (o : option string) : Returned :=
  match o with
  | Some s => RetStr s
  | None => RetUndefined
  end.

Definition attr (v : Variant) `{Engines} (this : loc) (name : string)
    (value : option string) : M Returned :=
  let! items := get_array this in
  match value with
  | Some val =>
      forEach (fun item =>
        let! ok := capable v K_setAttribute isElement item in
        if ok then let! r := as_node item in setAttribute r name val
        else ret tt) items ;;
      ret (RetThis this)
  | None =>
      let! found := some_with (fun returnValue item =>
        let! ok := capable v K_getAttribute isElement item in
        if ok then
          let! r := as_node item in
          let! st := get in
          ret (true, of_nullable (getAttribute (nodes st) r name))
        else ret (false, returnValue)) RetNull items in
      ret (snd found)
  end.

Definition data `{Engines} (this : loc) (key value : option string)
    : M Returned :=
  let! items := get_array this in
  match key with
  | Some k =>
      let camelCaseKey := camelCase k in
      match value with
      | Some val =>
          forEach (fun item =>
            let! ok := has_property K_dataset item in
            if ok then let! r := as_node item in dataset_set r camelCaseKey val
            else ret tt) items ;;
          ret (RetThis this)
      | None =>
          let! found := some_with (fun returnValue item =>
            let! ok := has_property K_dataset item in
            if ok then
              let! r := as_node item in
              let! st := get in
              ret (true, of_optional (dataset_get (nodes st) r camelCaseKey))
            else ret (false, returnValue)) RetUndefined items in
          ret (snd found)
      end
  | None =>
      let! found := some_with (fun returnValue item =>
        let! ok := has_property K_dataset item in
        if ok then let! r := as_node item in ret (true, RetDataset r)
        else ret (false, returnValue)) RetEmptyObject items in
      ret (snd found)
  end.

Definition html (v : Variant) `{Engines} (this : loc) (value : option string)
    : M Returned :=
  let! items := get_array this in
  match value with
  | Some val =>
      forEach (fun item =>
        let! ok := capable v K_innerHTML isElement item in
        if ok then let! r := as_node item in set_innerHTML r val
        else ret tt) items ;;
      ret (RetThis this)
  | None =>
      let! found := some_with (fun returnValue item =>
        let! ok := capable v K_innerHTML isElement item in
        if ok then
          let! r := as_node item in
          let! st := get in
          ret (true, RetStr (innerHTML (nodes st) r))
        else ret (false, returnValue)) (RetStr "") items in
      ret (snd found)
  end.

Definition text (v : Variant) (this : loc) (value : option string)
    : M Returned :=
  let! items := get_array this in
  match value with
  | Some val =>
      forEach (fun item =>
        let! ok := capable v K_textContent isNode item in
        if ok then let! r := as_node item in set_textContent r val
        else ret tt) items ;;
      ret (RetThis this)
  | None =>
      let! found := some_with (fun returnValue item =>
        let! ok := capable v K_textContent isNode item in
        if ok then
          let! r := as_node item in
          let! st := get in
          ret (true, of_nullable (textContent (nodes st) r))
        else ret (false, returnValue)) RetNull items in
      ret (snd found)
  end.

(** *** filter, not *)

(** The test a callback performs on an item, at an index, of an array. *)
Definition Callback : Type := Value -> nat -> list Value -> M bool.

Fixpoint filter_loop (cb : Callback) (a : list Value) (i : nat)
    (rest : list Value) : M (list Value) :=
  match rest with
  | [] => ret []
  | x :: rest' =>
      let! keep := cb x i a in
      let! kept := filter_loop cb a (S i) rest' in
      ret (if keep then x :: kept else kept)
  end.

(** [super.filter(callback)]: [Array.prototype.filter] creates the result
    through the species constructor, [new EagleJS(0)], which is empty, and
    defines the accepted elements on it. *)
Definition super_filter (this : loc) (cb : Callback) : M loc :=
  let! a := get_array this in
  let! result := new_array in
  let! kept := filter_loop cb a 0 a in
  set_array result kept ;;
  ret result.

(** The callbacks that [filter] builds from its argument. *)
Definition filter_test (v : Variant) `{Engines} (selector : Arg) : Callback :=
  fun item index array =>
    match selector with
    | ArgValue (VStr s) =>
        let! ok := capable v K_matches isElement item in
        if ok then let! r := as_node item in matches r s else ret false
    | ArgFun f => ret (truthy (f item index array))
    | ArgArray l => ret (includes l item)
    | ArgValue w => ret (strict_eq item w)
    end.

Definition filter (v : Variant) `{Engines} (this : loc) (selector : Arg)
    : M loc :=
  super_filter this (filter_test v selector).

(** The callbacks that [not] hands to [filter]. *)
Definition not_test (v : Variant) `{Engines} (selector : Arg) : Callback :=
  fun item index array =>
    match selector with
    | ArgValue (VStr s) =>
        let! ok := capable v K_matches isElement item in
        if ok then
          let! r := as_node item in
          let! m := matches r s in
          ret (negb m)
        else ret false
    | ArgFun f =>
        let flag := truthy (f item index array) in
        ret (negb flag)
    | ArgArray l => ret (negb (includes l item))
    | ArgValue w => ret (negb (strict_eq item w))
    end.

Definition not (v : Variant) `{Engines} (this : loc) (selector : Arg) : M loc :=
  super_filter this (not_test v selector).

(** *** Projections *)

(** [filter !== null], where an omitted argument is [null]. *)
Definition is_null (a : Arg) : bool :=
  match a with
  | ArgValue VNull | ArgValue VUndefined => true
  | _ => false
  end.

(** The trailing [if (filter !== null) return $elements.filter(filter)]. *)
Definition filtered (v : Variant) `{Engines} (elements : loc) (f : Arg)
    : M loc :=
  if is_null f then ret elements else filter v elements f.

Definition children (v : Variant) `{Engines} (this : loc) (f : Arg) : M loc :=
  let! elements := new_empty in
  let! items := get_array this in
  forEach (fun item =>
    let! ok := capable v K_children isParentNode item in
    if ok then
      let! r := as_node item in
      let! st := get in
      push elements (map VNode (element_children (nodes st) r)) ;; ret tt
    else ret tt) items ;;
  filtered v elements f.

Definition clone (v : Variant) (this : loc) (deep : bool) : M loc :=
  let! elements := new_empty in
  let! items := get_array this in
  forEach (fun item =>
    let! ok := capable v K_cloneNode isNode item in
    if ok then
      let! r := as_node item in
      let! c := cloneNode r deep in
      push elements [VNode c] ;; ret tt
    else ret tt) items ;;
  ret elements.

Definition closest (v : Variant) `{Engines} (this : loc) (selector : string)
    : M loc :=
  let! elements := new_empty in
  let! items := get_array this in
  forEach (fun item =>
    let! ok := capable v K_closest isElement item in
    if ok then
      let! r := as_node item in
      let! found := Dom.closest r selector in
      match found with
      | Some c => push elements [VNode c] ;; ret tt
      | None => ret tt
      end
    else ret tt) items ;;
  ret elements.

Definition next (v : Variant) `{Engines} (this : loc) (f : Arg) : M loc :=
  let! elements := new_empty in
  let! items := get_array this in
  forEach (fun item =>
    let! ok := has_property K_nextElementSibling item in
    if ok then
      let! r := as_node item in
      let! st := get in
      match nextElementSibling (nodes st) r with
      | Some sibling => push elements [VNode sibling] ;; ret tt
      | None => ret tt
      end
    else ret tt) items ;;
  filtered v elements f.

Definition prev (v : Variant) `{Engines} (this : loc) (f : Arg) : M loc :=
  let! elements := new_empty in
  let! items := get_array this in
  forEach (fun item =>
    let! ok := has_property K_previousElementSibling item in
    if ok then
      let! r := as_node item in
      let! st := get in
      match previousElementSibling (nodes st) r with
      | Some sibling => push elements [VNode sibling] ;; ret tt
      | None => ret tt
      end
    else ret tt) items ;;
  filtered v elements f.

Definition parent (v : Variant) `{Engines} (this : loc) (f : Arg) : M loc :=
  let! elements := new_empty in
  let! items := get_array this in
  forEach (fun item =>
    let! ok := capable v K_parentNode isNode item in
    if ok then
      let! st := get in
      match item_parent (nodes st) item with
      | Some p => push elements [VNode p] ;; ret tt
      | None => ret tt
      end
    else ret tt) items ;;
  filtered v elements f.

(** Typed source only. *)
Definition querySelectorAll `{Engines} (this : loc) (selectors : string)
    : M loc :=
  let! elements := new_empty in
  let! items := get_array this in
  forEach (fun item =>
    let! ok := has_property K_querySelectorAll item in
    if ok then
      let! r := as_node item in
      let! found := Dom.querySelectorAll r selectors in
      push elements (map VNode found) ;; ret tt
    else ret tt) items ;;
  ret elements.

(** What the legacy [find] returns: a collection, or, for a callback, the
    first accepted item ([undefined] when there is none). *)
Inductive Found : Type :=
| FoundCollection (elements : loc)
| FoundItem (item : Value).

(** Legacy source only. *)
Definition find `{Engines} (this : loc) (selector : Arg) : M Found :=
  let! elements := new_empty in
  match selector with
  | ArgValue (VStr s) =>
      let! items := get_array this in
      forEach (fun item =>
        let! st := get in
        if isParentNode (nodes st) item then
          let! r := as_node item in
          let! found := Dom.querySelectorAll r s in
          push elements (map VNode found) ;; ret tt
        else ret tt) items ;;
      ret (FoundCollection elements)
  | ArgFun f =>
      let! a := get_array this in
      ret (FoundItem
             (from_option fst VUndefined
                (List.find (fun p => truthy (f (fst p) (snd p) a))
                   (combine a (seq 0 (length a))))))
  | _ => ret (FoundCollection elements)
  end.

(** *** ready, toggleClass *)

Definition ready (v : Variant) (this : loc) (listener : nat) : M loc :=
  let! items := get_array this in
  forEach (fun item =>
    let! ok := capable v K_readyState isDocument item in
    if ok then
      let! r := as_node item in
      let! st := get in
      if bool_decide (from_option readyState "" (nodes st !! r) = "loading")
      then addEventListener item "DOMContentLoaded" listener
      else setTimeout listener
    else ret tt) items ;;
  ret this.

(** Typed: [item.classList.toggle(name, force)], [force] possibly omitted. *)
Definition toggleClass_typed `{Engines} (this : loc) (name : string)
    (force : option bool) : M loc :=
  let! items := get_array this in
  forEach (fun item =>
    let! ok := has_property K_classList item in
    if ok then
      let! r := as_node item in classList_toggle r name force ;; ret tt
    else ret tt) items ;;
  ret this.

(** Legacy: [force = null] by default, and two branches on it. *)
Definition toggleClass_legacy `{Engines} (this : loc) (name : string)
    (force : option bool) : M loc :=
  let! items := get_array this in
  match force with
  | None =>
      forEach (fun item =>
        let! st := get in
        if isElement (nodes st) item then
          let! r := as_node item in classList_toggle r name None ;; ret tt
        else ret tt) items
  | Some _ =>
      forEach (fun item =>
        let! st := get in
        if isElement (nodes st) item then
          let! r := as_node item in classList_toggle r name None ;; ret tt
        else ret tt) items
  end ;;
  ret this.

Definition toggleClass (v : Variant) `{Engines} : loc -> string -> option bool -> M loc :=
  match v with
  | Typed => toggleClass_typed
  | Legacy => toggleClass_legacy
  end.

(** *** The constructor

    The constructor calls itself on the context ([new EagleJS(context)]),
    and the legacy one on a new document; [fuel] bounds the nesting of
    these calls, and [construct_fuel] shows that the bound of
    [constructor] is never reached. *)

(** The default value of the parameter [context]. *)
Definition default_context : M Arg :=
  let! st := get in ret (ArgValue (VNode (document st))).

(** The parameter [context = document]: the default takes the place of an
    argument that is [undefined], as it does of an omitted one. *)
Definition context_or_default (context : Arg) : M Arg :=
  match context with
  | ArgValue VUndefined => default_context
  | _ => ret context
  end.
Arguments context_or_default : simpl never.

Fixpoint construct_typed `{Engines} (fuel : nat) (selector context : Arg)
    : M loc :=
  match fuel with
  | O => throw RangeError
  | S f =>
      let! context := context_or_default context in
      let! this := new_array in
      if is_null selector then ret this
      else
        match selector with
        | ArgValue (VStr s) =>
            if test_html s then
              let! doc := parseFromString s in
              let! st := get in
              match body (nodes st) doc with
              | Some b =>
                  push this (map VNode (children_of (nodes st) b)) ;;
                  ret this
              | None => throw TypeError
              end
            else
              let! d := default_context in
              let! c := construct_typed f context d in
              querySelectorAll c s
        | ArgArray l => push this l ;; ret this
        | ArgValue w => push this [w] ;; ret this
        | ArgFun _ => push this [] ;; ret this
        end
  end.

(** [EagleJS.isDocument(context)] on an argument. *)
Definition arg_isDocument (ns : list Node) (a : Arg) : bool :=
  match a with
  | ArgValue w => isDocument ns w
  | _ => false
  end.

Fixpoint construct_legacy `{Engines} (fuel : nat) (selector context : Arg)
    : M loc :=
  match fuel with
  | O => throw RangeError
  | S f =>
      let! context := context_or_default context in
      let! this := new_array in
      if is_null selector then ret this
      else
        match selector with
        | ArgValue (VStr s) =>
            if test_html s then
              let! st := get in
              if arg_isDocument (nodes st) context then
                let! doc := createHTMLDocument in
                let! b :=
                  construct_legacy f (ArgValue (VStr "body"))
                    (ArgValue (VNode doc)) in
                let! r := html Legacy b (Some s) in
                match r with
                | RetThis b' => children Legacy b' (ArgValue VNull)
                | _ => throw TypeError
                end
              else ret this
            else
              let! d := default_context in
              let! c := construct_legacy f context d in
              let! found := find c (ArgValue (VStr s)) in
              match found with
              | FoundCollection e => ret e
              | FoundItem _ => throw TypeError
              end
        | ArgArray l => push this l ;; ret this
        | ArgValue w => push this [w] ;; ret this
        | ArgFun _ => push this [] ;; ret this
        end
  end.

Definition construct (v : Variant) `{Engines} : nat -> Arg -> Arg -> M loc :=
  match v with
  | Typed => construct_typed
  | Legacy => construct_legacy
  end.

(** [new EagleJS(selector, context)] *)
Definition constructor (v : Variant) `{Engines} (selector context : Arg)
    : M loc :=
  construct v 5 selector context.

(** [EagleJSProxy(selector, context)] *)
Definition EagleJSProxy (v : Variant) `{Engines} (selector context : Arg)
    : M loc :=
  constructor v selector context.

(** *** addClass, removeClass, hasClass, removeAttr *)

(** [Array.prototype.some]: the callback sees the item, its index and the
    array, and the loop stops at the first item it accepts. *)
Fixpoint some_loop (cb : Callback) (a : list Value) (i : nat)
    (rest : list Value) : M bool :=
  match rest with
  | [] => ret false
  | x :: rest' =>
      let! found := cb x i a in
      if found then ret true else some_loop cb a (S i) rest'
  end.

Definition some (this : loc) (cb : Callback) : M bool :=
  let! a := get_array this in
  some_loop cb a 0 a.

Definition addClass (v : Variant) (this : loc) (names : list string)
    : M loc :=
  let! items := get_array this in
  forEach (fun item =>
    let! ok := capable v K_classList isElement item in
    if ok then let! r := as_node item in classList_add r names
    else ret tt) items ;;
  ret this.

Definition removeClass (v : Variant) (this : loc) (names : list string)
    : M loc :=
  let! items := get_array this in
  forEach (fun item =>
    let! ok := capable v K_classList isElement item in
    if ok then let! r := as_node item in classList_remove r names
    else ret tt) items ;;
  ret this.

Definition hasClass (v : Variant) (this : loc) (name : string) : M bool :=
  some this (fun item _ _ =>
    let! ok := capable v K_classList isElement item in
    if ok then
      let! r := as_node item in
      let! st := get in
      ret (classList_contains (nodes st) r name)
    else ret false).

Definition removeAttr (v : Variant) (this : loc) (names : list string)
    : M loc :=
  let! items := get_array this in
  forEach (fun item =>
    let! ok := capable v K_removeAttribute isElement item in
    if ok then
      let! r := as_node item in
      forEach (fun name => removeAttribute r name) names
    else ret tt) items ;;
  ret this.

(** *** is ([is] is a keyword here) *)

Definition is_ (v : Variant) `{Engines} (this : loc) (selector : Arg)
    : M bool :=
  match selector with
  | ArgValue (VStr s) =>
      some this (fun item _ _ =>
        let! ok := capable v K_matches isElement item in
        if ok then let! r := as_node item in matches r s else ret false)
  | ArgFun f => some this (fun item index array => ret (truthy (f item index array)))
  | ArgArray l => some this (fun item _ _ => ret (includes l item))
  | ArgValue w =>
      match v with
      | Typed => let! a := get_array this in ret (includes a w)
      | Legacy => some this (fun item _ _ => ret (strict_eq item w))
      end
  end.

(** *** remove, replaceWith, contents, empty *)

Definition remove (this : loc) : M loc :=
  let! items := get_array this in
  forEach (fun item =>
    let! st := get in
    if isChildNode (nodes st) item then
      match item_parent (nodes st) item with
      | Some parent => let! r := as_node item in removeChild parent r ;; ret tt
      | None => ret tt
      end
    else ret tt) items ;;
  ret this.

(** [this.before(...nodes).remove()] *)
Definition replaceWith (this : loc) (content : list Content) : M loc :=
  let! b := before this content in
  remove b.

Definition contents (v : Variant) (this : loc) : M loc :=
  let! elements := new_empty in
  let! items := get_array this in
  forEach (fun item =>
    let! ok := capable v K_childNodes isNode item in
    if ok then
      let! r := as_node item in
      let! st := get in
      push elements (map VNode (children_of (nodes st) r)) ;; ret tt
    else ret tt) items ;;
  ret elements.

(** [while (item.firstChild !== null) item.removeChild(item.firstChild)];
    [fuel] bounds the number of turns. *)
Fixpoint remove_firstChild_loop (fuel : nat) (r : ref) : M unit :=
  match fuel with
  | O => throw RangeError
  | S f =>
      let! st := get in
      match firstChild (nodes st) r with
      | Some c => removeChild r c ;; remove_firstChild_loop f r
      | None => ret tt
      end
  end.

(** Typed: the loop above on every node; it takes at most one turn per
    child, see [remove_firstChild_loop_fuel]. *)
Definition empty_typed (this : loc) : M loc :=
  let! items := get_array this in
  forEach (fun item =>
    let! ok := has_property K_firstChild item in
    if ok then
      let! r := as_node item in
      let! st := get in
      remove_firstChild_loop (S (length (children_of (nodes st) r))) r
    else ret tt) items ;;
  ret this.

(** Legacy: [this.contents().remove(); return this]. *)
Definition empty_legacy (this : loc) : M loc :=
  let! c := contents Legacy this in
  remove c ;;
  ret this.

Definition empty (v : Variant) : loc -> M loc :=
  match v with
  | Typed => empty_typed
  | Legacy => empty_legacy
  end.

(** *** concat *)

(** An argument of [concat]: a value, an array of values, or a collection;
    arrays and collections are spread. *)
Inductive Spread : Type :=
| SValue (w : Value)
| SArray (l : list Value)
| SCollection (c : loc).

Definition spread (s : Spread) : M (list Value) :=
  match s with
  | SValue w => ret [w]
  | SArray l => ret l
  | SCollection c => get_array c
  end.

Fixpoint spread_all (items : list Spread) : M (list Value) :=
  match items with
  | [] => ret []
  | s :: rest =>
      let! l := spread s in
      let! ls := spread_all rest in
      ret (l ++ ls)
  end.

(** [new EagleJS(super.concat(...items))]: [Array.prototype.concat] creates
    its result through the species constructor, [new EagleJS(0)], which is
    empty, and defines on it the elements of the receiver and of the
    arguments; the constructor then pushes the elements of this array. *)
Definition concat (v : Variant) `{Engines} (this : loc) (items : list Spread)
    : M loc :=
  let! merged := new_array in
  let! a := get_array this in
  let! rest := spread_all items in
  set_array merged (a ++ rest) ;;
  let! d := default_context in
  constructor v (ArgArray (a ++ rest)) d.

(** *** querySelector (typed source), siblings *)

Definition querySelector `{Engines} (this : loc) (selectors : string)
    : M loc :=
  let! elements := new_empty in
  let! items := get_array this in
  forEach (fun item =>
    let! ok := has_property K_querySelector item in
    if ok then
      let! r := as_node item in
      let! result := Dom.querySelector r selectors in
      match result with
      | Some e => push elements [VNode e] ;; ret tt
      | None => ret tt
      end
    else ret tt) items ;;
  ret elements.

Definition siblings_typed `{Engines} (this : loc) (f : Arg) : M loc :=
  let! elements := new_empty in
  let! items := get_array this in
  forEach (fun item =>
    let! ok := has_property K_parentNode item in
    if ok then
      let! st := get in
      match item_parent (nodes st) item with
      | Some p =>
          forEach (fun child =>
            if negb (strict_eq (VNode child) item)
            then push elements [VNode child] ;; ret tt
            else ret tt) (element_children (nodes st) p)
      | None => ret tt
      end
    else ret tt) items ;;
  filtered Typed elements f.

(** Legacy: for each item,
    [new EagleJS(item).parent().children(filter).not($element)], pushed. *)
Definition siblings_legacy `{Engines} (this : loc) (f : Arg) : M loc :=
  let! elements := new_empty in
  let! items := get_array this in
  forEach (fun item =>
    let! d := default_context in
    let! element := constructor Legacy (ArgValue item) d in
    let! p := parent Legacy element (ArgValue VNull) in
    let! c := children Legacy p f in
    let! self := get_array element in
    let! n := not Legacy c (ArgArray self) in
    let! found := get_array n in
    push elements found ;; ret tt) items ;;
  ret elements.

Definition siblings (v : Variant) `{Engines} : loc -> Arg -> M loc :=
  match v with
  | Typed => siblings_typed
  | Legacy => siblings_legacy
  end.

End EagleJS.

Import Dom.

(** ** A small host for the examples

    A selector engine that knows the universal selector and type selectors
    (a name made of letters), and a parser that knows a few fragments and
    reads any other markup as text. *)
Module Demo.

Definition letter (c : ascii) : bool :=
  let n := N_of_ascii c in
  ((N.leb 97 n && N.leb n 122) || (N.leb 65 n && N.leb n 90))%N.

Definition type_selector (s : string) : bool :=
  negb (bool_decide (s = "")) && forallb letter (list_ascii_of_string s).

Definition demo_selector_valid (s : string) : bool :=
  bool_decide (s = "*") || type_selector s.

Definition demo_selector_matches (s : string) (ns : list Node)
    (root candidate : ref) : bool :=
  bool_decide (s = "*") || bool_decide (localName (shape_of ns candidate) = s).

Definition demo_parse (markup : string) : list Template :=
  if bool_decide (markup = "<p>hi</p>") then
    [Tpl (element_shape "p") [Tpl (text_shape "hi") []]]
  else if bool_decide (markup = "<b>x</b>y<i>z</i>") then
    [Tpl (element_shape "b") [Tpl (text_shape "x") []];
     Tpl (text_shape "y") [];
     Tpl (element_shape "i") [Tpl (text_shape "z") []]]
  else [Tpl (text_shape markup) []].

Definition demo_serialize (ts : list Template) : string :=
  fold_right (fun t acc => descendant_text t +:+ acc) "" ts.

#[export] Instance engines : Engines := {|
  selector_valid := demo_selector_valid;
  selector_matches := demo_selector_matches;
  parse_document_body := demo_parse;
  parse_fragment := fun _ => demo_parse;
  serialize_fragment := demo_serialize;
  attribute_name_valid := type_selector
|}.

Definition element (name : string) (parent : option ref) (kids : list ref)
    : Node :=
  mkNode (element_shape name) parent kids "".

(** An element with attributes and classes; the classes are also the
    value of its [class] attribute. *)
Definition element_with (name : string) (attrs : list (string * string))
    (classes : list string) (parent : option ref) (kids : list ref) : Node :=
  mkNode
    (mkShape ELEMENT_NODE name
       (attrs ++ match classes with
                 | [] => []
                 | _ => [("class", serialize_tokens classes)]
                 end)
       classes (Some []) "")
    parent kids "".

Definition text_node (data : string) (parent : option ref) : Node :=
  mkNode (text_shape data) parent [] "".

Definition document_node (state : string) (kids : list ref) : Node :=
  mkNode document_shape None kids state.

(** A page: document 0, [html] 1, [body] 2 with the children [div] 3,
    [span] 4 and [p] 5, followed by the detached text node 6; the array 0
    holds the [div] and the [span], the array 1 is empty. *)
Definition page : State :=
  mkState
    [document_node "complete" [1];
     element "html" (Some 0) [2];
     element "body" (Some 1) [3; 4; 5];
     element_with "div" [("id", "a")] ["on"] (Some 2) [];
     element_with "span" [("id", "b")] [] (Some 2) [];
     element_with "p" [("id", "c")] [] (Some 2) [];
     text_node "loose" None]
    [[VNode 3; VNode 4]; []]
    0 [] [] [].

(** A second page, still loading: document 0 with [html] 1, and the
    complete document 2 of a frame; the array 0 holds the two documents
    and a window. *)
Definition early : State :=
  mkState
    [document_node "loading" [1];
     element "html" (Some 0) [];
     document_node "complete" []]
    [[VNode 0; VNode 2; VTarget 0]]
    0 [] [] [].


(** The page with a third array, holding the three elements with the ids
    [a], [b] and [c]. *)
Definition trio : State :=
  with_arrays (fun h => h ++ [[VNode 3; VNode 4; VNode 5]]) page.

(** Markup on two lines: [<a], a line feed, [b>]. *)
Definition two_lines : string :=
  String "<" (String "a" (String (ascii_of_nat 10)
    (String "b" (String ">" EmptyString)))).

End Demo.

(** * Vocabulary of the properties *)

(** [document.readyState === 'loading'] *)
Definition loading (st : State) (r : ref) : bool :=
  bool_decide (from_option readyState "" (nodes st !! r) = "loading").

(** The callback of the loop of [ready]. *)
Definition ready_step (v : Variant) (listener : nat) (item : Value) : M unit :=
  let! ok := EagleJS.capable v K_readyState EagleJS.isDocument item in
  if ok then
    let! r := EagleJS.as_node item in
    let! st := get in
    if bool_decide (from_option readyState "" (nodes st !! r) = "loading")
    then addEventListener item "DOMContentLoaded" listener
    else setTimeout listener
  else ret tt.




(** A specification of a computation: from a state in [P], a returned
    value and final state in [Q], or, on an exception, a final state in
    [E]. *)
Definition triple {A} (P : State -> Prop) (m : M A)
    (Q : A -> State -> Prop) (E : State -> Prop) : Prop :=
  forall s, P s ->
    match m s with
    | (Ok a, s') => Q a s'
    | (Throw _, s') => E s'
    end.

(** A computation that keeps [I], whether it returns or throws. *)
Definition keeps {A} (I : State -> Prop) (m : M A) : Prop :=
  triple I m (fun _ => I) I.

(** The arrays of [h0] are still there, unchanged. *)
Definition arrays_kept (h0 : list (list Value)) (s : State) : Prop :=
  h0 `prefix_of` arrays s.

(** The location [e] holds an array. *)
Definition allocated (e : loc) (s : State) : Prop := e < length (arrays s).

(** The state of a projection that builds its result at [e]. *)
Definition building (h0 : list (list Value)) (e : loc) (s : State) : Prop :=
  arrays_kept h0 s /\ allocated e s.

(** What a projection promises: the old arrays are kept, and the result is
    an array that was not there. *)
Definition fresh_result (h0 : list (list Value)) (r : loc) (s : State)
    : Prop :=
  arrays_kept h0 s /\ length h0 <= r /\ allocated r s.

(** The query-style operations, with their arguments. *)
Inductive Projection : Type :=
| PChildren (f : Arg)
| PParent (f : Arg)
| PNext (f : Arg)
| PPrev (f : Arg)
| PClosest (selector : string)
| PClone (deep : bool)
| PQuery (selectors : string)
| PFilter (selector : Arg)
| PNot (selector : Arg).

(** The descendant query is [querySelectorAll] in the typed source and
    [find], on a string, in the legacy source. *)
Definition descendant_query (v : Variant) `{Engines} (this : loc)
    (selectors : string) : M loc :=
  match v with
  | Typed => EagleJS.querySelectorAll this selectors
  | Legacy =>
      let! found := EagleJS.find this (ArgValue (VStr selectors)) in
      match found with
      | EagleJS.FoundCollection e => ret e
      | EagleJS.FoundItem _ => throw TypeError
      end
  end.

Definition project (v : Variant) `{Engines} (p : Projection) (this : loc)
    : M loc :=
  match p with
  | PChildren f => EagleJS.children v this f
  | PParent f => EagleJS.parent v this f
  | PNext f => EagleJS.next v this f
  | PPrev f => EagleJS.prev v this f
  | PClosest s => EagleJS.closest v this s
  | PClone deep => EagleJS.clone v this deep
  | PQuery s => descendant_query v this s
  | PFilter m => EagleJS.filter v this m
  | PNot m => EagleJS.not v this m
  end.

(** ['key' in item] on an object, as a function of the tree. *)
Definition probe (k : PropertyKey) (ns : list Node) (item : Value) : bool :=
  match item with
  | VNode r =>
      match ns !! r with
      | Some n => node_has k (shape n)
      | None => false
      end
  | VTarget _ => match k with K_addEventListener => true | _ => false end
  | _ => false
  end.

(** The capability check of a method, per source. *)
Definition eligible (v : Variant) (k : PropertyKey)
    (legacy : list Node -> Value -> bool) (ns : list Node) (item : Value)
    : bool :=
  match v with
  | Typed => probe k ns item
  | Legacy => legacy ns item
  end.

(** A member of a collection in a state: an item, and, when a node, one of
    the heap. *)
Definition live (ns : list Node) (item : Value) : Prop :=
  EagleJS.isDOMItem item = true
  /\ forall r, item = VNode r -> r < length ns.

(** The nodes among [items] that pass the check [ok], in order. *)
Fixpoint eligible_refs (ok : Value -> bool) (items : list Value) : list ref :=
  match items with
  | [] => []
  | VNode r :: items' =>
      if ok (VNode r) then r :: eligible_refs ok items'
      else eligible_refs ok items'
  | _ :: items' => eligible_refs ok items'
  end.

(** A getter in the words of the specification: the value of the first
    eligible member, or the default. *)
Definition get_first (ok : Value -> bool) (value : ref -> Returned)
    (default : Returned) (items : list Value) : Returned :=
  from_option value default (head (eligible_refs ok items)).

(** A setter in the words of the specification: the set operation on every
    eligible member, then the receiver. *)
Definition set_all (ok : Value -> bool) (setter : ref -> M unit) (this : loc)
    (items : list Value) : M Returned :=
  forEach setter (eligible_refs ok items) ;; ret (RetThis this).

(** What decides the capabilities of a node: its type, and whether it has
    a dataset. *)
Definition kind (s : Shape) : Z * bool :=
  (nodeType s, bool_decide (is_Some (dataset s))).

(** The nodes of [ns] are nodes of [ns'], of the same kinds. *)
Definition kinds_kept (ns ns' : list Node) : Prop :=
  length ns <= length ns'
  /\ forall r, r < length ns -> kind (shape_of ns' r) = kind (shape_of ns r).

(** The nodes of [ns] are nodes of [ns'], with the same shapes. *)
Definition shapes_kept (ns ns' : list Node) : Prop :=
  length ns <= length ns'
  /\ forall r, r < length ns -> shape_of ns' r = shape_of ns r.

(** The legacy predicates used by the accessors. *)
Inductive legacy_check : (list Node -> Value -> bool) -> Prop :=
| check_isElement : legacy_check EagleJS.isElement
| check_isNode : legacy_check EagleJS.isNode.

(** The tree under [r] in the heap [ns] is the template [t], hangs under
    [parent], and lies at the references from [lo] on. *)
#[warnings="-register-all"]
Inductive represents (ns : list Node) (lo : nat)
    : option ref -> ref -> Template -> Prop :=
| represents_node (parent : option ref) (r : ref) (s : Shape)
    (kids : list Template) (cs : list ref) :
    lo <= r ->
    ns !! r = Some (mkNode s parent cs (initial_readyState s)) ->
    Forall2 (represents ns lo (Some r)) cs kids ->
    represents ns lo parent r (Tpl s kids).

(** What [instantiate] builds: the root is the next reference, the heap
    grows, and the new tree is the template. *)
Definition instantiated (parent : option ref) (t : Template)
    (ns : list Node) (r : ref) (ns' : list Node) : Prop :=
  r = length ns
  /\ (exists extra, ns' = ns ++ extra)
  /\ represents ns' (length ns) parent r t.

(** The pattern of the constructor, in words: optional whitespace, [<], one
    or more characters, [>], optional whitespace.  [any_character] tells
    whether the characters in between may be line terminators; the regular
    expression of the source does not let [.] match them. *)
Definition html_shaped (any_character : bool) (l : list ascii) : Prop :=
  exists ws1 inner ws2,
    l = ws1 ++ "<"%char :: inner ++ ">"%char :: ws2
    /\ Forall (fun c => regex_space c = true) ws1
    /\ Forall (fun c => regex_space c = true) ws2
    /\ inner <> []
    /\ (any_character = false ->
        Forall (fun c => line_terminator c = false) inner).

(** The context that the constructor works with: the document where the
    argument is [undefined]. *)
Definition effective_context (st : State) (context : Arg) : Arg :=
  match context with
  | ArgValue VUndefined => ArgValue (VNode (document st))
  | _ => context
  end.

(** The string [s] taken as a selector and queried against the context:
    [new EagleJS(context)], then the descendant query. *)
Definition query_context (v : Variant) `{Engines} (s : string)
    (context : Arg) : M loc :=
  let! d := EagleJS.default_context in
  let! c := EagleJS.constructor v context d in
  descendant_query v c s.

(** The legacy path for markup: a new document, the collection of its
    [body], the markup set as HTML, the element children. *)
Definition markup_legacy `{Engines} (s : string) : M loc :=
  let! doc := createHTMLDocument in
  let! b :=
    EagleJS.constructor Legacy (ArgValue (VStr "body")) (ArgValue (VNode doc)) in
  let! r := EagleJS.html Legacy b (Some s) in
  match r with
  | RetThis b' => EagleJS.children Legacy b' (ArgValue VNull)
  | _ => throw TypeError
  end.

(** The four operations that insert content. *)
Inductive Insertion : Type :=
| IAfter
| IBefore
| IAppend
| IPrepend.

Definition insertion (v : Variant) (op : Insertion) (this : loc)
    (content : list Content) : M loc :=
  match op with
  | IAfter => EagleJS.after this content
  | IBefore => EagleJS.before this content
  | IAppend => EagleJS.append v this content
  | IPrepend => EagleJS.prepend v this content
  end.

(** Where an operation inserts at a member, at the time of its visit: the
    parent and the reference child that it hands to the host; [None] for a
    member that is not an eligible target. *)
Definition place (v : Variant) (op : Insertion) (item : Value)
    : M (option (ref * option ref)) :=
  match op with
  | IAfter =>
      let! st := get in
      if EagleJS.isChildNode (nodes st) item then
        match EagleJS.item_parent (nodes st) item with
        | Some parent =>
            ret (Some (parent, EagleJS.item_nextSibling (nodes st) item))
        | None => ret None
        end
      else ret None
  | IBefore =>
      let! st := get in
      if EagleJS.isChildNode (nodes st) item then
        match EagleJS.item_parent (nodes st) item with
        | Some parent =>
            let! r := EagleJS.as_node item in ret (Some (parent, Some r))
        | None => ret None
        end
      else ret None
  | IAppend =>
      let! ok := EagleJS.capable v K_querySelector EagleJS.isParentNode item in
      if ok then let! r := EagleJS.as_node item in ret (Some (r, None))
      else ret None
  | IPrepend =>
      let! ok := EagleJS.capable v K_querySelector EagleJS.isParentNode item in
      if ok then
        let! r := EagleJS.as_node item in
        let! st := get in
        ret (Some (r, EagleJS.item_firstChild (nodes st) item))
      else ret None
  end.

(** The distribution in the words of the specification.  The content nodes
    themselves go to a target: *)
Definition insert_originals (nodeArray : list ref) (p : ref * option ref)
    : M unit :=
  forEach (fun node => insertBefore (fst p) node (snd p) ;; ret tt) nodeArray.

(** a deep clone of each content node goes to a target: *)
Definition insert_clones (nodeArray : list ref) (p : ref * option ref)
    : M unit :=
  forEach (fun node =>
    let! c := cloneNode node true in
    insertBefore (fst p) c (snd p) ;; ret tt) nodeArray.

(** every subsequent target receives clones: *)
Fixpoint clone_into_each (place : Value -> M (option (ref * option ref)))
    (nodeArray : list ref) (targets : list Value) : M unit :=
  match targets with
  | [] => ret tt
  | item :: rest =>
      let! p := place item in
      match p with
      | Some p =>
          insert_clones nodeArray p ;; clone_into_each place nodeArray rest
      | None => clone_into_each place nodeArray rest
      end
  end.

(** the first target visited receives the originals: *)
Fixpoint distribute (place : Value -> M (option (ref * option ref)))
    (nodeArray : list ref) (targets : list Value) : M unit :=
  match targets with
  | [] => ret tt
  | item :: rest =>
      let! p := place item in
      match p with
      | Some p =>
          insert_originals nodeArray p ;; clone_into_each place nodeArray rest
      | None => distribute place nodeArray rest
      end
  end.

(** and the members are visited in reverse order, after the content has
    been materialized once. *)
Definition distribution (v : Variant) (op : Insertion) (this : loc)
    (content : list Content) : M loc :=
  let! nodeArray := EagleJS.materialize content in
  let! items := EagleJS.get_array this in
  distribute (place v op) nodeArray (rev items) ;;
  ret this.

(** The parent under which an operation inserts at the node [r], and the
    reference child, as functions of the tree. *)
Definition receiver (op : Insertion) (ns : list Node) (r : ref)
    : option ref :=
  match op with
  | IAfter | IBefore =>
      if Zincludes [1; 3; 4; 7; 8; 10]%Z (type_of ns r) then parent_of ns r
      else None
  | IAppend | IPrepend =>
      if Zincludes [1; 9; 11]%Z (type_of ns r) then Some r else None
  end.

Definition reference (op : Insertion) (ns : list Node) (r : ref)
    : option ref :=
  match op with
  | IAfter => nextSibling ns r
  | IBefore => Some r
  | IAppend => None
  | IPrepend => firstChild ns r
  end.

(** Every child points back to its parent. *)
Definition linked (ns : list Node) : Prop :=
  forall p c, c ∈ children_of ns p -> parent_of ns c = Some p.

(** A text node that hangs nowhere. *)
Definition text_leaf (data : string) : Node :=
  mkNode (text_shape data) None [] "".

(** A parent that accepts a text node: an element or a document fragment. *)
Definition accepts_text (ns : list Node) (p : ref) : bool :=
  Zincludes [1; 11]%Z (type_of ns p).

(** The heap after an operation has distributed one text input over the
    targets [a] then [b], whose receiving parents are [pa] and [pb]. *)
Definition text_distributed (op : Insertion) (data : string)
    (a b pa pb : ref) (ns : list Node) : list Node :=
  let t := length ns in
  let ns1 := ns ++ [text_leaf data] in
  let ns2 := attach pb (reference op ns1 b) t ns1 in
  let ns3 := ns2 ++ [text_leaf data] in
  attach pa (reference op ns2 a) (S t) ns3.

(** [linked], as a check of a given heap. *)
Definition linked_check (ns : list Node) : bool :=
  forallb (fun p =>
    forallb (fun c => bool_decide (parent_of ns c = Some p)) (children_of ns p))
    (seq 0 (length ns)).

(** The collections and the shapes of the nodes, as they were. *)
Definition frame (h0 : list (list Value)) (ns0 : list Node) (s : State)
    : Prop :=
  arrays s = h0 /\ shapes_kept ns0 (nodes s).

(** The callback of the loop of [remove]. *)
Definition remove_step (item : Value) : M unit :=
  let! st := get in
  if EagleJS.isChildNode (nodes st) item then
    match EagleJS.item_parent (nodes st) item with
    | Some parent =>
        let! r := EagleJS.as_node item in removeChild parent r ;; ret tt
    | None => ret tt
    end
  else ret tt.

(** The [class] attribute that the update steps leave, from the attribute
    before them and the class list: the serialization of the class list,
    unless there was no attribute and there is no class. *)
Definition class_attribute (before : option string) (l : list string)
    : option string :=
  match before, l with
  | None, [] => None
  | _, _ => Some (serialize_tokens l)
  end.

(** What [classList.add] and [classList.remove] leave of a shape: the
    class list and, by the update steps, the [class] attribute. *)
Definition classes_added (names : list string) (s : Shape) : Shape :=
  tokens_changed
    (fun l => fold_left (fun acc t => token_add t acc) names l) s.

Definition classes_removed (names : list string) (s : Shape) : Shape :=
  tokens_changed
    (fun l => fold_left (fun acc t => token_remove t acc) names l) s.

(** What the removal of the attributes, one by one, leaves of a shape. *)
Definition attributes_removed (names : list string) (s : Shape) : Shape :=
  fold_left (fun acc n => attribute_removed n acc) names s.

(** The host of the examples, with attribute names that may hold
    hyphens. *)
Definition hyphen_engines : Engines := {|
  selector_valid := Demo.demo_selector_valid;
  selector_matches := Demo.demo_selector_matches;
  parse_document_body := Demo.demo_parse;
  parse_fragment := fun _ => Demo.demo_parse;
  serialize_fragment := Demo.demo_serialize;
  attribute_name_valid :=
    fun s => negb (bool_decide (s = "")) && negb (has_whitespace s)
|}.

(** Every node has a node type. *)
Definition well_typed (ns : list Node) : Prop :=
  Forall (fun n => nodeType (shape n) <> 0%Z) ns.

(** The array at [e], if any, holds items only. *)
Definition items_only (e : loc) (s : State) : Prop :=
  forall a, arrays s !! e = Some a ->
    Forall (fun x => EagleJS.isDOMItem x = true) a.

(** The property that the typed source probes where the legacy source
    calls a static predicate. *)
Inductive probes : PropertyKey -> (list Node -> Value -> bool) -> Prop :=
| probes_classList : probes K_classList EagleJS.isElement
| probes_closest : probes K_closest EagleJS.isElement
| probes_getAttribute : probes K_getAttribute EagleJS.isElement
| probes_innerHTML : probes K_innerHTML EagleJS.isElement
| probes_matches : probes K_matches EagleJS.isElement
| probes_removeAttribute : probes K_removeAttribute EagleJS.isElement
| probes_setAttribute : probes K_setAttribute EagleJS.isElement
| probes_childNodes : probes K_childNodes EagleJS.isNode
| probes_cloneNode : probes K_cloneNode EagleJS.isNode
| probes_parentNode : probes K_parentNode EagleJS.isNode
| probes_textContent : probes K_textContent EagleJS.isNode
| probes_children : probes K_children EagleJS.isParentNode
| probes_querySelector : probes K_querySelector EagleJS.isParentNode
| probes_querySelectorAll : probes K_querySelectorAll EagleJS.isParentNode
| probes_readyState : probes K_readyState EagleJS.isDocument.

(** The state of a projection that fills [e] and leaves the tree alone. *)
Definition filling (ns0 : list Node) (e : loc) (s : State) : Prop :=
  nodes s = ns0 /\ items_only e s.

(** The node [r] has lost its children, which have lost their parent, and
    nothing else has changed between [ns] and [ns']. *)
Definition emptied (r : ref) (ns ns' : list Node) : Prop :=
  length ns' = length ns
  /\ (forall x, shape_of ns' x = shape_of ns x)
  /\ children_of ns' r = []
  /\ (forall q, q <> r -> children_of ns' q = children_of ns q)
  /\ (forall c, parent_of ns' c
                = if bool_decide (c ∈ children_of ns r) then None
                  else parent_of ns c)
  /\ linked ns'.

(** The children of the tree are child nodes. *)
Definition children_typed (ns : list Node) : Prop :=
  Forall (fun n =>
    Forall (fun c => EagleJS.isChildNode ns (VNode c) = true) (childNodes n))
    ns.

(** The node members of [items] have lost their children, which have lost
    their parent, and nothing else has changed between [ns] and [ns']. *)
Definition emptied_members (items : list Value) (ns ns' : list Node) : Prop :=
  length ns' = length ns
  /\ (forall x, shape_of ns' x = shape_of ns x)
  /\ (forall q, VNode q ∈ items -> children_of ns' q = [])
  /\ (forall q, VNode q ∉ items -> children_of ns' q = children_of ns q)
  /\ (forall r c, VNode r ∈ items -> c ∈ children_of ns r ->
        parent_of ns' c = None)
  /\ (forall c, (forall r, VNode r ∈ items -> c ∉ children_of ns r) ->
        parent_of ns' c = parent_of ns c)
  /\ (forall c, parent_of ns' c = parent_of ns c \/ parent_of ns' c = None)
  /\ linked ns'.

(** The callback of the loop of the typed [empty]. *)
Definition empty_step (item : Value) : M unit :=
  let! ok := has_property K_firstChild item in
  if ok then
    let! r := EagleJS.as_node item in
    let! st := get in
    EagleJS.remove_firstChild_loop (S (length (children_of (nodes st) r))) r
  else ret tt.

(** The node [c] of [ns'] is a clone of the node [r] of [ns]: a new node
    with the shape of [r] that hangs nowhere; without children when the
    clone is shallow, with as many children as [r], all new, when it is
    deep. *)
Definition cloned (deep : bool) (ns ns' : list Node) (r c : ref) : Prop :=
  length ns <= c < length ns'
  /\ parent_of ns' c = None
  /\ shape_of ns' c = shape_of ns r
  /\ length (children_of ns' c)
     = (if deep then length (children_of ns r) else 0)
  /\ Forall (fun k => length ns <= k) (children_of ns' c).

(** What the loop of [clone] does with a node. *)
Definition clone_step (deep : bool) (elements : loc) (r : ref) : M unit :=
  let! c := cloneNode r deep in
  EagleJS.push elements [VNode c] ;; ret tt.

(** What a selector that is no string hands to [push]. *)
Definition given (selector : Arg) : list Value :=
  match selector with
  | ArgArray l => l
  | ArgValue w => [w]
  | ArgFun _ => []
  end.

(** The queries that walk the tree from each member, without a filter. *)
Inductive Walk : Type :=
| WChildren
| WParent
| WNext
| WPrev
| WContents
| WClosest (selector : string)
| WFind (selectors : string).

Definition walk (v : Variant) `{Engines} (w : Walk) (this : loc) : M loc :=
  match w with
  | WChildren => EagleJS.children v this (ArgValue VNull)
  | WParent => EagleJS.parent v this (ArgValue VNull)
  | WNext => EagleJS.next v this (ArgValue VNull)
  | WPrev => EagleJS.prev v this (ArgValue VNull)
  | WContents => EagleJS.contents v this
  | WClosest s => EagleJS.closest v this s
  | WFind s => descendant_query v this s
  end.

(** The capability check of a walk, per source, as a function of the
    tree. *)
Definition walks (v : Variant) (w : Walk) (ns : list Node) (item : Value)
    : bool :=
  match w with
  | WChildren => eligible v K_children EagleJS.isParentNode ns item
  | WParent => eligible v K_parentNode EagleJS.isNode ns item
  | WNext => probe K_nextElementSibling ns item
  | WPrev => probe K_previousElementSibling ns item
  | WContents => eligible v K_childNodes EagleJS.isNode ns item
  | WClosest _ => eligible v K_closest EagleJS.isElement ns item
  | WFind _ => eligible v K_querySelectorAll EagleJS.isParentNode ns item
  end.

(** The nodes that a walk reaches from the node [r], in the words of the
    host: its element children, its parent, its next or previous element
    sibling, its children, its closest matching inclusive ancestor, its
    matching descendants. *)
Definition reached `{Engines} (w : Walk) (ns : list Node) (r : ref)
    : list ref :=
  match w with
  | WChildren => element_children ns r
  | WParent => option_list (parent_of ns r)
  | WNext => option_list (nextElementSibling ns r)
  | WPrev => option_list (previousElementSibling ns r)
  | WContents => children_of ns r
  | WClosest s =>
      option_list
        (List.find (fun a => is_element ns a && selector_matches s ns r a)
           (ancestors (length ns) ns r))
  | WFind s =>
      List.filter (fun d => is_element ns d && selector_matches s ns r d)
        (descendants ns r)
  end.

(** The selector that a walk hands to the host, if any. *)
Definition walk_selector (w : Walk) : option string :=
  match w with
  | WClosest s | WFind s => Some s
  | _ => None
  end.

(** The nodes that a walk reaches from an item. *)
Definition reached_from `{Engines} (w : Walk) (ns : list Node) (item : Value)
    : list ref :=
  match item with
  | VNode r => reached w ns r
  | _ => []
  end.

(** One turn of the loop of a walk. *)
Definition walk_step (v : Variant) `{Engines} (w : Walk) (elements : loc)
    (item : Value) : M unit :=
  match w with
  | WChildren =>
      let! ok := EagleJS.capable v K_children EagleJS.isParentNode item in
      if ok then
        let! r := EagleJS.as_node item in
        let! st := get in
        EagleJS.push elements (map VNode (element_children (nodes st) r)) ;;
        ret tt
      else ret tt
  | WParent =>
      let! ok := EagleJS.capable v K_parentNode EagleJS.isNode item in
      if ok then
        let! st := get in
        match EagleJS.item_parent (nodes st) item with
        | Some p => EagleJS.push elements [VNode p] ;; ret tt
        | None => ret tt
        end
      else ret tt
  | WNext =>
      let! ok := has_property K_nextElementSibling item in
      if ok then
        let! r := EagleJS.as_node item in
        let! st := get in
        match nextElementSibling (nodes st) r with
        | Some sibling => EagleJS.push elements [VNode sibling] ;; ret tt
        | None => ret tt
        end
      else ret tt
  | WPrev =>
      let! ok := has_property K_previousElementSibling item in
      if ok then
        let! r := EagleJS.as_node item in
        let! st := get in
        match previousElementSibling (nodes st) r with
        | Some sibling => EagleJS.push elements [VNode sibling] ;; ret tt
        | None => ret tt
        end
      else ret tt
  | WContents =>
      let! ok := EagleJS.capable v K_childNodes EagleJS.isNode item in
      if ok then
        let! r := EagleJS.as_node item in
        let! st := get in
        EagleJS.push elements (map VNode (children_of (nodes st) r)) ;; ret tt
      else ret tt
  | WClosest selector =>
      let! ok := EagleJS.capable v K_closest EagleJS.isElement item in
      if ok then
        let! r := EagleJS.as_node item in
        let! found := Dom.closest r selector in
        match found with
        | Some c => EagleJS.push elements [VNode c] ;; ret tt
        | None => ret tt
        end
      else ret tt
  | WFind selectors =>
      let! ok :=
        EagleJS.capable v K_querySelectorAll EagleJS.isParentNode item in
      if ok then
        let! r := EagleJS.as_node item in
        let! found := Dom.querySelectorAll r selectors in
        EagleJS.push elements (map VNode found) ;; ret tt
      else ret tt
  end.

(** What an argument of [concat] stands for, given the collections. *)
Definition spread_values (h : list (list Value)) (s : EagleJS.Spread)
    : list Value :=
  match s with
  | EagleJS.SValue w => [w]
  | EagleJS.SArray l => l
  | EagleJS.SCollection c => default [] (h !! c)
  end.

(** The collections among the arguments exist. *)
Definition spread_allocated (h : list (list Value)) (s : EagleJS.Spread)
    : Prop :=
  match s with
  | EagleJS.SCollection c => c < length h
  | _ => True
  end.

(** What [node.textContent = value] leaves at the node [r]: under an
    element or a fragment, nothing, or a single new text node with the
    value; in character data, the value; elsewhere, nothing to see.  The
    new nodes lie at the references from [n0] on. *)
Definition holds_text (value : string) (n0 : nat) (ns : list Node) (r : ref)
    : Prop :=
  if Zincludes [1; 11]%Z (type_of ns r) then
    (value = "" /\ children_of ns r = [])
    \/ (exists c, n0 <= c /\ children_of ns r = [c]
                  /\ shape_of ns c = text_shape value
                  /\ children_of ns c = [])
  else if Zincludes [3; 4; 7; 8]%Z (type_of ns r) then
    nodeData (shape_of ns r) = value
  else True.

(** The node types that have a text content. *)
Definition has_text (t : Z) : bool := Zincludes [1; 3; 4; 7; 8; 11]%Z t.

(** The siblings of the node [r] that the legacy source finds: [r] passes
    [isNode], its parent passes [isParentNode], and [c] is an element child
    of the parent other than [r]. *)
Definition sibling_legacy (ns : list Node) (r c : ref) : Prop :=
  EagleJS.isNode ns (VNode r) = true
  /\ exists p, parent_of ns r = Some p
       /\ EagleJS.isParentNode ns (VNode p) = true
       /\ c ∈ element_children ns p /\ c <> r.

(** The state [s'] has the tree of [s] and its collections, but for the
    one at [e], and [k] more. *)
Definition grown (e : loc) (k : nat) (s s' : State) : Prop :=
  nodes s' = nodes s
  /\ length (arrays s') = length (arrays s) + k
  /\ forall l, l < length (arrays s) -> l <> e ->
       arrays s' !! l = arrays s !! l.

(** The nodes of the document that [createHTMLDocument('')] allocates from
    the reference [n] on: document, doctype, [html], [head], [title] and
    its empty text, [body] with the children [kids]. *)
Definition new_document (n : nat) (kids : list ref) : list Node :=
  [mkNode document_shape None [n + 1; n + 2] "complete";
   mkNode doctype_shape (Some n) [] "";
   mkNode (element_shape "html") (Some n) [n + 3; n + 6] "";
   mkNode (element_shape "head") (Some (n + 2)) [n + 4] "";
   mkNode (element_shape "title") (Some (n + 3)) [n + 5] "";
   mkNode (text_shape "") (Some (n + 4)) [] "";
   mkNode (element_shape "body") (Some (n + 2)) kids ""].

(** What the constructor asks of the selector engine: the type selector
    [body] is valid and selects the elements of that name. *)
Definition knows_body `{Engines} : Prop :=
  selector_valid "body" = true
  /\ forall ns root d,
       is_element ns d = true ->
       selector_matches "body" ns root d
       = bool_decide (localName (shape_of ns d) = "body").

(** [classList.toggle(name, force)] on a shape, for a token [name]: the
    set is changed, and the update steps run, only where the token is to
    be removed or added. *)
Definition class_toggled (name : string) (force : option bool) (s : Shape)
    : Shape :=
  if token_in name (classList s) then
    match force with
    | Some true => s
    | _ => tokens_changed (token_remove name) s
    end
  else
    match force with
    | Some false => s
    | _ => tokens_changed (fun l => l ++ [name]) s
    end.

(** What the source of [toggleClass] passes to [classList.toggle] as the
    force: the argument in the typed source, nothing in the legacy one. *)
Definition force_passed (v : Variant) (force : option bool) : option bool :=
  match v with
  | Typed => force
  | Legacy => None
  end.

(** * Properties *)

(** ** The monad and the arrays *)

Lemma with_arrays_id (st : State) (l : loc) (a : list Value) :
  arrays st !! l = Some a ->
  with_arrays (fun h => <[l := a]> h) st = st.
Proof.
  intros Hl. destruct st as [ns h d ls ts cs]. unfold with_arrays. simpl in *.
  f_equal. by apply list_insert_id.
Qed.

Lemma get_array_Some (st : State) (l : loc) (a : list Value) :
  arrays st !! l = Some a -> EagleJS.get_array l st = (Ok a, st).
Proof. intros Hl. unfold EagleJS.get_array. by rewrite Hl. Qed.

Lemma get_array_state {l : loc} {st st' : State} {o : Outcome (list Value)} :
  EagleJS.get_array l st = (o, st') -> st' = st.
Proof.
  unfold EagleJS.get_array. destruct (arrays st !! l); intros E; by inversion E.
Qed.

(** An item is a node or another event target. *)
Lemma isDOMItem_inv (x : Value) :
  EagleJS.isDOMItem x = true ->
  (exists r, x = VNode r) \/ (exists t, x = VTarget t).
Proof.
  unfold EagleJS.isDOMItem.
  destruct x; simpl; rewrite ?andb_false_r; try discriminate; eauto.
Qed.

(** ** De-duplication on push and unshift *)

(** The filter of [push] and [unshift] drops a member and a non-item. *)
Lemma kept_nil (a : list Value) (x : Value) :
  includes a x = true \/ EagleJS.isDOMItem x = false ->
  List.filter
    (fun item => EagleJS.isDOMItem item && negb (includes a item)) [x] = [].
Proof.
  intros [Hin | Hno]; simpl.
  - rewrite Hin. by rewrite andb_false_r.
  - by rewrite Hno.
Qed.

Lemma includes_elem_of (a : list Value) (x : Value) :
  includes a x = true <-> x ∈ a.
Proof.
  unfold includes. rewrite existsb_exists. split.
  - intros (w & Hw & Heq). apply bool_decide_eq_true in Heq. subst.
    by apply list_elem_of_In.
  - intros Hx. exists x. split; [by apply list_elem_of_In |].
    by apply bool_decide_eq_true.
Qed.

(** Pushing one value that is already a member, or is not an item, changes
    nothing: the state, hence the length and the order of the collection,
    is the same, and the returned length is the old one. *)
Lemma push_member_or_foreign (this : loc) (a : list Value) (x : Value)
    (st : State) :
  arrays st !! this = Some a ->
  includes a x = true \/ EagleJS.isDOMItem x = false ->
  EagleJS.push this [x] st = (Ok (length a), st).
Proof.
  intros Hthis Hx. unfold EagleJS.push, bind.
  rewrite (get_array_Some _ _ _ Hthis).
  rewrite (kept_nil a x Hx). rewrite app_nil_r.
  unfold EagleJS.set_array, modify, ret.
  by rewrite (with_arrays_id _ _ _ Hthis).
Qed.

Lemma unshift_member_or_foreign (this : loc) (a : list Value) (x : Value)
    (st : State) :
  arrays st !! this = Some a ->
  includes a x = true \/ EagleJS.isDOMItem x = false ->
  EagleJS.unshift this [x] st = (Ok (length a), st).
Proof.
  intros Hthis Hx. unfold EagleJS.unshift, bind.
  rewrite (get_array_Some _ _ _ Hthis).
  rewrite (kept_nil a x Hx). simpl.
  unfold EagleJS.set_array, modify, ret.
  by rewrite (with_arrays_id _ _ _ Hthis).
Qed.

(** C5 (the defect): the membership test of [push] and [unshift] looks at
    the receiver as it is before the call, so an item that is not yet a
    member and is passed twice in one call is stored twice: the collection
    then holds a duplicate reference. *)
Theorem push_repeated_argument (this : loc) (a : list Value) (x : Value)
    (st : State) :
  arrays st !! this = Some a ->
  EagleJS.isDOMItem x = true ->
  includes a x = false ->
  (exists st1, EagleJS.push this [x; x] st = (Ok (length a + 2), st1)
     /\ arrays st1 !! this = Some (a ++ [x; x]))
  /\ (exists st2, EagleJS.unshift this [x; x] st = (Ok (length a + 2), st2)
     /\ arrays st2 !! this = Some ([x; x] ++ a))
  /\ ~ NoDup (a ++ [x; x]).
Proof.
  intros Hthis Hitem Hnew.
  assert (Hlt : (this < length (arrays st))) by (by eapply lookup_lt_Some).
  split; [| split].
  - eexists. unfold EagleJS.push, bind.
    rewrite (get_array_Some _ _ _ Hthis). simpl. rewrite Hitem, Hnew. simpl.
    split.
    + rewrite length_app. simpl. reflexivity.
    + by apply list_lookup_insert_eq.
  - eexists. unfold EagleJS.unshift, bind.
    rewrite (get_array_Some _ _ _ Hthis). simpl. rewrite Hitem, Hnew. simpl.
    split.
    + unfold ret. replace (length a + 2) with (S (S (length a))) by lia.
      reflexivity.
    + by apply list_lookup_insert_eq.
  - intros Hnd. apply NoDup_app in Hnd as (_ & _ & Hxx).
    apply NoDup_cons in Hxx as [Hx _]. apply Hx. by left.
Qed.

(** A page collection that does not hold the [p] element yet holds it twice
    after [push(p, p)]. *)
Lemma push_repeated_argument_witness :
  (exists st1,
     EagleJS.push 0 [VNode 5; VNode 5] Demo.page = (Ok 4, st1)
     /\ arrays st1 !! 0 = Some [VNode 3; VNode 4; VNode 5; VNode 5])
  /\ (exists st2,
     EagleJS.unshift 0 [VNode 5; VNode 5] Demo.page = (Ok 4, st2)
     /\ arrays st2 !! 0 = Some [VNode 5; VNode 5; VNode 3; VNode 4])
  /\ ~ NoDup [VNode 3; VNode 4; VNode 5; VNode 5].
Proof.
  apply (push_repeated_argument 0 [VNode 3; VNode 4] (VNode 5) Demo.page);
    reflexivity.
Defined.

(** ** Loops *)

(** A loop whose steps all return establishes, for every element, a
    postcondition that the later steps keep. *)
Lemma forEach_post {A} (P : A -> Prop) (I : State -> Prop)
    (Q : A -> State -> Prop) (f : A -> M unit) :
  (forall x st, P x -> I st ->
     exists st', f x st = (Ok tt, st') /\ I st' /\ Q x st') ->
  (forall x y st st', P y -> I st -> Q x st -> f y st = (Ok tt, st') ->
     Q x st') ->
  forall l, Forall P l -> forall st, I st ->
    exists st', forEach f l st = (Ok tt, st') /\ I st'
                /\ Forall (fun x => Q x st') l
                /\ forall x, Q x st -> Q x st'.
Proof.
  intros Hstep Hkeep l. induction l as [| a l IH]; intros HP st HI.
  - exists st. split; [done |]. split; [done |]. split; [constructor | done].
  - apply Forall_cons in HP as [Ha Hl].
    destruct (Hstep a st Ha HI) as (st1 & Hf & HI1 & HQ1).
    destruct (IH Hl st1 HI1) as (st2 & Hrest & HI2 & HQ2 & Hmono).
    exists st2. split; [| split; [done | split]].
    + simpl. unfold bind. by rewrite Hf.
    + apply Forall_cons. split; [by apply Hmono | done].
    + intros x Hx. apply Hmono. apply (Hkeep x a st st1 Ha HI Hx Hf).
Qed.

(** A loop keeps what each of its steps keeps, whether or not they throw. *)
Lemma forEach_keeps {A} (I : State -> Prop) (f : A -> M unit) :
  (forall x st, I st -> I (snd (f x st))) ->
  forall l st, I st -> I (snd (forEach f l st)).
Proof.
  intros Hstep l. induction l as [| a l IH]; intros st HI; [done |].
  simpl. unfold bind. specialize (Hstep a st HI).
  destruct (f a st) as [[[] | e] st1]; simpl in *; [by apply IH | done].
Qed.

(** ** ready *)

(** On an item, the two capability checks of [ready] agree: the member is
    a document. *)
Lemma capable_readyState (v : Variant) (item : Value) (st : State) :
  EagleJS.isDOMItem item = true ->
  EagleJS.capable v K_readyState EagleJS.isDocument item st
  = (Ok (Z.eqb (EagleJS.nodeType_of (nodes st) item) DOCUMENT_NODE), st).
Proof.
  intros Hitem. destruct v; simpl.
  - unfold has_property.
    destruct (isDOMItem_inv _ Hitem) as [[r ->] | [t ->]]; simpl; [| done].
    unfold type_of, shape_of. destruct (nodes st !! r); simpl; done.
  - unfold bind, get, ret, EagleJS.isDocument, EagleJS.isNode.
    f_equal.
    destruct (isDOMItem_inv _ Hitem) as [[r ->] | [t ->]]; simpl; [| done].
    unfold DOCUMENT_NODE.
    destruct (Z.eqb_spec (type_of (nodes st) r) 9) as [-> | Hne];
      [done | by rewrite andb_false_r].
Qed.

(** A step of [ready] changes only listeners and timers, which only grow. *)
Lemma ready_step_any (v : Variant) (listener : nat) (item : Value)
    (st : State) :
  let st' := snd (ready_step v listener item st) in
  nodes st' = nodes st /\ arrays st' = arrays st /\ calls st' = calls st
  /\ (forall g, g ∈ listeners st -> g ∈ listeners st')
  /\ (forall t, t ∈ timers st -> t ∈ timers st').
Proof.
  unfold ready_step, bind.
  destruct (EagleJS.capable v K_readyState EagleJS.isDocument item st)
    as [[[] | e] st1] eqn:Hc; simpl.
  2,3: assert (st1 = st) as ->
         by (destruct v; simpl in Hc;
             [ unfold has_property in Hc;
               repeat (match type of Hc with
                       | context [match ?x with _ => _ end] => destruct x
                       end); by inversion Hc
             | unfold bind, get, ret in Hc; by inversion Hc ]);
       by repeat split.
  assert (st1 = st) as ->.
  { destruct v; simpl in Hc.
    - unfold has_property in Hc.
      repeat (match type of Hc with
              | context [match ?x with _ => _ end] => destruct x
              end); by inversion Hc.
    - unfold bind, get, ret in Hc. by inversion Hc. }
  destruct item; simpl; try by repeat split.
  unfold get. simpl. destruct (bool_decide _); simpl.
  - repeat split; try done. intros g Hg. destruct (bool_decide _); [done |].
    apply elem_of_app. by left.
  - repeat split; try done. intros t Ht. apply elem_of_app. by left.
Qed.

Lemma ready_step_ok (v : Variant) (listener : nat) (item : Value)
    (st : State) :
  EagleJS.isDOMItem item = true ->
  exists st', ready_step v listener item st = (Ok tt, st')
    /\ forall r, item = VNode r -> type_of (nodes st) r = DOCUMENT_NODE ->
         if loading st r
         then mkRegistration (VNode r) "DOMContentLoaded" listener
                ∈ listeners st'
         else listener ∈ timers st'.
Proof.
  intros Hitem. unfold ready_step, bind.
  rewrite (capable_readyState v item st Hitem).
  destruct (isDOMItem_inv _ Hitem) as [[r ->] | [t ->]]; simpl.
  - destruct (Z.eqb_spec (type_of (nodes st) r) DOCUMENT_NODE) as [Hd | Hd].
    + unfold get. fold (loading st r). destruct (loading st r) eqn:Hl.
      * eexists. split; [reflexivity |]. intros r' [= <-] _. rewrite Hl. simpl.
        destruct (bool_decide _) eqn:Hin.
        -- by apply bool_decide_eq_true in Hin.
        -- apply elem_of_app. right. by apply list_elem_of_singleton.
      * eexists. split; [reflexivity |]. intros r' [= <-] _. rewrite Hl. simpl.
        apply elem_of_app. right. by apply list_elem_of_singleton.
    + eexists. split; [reflexivity |]. intros r' [= <-] Hr. done.
  - eexists. split; [reflexivity |]. intros r' Hr. discriminate.
Qed.

(** C9. [ready(listener)] calls no listener while it runs, whatever the
    collection holds.  On a collection of items it returns the receiver,
    and for every member that is a document: when the document is loading,
    the listener is registered for [DOMContentLoaded] and runs when the
    host fires that event; otherwise it is put on the timer queue and runs
    on a later turn of the event loop. *)
Theorem ready_never_synchronous (v : Variant) (this : loc) (listener : nat)
    (st : State) :
  calls (snd (EagleJS.ready v this listener st)) = calls st
  /\ forall items,
       arrays st !! this = Some items ->
       Forall (fun item => EagleJS.isDOMItem item = true) items ->
       exists st',
         EagleJS.ready v this listener st = (Ok this, st')
         /\ nodes st' = nodes st /\ arrays st' = arrays st
         /\ forall r, VNode r ∈ items ->
              type_of (nodes st) r = DOCUMENT_NODE ->
              if loading st r
              then mkRegistration (VNode r) "DOMContentLoaded" listener
                     ∈ listeners st'
                   /\ listener
                        ∈ calls (fire (VNode r) "DOMContentLoaded" st')
              else listener ∈ timers st'
                   /\ listener ∈ calls (run_timers st').
Proof.
  split.
  - unfold EagleJS.ready, bind.
    destruct (EagleJS.get_array this st) as [[items | e] st1] eqn:Hg;
      rewrite (get_array_state Hg); [| done].
    change (fun item : Value => _) with (ready_step v listener).
    pose proof (forEach_keeps (fun s => calls s = calls st)
                  (ready_step v listener)) as Hk.
    specialize (Hk (fun x s Hs =>
      eq_trans (proj1 (proj2 (proj2 (ready_step_any v listener x s)))) Hs)
      items st eq_refl).
    destruct (forEach (ready_step v listener) items st) as [[[] | e] st2];
      done.
  - intros items Hthis Hitems. unfold EagleJS.ready, bind.
    rewrite (get_array_Some _ _ _ Hthis).
    change (fun item : Value => _) with (ready_step v listener).
    destruct (forEach_post (fun item => EagleJS.isDOMItem item = true)
                (fun s => nodes s = nodes st)
                (fun item s => forall r, item = VNode r ->
                   type_of (nodes st) r = DOCUMENT_NODE ->
                   if loading st r
                   then mkRegistration (VNode r) "DOMContentLoaded" listener
                          ∈ listeners s
                   else listener ∈ timers s)
                (ready_step v listener)) with (l := items) (st := st)
      as (st' & Hrun & Hnodes & Hpost & _); try done.
    + intros x s Hx Hs. destruct (ready_step_ok v listener x s Hx)
        as (s' & Hstep & Hq).
      exists s'. split; [done |]. split.
      * pose proof (ready_step_any v listener x s) as Hany.
        rewrite Hstep in Hany. simpl in Hany. destruct Hany as (-> & _). done.
      * intros r Hr Ht. specialize (Hq r Hr). unfold loading in *.
        rewrite Hs in Hq. by apply Hq.
    + intros x y s s' _ _ Hq Hstep r Hr Ht. specialize (Hq r Hr Ht).
      pose proof (ready_step_any v listener y s) as Hany.
      rewrite Hstep in Hany. simpl in Hany.
      destruct Hany as (_ & _ & _ & Hls & Hts).
      destruct (loading st r); [by apply Hls | by apply Hts].
    + rewrite Hrun. exists st'. split; [done |]. split; [done |].
      pose proof (forEach_keeps
        (fun s => arrays s = arrays st /\ calls s = calls st)
        (ready_step v listener)) as Hk.
      specialize (Hk (fun x s Hs =>
        let Hany := ready_step_any v listener x s in
        conj (eq_trans (proj1 (proj2 Hany)) (proj1 Hs))
             (eq_trans (proj1 (proj2 (proj2 Hany))) (proj2 Hs)))
        items st (conj eq_refl eq_refl)).
      rewrite Hrun in Hk. simpl in Hk. destruct Hk as [Harr Hcalls].
      split; [done |]. intros r Hr Ht.
      rewrite Forall_forall in Hpost. specialize (Hpost _ Hr r eq_refl Ht).
      destruct (loading st r).
      * split; [done |]. unfold fire. simpl. apply elem_of_app. right.
        apply list_elem_of_fmap. exists (mkRegistration (VNode r) "DOMContentLoaded" listener).
        split; [done |]. apply list_elem_of_In, filter_In. split.
        -- by apply list_elem_of_In.
        -- simpl. by rewrite !bool_decide_eq_true_2.
      * split; [done |]. unfold run_timers. simpl. apply elem_of_app. by right.
Qed.

(** On the loading page: the loading document gets the registration, the
    complete one a timer. *)
Lemma ready_never_synchronous_witness :
  exists st',
    EagleJS.ready Typed 0 7 Demo.early = (Ok 0, st')
    /\ nodes st' = nodes Demo.early /\ arrays st' = arrays Demo.early
    /\ forall r, VNode r ∈ [VNode 0; VNode 2; VTarget 0] ->
         type_of (nodes Demo.early) r = DOCUMENT_NODE ->
         if loading Demo.early r
         then mkRegistration (VNode r) "DOMContentLoaded" 7 ∈ listeners st'
              /\ 7 ∈ calls (fire (VNode r) "DOMContentLoaded" st')
         else 7 ∈ timers st' /\ 7 ∈ calls (run_timers st').
Proof.
  apply (proj2 (ready_never_synchronous Typed 0 7 Demo.early)
           [VNode 0; VNode 2; VTarget 0]).
  - reflexivity.
  - repeat constructor.
Defined.

(** ** filter and not *)



Lemma isElement_node (ns : list Node) (item : Value) :
  EagleJS.isElement ns item = true -> exists r, item = VNode r.
Proof.
  unfold EagleJS.isElement, EagleJS.isNode. destruct item; simpl;
    rewrite ?andb_false_r; try discriminate; eauto.
Qed.



Lemma new_array_spec (st : State) :
  EagleJS.new_array st
  = (Ok (length (arrays st)), with_arrays (fun h => h ++ [[]]) st).
Proof. reflexivity. Qed.




(** ** Rules for specifications *)

Lemma triple_ret {A} (P : State -> Prop) (a : A) (Q : A -> State -> Prop)
    (E : State -> Prop) :
  (forall s, P s -> Q a s) -> triple P (ret a) Q E.
Proof. intros HQ s Hs. by apply HQ. Qed.

Lemma triple_throw {A} (P : State -> Prop) (e : Exn)
    (Q : A -> State -> Prop) (E : State -> Prop) :
  (forall s, P s -> E s) -> triple P (throw e) Q E.
Proof. intros HE s Hs. by apply HE. Qed.

Lemma triple_bind {A B} (P : State -> Prop) (m : M A) (k : A -> M B)
    (R : A -> State -> Prop) (Q : B -> State -> Prop) (E : State -> Prop) :
  triple P m R E -> (forall a, triple (R a) (k a) Q E) ->
  triple P (bind m k) Q E.
Proof.
  intros Hm Hk s Hs. unfold bind. specialize (Hm s Hs).
  destruct (m s) as [[a | e] s1]; [by apply Hk | done].
Qed.

Lemma triple_weaken {A} (P P' : State -> Prop) (m : M A)
    (Q Q' : A -> State -> Prop) (E E' : State -> Prop) :
  triple P m Q E ->
  (forall s, P' s -> P s) -> (forall a s, Q a s -> Q' a s) ->
  (forall s, E s -> E' s) ->
  triple P' m Q' E'.
Proof.
  intros Hm HP HQ HE s Hs. specialize (Hm s (HP s Hs)).
  destruct (m s) as [[a | e] s1]; [by apply HQ | by apply HE].
Qed.

Lemma triple_pure {A} (P : State -> Prop) (fact : Prop) (m : M A)
    (Q : A -> State -> Prop) (E : State -> Prop) :
  (fact -> triple P m Q E) -> triple (fun s => P s /\ fact) m Q E.
Proof. intros Hm s [Hs Hfact]. by apply Hm. Qed.

Lemma keeps_ret {A} (I : State -> Prop) (a : A) : keeps I (ret a).
Proof. by apply triple_ret. Qed.

Lemma keeps_throw {A} (I : State -> Prop) (e : Exn) : keeps I (@throw A e).
Proof. by apply triple_throw. Qed.

Lemma keeps_get (I : State -> Prop) : keeps I get.
Proof. intros s Hs. done. Qed.

Lemma keeps_bind {A B} (I : State -> Prop) (m : M A) (k : A -> M B) :
  keeps I m -> (forall a, keeps I (k a)) -> keeps I (bind m k).
Proof. intros Hm Hk. eapply triple_bind; [exact Hm | exact Hk]. Qed.

(** A computation that only reads keeps everything. *)
Lemma keeps_reading {A} (I : State -> Prop) (m : M A) :
  (forall s, snd (m s) = s) -> keeps I m.
Proof.
  intros Hr s Hs. specialize (Hr s).
  destruct (m s) as [[a | e] s1]; simpl in Hr; by subst.
Qed.

Lemma keeps_forEach {A} (I : State -> Prop) (f : A -> M unit) (l : list A) :
  (forall x, keeps I (f x)) -> keeps I (forEach f l).
Proof.
  intros Hf. induction l as [| a l IH]; simpl.
  - apply keeps_ret.
  - apply keeps_bind; [apply Hf | intros _; apply IH].
Qed.

(** *** The primitives that only read *)

Lemma has_property_reads (k : PropertyKey) (item : Value) (s : State) :
  snd (has_property k item s) = s.
Proof.
  unfold has_property. destruct item; try done.
  by destruct (nodes s !! r).
Qed.

Lemma capable_reads (v : Variant) (k : PropertyKey)
    (legacy : list Node -> Value -> bool) (item : Value) (s : State) :
  snd (EagleJS.capable v k legacy item s) = s.
Proof. destruct v; simpl; [apply has_property_reads | done]. Qed.

Lemma as_node_reads (item : Value) (s : State) :
  snd (EagleJS.as_node item s) = s.
Proof. by destruct item. Qed.

Lemma get_array_reads (l : loc) (s : State) :
  snd (EagleJS.get_array l s) = s.
Proof. unfold EagleJS.get_array. by destruct (arrays s !! l). Qed.

Lemma matches_reads `{Engines} (r : ref) (sel : string) (s : State) :
  snd (matches r sel s) = s.
Proof. unfold matches. by destruct (selector_valid sel). Qed.

Lemma closest_reads `{Engines} (r : ref) (sel : string) (s : State) :
  snd (Dom.closest r sel s) = s.
Proof. unfold Dom.closest. by destruct (selector_valid sel). Qed.

Lemma querySelectorAll_reads `{Engines} (r : ref) (sel : string) (s : State) :
  snd (Dom.querySelectorAll r sel s) = s.
Proof. unfold Dom.querySelectorAll. by destruct (selector_valid sel). Qed.

(** *** Arrays that stay *)

Lemma building_insert (h0 : list (list Value)) (s : State) (e e' : loc)
    (a : list Value) :
  building h0 e s -> length h0 <= e' ->
  building h0 e (with_arrays (fun h => <[e' := a]> h) s).
Proof.
  intros [[k Hk] Hal] He. split.
  - unfold arrays_kept. simpl. rewrite Hk.
    exists (<[e' - length h0 := a]> k). by rewrite insert_app_r_alt.
  - unfold allocated in *. simpl. by rewrite length_insert.
Qed.

Lemma keeps_push (h0 : list (list Value)) (e e' : loc) (xs : list Value) :
  length h0 <= e' -> keeps (building h0 e) (EagleJS.push e' xs).
Proof.
  intros He s Hs. unfold EagleJS.push, bind, EagleJS.get_array.
  destruct (arrays s !! e'); simpl; [| done].
  by apply building_insert.
Qed.

Lemma keeps_cloneNode (h0 : list (list Value)) (e : loc) (r : ref)
    (deep : bool) :
  keeps (building h0 e) (cloneNode r deep).
Proof.
  intros s Hs. unfold cloneNode. destruct (nodes s !! r); [| done].
  by destruct (instantiate _ _ _).
Qed.

(** A new instance lies beyond the arrays that were there. *)
Lemma new_array_fresh (h0 : list (list Value)) :
  triple (arrays_kept h0) EagleJS.new_array
    (fun e s => building h0 e s /\ length h0 <= e) (arrays_kept h0).
Proof.
  intros s [k Hk]. simpl. split; [split |].
  - exists (k ++ [[]]). unfold with_arrays. simpl. by rewrite Hk, app_assoc.
  - unfold allocated. simpl. rewrite length_app. simpl. lia.
  - rewrite Hk, length_app. lia.
Qed.

Lemma filter_loop_reads (cb : EagleJS.Callback) (a : list Value) :
  (forall x i s, snd (cb x i a s) = s) ->
  forall rest i s, snd (EagleJS.filter_loop cb a i rest s) = s.
Proof.
  intros Hcb rest. induction rest as [| x rest IH]; intros i s; [done |].
  simpl. unfold bind. specialize (Hcb x i s).
  destruct (cb x i a s) as [[b | e] s1]; simpl in Hcb; subst; [| done].
  specialize (IH (S i) s).
  destruct (EagleJS.filter_loop cb a (S i) rest s) as [[l | e] s2];
    simpl in IH; by subst.
Qed.

Lemma super_filter_fresh (h0 : list (list Value)) (this : loc)
    (cb : EagleJS.Callback) :
  (forall a x i s, snd (cb x i a s) = s) ->
  triple (arrays_kept h0) (EagleJS.super_filter this cb)
    (fresh_result h0) (arrays_kept h0).
Proof.
  intros Hcb. unfold EagleJS.super_filter.
  eapply triple_bind; [apply keeps_reading, get_array_reads |]. intros a.
  eapply triple_bind; [apply new_array_fresh |]. intros e. simpl.
  intros s [Hs He]. unfold bind.
  pose proof (filter_loop_reads cb a (Hcb a) a 0 s) as Hl.
  destruct (EagleJS.filter_loop cb a 0 a s) as [[kept | ex] s1];
    simpl in Hl; subst; [| apply Hs].
  simpl. destruct (building_insert h0 s e e kept Hs He) as [Hk Ha].
  by repeat split.
Qed.

Lemma filter_test_reads `{Engines} (v : Variant) (selector : Arg)
    (a : list Value) (x : Value) (i : nat) (s : State) :
  snd (EagleJS.filter_test v selector x i a s) = s.
Proof.
  unfold EagleJS.filter_test. destruct selector as [w | l | f]; try done.
  destruct w; try done. unfold bind.
  pose proof (capable_reads v K_matches EagleJS.isElement x s) as Hc.
  destruct (EagleJS.capable v K_matches EagleJS.isElement x s)
    as [[[] | e] s1]; simpl in Hc; subst; try done.
  destruct x; try done. simpl. apply matches_reads.
Qed.

Lemma not_test_reads `{Engines} (v : Variant) (selector : Arg)
    (a : list Value) (x : Value) (i : nat) (s : State) :
  snd (EagleJS.not_test v selector x i a s) = s.
Proof.
  unfold EagleJS.not_test. destruct selector as [w | l | f]; try done.
  destruct w; try done. unfold bind.
  pose proof (capable_reads v K_matches EagleJS.isElement x s) as Hc.
  destruct (EagleJS.capable v K_matches EagleJS.isElement x s)
    as [[[] | e] s1]; simpl in Hc; subst; try done.
  destruct x; try done. simpl. unfold bind.
  pose proof (matches_reads r s0 s) as Hm.
  destruct (matches r s0 s) as [[m | e] s1]; simpl in Hm; by subst.
Qed.

(** ** Projections leave the receiver alone *)

Lemma filter_fresh `{Engines} (h0 : list (list Value)) (v : Variant)
    (this : loc) (selector : Arg) :
  triple (arrays_kept h0) (EagleJS.filter v this selector)
    (fresh_result h0) (arrays_kept h0).
Proof.
  apply super_filter_fresh. intros a x i s. apply filter_test_reads.
Qed.

Lemma not_fresh `{Engines} (h0 : list (list Value)) (v : Variant)
    (this : loc) (selector : Arg) :
  triple (arrays_kept h0) (EagleJS.not v this selector)
    (fresh_result h0) (arrays_kept h0).
Proof.
  apply super_filter_fresh. intros a x i s. apply not_test_reads.
Qed.

(** The trailing filter of a projection returns the array under
    construction or a newer one. *)
Lemma filtered_fresh `{Engines} (h0 : list (list Value)) (v : Variant)
    (e : loc) (f : Arg) :
  length h0 <= e ->
  triple (building h0 e) (EagleJS.filtered v e f)
    (fresh_result h0) (arrays_kept h0).
Proof.
  intros He. unfold EagleJS.filtered. destruct (EagleJS.is_null f).
  - apply triple_ret. intros s [Hk Ha]. by repeat split.
  - eapply triple_weaken; [apply filter_fresh | | done | done].
    by intros s [Hk _].
Qed.

(** Steps of the loops of the projections: they keep the old arrays and
    the array under construction. *)
Ltac keeps_step :=
  lazymatch goal with
  | |- keeps _ (ret _) => apply keeps_ret
  | |- keeps _ (throw _) => apply keeps_throw
  | |- keeps _ get => apply keeps_get
  | |- keeps _ (bind _ _) => apply keeps_bind; [| intros ?]
  | |- keeps _ (forEach _ _) => apply keeps_forEach; intros ?
  | |- keeps _ (EagleJS.push _ _) => apply keeps_push; assumption
  | |- keeps _ (cloneNode _ _) => apply keeps_cloneNode
  | |- keeps _ (EagleJS.capable _ _ _ _) =>
      apply keeps_reading, capable_reads
  | |- keeps _ (has_property _ _) => apply keeps_reading, has_property_reads
  | |- keeps _ (EagleJS.as_node _) => apply keeps_reading, as_node_reads
  | |- keeps _ (EagleJS.get_array _) => apply keeps_reading, get_array_reads
  | |- keeps _ (matches _ _) => apply keeps_reading, matches_reads
  | |- keeps _ (Dom.closest _ _) => apply keeps_reading, closest_reads
  | |- keeps _ (Dom.querySelectorAll _ _) =>
      apply keeps_reading, querySelectorAll_reads
  | |- keeps _ (if ?b then _ else _) => destruct b
  | |- keeps _ (match ?x with _ => _ end) => destruct x
  end.

(** The shape shared by the projections: a new array, a loop that fills
    it, and an end that returns it or a filtered copy. *)
Lemma projection_fresh {A} (h0 : list (list Value)) (this : loc)
    (f : loc -> A -> M unit) (finish : loc -> M loc) :
  (forall e x, length h0 <= e -> keeps (building h0 e) (f e x)) ->
  (forall e, length h0 <= e ->
     triple (building h0 e) (finish e) (fresh_result h0) (arrays_kept h0)) ->
  forall (items : M (list A)),
    (forall e, keeps (building h0 e) items) ->
    triple (arrays_kept h0)
      (let! elements := EagleJS.new_empty in
       let! l := items in
       forEach (f elements) l ;; finish elements)
      (fresh_result h0) (arrays_kept h0).
Proof.
  intros Hf Hfin items Hitems.
  eapply triple_bind; [apply new_array_fresh |]. intros e.
  apply triple_pure. intros He.
  eapply triple_bind.
  { eapply triple_weaken; [apply (Hitems e) | done | | by intros s [Hk _]].
    intros a s Hs. exact Hs. }
  intros l. eapply triple_bind.
  { eapply triple_weaken;
      [apply (keeps_forEach (building h0 e) (f e) l) | done | | by intros s [Hk _]].
    - intros x. by apply Hf.
    - intros a s Hs. exact Hs. }
  intros u. by apply Hfin.
Qed.

Lemma children_fresh `{Engines} (h0 : list (list Value)) (v : Variant)
    (this : loc) (f : Arg) :
  triple (arrays_kept h0) (EagleJS.children v this f)
    (fresh_result h0) (arrays_kept h0).
Proof.
  unfold EagleJS.children.
  apply (projection_fresh h0 this
           (fun elements item =>
              let! ok := EagleJS.capable v K_children EagleJS.isParentNode item in
              if ok then
                let! r := EagleJS.as_node item in
                let! st := get in
                EagleJS.push elements (map VNode (element_children (nodes st) r)) ;;
                ret tt
              else ret tt)
           (fun elements => EagleJS.filtered v elements f)).
  - intros e x He. repeat keeps_step.
  - intros e He. by apply filtered_fresh.
  - intros e. repeat keeps_step.
Qed.

Lemma ret_fresh (h0 : list (list Value)) (e : loc) :
  length h0 <= e ->
  triple (building h0 e) (ret e) (fresh_result h0) (arrays_kept h0).
Proof. intros He. apply triple_ret. intros s [Hk Ha]. by repeat split. Qed.

Lemma parent_fresh `{Engines} (h0 : list (list Value)) (v : Variant)
    (this : loc) (f : Arg) :
  triple (arrays_kept h0) (EagleJS.parent v this f)
    (fresh_result h0) (arrays_kept h0).
Proof.
  unfold EagleJS.parent. eapply (projection_fresh h0 this).
  - intros e x He. repeat keeps_step.
  - intros e He. by apply filtered_fresh.
  - intros e. repeat keeps_step.
Qed.

Lemma next_fresh `{Engines} (h0 : list (list Value)) (v : Variant)
    (this : loc) (f : Arg) :
  triple (arrays_kept h0) (EagleJS.next v this f)
    (fresh_result h0) (arrays_kept h0).
Proof.
  unfold EagleJS.next. eapply (projection_fresh h0 this).
  - intros e x He. repeat keeps_step.
  - intros e He. by apply filtered_fresh.
  - intros e. repeat keeps_step.
Qed.

Lemma prev_fresh `{Engines} (h0 : list (list Value)) (v : Variant)
    (this : loc) (f : Arg) :
  triple (arrays_kept h0) (EagleJS.prev v this f)
    (fresh_result h0) (arrays_kept h0).
Proof.
  unfold EagleJS.prev. eapply (projection_fresh h0 this).
  - intros e x He. repeat keeps_step.
  - intros e He. by apply filtered_fresh.
  - intros e. repeat keeps_step.
Qed.

Lemma closest_fresh `{Engines} (h0 : list (list Value)) (v : Variant)
    (this : loc) (selector : string) :
  triple (arrays_kept h0) (EagleJS.closest v this selector)
    (fresh_result h0) (arrays_kept h0).
Proof.
  unfold EagleJS.closest. eapply (projection_fresh h0 this).
  - intros e x He. repeat keeps_step.
  - intros e He. by apply ret_fresh.
  - intros e. repeat keeps_step.
Qed.

Lemma clone_fresh (h0 : list (list Value)) (v : Variant)
    (this : loc) (deep : bool) :
  triple (arrays_kept h0) (EagleJS.clone v this deep)
    (fresh_result h0) (arrays_kept h0).
Proof.
  unfold EagleJS.clone. eapply (projection_fresh h0 this).
  - intros e x He. repeat keeps_step.
  - intros e He. by apply ret_fresh.
  - intros e. repeat keeps_step.
Qed.

Lemma querySelectorAll_fresh `{Engines} (h0 : list (list Value))
    (this : loc) (selectors : string) :
  triple (arrays_kept h0) (EagleJS.querySelectorAll this selectors)
    (fresh_result h0) (arrays_kept h0).
Proof.
  unfold EagleJS.querySelectorAll. eapply (projection_fresh h0 this).
  - intros e x He. repeat keeps_step.
  - intros e He. by apply ret_fresh.
  - intros e. repeat keeps_step.
Qed.

Lemma building_then {A B} (h0 : list (list Value)) (e : loc) (m : M A)
    (k : A -> M B) (Q : B -> State -> Prop) :
  keeps (building h0 e) m ->
  (forall a, triple (building h0 e) (k a) Q (arrays_kept h0)) ->
  triple (building h0 e) (bind m k) Q (arrays_kept h0).
Proof.
  intros Hm Hk. eapply triple_bind; [| exact Hk].
  eapply triple_weaken; [exact Hm | done | done | by intros s [Hs _]].
Qed.

Lemma find_fresh `{Engines} (h0 : list (list Value)) (this : loc)
    (selectors : string) :
  triple (arrays_kept h0)
    (EagleJS.find this (ArgValue (VStr selectors)))
    (fun found s =>
       exists e, found = EagleJS.FoundCollection e /\ fresh_result h0 e s)
    (arrays_kept h0).
Proof.
  unfold EagleJS.find.
  eapply triple_bind; [apply new_array_fresh |]. intros e.
  apply triple_pure. intros He.
  apply building_then; [repeat keeps_step |]. intros items.
  apply building_then; [repeat keeps_step |]. intros u.
  apply triple_ret. intros s [Hk Ha]. exists e. by repeat split.
Qed.

Lemma project_fresh `{Engines} (h0 : list (list Value)) (v : Variant)
    (p : Projection) (this : loc) :
  triple (arrays_kept h0) (project v p this)
    (fresh_result h0) (arrays_kept h0).
Proof.
  destruct p; simpl.
  - apply children_fresh.
  - apply parent_fresh.
  - apply next_fresh.
  - apply prev_fresh.
  - apply closest_fresh.
  - apply clone_fresh.
  - destruct v; simpl; [apply querySelectorAll_fresh |].
    eapply triple_bind; [apply find_fresh |]. intros found s (e & -> & He).
    exact He.
  - apply filter_fresh.
  - apply not_fresh.
Qed.

(** C8. A query-style operation -- children, parent, next, prev, closest,
    clone, the descendant query, filter, not -- changes no array that
    exists when it is called: the members of the receiver and their order
    are the same after the call, also when the host throws.  When it
    returns, the result is an array that did not exist before, so it is
    not the receiver. *)
Theorem projection_leaves_receiver `{Engines} (v : Variant) (p : Projection)
    (this : loc) (items : list Value) (st : State) :
  arrays st !! this = Some items ->
  arrays (snd (project v p this st)) !! this = Some items
  /\ (forall l a, arrays st !! l = Some a ->
        arrays (snd (project v p this st)) !! l = Some a)
  /\ forall r, fst (project v p this st) = Ok r ->
       r <> this /\ arrays st !! r = None
       /\ is_Some (arrays (snd (project v p this st)) !! r).
Proof.
  intros Hthis.
  pose proof (project_fresh (arrays st) v p this st) as Hp.
  assert (Hpre : arrays_kept (arrays st) st).
  { exists []. by rewrite app_nil_r. }
  specialize (Hp Hpre).
  assert (Hold : forall s, arrays_kept (arrays st) s ->
            forall l a, arrays st !! l = Some a -> arrays s !! l = Some a).
  { intros s [k Hk] l a Hl. rewrite Hk. by apply lookup_app_l_Some. }
  destruct (project v p this st) as [[r | e] s1]; simpl.
  - destruct Hp as (Hk & Hr & Ha). split; [by apply (Hold s1) |].
    split; [by apply Hold |]. intros r' [= <-].
    apply lookup_lt_Some in Hthis as Hlt.
    split; [lia |]. split; [by apply lookup_ge_None |].
    by apply lookup_lt_is_Some.
  - split; [by apply (Hold s1) |]. split; [by apply Hold |]. done.
Qed.

(** The children of the collection [div, span] of the page. *)
Lemma projection_leaves_receiver_witness :
  let run := project (H := Demo.engines) Typed
               (PChildren (ArgValue VNull)) 0 Demo.page in
  arrays (snd run) !! 0 = Some [VNode 3; VNode 4]
  /\ (forall l a, arrays Demo.page !! l = Some a ->
        arrays (snd run) !! l = Some a)
  /\ forall r, fst run = Ok r ->
       r <> 0 /\ arrays Demo.page !! r = None
       /\ is_Some (arrays (snd run) !! r).
Proof.
  apply (projection_leaves_receiver (H := Demo.engines) Typed
           (PChildren (ArgValue VNull)) 0 [VNode 3; VNode 4] Demo.page).
  reflexivity.
Defined.

(** ** The get-or-set accessors *)

Lemma has_property_live (k : PropertyKey) (item : Value) (st : State) :
  EagleJS.isDOMItem item = true ->
  has_property k item st = (Ok (probe k (nodes st) item), st).
Proof.
  intros Hitem. destruct (isDOMItem_inv _ Hitem) as [[r ->] | [t ->]]; simpl.
  - unfold has_property. by destruct (nodes st !! r).
  - done.
Qed.

Lemma capable_live (v : Variant) (k : PropertyKey)
    (legacy : list Node -> Value -> bool) (item : Value) (st : State) :
  EagleJS.isDOMItem item = true ->
  EagleJS.capable v k legacy item st
  = (Ok (eligible v k legacy (nodes st) item), st).
Proof.
  intros Hitem. destruct v; simpl; [by apply has_property_live | done].
Qed.

(** The loop of a getter stops at the first eligible member. *)
Lemma some_with_first (check : Value -> M bool)
    (ok : Value -> bool) (value : list Node -> ref -> Returned)
    (default : Returned) (st : State) (items : list Value) :
  (forall item, item ∈ items -> check item st = (Ok (ok item), st)) ->
  (forall item, ok item = true -> exists r, item = VNode r) ->
  exists b,
    EagleJS.some_with (fun returnValue item =>
      let! o := check item in
      if o then
        let! r := EagleJS.as_node item in
        let! s := get in
        ret (true, value (nodes s) r)
      else ret (false, returnValue)) default items st
    = (Ok (b, get_first ok (value (nodes st)) default items), st).
Proof.
  intros Hcheck Hnode.
  set (f := fun (returnValue : Returned) (item : Value) => _).
  induction items as [| x items IH].
  - by exists false.
  - simpl. unfold bind at 1. unfold f at 1. unfold bind at 1.
    rewrite Hcheck by (by left).
    destruct (ok x) eqn:Hx.
    + destruct (Hnode x Hx) as [r ->]. exists true. simpl.
      unfold get_first. simpl. by rewrite Hx.
    + simpl. destruct IH as [b IH].
      { intros item Hitem. apply Hcheck. by right. }
      exists b. rewrite IH. unfold get_first.
      destruct x; simpl; try done. by rewrite Hx.
Qed.

Lemma kinds_kept_refl (ns : list Node) : kinds_kept ns ns.
Proof. by split. Qed.

Lemma kinds_kept_trans (ns1 ns2 ns3 : list Node) :
  kinds_kept ns1 ns2 -> kinds_kept ns2 ns3 -> kinds_kept ns1 ns3.
Proof.
  intros [Hl1 Hk1] [Hl2 Hk2]. split; [lia |]. intros r Hr.
  rewrite Hk2 by lia. by apply Hk1.
Qed.

Lemma shapes_kept_kinds (ns ns' : list Node) :
  shapes_kept ns ns' -> kinds_kept ns ns'.
Proof.
  intros [Hl Hs]. split; [done |]. intros r Hr. by rewrite Hs.
Qed.

Lemma shapes_kept_refl (ns : list Node) : shapes_kept ns ns.
Proof. by split. Qed.

Lemma shapes_kept_trans (ns1 ns2 ns3 : list Node) :
  shapes_kept ns1 ns2 -> shapes_kept ns2 ns3 -> shapes_kept ns1 ns3.
Proof.
  intros [Hl1 Hk1] [Hl2 Hk2]. split; [lia |]. intros r Hr.
  rewrite Hk2 by lia. by apply Hk1.
Qed.

(** The loop of a setter visits the eligible members, in order. *)
Lemma forEach_eligible (check : Value -> M bool)
    (ok : list Node -> Value -> bool) (setter : ref -> M unit) :
  (forall r s, kinds_kept (nodes s) (nodes (snd (setter r s)))) ->
  (forall ns ns' item, live ns item -> kinds_kept ns ns' ->
     ok ns' item = ok ns item) ->
  (forall s item, EagleJS.isDOMItem item = true ->
     check item s = (Ok (ok (nodes s) item), s)) ->
  (forall ns item, ok ns item = true -> exists r, item = VNode r) ->
  forall (items : list Value) (st0 st : State),
    kinds_kept (nodes st0) (nodes st) ->
    Forall (live (nodes st0)) items ->
    forEach (fun item =>
      let! o := check item in
      if o then let! r := EagleJS.as_node item in setter r
      else ret tt) items st
    = forEach setter (eligible_refs (ok (nodes st0)) items) st.
Proof.
  intros Hstable Hkind Hcheck Hnode items.
  set (f := fun item : Value => _).
  induction items as [| x items IH]; intros st0 st Hk Hlive; [done |].
  apply Forall_cons in Hlive as [Hx Hlive]. simpl. unfold bind at 1.
  unfold f at 1. unfold bind at 1.
  rewrite Hcheck by apply Hx. rewrite (Hkind _ _ _ Hx Hk).
  destruct (ok (nodes st0) x) eqn:Hok.
  - destruct (Hnode _ _ Hok) as [r ->]. simpl. rewrite Hok. simpl.
    unfold bind, ret. pose proof (Hstable r st) as Hs.
    destruct (setter r st) as [[[] | e] st1] eqn:Hset; simpl in *;
      rewrite ?Hset; [| done].
    apply IH; [| done]. by eapply kinds_kept_trans.
  - simpl. rewrite IH with (st0 := st0) by done.
    destruct x; simpl; try done. by rewrite Hok.
Qed.

(** *** What the host setters keep *)

Lemma shape_of_alter (g : Node -> Node) (r r' : ref) (ns : list Node) :
  (forall n, shape (g n) = shape n) ->
  shape_of (alter g r ns) r' = shape_of ns r'.
Proof.
  intros Hg. unfold shape_of. destruct (decide (r = r')) as [-> | Hne].
  - rewrite list_lookup_alter_eq. destruct (ns !! r'); simpl; [apply Hg | done].
  - by rewrite list_lookup_alter_ne.
Qed.

Lemma shapes_kept_alter (g : Node -> Node) (r : ref) (ns : list Node) :
  (forall n, shape (g n) = shape n) -> shapes_kept ns (alter g r ns).
Proof.
  intros Hg. split; [by rewrite length_alter |].
  intros r' _. by apply shape_of_alter.
Qed.

Lemma shapes_kept_app (ns extra : list Node) : shapes_kept ns (ns ++ extra).
Proof.
  split; [rewrite length_app; lia |]. intros r Hr. unfold shape_of.
  by rewrite lookup_app_l.
Qed.

Lemma shapes_kept_detach (r : ref) (ns : list Node) :
  shapes_kept ns (detach r ns).
Proof.
  unfold detach. destruct (parent_of ns r); [| apply shapes_kept_refl].
  eapply shapes_kept_trans; by apply shapes_kept_alter.
Qed.

Lemma shapes_kept_attach (parent : ref) (child : option ref) (r : ref)
    (ns : list Node) :
  shapes_kept ns (attach parent child r ns).
Proof.
  unfold attach. eapply shapes_kept_trans; by apply shapes_kept_alter.
Qed.

Lemma shapes_kept_fold {A} (f : list Node -> A -> list Node) (l : list A) :
  (forall ns x, shapes_kept ns (f ns x)) ->
  forall ns, shapes_kept ns (fold_left f l ns).
Proof.
  intros Hf. induction l as [| x l IH]; intros ns; simpl.
  - apply shapes_kept_refl.
  - eapply shapes_kept_trans; [apply Hf | apply IH].
Qed.

Lemma shapes_kept_remove_children (r : ref) (ns : list Node) :
  shapes_kept ns (remove_children r ns).
Proof.
  unfold remove_children. apply shapes_kept_fold.
  intros ns' c. apply shapes_kept_detach.
Qed.

(** Induction on templates, with the hypothesis on every child. *)
Lemma Template_induction (P : Template -> Prop) :
  (forall s kids, Forall P kids -> P (Tpl s kids)) -> forall t, P t.
Proof.
  intros Hstep. fix IH 1. intros [s kids]. apply Hstep.
  induction kids as [| k kids IHk]; constructor; [apply IH | exact IHk].
Qed.

(** The inner loop of [instantiate] is [instantiate_all]. *)
Lemma instantiate_unfold (parent : option ref) (s : Shape)
    (kids : list Template) (ns : list Node) :
  instantiate parent (Tpl s kids) ns
  = let r := length ns in
    let (cs, ns2) :=
      instantiate_all (Some r) kids
        (ns ++ [mkNode s parent [] (initial_readyState s)]) in
    (r, alter (set_children cs) r ns2).
Proof.
  simpl. generalize (ns ++ [mkNode s parent [] (initial_readyState s)]).
  generalize (length ns). intros r.
  assert (Hgo : forall l, (fix go (ks : list Template) (ns0 : list Node)
                   {struct ks} : list ref * list Node :=
                   match ks with
                   | [] => ([], ns0)
                   | k :: ks' =>
                       let (c, ns') := instantiate (Some r) k ns0 in
                       let (cs, ns'') := go ks' ns' in (c :: cs, ns'')
                   end) kids l = instantiate_all (Some r) kids l).
  { induction kids as [| k kids IH]; intros l; [done |].
    simpl. destruct (instantiate (Some r) k l) as [c l']. by rewrite IH. }
  intros l. by rewrite Hgo.
Qed.

Lemma shapes_kept_instantiate (t : Template) :
  forall parent ns, shapes_kept ns (snd (instantiate parent t ns)).
Proof.
  induction t as [s kids IH] using Template_induction. intros parent ns.
  rewrite instantiate_unfold. cbv zeta.
  assert (Hall : forall p l, shapes_kept l (snd (instantiate_all p kids l))).
  { clear parent ns. induction kids as [| k kids IHk]; intros p l; simpl.
    - apply shapes_kept_refl.
    - apply Forall_cons in IH as [Hk Hkids].
      specialize (Hk p l). destruct (instantiate p k l) as [c l']. simpl in Hk.
      specialize (IHk Hkids p l').
      destruct (instantiate_all p kids l') as [cs l'']. simpl in *.
      by eapply shapes_kept_trans. }
  specialize (Hall (Some (length ns))
                (ns ++ [mkNode s parent [] (initial_readyState s)])).
  destruct (instantiate_all _ kids _) as [cs ns2]. simpl in *.
  eapply shapes_kept_trans; [apply shapes_kept_app |].
  eapply shapes_kept_trans; [exact Hall |]. by apply shapes_kept_alter.
Qed.

Lemma shapes_kept_instantiate_all (kids : list Template) :
  forall parent ns, shapes_kept ns (snd (instantiate_all parent kids ns)).
Proof.
  induction kids as [| k kids IH]; intros p l; simpl.
  - apply shapes_kept_refl.
  - pose proof (shapes_kept_instantiate k p l) as Hk.
    destruct (instantiate p k l) as [c l']. simpl in Hk.
    specialize (IH p l').
    destruct (instantiate_all p kids l') as [cs l'']. simpl in *.
    by eapply shapes_kept_trans.
Qed.

Lemma kinds_kept_update_shape (r : ref) (f : Shape -> Shape) (s : State) :
  (forall x, kind (f x) = kind x) ->
  kinds_kept (nodes s) (nodes (snd (update_shape r f s))).
Proof.
  intros Hf. unfold update_shape, modify. simpl.
  split; [by rewrite length_alter |]. intros r' Hr'.
  unfold shape_of. destruct (decide (r = r')) as [-> | Hne].
  - rewrite list_lookup_alter_eq. destruct (nodes s !! r'); simpl;
      [apply Hf | done].
  - by rewrite list_lookup_alter_ne.
Qed.

(** The changes of attributes, tokens and data leave the kind of a
    shape. *)
Lemma kind_with_dataset (f : list (string * string) -> list (string * string))
    (s : Shape) :
  kind (with_dataset f s) = kind s.
Proof. unfold kind. simpl. f_equal. by destruct (dataset s). Qed.

Lemma kind_attribute_changed (name : string) (value : option string)
    (s : Shape) :
  kind (attribute_changed name value s) = kind s.
Proof.
  unfold attribute_changed.
  destruct (data_key name); rewrite ?kind_with_dataset;
    by destruct (bool_decide (name = "class")).
Qed.

Lemma kind_attribute_set (name value : string) (s : Shape) :
  kind (attribute_set name value s) = kind s.
Proof. unfold attribute_set. by rewrite kind_attribute_changed. Qed.

Lemma kind_attribute_removed (name : string) (s : Shape) :
  kind (attribute_removed name s) = kind s.
Proof.
  unfold attribute_removed.
  destruct (assoc_get _ _); [by rewrite kind_attribute_changed | done].
Qed.

Lemma kind_update_steps (s : Shape) : kind (update_steps s) = kind s.
Proof.
  unfold update_steps.
  by destruct (assoc_get "class" (attributes s)), (classList s).
Qed.

Lemma kind_tokens_changed (f : list string -> list string) (s : Shape) :
  kind (tokens_changed f s) = kind s.
Proof. unfold tokens_changed. by rewrite kind_update_steps. Qed.

Lemma kind_data_set_to (key value : string) (s : Shape) :
  kind (data_set_to key value s) = kind s.
Proof.
  unfold data_set_to.
  change (kind (with_attributes ?f ?x)) with (kind x).
  apply kind_with_dataset.
Qed.

Lemma kinds_kept_setAttribute `{Engines} (name value : string) (r : ref)
    (s : State) :
  kinds_kept (nodes s) (nodes (snd (setAttribute r name value s))).
Proof.
  unfold setAttribute. destruct (attribute_name_valid name).
  - apply kinds_kept_update_shape. apply kind_attribute_set.
  - apply kinds_kept_refl.
Qed.

Lemma kinds_kept_dataset_set `{Engines} (key value : string) (r : ref)
    (s : State) :
  kinds_kept (nodes s) (nodes (snd (dataset_set r key value s))).
Proof.
  unfold dataset_set. destruct (attribute_name_valid _).
  - apply kinds_kept_update_shape. apply kind_data_set_to.
  - apply kinds_kept_refl.
Qed.

Lemma kinds_kept_set_innerHTML `{Engines} (markup : string) (r : ref)
    (s : State) :
  kinds_kept (nodes s) (nodes (snd (set_innerHTML r markup s))).
Proof.
  unfold set_innerHTML. apply shapes_kept_kinds.
  pose proof (shapes_kept_instantiate_all
                (parse_fragment (localName (shape_of (nodes s) r)) markup)
                (Some r) (remove_children r (nodes s))) as Hi.
  destruct (instantiate_all _ _ _) as [cs ns']. simpl in *.
  eapply shapes_kept_trans; [apply shapes_kept_remove_children |].
  eapply shapes_kept_trans; [exact Hi |]. by apply shapes_kept_alter.
Qed.

Lemma kinds_kept_set_textContent (value : string) (r : ref) (s : State) :
  kinds_kept (nodes s) (nodes (snd (set_textContent r value s))).
Proof.
  unfold set_textContent, bind, get.
  destruct (Zincludes [1; 11]%Z (type_of (nodes s) r)).
  - simpl. destruct (bool_decide (value = "")); simpl.
    + apply shapes_kept_kinds, shapes_kept_remove_children.
    + apply shapes_kept_kinds.
      eapply shapes_kept_trans; [apply shapes_kept_remove_children |].
      eapply shapes_kept_trans; [apply shapes_kept_app |].
      apply shapes_kept_attach.
  - destruct (Zincludes [3; 4; 7; 8]%Z (type_of (nodes s) r)).
    + by apply kinds_kept_update_shape.
    + apply kinds_kept_refl.
Qed.

(** *** Eligibility *)

Lemma node_has_kind (k : PropertyKey) (s s' : Shape) :
  kind s = kind s' -> node_has k s = node_has k s'.
Proof.
  unfold kind. intros [= Ht Hd]. unfold node_has. rewrite Ht.
  by destruct k.
Qed.

Lemma probe_kinds (k : PropertyKey) (ns ns' : list Node) (item : Value) :
  live ns item -> kinds_kept ns ns' -> probe k ns' item = probe k ns item.
Proof.
  intros [Hitem Hr] [Hlen Hk].
  destruct (isDOMItem_inv _ Hitem) as [[r ->] | [t ->]]; simpl; [| done].
  specialize (Hr r eq_refl). specialize (Hk r Hr). unfold shape_of in Hk.
  destruct (lookup_lt_is_Some_2 ns r Hr) as [n Hn].
  destruct (lookup_lt_is_Some_2 ns' r ltac:(lia)) as [n' Hn'].
  rewrite Hn, Hn' in *. simpl in Hk. by apply node_has_kind.
Qed.

Lemma nodeType_of_kinds (ns ns' : list Node) (item : Value) :
  live ns item -> kinds_kept ns ns' ->
  EagleJS.nodeType_of ns' item = EagleJS.nodeType_of ns item.
Proof.
  intros [Hitem Hr] [Hlen Hk].
  destruct (isDOMItem_inv _ Hitem) as [[r ->] | [t ->]]; simpl; [| done].
  specialize (Hk r (Hr r eq_refl)). unfold kind in Hk. unfold type_of.
  by injection Hk.
Qed.

Lemma eligible_kinds (v : Variant) (k : PropertyKey)
    (legacy : list Node -> Value -> bool) (ns ns' : list Node)
    (item : Value) :
  legacy_check legacy -> live ns item -> kinds_kept ns ns' ->
  eligible v k legacy ns' item = eligible v k legacy ns item.
Proof.
  intros Hlegacy Hlive Hk. destruct v; simpl; [by apply probe_kinds |].
  destruct Hlegacy; unfold EagleJS.isElement, EagleJS.isNode;
    by rewrite (nodeType_of_kinds _ _ _ Hlive Hk).
Qed.

Lemma probe_node (k : PropertyKey) (ns : list Node) (item : Value) :
  k <> K_addEventListener -> probe k ns item = true ->
  exists r, item = VNode r.
Proof.
  intros Hk. destruct item; simpl; try discriminate; eauto.
  by destruct k.
Qed.

Lemma isNode_node (ns : list Node) (item : Value) :
  EagleJS.isNode ns item = true -> exists r, item = VNode r.
Proof.
  unfold EagleJS.isNode. destruct item; simpl;
    rewrite ?andb_false_r; try discriminate; eauto.
Qed.

Lemma eligible_node (v : Variant) (k : PropertyKey)
    (legacy : list Node -> Value -> bool) (ns : list Node) (item : Value) :
  legacy_check legacy -> k <> K_addEventListener ->
  eligible v k legacy ns item = true -> exists r, item = VNode r.
Proof.
  intros Hlegacy Hk. destruct v; simpl; [by apply probe_node |].
  destruct Hlegacy; [apply isElement_node | apply isNode_node].
Qed.

Lemma live_item (ns : list Node) (items : list Value) (item : Value) :
  Forall (live ns) items -> item ∈ items -> EagleJS.isDOMItem item = true.
Proof. intros Hall Hin. rewrite Forall_forall in Hall. by apply Hall. Qed.

(** The four getters and the four setters, each against the loop of the
    specification. *)
Section Accessors.
Context `{Engines} (v : Variant) (this : loc) (items : list Value)
  (st : State).
Hypothesis Hthis : arrays st !! this = Some items.
Hypothesis Hlive : Forall (live (nodes st)) items.

Lemma attr_get (name : string) :
  EagleJS.attr v this name None st
  = (Ok (get_first (eligible v K_getAttribute EagleJS.isElement (nodes st))
           (fun r => EagleJS.of_nullable (getAttribute (nodes st) r name))
           RetNull items), st).
Proof.
  unfold EagleJS.attr. unfold bind at 1.
  rewrite (get_array_Some _ _ _ Hthis).
  destruct (some_with_first
              (EagleJS.capable v K_getAttribute EagleJS.isElement)
              (eligible v K_getAttribute EagleJS.isElement (nodes st))
              (fun ns r => EagleJS.of_nullable (getAttribute ns r name))
              RetNull st items) as [b Hb].
  - intros item Hitem. apply capable_live. by eapply live_item.
  - intros item. by apply eligible_node; [constructor |].
  - cbv beta in Hb. unfold bind at 1. by rewrite Hb.
Qed.

Lemma attr_set (name value : string) :
  EagleJS.attr v this name (Some value) st
  = set_all (eligible v K_setAttribute EagleJS.isElement (nodes st))
      (fun r => setAttribute r name value) this items st.
Proof.
  unfold EagleJS.attr, set_all. unfold bind at 1.
  rewrite (get_array_Some _ _ _ Hthis). unfold bind at 1.
  rewrite (forEach_eligible
             (EagleJS.capable v K_setAttribute EagleJS.isElement)
             (eligible v K_setAttribute EagleJS.isElement)
             (fun r => setAttribute r name value)) with (st0 := st); try done.
  - intros r s. apply kinds_kept_setAttribute.
  - intros ns ns' item. by apply eligible_kinds; constructor.
  - intros s item. apply capable_live.
  - intros ns item. by apply eligible_node; [constructor |].
Qed.

Lemma data_get (key : string) :
  EagleJS.data this (Some key) None st
  = (Ok (get_first (probe K_dataset (nodes st))
           (fun r => EagleJS.of_optional
                       (dataset_get (nodes st) r (camelCase key)))
           RetUndefined items), st).
Proof.
  unfold EagleJS.data. unfold bind at 1.
  rewrite (get_array_Some _ _ _ Hthis).
  destruct (some_with_first (has_property K_dataset)
              (probe K_dataset (nodes st))
              (fun ns r => EagleJS.of_optional
                             (dataset_get ns r (camelCase key)))
              RetUndefined st items) as [b Hb].
  - intros item Hitem. apply has_property_live. by eapply live_item.
  - intros item. by apply probe_node.
  - cbv beta in Hb. unfold bind at 1. by rewrite Hb.
Qed.

Lemma data_get_all :
  EagleJS.data this None None st
  = (Ok (get_first (probe K_dataset (nodes st)) RetDataset RetEmptyObject
           items), st).
Proof.
  unfold EagleJS.data. unfold bind at 1.
  rewrite (get_array_Some _ _ _ Hthis).
  assert (Hloop : forall l, Forall (live (nodes st)) l -> exists b,
    EagleJS.some_with (fun returnValue item =>
      let! ok := has_property K_dataset item in
      if ok then let! r := EagleJS.as_node item in ret (true, RetDataset r)
      else ret (false, returnValue)) RetEmptyObject l st
    = (Ok (b, get_first (probe K_dataset (nodes st)) RetDataset
                RetEmptyObject l), st)).
  { set (f := fun (returnValue : Returned) (item : Value) => _).
    induction l as [| x l IH]; intros Hl; [by exists false |].
    apply Forall_cons in Hl as [[Hx _] Hl].
    simpl. unfold bind at 1. unfold f at 1. unfold bind at 1.
    rewrite (has_property_live _ _ _ Hx).
    destruct (probe K_dataset (nodes st) x) eqn:Hp.
    - destruct (probe_node K_dataset _ _ ltac:(discriminate) Hp) as [r ->].
      exists true.
      simpl. unfold get_first. simpl in *. by rewrite Hp.
    - destruct (IH Hl) as [b Hb]. exists b. simpl. rewrite Hb.
      unfold get_first. destruct x; simpl in *; try done. by rewrite Hp. }
  destruct (Hloop items Hlive) as [b Hb]. unfold bind at 1. by rewrite Hb.
Qed.

Lemma data_set (key value : string) :
  EagleJS.data this (Some key) (Some value) st
  = set_all (probe K_dataset (nodes st))
      (fun r => dataset_set r (camelCase key) value) this items st.
Proof.
  unfold EagleJS.data, set_all. unfold bind at 1.
  rewrite (get_array_Some _ _ _ Hthis). unfold bind at 1.
  rewrite (forEach_eligible (has_property K_dataset) (probe K_dataset)
             (fun r => dataset_set r (camelCase key) value))
    with (st0 := st); try done.
  - intros r s. apply kinds_kept_dataset_set.
  - intros ns ns' item. apply probe_kinds.
  - intros s item. apply has_property_live.
  - intros ns item. by apply probe_node.
Qed.

Lemma html_get :
  EagleJS.html v this None st
  = (Ok (get_first (eligible v K_innerHTML EagleJS.isElement (nodes st))
           (fun r => RetStr (innerHTML (nodes st) r)) (RetStr "") items), st).
Proof.
  unfold EagleJS.html. unfold bind at 1.
  rewrite (get_array_Some _ _ _ Hthis).
  destruct (some_with_first
              (EagleJS.capable v K_innerHTML EagleJS.isElement)
              (eligible v K_innerHTML EagleJS.isElement (nodes st))
              (fun ns r => RetStr (innerHTML ns r)) (RetStr "") st items)
    as [b Hb].
  - intros item Hitem. apply capable_live. by eapply live_item.
  - intros item. by apply eligible_node; [constructor |].
  - cbv beta in Hb. unfold bind at 1. by rewrite Hb.
Qed.

Lemma html_set (value : string) :
  EagleJS.html v this (Some value) st
  = set_all (eligible v K_innerHTML EagleJS.isElement (nodes st))
      (fun r => set_innerHTML r value) this items st.
Proof.
  unfold EagleJS.html, set_all. unfold bind at 1.
  rewrite (get_array_Some _ _ _ Hthis). unfold bind at 1.
  rewrite (forEach_eligible
             (EagleJS.capable v K_innerHTML EagleJS.isElement)
             (eligible v K_innerHTML EagleJS.isElement)
             (fun r => set_innerHTML r value)) with (st0 := st); try done.
  - intros r s. apply kinds_kept_set_innerHTML.
  - intros ns ns' item. by apply eligible_kinds; constructor.
  - intros s item. apply capable_live.
  - intros ns item. by apply eligible_node; [constructor |].
Qed.

Lemma text_get :
  EagleJS.text v this None st
  = (Ok (get_first (eligible v K_textContent EagleJS.isNode (nodes st))
           (fun r => EagleJS.of_nullable (textContent (nodes st) r))
           RetNull items), st).
Proof.
  unfold EagleJS.text. unfold bind at 1.
  rewrite (get_array_Some _ _ _ Hthis).
  destruct (some_with_first
              (EagleJS.capable v K_textContent EagleJS.isNode)
              (eligible v K_textContent EagleJS.isNode (nodes st))
              (fun ns r => EagleJS.of_nullable (textContent ns r))
              RetNull st items) as [b Hb].
  - intros item Hitem. apply capable_live. by eapply live_item.
  - intros item. by apply eligible_node; [constructor |].
  - cbv beta in Hb. unfold bind at 1. by rewrite Hb.
Qed.

Lemma text_set (value : string) :
  EagleJS.text v this (Some value) st
  = set_all (eligible v K_textContent EagleJS.isNode (nodes st))
      (fun r => set_textContent r value) this items st.
Proof.
  unfold EagleJS.text, set_all. unfold bind at 1.
  rewrite (get_array_Some _ _ _ Hthis). unfold bind at 1.
  rewrite (forEach_eligible
             (EagleJS.capable v K_textContent EagleJS.isNode)
             (eligible v K_textContent EagleJS.isNode)
             (fun r => set_textContent r value)) with (st0 := st); try done.
  - intros r s. apply kinds_kept_set_textContent.
  - intros ns ns' item. by apply eligible_kinds; constructor.
  - intros s item. apply capable_live.
  - intros ns item. by apply eligible_node; [constructor |].
Qed.

End Accessors.

Lemma assoc_get_set (k v : string) (l : list (string * string)) :
  assoc_get k (assoc_set k v l) = Some v.
Proof.
  induction l as [| [k' v'] l IH]; simpl.
  - by rewrite bool_decide_eq_true_2.
  - destruct (bool_decide (k' = k)) eqn:Hk; simpl.
    + by rewrite bool_decide_eq_true_2.
    + by rewrite Hk.
Qed.

Lemma eligible_refs_elem (ok : Value -> bool) (items : list Value) (r : ref) :
  r ∈ eligible_refs ok items <-> VNode r ∈ items /\ ok (VNode r) = true.
Proof.
  induction items as [| x items IH]; simpl.
  - split; [intros Hr; by inversion Hr | intros [Hr _]; by inversion Hr].
  - destruct x; simpl; rewrite ?IH;
      try (split; [intros [Hin Hok]; split; [by right | done]
                  | intros [Hin Hok]; split; [| done];
                    apply elem_of_cons in Hin as [Heq | Hin];
                    [discriminate | done]]).
    destruct (ok (VNode r0)) eqn:Hr0.
    + rewrite elem_of_cons, IH. split.
      * intros [-> | [Hin Hok]]; [split; [by left | done] |].
        split; [by right | done].
      * intros [Hin Hok]. apply elem_of_cons in Hin as [[= ->] | Hin];
          [by left | by right].
    + rewrite IH. split.
      * intros [Hin Hok]. split; [by right | done].
      * intros [Hin Hok]. apply elem_of_cons in Hin as [[= ->] | Hin];
          [congruence | done].
Qed.

(** The change steps leave the attributes, and [setAttribute] writes the
    lower-cased name. *)
Lemma attributes_attribute_changed (name : string) (value : option string)
    (s : Shape) :
  attributes (attribute_changed name value s) = attributes s.
Proof.
  unfold attribute_changed.
  destruct (data_key name); by destruct (bool_decide (name = "class")).
Qed.

Lemma attributes_attribute_set (name value : string) (s : Shape) :
  attributes (attribute_set name value s)
  = assoc_set (ascii_lowercase name) value (attributes s).
Proof. unfold attribute_set. by rewrite attributes_attribute_changed. Qed.

(** After [setAttribute] on each of [refs], each has the attribute. *)
Lemma setAttribute_all `{Engines} (name value : string) (refs : list ref)
    (st : State) :
  attribute_name_valid name = true ->
  Forall (fun r => r < length (nodes st)) refs ->
  exists st',
    forEach (fun r => setAttribute r name value) refs st = (Ok tt, st')
    /\ arrays st' = arrays st
    /\ Forall (fun r => getAttribute (nodes st') r name = Some value) refs.
Proof.
  intros Hvalid Hrefs.
  destruct (forEach_post (fun r => r < length (nodes st))
              (fun s => length (nodes s) = length (nodes st)
                        /\ arrays s = arrays st)
              (fun r s => getAttribute (nodes s) r name = Some value)
              (fun r => setAttribute r name value)) with (l := refs) (st := st)
    as (st' & Hrun & [_ Harr] & Hall & _); try done.
  - intros r s Hr [Hlen Ha]. unfold setAttribute. rewrite Hvalid.
    eexists. split; [reflexivity |]. simpl. split.
    + split; [by rewrite length_alter | done].
    + unfold getAttribute, shape_of. rewrite list_lookup_alter_eq.
      destruct (lookup_lt_is_Some_2 (nodes s) r ltac:(lia)) as [n Hn].
      rewrite Hn. simpl. rewrite attributes_attribute_set.
      apply assoc_get_set.
  - intros x y s s' Hy [Hlen Ha] Hx. unfold setAttribute. rewrite Hvalid.
    intros [= <-]. simpl. unfold getAttribute, shape_of in *.
    destruct (decide (y = x)) as [-> | Hne].
    + rewrite list_lookup_alter_eq.
      destruct (nodes s !! x); simpl in *; [| done].
      rewrite attributes_attribute_set. apply assoc_get_set.
    + by rewrite list_lookup_alter_ne.
  - by exists st'.
Qed.

(** C7. For each get-or-set accessor, in each source, on a collection of
    live items: with a value, the call is the set operation on every
    eligible member, in order, followed by the return of the receiver; with
    no value, it returns, without changing the state, the accessor value of
    the first eligible member, or the default ([null] for attr and text,
    [undefined] for data with a key, an empty object for data without,
    the empty string for html).  For attr, a valid name ends up with the
    value on every eligible member.  On the three elements of the page with
    the ids [a], [b], [c]: [attr('id')] is [a], and [attr('id', 'z')]
    returns the receiver and leaves every id [z]. *)
Theorem accessors_first_or_all `{Engines} (v : Variant) (this : loc)
    (items : list Value) (st : State) :
  arrays st !! this = Some items ->
  Forall (live (nodes st)) items ->
  let ns := nodes st in
  (forall name,
     EagleJS.attr v this name None st
     = (Ok (get_first (eligible v K_getAttribute EagleJS.isElement ns)
              (fun r => EagleJS.of_nullable (getAttribute ns r name))
              RetNull items), st))
  /\ (forall name value,
        EagleJS.attr v this name (Some value) st
        = set_all (eligible v K_setAttribute EagleJS.isElement ns)
            (fun r => setAttribute r name value) this items st)
  /\ (forall name value,
        attribute_name_valid name = true ->
        exists st',
          EagleJS.attr v this name (Some value) st = (Ok (RetThis this), st')
          /\ arrays st' = arrays st
          /\ forall r, VNode r ∈ items ->
               eligible v K_setAttribute EagleJS.isElement ns (VNode r) = true ->
               getAttribute (nodes st') r name = Some value)
  /\ (forall key,
        EagleJS.data this (Some key) None st
        = (Ok (get_first (probe K_dataset ns)
                 (fun r => EagleJS.of_optional
                             (dataset_get ns r (camelCase key)))
                 RetUndefined items), st))
  /\ EagleJS.data this None None st
     = (Ok (get_first (probe K_dataset ns) RetDataset RetEmptyObject items),
        st)
  /\ (forall key value,
        EagleJS.data this (Some key) (Some value) st
        = set_all (probe K_dataset ns)
            (fun r => dataset_set r (camelCase key) value) this items st)
  /\ EagleJS.html v this None st
     = (Ok (get_first (eligible v K_innerHTML EagleJS.isElement ns)
              (fun r => RetStr (innerHTML ns r)) (RetStr "") items), st)
  /\ (forall value,
        EagleJS.html v this (Some value) st
        = set_all (eligible v K_innerHTML EagleJS.isElement ns)
            (fun r => set_innerHTML r value) this items st)
  /\ EagleJS.text v this None st
     = (Ok (get_first (eligible v K_textContent EagleJS.isNode ns)
              (fun r => EagleJS.of_nullable (textContent ns r))
              RetNull items), st)
  /\ (forall value,
        EagleJS.text v this (Some value) st
        = set_all (eligible v K_textContent EagleJS.isNode ns)
            (fun r => set_textContent r value) this items st)
  /\ (fst (EagleJS.attr (H := Demo.engines) v 2 "id" None Demo.trio)
      = Ok (RetStr "a")
      /\ fst (EagleJS.attr (H := Demo.engines) v 2 "id" (Some "z") Demo.trio)
         = Ok (RetThis 2)
      /\ map (fun r =>
                getAttribute
                  (nodes (snd (EagleJS.attr (H := Demo.engines) v 2 "id"
                                 (Some "z") Demo.trio))) r "id") [3; 4; 5]
         = [Some "z"; Some "z"; Some "z"]).
Proof.
  intros Hthis Hlive ns. subst ns.
  split; [intros; apply (attr_get v this items st Hthis Hlive) |].
  split; [intros; apply (attr_set v this items st Hthis Hlive) |].
  split.
  { intros name value Hvalid.
    rewrite (attr_set v this items st Hthis Hlive). unfold set_all, bind.
    destruct (setAttribute_all name value
                (eligible_refs
                   (eligible v K_setAttribute EagleJS.isElement (nodes st))
                   items) st Hvalid) as (st' & Hrun & Harr & Hall).
    - apply Forall_forall. intros r Hr. apply eligible_refs_elem in Hr as [Hr _].
      rewrite Forall_forall in Hlive. by apply (Hlive _ Hr).
    - rewrite Hrun. exists st'. split; [done |]. split; [done |].
      intros r Hr Hok. rewrite Forall_forall in Hall. apply Hall.
      by apply eligible_refs_elem. }
  split; [intros; apply (data_get this items st Hthis Hlive) |].
  split; [apply (data_get_all this items st Hthis Hlive) |].
  split; [intros; apply (data_set this items st Hthis Hlive) |].
  split; [apply (html_get v this items st Hthis Hlive) |].
  split; [intros; apply (html_set v this items st Hthis Hlive) |].
  split; [apply (text_get v this items st Hthis Hlive) |].
  split; [intros; apply (text_set v this items st Hthis Hlive) |].
  by destruct v.
Qed.

(** The three elements of the page. *)
Lemma accessors_first_or_all_witness :
  exists st',
    EagleJS.attr (H := Demo.engines) Typed 2 "id" (Some "z") Demo.trio
    = (Ok (RetThis 2), st')
    /\ arrays st' = arrays Demo.trio
    /\ forall r, VNode r ∈ [VNode 3; VNode 4; VNode 5] ->
         eligible Typed K_setAttribute EagleJS.isElement (nodes Demo.trio)
           (VNode r) = true ->
         getAttribute (nodes st') r "id" = Some "z".
Proof.
  refine (proj1 (proj2 (proj2
    (accessors_first_or_all (H := Demo.engines) Typed 2
       [VNode 3; VNode 4; VNode 5] Demo.trio _ _))) "id" "z" _).
  - reflexivity.
  - repeat (apply Forall_cons; split;
              [split; [reflexivity | intros r [= <-]; simpl; lia] |]).
    constructor.
  - reflexivity.
Defined.

(** ** The constructor *)

Lemma bind_ext {A B} (m : M A) (k k' : A -> M B) (st : State) :
  (forall a s, k a s = k' a s) -> bind m k st = bind m k' st.
Proof.
  intros Hk. unfold bind. destruct (m st) as [[a | e] s]; [apply Hk | done].
Qed.

(** *** The bound on the nested calls is never reached

    The typed constructor calls itself on the context, whose own context
    is then the document: three nested calls at most.  The legacy
    constructor may further call itself for the body of a new document:
    four nested calls at most. *)

Lemma context_or_default_spec (context : Arg) (st : State) :
  EagleJS.context_or_default context st = (Ok (effective_context st context), st).
Proof.
  destruct context as [w | l | f]; try done. by destruct w.
Qed.

Lemma bind_context_or_default {B} (context : Arg) (k : Arg -> M B)
    (st : State) :
  (let! c := EagleJS.context_or_default context in k c) st
  = k (effective_context st context) st.
Proof. unfold bind. by rewrite context_or_default_spec. Qed.

Lemma construct_typed_fuel `{Engines} (n : nat) (selector context : Arg)
    (st : State) :
  EagleJS.construct_typed (S (S (S n))) selector context st
  = EagleJS.construct_typed 3 selector context st.
Proof. reflexivity. Qed.

Lemma construct_legacy_fuel `{Engines} (n : nat) (selector context : Arg)
    (st : State) :
  EagleJS.construct_legacy (S (S (S (S n)))) selector context st
  = EagleJS.construct_legacy 4 selector context st.
Proof. reflexivity. Qed.

(** *** Parsing markup *)

(** Instantiating templates only appends nodes. *)
Lemma instantiate_prefix (t : Template) :
  forall parent ns, exists extra, snd (instantiate parent t ns) = ns ++ extra.
Proof.
  induction t as [s kids IH] using Template_induction. intros parent ns.
  rewrite instantiate_unfold. cbv zeta.
  assert (Hall : forall p l, exists extra,
            snd (instantiate_all p kids l) = l ++ extra).
  { clear parent ns. induction kids as [| k kids IHk]; intros p l; simpl.
    - exists []. by rewrite app_nil_r.
    - apply Forall_cons in IH as [Hk Hkids].
      destruct (Hk p l) as [e1 He1]. destruct (instantiate p k l) as [c l'].
      simpl in He1. subst l'.
      destruct (IHk Hkids p (l ++ e1)) as [e2 He2].
      destruct (instantiate_all p kids (l ++ e1)) as [cs l'']. simpl in *.
      exists (e1 ++ e2). by rewrite He2, app_assoc. }
  destruct (Hall (Some (length ns))
              (ns ++ [mkNode s parent [] (initial_readyState s)]))
    as [extra He].
  destruct (instantiate_all _ kids _) as [cs ns2]. simpl in *. subst ns2.
  rewrite <- app_assoc.
  exists (alter (set_children cs) 0
            ([mkNode s parent [] (initial_readyState s)] ++ extra)).
  rewrite alter_app_r_alt by lia. by rewrite Nat.sub_diag.
Qed.

Lemma instantiate_all_prefix (kids : list Template) :
  forall parent ns,
    exists extra, snd (instantiate_all parent kids ns) = ns ++ extra.
Proof.
  induction kids as [| k kids IH]; intros p l; simpl.
  - exists []. by rewrite app_nil_r.
  - destruct (instantiate_prefix k p l) as [e1 He1].
    destruct (instantiate p k l) as [c l']. simpl in He1. subst l'.
    destruct (IH p (l ++ e1)) as [e2 He2].
    destruct (instantiate_all p kids (l ++ e1)) as [cs l'']. simpl in *.
    exists (e1 ++ e2). by rewrite He2, app_assoc.
Qed.

(** A represented tree stays represented when the heap changes below
    [lo] or grows. *)
Lemma represents_stable (ns ns' : list Node) (lo : nat) (t : Template) :
  (forall i n, lo <= i -> ns !! i = Some n -> ns' !! i = Some n) ->
  forall parent r, represents ns lo parent r t -> represents ns' lo parent r t.
Proof.
  intros Hsame. induction t as [s kids IH] using Template_induction.
  intros parent r Hr. inversion Hr as [p r' s' kids' cs Hlo Hnode Hkids];
    subst.
  econstructor; [done | by apply Hsame |].
  clear Hnode Hr. induction Hkids as [| c k cs kids Hc Hrest IHrest].
  - constructor.
  - apply Forall_cons in IH as [Hk Hks]. constructor; [by apply Hk |].
    by apply IHrest.
Qed.

Lemma represents_lower (ns : list Node) (lo lo' : nat) (t : Template) :
  lo' <= lo ->
  forall parent r, represents ns lo parent r t -> represents ns lo' parent r t.
Proof.
  intros Hle. induction t as [s kids IH] using Template_induction.
  intros parent r Hr. inversion Hr as [p r' s' kids' cs Hlo Hnode Hkids];
    subst.
  econstructor; [lia | done |].
  clear Hnode Hr. induction Hkids as [| c k cs kids Hc Hrest IHrest].
  - constructor.
  - apply Forall_cons in IH as [Hk Hks]. constructor; [by apply Hk |].
    by apply IHrest.
Qed.


Lemma Forall2_represents_weaken (ns ns' : list Node) (lo lo' : nat)
    (p : option ref) (cs : list ref) (kids : list Template) :
  lo' <= lo ->
  (forall i n, lo <= i -> ns !! i = Some n -> ns' !! i = Some n) ->
  Forall2 (represents ns lo p) cs kids ->
  Forall2 (represents ns' lo' p) cs kids.
Proof.
  intros Hle Hsame Hall. induction Hall as [| c k cs kids Hc Hrest IH].
  - constructor.
  - constructor; [| done].
    apply (represents_lower _ lo); [done |]. by apply (represents_stable ns).
Qed.

Lemma instantiate_all_instantiated (kids : list Template) :
  Forall (fun k => forall parent ns,
            instantiated parent k ns (fst (instantiate parent k ns))
              (snd (instantiate parent k ns))) kids ->
  forall p l,
    (exists extra, snd (instantiate_all p kids l) = l ++ extra)
    /\ Forall2 (represents (snd (instantiate_all p kids l)) (length l) p)
         (fst (instantiate_all p kids l)) kids.
Proof.
  induction kids as [| k kids IH]; intros Hkids p l; simpl.
  - split; [exists []; by rewrite app_nil_r | constructor].
  - apply Forall_cons in Hkids as [Hk Hkids].
    destruct (Hk p l) as (Hc & [e1 He1] & Hrep).
    destruct (instantiate p k l) as [c l1]. simpl in *. subst c l1.
    destruct (IH Hkids p (l ++ e1)) as ([e2 He2] & Hall).
    destruct (instantiate_all p kids (l ++ e1)) as [cs l2]. simpl in *.
    subst l2. split; [exists (e1 ++ e2); by rewrite app_assoc |].
    constructor.
    + apply (represents_stable (l ++ e1)); [| done].
      intros i n _ Hi. by apply lookup_app_l_Some.
    + apply (Forall2_represents_weaken (((l ++ e1) ++ e2)) _ (length (l ++ e1)));
        [rewrite length_app; lia | done | done].
Qed.

(** [instantiate] builds the template. *)
Lemma instantiate_instantiated (t : Template) :
  forall parent ns,
    instantiated parent t ns (fst (instantiate parent t ns))
      (snd (instantiate parent t ns)).
Proof.
  induction t as [s kids IH] using Template_induction. intros parent ns.
  rewrite instantiate_unfold. cbv zeta.
  destruct (instantiate_all_instantiated kids IH (Some (length ns))
              (ns ++ [mkNode s parent [] (initial_readyState s)]))
    as ([extra He] & Hall).
  destruct (instantiate_all _ kids _) as [cs ns2]. simpl in *. subst ns2.
  assert (Hroot : ((ns ++ [mkNode s parent [] (initial_readyState s)])
                   ++ extra) !! length ns
                  = Some (mkNode s parent [] (initial_readyState s))).
  { rewrite <- app_assoc. rewrite lookup_app_r by lia.
    by rewrite Nat.sub_diag. }
  split; [done |]. split.
  - rewrite <- app_assoc.
    exists (alter (set_children cs) 0
              ([mkNode s parent [] (initial_readyState s)] ++ extra)).
    rewrite alter_app_r_alt by lia. by rewrite Nat.sub_diag.
  - econstructor; [done | |].
    + rewrite list_lookup_alter_eq, Hroot. reflexivity.
    + eapply Forall2_represents_weaken; [| | exact Hall].
      * rewrite length_app. simpl. lia.
      * intros i n Hi Hn. rewrite length_app in Hi. simpl in Hi.
        rewrite list_lookup_alter_ne by lia. done.
Qed.

(** The document that the parser returns has a [body], whose children are
    the roots of the parsed templates. *)
Lemma parseFromString_body `{Engines} (markup : string) (st : State) :
  exists b ns',
    parseFromString markup st
    = (Ok (length (nodes st)), with_nodes (fun _ => ns') st)
    /\ (exists extra, ns' = nodes st ++ extra)
    /\ body ns' (length (nodes st)) = Some b
    /\ Forall2 (represents ns' (length (nodes st)) (Some b))
         (children_of ns' b) (parse_document_body markup).
Proof.
  unfold parseFromString.
  destruct (instantiate_instantiated
              (Tpl document_shape
                 [Tpl (element_shape "html")
                    [Tpl (element_shape "head") [];
                     Tpl (element_shape "body") (parse_document_body markup)]])
              None (nodes st)) as (Hd & Hext & Hrep).
  destruct (instantiate None _ (nodes st)) as [d ns']. simpl in *. subst d.
  inversion Hrep as [p0 r0 s0 k0 cs0 _ Hdoc Hkids0]; subst.
  inversion Hkids0 as [| c1 t1 cs1 ts1 Hhtml Hnil]; subst.
  inversion Hnil; subst. clear Hnil Hkids0.
  inversion Hhtml as [p1 r1 s1 k1 cs1 _ Hroot Hkids1]; subst.
  inversion Hkids1 as [| c2 t2 cs2 ts2 Hhead Hrest]; subst.
  inversion Hrest as [| c3 t3 cs3 ts3 Hbody Hnil]; subst.
  inversion Hnil; subst. clear Hnil Hrest Hkids1.
  inversion Hhead as [p2 r2 s2 k2 cs2 _ Hheadnode _]; subst.
  inversion Hbody as [p3 r3 s3 k3 cs3 _ Hbodynode Hkids3]; subst.
  exists c3, ns'. split; [done |]. split; [done |].
  assert (Hb : body ns' (length (nodes st)) = Some c3).
  { unfold body, element_children, children_of, is_element, type_of, shape_of.
    rewrite Hdoc. simpl. rewrite Hroot. simpl. rewrite Hroot. simpl.
    rewrite Hheadnode. simpl.
    destruct (decide (c2 = c3)) as [-> | Hne].
    - rewrite Hheadnode in Hbodynode. discriminate.
    - by rewrite Hbodynode. }
  split; [done |]. unfold children_of. by rewrite Hbodynode.
Qed.

(** The filter of [push] keeps every node when the receiver is empty. *)
Lemma push_nodes_empty (this : loc) (cs : list ref) (st : State) :
  arrays st !! this = Some [] ->
  EagleJS.push this (map VNode cs) st
  = (Ok (length cs),
     with_arrays (fun h => <[this := map VNode cs]> h) st).
Proof.
  intros Hthis. unfold EagleJS.push. unfold bind at 1.
  rewrite (get_array_Some _ _ _ Hthis). cbv beta zeta.
  assert (Hkept : List.filter
            (fun item => EagleJS.isDOMItem item && negb (includes [] item))
            (map VNode cs) = map VNode cs).
  { induction cs as [| c cs IH]; [done |]. simpl. f_equal. exact IH. }
  rewrite Hkept. unfold EagleJS.set_array, bind, modify, ret. simpl.
  by rewrite length_map.
Qed.

(** The typed constructor on markup: the collection holds the children of
    the body of the parsed document, whatever the context. *)
Lemma construct_typed_markup `{Engines} (s : string) (context : Arg)
    (st : State) :
  test_html s = true ->
  exists b st',
    EagleJS.constructor Typed (ArgValue (VStr s)) context st
    = (Ok (length (arrays st)), st')
    /\ (exists extra, nodes st' = nodes st ++ extra)
    /\ body (nodes st') (length (nodes st)) = Some b
    /\ fst (parseFromString s st) = Ok (length (nodes st))
    /\ arrays st' = arrays st ++ [map VNode (children_of (nodes st') b)]
    /\ Forall2 (represents (nodes st') (length (nodes st)) (Some b))
         (children_of (nodes st') b) (parse_document_body s).
Proof.
  intros Hhtml. unfold EagleJS.constructor. simpl. rewrite Hhtml.
  rewrite bind_context_or_default.
  unfold bind at 1. rewrite new_array_spec. simpl.
  set (st0 := with_arrays (fun h => h ++ [[]]) st).
  destruct (parseFromString_body s st0) as (b & ns' & Hparse & Hext & Hb & Hrep).
  destruct (parseFromString_body s st) as (b2 & ns2 & Hparse2 & _).
  unfold bind at 1. rewrite Hparse. unfold bind at 1. unfold get at 1.
  simpl in Hb |- *. rewrite Hb. unfold bind at 1.
  rewrite push_nodes_empty.
  2:{ simpl. rewrite lookup_app_r by done. by rewrite Nat.sub_diag. }
  unfold ret. exists b. eexists. split; [reflexivity |]. simpl.
  split; [done |]. split; [done |]. split; [by rewrite Hparse2 |].
  split; [| done].
  rewrite insert_app_r_alt by done. by rewrite Nat.sub_diag.
Qed.

(** *** The regular expression of the constructor *)

Lemma skip_spaces_split (l : list ascii) :
  exists ws,
    l = ws ++ skip_spaces l
    /\ Forall (fun c => regex_space c = true) ws
    /\ match skip_spaces l with
       | c :: _ => regex_space c = false
       | [] => True
       end.
Proof.
  induction l as [| c l IH]; simpl.
  - exists []. by repeat split.
  - destruct (regex_space c) eqn:Hc.
    + destruct IH as (ws & Hl & Hws & Hhead). exists (c :: ws).
      split; [simpl; by rewrite <- Hl |]. split; [by constructor | done].
    + exists []. by repeat split.
Qed.

Lemma skip_spaces_app (ws : list ascii) (c : ascii) (l : list ascii) :
  Forall (fun x => regex_space x = true) ws -> regex_space c = false ->
  skip_spaces (ws ++ c :: l) = c :: l.
Proof.
  intros Hws Hc. induction Hws as [| x ws Hx Hws IH]; simpl.
  - by rewrite Hc.
  - by rewrite Hx.
Qed.

(** The test of the source accepts exactly the strings of the pattern,
    read with [.] not matching a line terminator. *)
Lemma test_html_chars_spec (l : list ascii) :
  test_html_chars l = true <-> html_shaped false l.
Proof.
  unfold test_html_chars, html_shaped. split.
  - destruct (skip_spaces_split l) as (ws1 & Hl & Hws1 & _).
    destruct (skip_spaces l) as [| c rest]; [discriminate |].
    intros Htest. apply andb_true_iff in Htest as [Hc Htest].
    apply Ascii.eqb_eq in Hc. subst c.
    destruct (skip_spaces_split (rev rest)) as (ws2 & Hrev & Hws2 & _).
    destruct (skip_spaces (rev rest)) as [| d inner]; [discriminate |].
    apply andb_true_iff in Htest as [Htest Hlt].
    apply andb_true_iff in Htest as [Hd Hne].
    apply Ascii.eqb_eq in Hd. subst d.
    exists ws1, (rev inner), (rev ws2).
    assert (Hrest : rest = rev inner ++ ">"%char :: rev ws2).
    { rewrite <- (rev_involutive rest), Hrev, rev_app_distr. simpl.
      by rewrite <- app_assoc. }
    split; [by rewrite Hl at 1; rewrite Hrest |].
    split; [done |]. split; [by apply Forall_rev |]. split.
    + apply negb_true_iff, bool_decide_eq_false in Hne.
      intros Hnil. apply Hne. rewrite <- (rev_involutive inner), Hnil. done.
    + intros _. apply Forall_rev. apply Forall_forall. intros x Hx.
      rewrite forallb_forall in Hlt. apply negb_true_iff, Hlt.
      by apply list_elem_of_In.
  - intros (ws1 & inner & ws2 & -> & Hws1 & Hws2 & Hne & Hlt).
    rewrite skip_spaces_app by done. simpl.
    rewrite rev_app_distr. simpl. rewrite <- app_assoc. simpl.
    rewrite skip_spaces_app; [| by apply Forall_rev | done]. simpl.
    apply andb_true_iff. split.
    + apply negb_true_iff, bool_decide_eq_false. intros Hnil.
      apply Hne. rewrite <- (rev_involutive inner), Hnil. done.
    + apply forallb_forall. intros x Hx. apply negb_true_iff.
      specialize (Hlt eq_refl). rewrite Forall_forall in Hlt. apply Hlt.
      apply list_elem_of_In. by apply in_rev.
Qed.

(** *** The dispatch on a string *)

Lemma construct_selector `{Engines} (v : Variant) (s : string)
    (context : Arg) (st : State) :
  test_html s = false ->
  EagleJS.constructor v (ArgValue (VStr s)) context st
  = (EagleJS.new_array ;; query_context v s (effective_context st context)) st.
Proof.
  intros Hsel. unfold EagleJS.constructor, query_context.
  destruct v; simpl; rewrite Hsel, bind_context_or_default; reflexivity.
Qed.

Lemma construct_legacy_markup `{Engines} (s : string) (context : Arg)
    (st : State) :
  test_html s = true ->
  EagleJS.constructor Legacy (ArgValue (VStr s)) context st
  = if EagleJS.arg_isDocument (nodes st) (effective_context st context)
    then (EagleJS.new_array ;; markup_legacy s) st
    else (Ok (length (arrays st)), with_arrays (fun h => h ++ [[]]) st).
Proof.
  intros Hhtml. unfold EagleJS.constructor, markup_legacy. simpl.
  rewrite Hhtml, bind_context_or_default.
  unfold bind at 1. rewrite new_array_spec. simpl.
  unfold bind at 1. unfold get at 1.
  change (nodes (with_arrays (fun h => h ++ [[]]) st)) with (nodes st).
  destruct (EagleJS.arg_isDocument (nodes st) (effective_context st context));
    reflexivity.
Qed.

(** ** Content insertion: after, before, append, prepend *)

(** The loop with its flag is the distribution in two phases. *)
Lemma forEach_with_distribute {B}
    (place : Value -> M (option (ref * option ref))) (nodeArray : list ref)
    (body : bool -> Value -> M bool) (k : M B) :
  (forall first item st,
     body first item st
     = (let! p := place item in
        match p with
        | Some p =>
            (if first then insert_originals nodeArray p
             else insert_clones nodeArray p) ;;
            ret false
        | None => ret first
        end) st) ->
  forall items st,
    (EagleJS.forEach_with body false items ;; k) st
    = (clone_into_each place nodeArray items ;; k) st
    /\ (EagleJS.forEach_with body true items ;; k) st
       = (distribute place nodeArray items ;; k) st.
Proof.
  intros Hbody. induction items as [| item rest IH]; intros st; [done |].
  simpl. unfold bind in IH |- *. rewrite !Hbody. unfold bind.
  destruct (place item st) as [[[p |] | e] st1]; [| | done].
  - destruct (insert_clones nodeArray p st1) as [[[] | e1] s1];
      destruct (insert_originals nodeArray p st1) as [[[] | e2] s2];
      unfold ret; split; try done; apply (proj1 (IH _)).
  - unfold ret. apply IH.
Qed.

Lemma insertion_distribution (v : Variant) (op : Insertion) (this : loc)
    (content : list Content) (st : State) :
  insertion v op this content st = distribution v op this content st.
Proof.
  unfold distribution.
  assert (Hloop : forall (body : bool -> Value -> M bool) (nodeArray : list ref),
    (forall first item s,
       body first item s
       = (let! p := place v op item in
          match p with
          | Some p =>
              (if first then insert_originals nodeArray p
               else insert_clones nodeArray p) ;;
              ret false
          | None => ret first
          end) s) ->
    forall s,
      (let! items := EagleJS.get_array this in
       EagleJS.forEach_with body true (rev items) ;; ret this) s
      = (let! items := EagleJS.get_array this in
         distribute (place v op) nodeArray (rev items) ;; ret this) s).
  { intros body nodeArray Hbody s. unfold bind at 1 3.
    destruct (EagleJS.get_array this s) as [[items | e] s1]; [| done].
    by apply forEach_with_distribute. }
  destruct op; simpl; unfold EagleJS.after, EagleJS.before, EagleJS.append,
    EagleJS.prepend; apply bind_ext; intros nodeArray st1;
    apply (Hloop _ nodeArray); intros first item s.
  - unfold place, bind, get. cbv beta iota.
    destruct (EagleJS.isChildNode (nodes s) item); [| done].
    destruct (EagleJS.item_parent (nodes s) item) as [parent |]; [| done].
    by destruct first.
  - unfold place, bind, get. cbv beta iota.
    destruct (EagleJS.isChildNode (nodes s) item); [| done].
    destruct (EagleJS.item_parent (nodes s) item) as [parent |]; [| done].
    destruct item; try done. by destruct first.
  - unfold place, bind. cbv beta iota.
    destruct (EagleJS.capable v K_querySelector EagleJS.isParentNode item s)
      as [[[] | e] s1]; [| done | done].
    destruct item; try done. by destruct first.
  - unfold place, bind. cbv beta iota.
    destruct (EagleJS.capable v K_querySelector EagleJS.isParentNode item s)
      as [[[] | e] s1]; [| done | done].
    destruct item; try done. by destruct first.
Qed.

(** *** The heap under allocation and attachment *)

Lemma typed_allocated (ns : list Node) (r : ref) :
  type_of ns r <> 0%Z -> r < length ns.
Proof.
  intros Ht. destruct (decide (r < length ns)) as [| Hge]; [done |].
  exfalso. apply Ht. unfold type_of, shape_of.
  by rewrite (proj2 (lookup_ge_None ns r)) by lia.
Qed.

Lemma parent_of_leaf (ns : list Node) (s : Shape) (rs : string) (r : ref) :
  parent_of (ns ++ [mkNode s None [] rs]) r = parent_of ns r.
Proof.
  unfold parent_of. destruct (decide (r < length ns)) as [Hlt | Hge].
  - by rewrite lookup_app_l.
  - rewrite lookup_app_r, (proj2 (lookup_ge_None ns r)) by lia.
    by destruct (r - length ns) as [| [| k]].
Qed.

Lemma children_of_leaf (ns : list Node) (s : Shape) (rs : string) (r : ref) :
  children_of (ns ++ [mkNode s None [] rs]) r = children_of ns r.
Proof.
  unfold children_of. destruct (decide (r < length ns)) as [Hlt | Hge].
  - by rewrite lookup_app_l.
  - rewrite lookup_app_r, (proj2 (lookup_ge_None ns r)) by lia.
    by destruct (r - length ns) as [| [| k]].
Qed.

Lemma shape_of_leaf (ns : list Node) (n : Node) (r : ref) :
  r < length ns -> shape_of (ns ++ [n]) r = shape_of ns r.
Proof. intros Hr. unfold shape_of. by rewrite lookup_app_l. Qed.

Lemma lookup_leaf (ns : list Node) (n : Node) :
  (ns ++ [n]) !! length ns = Some n.
Proof. rewrite lookup_app_r by lia. by rewrite Nat.sub_diag. Qed.

Lemma parent_of_alter (g : Node -> Node) (r r' : ref) (ns : list Node) :
  (forall n, parentNode (g n) = parentNode n) ->
  parent_of (alter g r ns) r' = parent_of ns r'.
Proof.
  intros Hg. unfold parent_of. destruct (decide (r = r')) as [-> | Hne].
  - rewrite list_lookup_alter_eq. destruct (ns !! r'); simpl; [apply Hg | done].
  - by rewrite list_lookup_alter_ne.
Qed.

Lemma children_of_alter (g : Node -> Node) (r r' : ref) (ns : list Node) :
  (forall n, childNodes (g n) = childNodes n) ->
  children_of (alter g r ns) r' = children_of ns r'.
Proof.
  intros Hg. unfold children_of. destruct (decide (r = r')) as [-> | Hne].
  - rewrite list_lookup_alter_eq. destruct (ns !! r'); simpl; [apply Hg | done].
  - by rewrite list_lookup_alter_ne.
Qed.

Lemma length_attach (p : ref) (child : option ref) (r : ref)
    (ns : list Node) :
  length (attach p child r ns) = length ns.
Proof. unfold attach. by rewrite !length_alter. Qed.

Lemma shape_of_attach (p : ref) (child : option ref) (r x : ref)
    (ns : list Node) :
  shape_of (attach p child r ns) x = shape_of ns x.
Proof. unfold attach. by rewrite !shape_of_alter. Qed.

Lemma parent_of_attach (p : ref) (child : option ref) (r : ref)
    (ns : list Node) :
  r < length ns -> parent_of (attach p child r ns) r = Some p.
Proof.
  intros Hr. unfold attach, parent_of. rewrite list_lookup_alter_eq.
  destruct (lookup_lt_is_Some_2
              (alter (fun n => set_children
                         (insert_before child [r] (childNodes n)) n) p ns) r)
    as [n Hn]; [by rewrite length_alter |].
  by rewrite Hn.
Qed.

Lemma parent_of_attach_other (p : ref) (child : option ref) (r x : ref)
    (ns : list Node) :
  x <> r -> parent_of (attach p child r ns) x = parent_of ns x.
Proof.
  intros Hx. unfold attach, parent_of at 1.
  rewrite list_lookup_alter_ne by done.
  by apply (parent_of_alter _ p x ns).
Qed.

Lemma children_of_attach (p : ref) (child : option ref) (r : ref)
    (ns : list Node) :
  p < length ns ->
  children_of (attach p child r ns) p
  = insert_before child [r] (children_of ns p).
Proof.
  intros Hp. unfold attach. rewrite children_of_alter by done.
  unfold children_of. rewrite list_lookup_alter_eq.
  destruct (lookup_lt_is_Some_2 ns p Hp) as [n Hn]. by rewrite Hn.
Qed.

Lemma children_of_attach_other (p : ref) (child : option ref) (r q : ref)
    (ns : list Node) :
  q <> p -> children_of (attach p child r ns) q = children_of ns q.
Proof.
  intros Hq. unfold attach. rewrite children_of_alter by done.
  unfold children_of. by rewrite list_lookup_alter_ne.
Qed.

Lemma elem_of_insert_before (child : option ref) (ins l : list ref) (x : ref) :
  x ∈ insert_before child ins l <-> x ∈ ins \/ x ∈ l.
Proof.
  induction l as [| y l IH]; simpl.
  - rewrite elem_of_nil. tauto.
  - destruct (bool_decide (child = Some y)).
    + by rewrite elem_of_app.
    + rewrite !elem_of_cons, IH. tauto.
Qed.

Lemma sibling_after_elem (r n : ref) (l : list ref) :
  sibling_after r l = Some n -> n ∈ l.
Proof.
  induction l as [| y l IH]; simpl; [done |].
  destruct (decide (y = r)).
  - destruct l as [| z l']; simpl; [done |]. intros [= ->].
    apply elem_of_cons. right. apply elem_of_cons. by left.
  - intros Hn. apply elem_of_cons. right. by apply IH.
Qed.

Lemma linked_leaf (ns : list Node) (s : Shape) (rs : string) :
  linked ns -> linked (ns ++ [mkNode s None [] rs]).
Proof.
  intros Hl p c. rewrite children_of_leaf, parent_of_leaf. apply Hl.
Qed.

Lemma linked_attach (p : ref) (child : option ref) (r : ref)
    (ns : list Node) :
  linked ns -> parent_of ns r = None -> r < length ns -> p < length ns ->
  linked (attach p child r ns).
Proof.
  intros Hl Hfree Hr Hp q c Hc.
  assert (Hold : forall q', c ∈ children_of ns q' ->
            parent_of (attach p child r ns) c = Some q').
  { intros q' Hin. pose proof (Hl q' c Hin) as Hpc.
    rewrite parent_of_attach_other; [done |]. intros ->. congruence. }
  destruct (decide (q = p)) as [-> | Hne].
  - rewrite children_of_attach in Hc by done.
    apply elem_of_insert_before in Hc as [Hc | Hc]; [| by apply Hold].
    apply list_elem_of_singleton in Hc as ->. by apply parent_of_attach.
  - rewrite children_of_attach_other in Hc by done. by apply Hold.
Qed.

(** *** The host calls of the distribution of a text node *)

Lemma subtree_leaf (fuel : nat) (ns : list Node) (r : ref) :
  children_of ns r = [] -> subtree fuel ns r = [r].
Proof. intros Hc. destruct fuel; simpl; [done |]. by rewrite Hc. Qed.

Lemma snapshot_leaf (fuel : nat) (ns : list Node) (r : ref) :
  children_of ns r = [] -> snapshot fuel ns r = Tpl (shape_of ns r) [].
Proof. intros Hc. destruct fuel; simpl; [done |]. by rewrite Hc. Qed.

Lemma accepts_text_type (ns : list Node) (p : ref) :
  accepts_text ns p = true ->
  type_of ns p = 1%Z \/ type_of ns p = 11%Z.
Proof.
  unfold accepts_text, Zincludes. simpl. intros H.
  destruct (Z.eqb_spec (type_of ns p) 1); [by left |].
  destruct (Z.eqb_spec (type_of ns p) 11); [by right | done].
Qed.

Lemma accepts_text_allocated (ns : list Node) (p : ref) :
  accepts_text ns p = true -> p < length ns.
Proof.
  intros H. apply typed_allocated.
  destruct (accepts_text_type ns p H) as [-> | ->]; done.
Qed.

(** Inserting a text node that hangs nowhere, under an element or a
    fragment, attaches it. *)
Lemma insertBefore_text (p n : ref) (child : option ref) (st : State) :
  accepts_text (nodes st) p = true ->
  type_of (nodes st) n = TEXT_NODE ->
  children_of (nodes st) n = [] ->
  parent_of (nodes st) n = None ->
  (forall c, child = Some c -> parent_of (nodes st) c = Some p) ->
  insertBefore p n child st
  = (Ok n, with_nodes (fun _ => attach p child n (nodes st)) st).
Proof.
  intros Hp Hn Hkids Hfree Hchild. unfold insertBefore.
  assert (Hpre : pre_insert_error (nodes st) p n child = None).
  { unfold pre_insert_error. rewrite Hn.
    assert (Hnot : bool_decide (p ∈ subtree (length (nodes st)) (nodes st) n)
                   = false).
    { apply bool_decide_eq_false. rewrite subtree_leaf by done.
      intros Hin. apply list_elem_of_singleton in Hin as ->.
      apply accepts_text_type in Hp. rewrite Hn in Hp.
      by destruct Hp. }
    rewrite Hnot.
    assert (Hc : match child with
                 | Some c =>
                     negb (bool_decide (parent_of (nodes st) c = Some p))
                 | None => false
                 end = false).
    { destruct child as [c |]; [| done].
      by rewrite (bool_decide_eq_true_2 _ (Hchild c eq_refl)). }
    rewrite Hc.
    destruct (accepts_text_type _ _ Hp) as [-> | ->]; reflexivity. }
  rewrite Hpre.
  assert (Href : bool_decide (child = Some n) = false).
  { apply bool_decide_eq_false. intros ->.
    specialize (Hchild n eq_refl). congruence. }
  rewrite Href, Hn. simpl. unfold detach. by rewrite Hfree.
Qed.

(** Cloning a text node allocates a text node with the same data. *)
Lemma cloneNode_text (r : ref) (data : string) (parent : option ref)
    (rs : string) (st : State) :
  nodes st !! r = Some (mkNode (text_shape data) parent [] rs) ->
  cloneNode r true st
  = (Ok (length (nodes st)),
     with_nodes (fun ns => ns ++ [text_leaf data]) st).
Proof.
  intros Hr. unfold cloneNode. rewrite Hr.
  rewrite snapshot_leaf by (unfold children_of; by rewrite Hr).
  unfold shape_of. rewrite Hr. simpl.
  rewrite alter_app_r_alt by lia. by rewrite Nat.sub_diag.
Qed.

(** The place of a node is a function of the tree, in both sources. *)
Lemma place_node (v : Variant) (op : Insertion) (r : ref) (st : State) :
  place v op (VNode r) st
  = (Ok match receiver op (nodes st) r with
        | Some p => Some (p, reference op (nodes st) r)
        | None => None
        end, st).
Proof.
  assert (Hcap : EagleJS.capable v K_querySelector EagleJS.isParentNode
                   (VNode r) st
                 = (Ok (Zincludes [1; 9; 11]%Z (type_of (nodes st) r)), st)).
  { destruct v; simpl.
    - unfold type_of, shape_of. by destruct (nodes st !! r).
    - unfold bind, get, ret, EagleJS.isParentNode, EagleJS.isNode. simpl.
      by destruct (Z.eqb_spec (type_of (nodes st) r) 0) as [-> |]. }
  destruct op; simpl.
  - unfold bind, get, ret, EagleJS.isChildNode. simpl.
    destruct (Z.eqb_spec (type_of (nodes st) r) 0) as [-> |]; [done |].
    simpl. destruct (_ || _); [| done].
    by destruct (parent_of (nodes st) r).
  - unfold bind, get, ret, EagleJS.isChildNode. simpl.
    destruct (Z.eqb_spec (type_of (nodes st) r) 0) as [-> |]; [done |].
    simpl. destruct (_ || _); [| done].
    by destruct (parent_of (nodes st) r).
  - unfold bind at 1. rewrite Hcap. unfold Zincludes. simpl.
    by destruct (_ || _).
  - unfold bind at 1. rewrite Hcap. unfold Zincludes. simpl.
    by destruct (_ || _).
Qed.

Lemma receiver_allocated (op : Insertion) (ns : list Node) (r p : ref) :
  receiver op ns r = Some p -> r < length ns.
Proof.
  intros H. apply typed_allocated. intros Ht.
  destruct op; unfold receiver in H; by rewrite Ht in H.
Qed.

(** The reference child of a target is a child of the receiving parent. *)
Lemma reference_valid (op : Insertion) (ns : list Node) (r p c : ref) :
  linked ns -> receiver op ns r = Some p -> reference op ns r = Some c ->
  parent_of ns c = Some p.
Proof.
  intros Hl Hrec Href. destruct op; unfold receiver, reference in *.
  - destruct (Zincludes _ _); [| done]. unfold nextSibling in Href.
    rewrite Hrec in Href. apply Hl. by apply (sibling_after_elem r).
  - destruct (Zincludes _ _); [| done]. by injection Href as <-.
  - done.
  - destruct (Zincludes _ _); [| done]. injection Hrec as ->.
    apply Hl. unfold firstChild in Href.
    destruct (children_of ns p) as [| y l]; [done |].
    injection Href as ->. apply elem_of_cons. by left.
Qed.

(** The receiving parent of a node depends on its type and its parent. *)
Lemma receiver_kept (op : Insertion) (ns ns' : list Node) (r : ref) :
  shape_of ns' r = shape_of ns r -> parent_of ns' r = parent_of ns r ->
  receiver op ns' r = receiver op ns r.
Proof.
  intros Hs Hp. unfold receiver, type_of. by rewrite Hs, Hp.
Qed.

Lemma accepts_text_kept (ns ns' : list Node) (p : ref) :
  shape_of ns' p = shape_of ns p -> accepts_text ns' p = accepts_text ns p.
Proof. intros Hs. unfold accepts_text, type_of. by rewrite Hs. Qed.

(** One text input over the two targets [a] then [b]: the heap that
    results. *)
Lemma text_over_two_targets (v : Variant) (op : Insertion) (this : loc)
    (data : string) (a b pa pb : ref) (st : State) :
  arrays st !! this = Some [VNode a; VNode b] ->
  linked (nodes st) ->
  receiver op (nodes st) a = Some pa ->
  receiver op (nodes st) b = Some pb ->
  accepts_text (nodes st) pa = true ->
  accepts_text (nodes st) pb = true ->
  insertion v op this [CText data] st
  = (Ok this,
     with_nodes (fun _ => text_distributed op data a b pa pb (nodes st)) st).
Proof.
  intros Hthis Hl Ha Hb Hpa Hpb. rewrite insertion_distribution.
  set (ns := nodes st) in *. set (t := length ns).
  set (ns1 := ns ++ [text_leaf data]).
  set (ns2 := attach pb (reference op ns1 b) t ns1).
  set (ns3 := ns2 ++ [text_leaf data]).
  pose proof (receiver_allocated _ _ _ _ Ha) as Hla.
  pose proof (receiver_allocated _ _ _ _ Hb) as Hlb.
  pose proof (accepts_text_allocated _ _ Hpa) as Hlpa.
  pose proof (accepts_text_allocated _ _ Hpb) as Hlpb.
  assert (Hlen1 : length ns1 = S t) by (unfold ns1; rewrite length_app; simpl; lia).
  assert (Hlen2 : length ns2 = S t) by (unfold ns2; by rewrite length_attach).
  (* the first visit: [b], with the text node itself *)
  set (st1 := with_nodes (fun l => l ++ [text_leaf data]) st).
  assert (Ht1 : ns1 !! t = Some (text_leaf data)) by apply lookup_leaf.
  assert (Hb1 : receiver op ns1 b = Some pb).
  { rewrite <- Hb. apply receiver_kept;
      [by apply shape_of_leaf | apply parent_of_leaf]. }
  assert (Hl1 : linked ns1) by by apply linked_leaf.
  assert (Hins1 : insertBefore pb t (reference op ns1 b) st1
                  = (Ok t, with_nodes (fun _ => ns2) st1)).
  { apply insertBefore_text.
    - change (nodes st1) with ns1. rewrite <- Hpb.
      apply accepts_text_kept. by apply shape_of_leaf.
    - change (nodes st1) with ns1. unfold type_of, shape_of. by rewrite Ht1.
    - change (nodes st1) with ns1. unfold children_of. by rewrite Ht1.
    - change (nodes st1) with ns1. unfold parent_of. by rewrite Ht1.
    - intros c Hc. by apply (reference_valid op ns1 b). }
  (* the second visit: [a], with a clone *)
  set (st2 := with_nodes (fun _ => ns2) st1).
  assert (Ht2 : ns2 !! t
                = Some (mkNode (text_shape data) (Some pb) [] "")).
  { unfold ns2, attach. rewrite list_lookup_alter_eq.
    rewrite list_lookup_alter_ne by lia. by rewrite Ht1. }
  assert (Hl2 : linked ns2).
  { apply linked_attach; [done | | lia | lia].
    unfold parent_of. by rewrite Ht1. }
  assert (Ha2 : receiver op ns2 a = Some pa).
  { rewrite <- Ha. apply receiver_kept.
    - unfold ns2. rewrite shape_of_attach. by apply shape_of_leaf.
    - unfold ns2. rewrite parent_of_attach_other by lia.
      apply parent_of_leaf. }
  assert (Hclone : cloneNode t true st2
                   = (Ok (S t), with_nodes (fun l => l ++ [text_leaf data]) st2)).
  { rewrite (cloneNode_text t data (Some pb) "" st2 Ht2).
    change (nodes st2) with ns2. by rewrite Hlen2. }
  set (st3 := with_nodes (fun l => l ++ [text_leaf data]) st2).
  assert (Hc3 : ns3 !! S t = Some (text_leaf data)).
  { rewrite <- Hlen2. apply lookup_leaf. }
  assert (Hins2 : insertBefore pa (S t) (reference op ns2 a) st3
                  = (Ok (S t),
                     with_nodes (fun _ => attach pa (reference op ns2 a)
                                            (S t) ns3) st3)).
  { apply insertBefore_text.
    - change (nodes st3) with ns3. rewrite <- Hpa.
      apply accepts_text_kept. unfold ns3. rewrite shape_of_leaf by lia.
      unfold ns2. rewrite shape_of_attach. by apply shape_of_leaf.
    - change (nodes st3) with ns3. unfold type_of, shape_of. by rewrite Hc3.
    - change (nodes st3) with ns3. unfold children_of. by rewrite Hc3.
    - change (nodes st3) with ns3. unfold parent_of. by rewrite Hc3.
    - intros c Hc. change (nodes st3) with ns3. unfold ns3, text_leaf.
      rewrite parent_of_leaf. by apply (reference_valid op ns2 a). }
  unfold distribution. unfold bind at 1.
  change (EagleJS.materialize [CText data] st) with (Ok [t], st1).
  cbv beta iota. unfold bind at 1.
  rewrite (get_array_Some st1 this [VNode a; VNode b]) by done.
  cbv beta iota. simpl rev. unfold distribute, clone_into_each.
  unfold bind at 1. unfold bind at 1. rewrite place_node.
  change (nodes st1) with ns1. rewrite Hb1. cbv beta iota.
  unfold insert_originals, forEach. simpl fst. simpl snd.
  unfold bind at 1. unfold bind at 1. unfold bind at 1.
  rewrite Hins1. cbv beta iota. unfold ret at 1 2. cbv beta iota.
  unfold bind at 1. rewrite place_node.
  change (nodes (with_nodes (fun _ => ns2) st1)) with ns2.
  rewrite Ha2. cbv beta iota.
  unfold insert_clones, forEach. simpl fst. simpl snd.
  unfold bind at 1. unfold bind at 1. unfold bind at 1.
  fold st2. rewrite Hclone. cbv beta iota. unfold bind at 1.
  fold st3. rewrite Hins2. reflexivity.
Qed.

Lemma linked_check_linked (ns : list Node) :
  linked_check ns = true -> linked ns.
Proof.
  unfold linked_check. rewrite forallb_forall. intros Hall p c Hc.
  assert (Hp : p < length ns).
  { destruct (decide (p < length ns)) as [| Hge]; [done |].
    unfold children_of in Hc.
    rewrite (proj2 (lookup_ge_None ns p)) in Hc by lia.
    by apply elem_of_nil in Hc. }
  specialize (Hall p). rewrite forallb_forall in Hall.
  eapply bool_decide_eq_true_1. apply Hall.
  - apply in_seq. lia.
  - by apply list_elem_of_In.
Qed.

(** What the heap holds after the distribution of one text input. *)
Lemma text_distributed_nodes (op : Insertion) (data : string)
    (a b pa pb : ref) (ns : list Node) :
  linked ns -> pa < length ns -> pb < length ns ->
  let t := length ns in
  let ns' := text_distributed op data a b pa pb ns in
  length ns' = S (S t)
  /\ linked ns'
  /\ (parent_of ns' t = Some pb /\ t ∈ children_of ns' pb
      /\ shape_of ns' t = text_shape data)
  /\ (parent_of ns' (S t) = Some pa /\ S t ∈ children_of ns' pa
      /\ shape_of ns' (S t) = text_shape data)
  /\ (forall r, r < t ->
        parent_of ns' r = parent_of ns r /\ shape_of ns' r = shape_of ns r).
Proof.
  intros Hl Hpa Hpb t ns'. unfold ns', text_distributed. fold t.
  set (ns1 := ns ++ [text_leaf data]).
  set (ns2 := attach pb (reference op ns1 b) t ns1).
  set (ns3 := ns2 ++ [text_leaf data]).
  set (child := reference op ns2 a).
  assert (Hlen1 : length ns1 = S t)
    by (unfold ns1; rewrite length_app; simpl; lia).
  assert (Hlen2 : length ns2 = S t) by (unfold ns2; by rewrite length_attach).
  assert (Hlen3 : length ns3 = S (S t))
    by (unfold ns3; rewrite length_app; simpl; lia).
  assert (Ht1 : ns1 !! t = Some (text_leaf data)) by apply lookup_leaf.
  assert (Hc3 : ns3 !! S t = Some (text_leaf data)).
  { rewrite <- Hlen2. apply lookup_leaf. }
  assert (Hl2 : linked ns2).
  { apply linked_attach; [by apply linked_leaf | | lia | lia].
    unfold parent_of. by rewrite Ht1. }
  assert (Hpt2 : parent_of ns2 t = Some pb).
  { unfold ns2. apply parent_of_attach. lia. }
  assert (Hin2 : t ∈ children_of ns2 pb).
  { unfold ns2. rewrite children_of_attach by lia.
    apply elem_of_insert_before. left. by apply list_elem_of_singleton. }
  split; [by rewrite length_attach |]. split.
  { apply linked_attach; [by apply linked_leaf | | lia | lia].
    unfold parent_of. by rewrite Hc3. }
  split; [| split].
  - split; [| split].
    + rewrite parent_of_attach_other by lia. unfold ns3, text_leaf.
      by rewrite parent_of_leaf.
    + assert (Hin3 : t ∈ children_of ns3 pb).
      { unfold ns3, text_leaf. by rewrite children_of_leaf. }
      destruct (decide (pb = pa)) as [-> | Hne].
      * rewrite children_of_attach by lia.
        apply elem_of_insert_before. by right.
      * by rewrite children_of_attach_other.
    + rewrite shape_of_attach. unfold ns3. rewrite shape_of_leaf by lia.
      unfold ns2. rewrite shape_of_attach. unfold shape_of. by rewrite Ht1.
  - split; [| split].
    + apply parent_of_attach. lia.
    + rewrite children_of_attach by lia.
      apply elem_of_insert_before. left. by apply list_elem_of_singleton.
    + rewrite shape_of_attach. unfold shape_of. by rewrite Hc3.
  - intros r Hr. split.
    + rewrite parent_of_attach_other by lia. unfold ns3, text_leaf.
      rewrite parent_of_leaf. unfold ns2.
      rewrite parent_of_attach_other by lia. apply parent_of_leaf.
    + rewrite shape_of_attach. unfold ns3. rewrite shape_of_leaf by lia.
      unfold ns2. rewrite shape_of_attach. by apply shape_of_leaf.
Qed.




(** *** The place of an insertion in a child list *)

Lemma sibling_after_split (r : ref) (pre post : list ref) :
  r ∉ pre -> sibling_after r (pre ++ r :: post) = head post.
Proof.
  induction pre as [| x pre IH]; simpl; intros Hr.
  - by rewrite decide_True.
  - apply not_elem_of_cons in Hr as [Hne Hr].
    rewrite decide_False by done. by apply IH.
Qed.

Lemma insert_before_split (ins pre post : list ref) :
  (forall y, head post = Some y -> y ∉ pre) ->
  insert_before (head post) ins (pre ++ post) = pre ++ ins ++ post.
Proof.
  induction pre as [| x pre IH]; simpl; intros Hy.
  - destruct post as [| y post]; simpl; [by rewrite app_nil_r |].
    by rewrite bool_decide_eq_true_2.
  - rewrite bool_decide_eq_false_2.
    + f_equal. apply IH. intros y Hhead Hin. apply (Hy y Hhead).
      apply elem_of_cons. by right.
    + intros Hhead. apply (Hy x Hhead). apply elem_of_cons. by left.
Qed.

Lemma child_allocated (ns : list Node) (p x : ref) :
  linked ns -> x ∈ children_of ns p -> x < length ns.
Proof.
  intros Hl Hx. apply Hl in Hx. unfold parent_of in Hx.
  destruct (ns !! x) eqn:E; [| done]. by apply (lookup_lt_Some ns x n).
Qed.

Lemma isChildNode_receiver (ns : list Node) (r : ref) :
  EagleJS.isChildNode ns (VNode r) = true ->
  receiver IAfter ns r = parent_of ns r.
Proof.
  unfold EagleJS.isChildNode, receiver. intros H.
  apply andb_true_iff in H as [_ H]. simpl EagleJS.nodeType_of in H.
  by rewrite H.
Qed.

(** Membership in a list written with [++] and [::]. *)
Ltac elem_of_list :=
  repeat first [rewrite elem_of_app in * | rewrite elem_of_cons in *
               | rewrite elem_of_nil in *];
  tauto.

(** C2.  For the siblings [a] then [b] under a parent that accepts text,
    [after] of one text on the collection of [a] and [b] turns the child
    list [pre, a, mid, b, post] into [pre, a, x', mid, b, x, post], where
    [x] is the created text node and [x'] its clone: each target is
    immediately followed by its own text node, and the two text nodes do
    not both follow [b]. *)
Theorem after_keeps_order_of_targets (this : loc) (data : string)
    (a b p : ref) (pre mid post : list ref) (st : State) :
  arrays st !! this = Some [VNode a; VNode b] ->
  linked (nodes st) ->
  EagleJS.isChildNode (nodes st) (VNode a) = true ->
  EagleJS.isChildNode (nodes st) (VNode b) = true ->
  parent_of (nodes st) a = Some p ->
  parent_of (nodes st) b = Some p ->
  accepts_text (nodes st) p = true ->
  children_of (nodes st) p = pre ++ a :: mid ++ b :: post ->
  NoDup (children_of (nodes st) p) ->
  exists st',
    EagleJS.after this [CText data] st = (Ok this, st')
    /\ fst (createTextNode data st) = Ok (length (nodes st))
    /\ children_of (nodes st') p
       = pre ++ a :: S (length (nodes st)) :: mid
             ++ b :: length (nodes st) :: post
    /\ (forall x x',
          children_of (nodes st') p
          <> pre ++ a :: mid ++ b :: x :: x' :: post)
    /\ nextSibling (nodes st') a = Some (S (length (nodes st)))
    /\ nextSibling (nodes st') b = Some (length (nodes st))
    /\ shape_of (nodes st') (length (nodes st)) = text_shape data
    /\ shape_of (nodes st') (S (length (nodes st))) = text_shape data.
Proof.
  intros Hthis Hl Hca Hcb Hpa Hpb Hp Hkids Hnd.
  set (ns := nodes st) in *. set (t := length ns).
  assert (Ha : receiver IAfter ns a = Some p)
    by by rewrite isChildNode_receiver.
  assert (Hb : receiver IAfter ns b = Some p)
    by by rewrite isChildNode_receiver.
  pose proof (accepts_text_allocated _ _ Hp) as Hlp.
  pose proof (text_over_two_targets Typed IAfter this data a b p p st
                Hthis Hl Ha Hb Hp Hp) as Hrun.
  destruct (text_distributed_nodes IAfter data a b p p ns Hl Hlp Hlp)
    as (Hlen & Hl' & (_ & _ & Hst) & (_ & _ & Hsc) & Hold).
  fold ns in Hrun. cbv zeta in Hlen, Hl', Hst, Hsc, Hold. fold t in Hst, Hsc, Hold.
  set (ns' := text_distributed IAfter data a b p p ns) in *.
  (* the old children are old nodes, all different *)
  assert (Hlt : forall x, x ∈ pre ++ a :: mid ++ b :: post -> x < t).
  { intros x Hx. rewrite <- Hkids in Hx. by apply (child_allocated ns p). }
  rewrite Hkids in Hnd.
  assert (Ha_pre : a ∉ pre).
  { apply NoDup_app in Hnd as (_ & Hdis & _). intros Hin.
    apply (Hdis a Hin). apply elem_of_cons. by left. }
  assert (Hb_pre : b ∉ pre ++ a :: mid).
  { replace (pre ++ a :: mid ++ b :: post)
      with ((pre ++ a :: mid) ++ b :: post) in Hnd
      by (by rewrite <- app_assoc).
    apply NoDup_app in Hnd as (_ & Hdis & _). intros Hin.
    apply (Hdis b Hin). apply elem_of_cons. by left. }
  (* after the visit of [b] *)
  set (ns1 := ns ++ [text_leaf data]).
  set (ns2 := attach p (reference IAfter ns1 b) t ns1).
  assert (Hlen1 : length ns1 = S t)
    by (unfold ns1; rewrite length_app; simpl; lia).
  assert (Hrefb : reference IAfter ns1 b = head post).
  { unfold reference, nextSibling, ns1, text_leaf.
    rewrite parent_of_leaf, Hpb, children_of_leaf, Hkids.
    replace (pre ++ a :: mid ++ b :: post)
      with ((pre ++ a :: mid) ++ b :: post) by (by rewrite <- app_assoc).
    by apply sibling_after_split. }
  assert (Hkids2 : children_of ns2 p
                   = pre ++ a :: mid ++ b :: t :: post).
  { unfold ns2. rewrite children_of_attach by lia. rewrite Hrefb.
    unfold ns1, text_leaf. rewrite children_of_leaf, Hkids.
    replace (pre ++ a :: mid ++ b :: post)
      with ((pre ++ a :: mid ++ [b]) ++ post)
      by (rewrite <- app_assoc; simpl; by rewrite <- app_assoc).
    rewrite insert_before_split.
    - rewrite <- app_assoc. simpl. by rewrite <- app_assoc.
    - intros y Hy Hin.
      replace (pre ++ a :: mid ++ b :: post)
        with ((pre ++ a :: mid ++ [b]) ++ post) in Hnd
        by (rewrite <- app_assoc; simpl; by rewrite <- app_assoc).
      apply NoDup_app in Hnd as (_ & Hdis & _). apply (Hdis y Hin).
      destruct post as [| z post']; [done |]. injection Hy as ->.
      apply elem_of_cons. by left. }
  (* after the visit of [a] *)
  assert (Hrefa : reference IAfter ns2 a = head (mid ++ b :: t :: post)).
  { unfold reference, nextSibling.
    assert (Hpa2 : parent_of ns2 a = Some p).
    { unfold ns2. rewrite parent_of_attach_other.
      - unfold ns1, text_leaf. by rewrite parent_of_leaf.
      - assert (a < t); [| lia]. apply Hlt. elem_of_list. }
    rewrite Hpa2, Hkids2. by apply sibling_after_split. }
  assert (Hkids' : children_of ns' p
                   = pre ++ a :: S t :: mid ++ b :: t :: post).
  { unfold ns', text_distributed. fold t ns1 ns2.
    rewrite children_of_attach
      by (rewrite length_app; unfold ns2; rewrite length_attach; lia).
    unfold text_leaf. rewrite children_of_leaf, Hrefa, Hkids2.
    replace (pre ++ a :: mid ++ b :: t :: post)
      with ((pre ++ [a]) ++ mid ++ b :: t :: post)
      by (by rewrite <- app_assoc).
    rewrite insert_before_split.
    - by rewrite <- app_assoc.
    - intros y Hy Hin.
      replace (pre ++ a :: mid ++ b :: post)
        with ((pre ++ [a]) ++ mid ++ b :: post) in Hnd
        by (by rewrite <- app_assoc).
      apply NoDup_app in Hnd as (_ & Hdis & _). apply (Hdis y Hin).
      destruct mid as [| m mid']; simpl in Hy; injection Hy as ->;
        apply elem_of_cons; by left. }
  exists (with_nodes (fun _ => ns') st).
  split; [exact Hrun |]. split; [done |].
  change (nodes (with_nodes (fun _ => ns') st)) with ns'.
  split; [exact Hkids' |]. split; [| split; [| split; [| by split]]].
  - intros x x' Heq. rewrite Hkids' in Heq.
    apply app_inv_head in Heq. injection Heq as Heq.
    assert (Hfresh : forall y, y ∈ mid ++ [b] -> y <> S t).
    { intros y Hy. assert (y < t); [| lia]. apply Hlt. elem_of_list. }
    destruct mid as [| m mid']; simpl in Heq; injection Heq as Heq _.
    + apply (Hfresh b); [elem_of_list | done].
    + apply (Hfresh m); [elem_of_list | done].
  - unfold nextSibling.
    destruct (Hold a) as [Hpa' _]; [apply Hlt; elem_of_list |].
    rewrite Hpa', Hpa, Hkids'. by rewrite sibling_after_split.
  - unfold nextSibling.
    destruct (Hold b) as [Hpb' _]; [apply Hlt; elem_of_list |].
    rewrite Hpb', Hpb, Hkids'.
    replace (pre ++ a :: S t :: mid ++ b :: t :: post)
      with ((pre ++ a :: S t :: mid) ++ b :: t :: post)
      by (by rewrite <- app_assoc).
    rewrite sibling_after_split; [done |].
    intros Hin. apply Hb_pre.
    assert (b <> S t).
    { assert (b < t); [| lia]. apply Hlt. elem_of_list. }
    elem_of_list.
Qed.

(** The text [x] after the [div] and the [span] of the page, which are
    followed by the [p]. *)
Lemma after_keeps_order_of_targets_witness :
  exists st',
    EagleJS.after 0 [CText "x"] Demo.page = (Ok 0, st')
    /\ fst (createTextNode "x" Demo.page) = Ok 7
    /\ children_of (nodes st') 2 = [3; 8; 4; 7; 5]
    /\ (forall x x', children_of (nodes st') 2 <> [3; 4; x; x'; 5])
    /\ nextSibling (nodes st') 3 = Some 8
    /\ nextSibling (nodes st') 4 = Some 7
    /\ shape_of (nodes st') 7 = text_shape "x"
    /\ shape_of (nodes st') 8 = text_shape "x".
Proof.
  apply (after_keeps_order_of_targets 0 "x" 3 4 2 [] [] [5] Demo.page);
    try reflexivity.
  - apply linked_check_linked. reflexivity.
  - apply (bool_decide_unpack _). vm_compute. exact I.
Defined.

(** ** Beyond one value: what [push] and [unshift] keep *)

Lemma stored_spec (a items : list Value) (x : Value) :
  x ∈ List.filter
        (fun item => EagleJS.isDOMItem item && negb (includes a item)) items
  <-> x ∈ items /\ EagleJS.isDOMItem x = true /\ x ∉ a.
Proof.
  rewrite list_elem_of_In, filter_In, <- list_elem_of_In, andb_true_iff.
  rewrite negb_true_iff, <- not_true_iff_false, includes_elem_of. tauto.
Qed.

Lemma NoDup_filter_list {A} (f : A -> bool) (l : list A) :
  NoDup l -> NoDup (List.filter f l).
Proof.
  induction l as [| x l IH]; simpl; intros Hnd; [constructor |].
  apply NoDup_cons in Hnd as [Hx Hl]. destruct (f x); [| by apply IH].
  apply NoDup_cons. split; [| by apply IH].
  rewrite list_elem_of_In, filter_In, <- list_elem_of_In. tauto.
Qed.

(** X1.  A collection of distinct items stays one when a batch of distinct
    values is pushed or unshifted: the values that are items and are not
    members yet are added, in the order of the batch, and nothing else. *)
Theorem push_keeps_distinct_items (this : loc) (a items : list Value)
    (st : State) :
  arrays st !! this = Some a ->
  Forall (fun x => EagleJS.isDOMItem x = true) a ->
  NoDup a ->
  NoDup items ->
  exists kept,
    (exists st', EagleJS.push this items st = (Ok (length a + length kept), st')
       /\ arrays st' !! this = Some (a ++ kept)
       /\ nodes st' = nodes st)
    /\ (exists st', EagleJS.unshift this items st
                    = (Ok (length kept + length a), st')
          /\ arrays st' !! this = Some (kept ++ a)
          /\ nodes st' = nodes st)
    /\ sublist kept items
    /\ NoDup (a ++ kept)
    /\ Forall (fun x => EagleJS.isDOMItem x = true) (a ++ kept)
    /\ forall x,
         x ∈ a ++ kept
         <-> x ∈ a \/ (x ∈ items /\ EagleJS.isDOMItem x = true).
Proof.
  intros Hthis Hitems Hnd Hbatch.
  set (kept := List.filter
                 (fun item => EagleJS.isDOMItem item && negb (includes a item))
                 items).
  assert (Hlt : this < length (arrays st)) by (by eapply lookup_lt_Some).
  exists kept. split; [| split; [| split; [| split; [| split]]]].
  - eexists. unfold EagleJS.push, bind.
    rewrite (get_array_Some _ _ _ Hthis). fold kept.
    unfold EagleJS.set_array, modify, ret. rewrite length_app.
    split; [reflexivity |]. split; [by apply list_lookup_insert_eq | done].
  - eexists. unfold EagleJS.unshift, bind.
    rewrite (get_array_Some _ _ _ Hthis). fold kept.
    unfold EagleJS.set_array, modify, ret. rewrite length_app.
    split; [reflexivity |]. split; [by apply list_lookup_insert_eq | done].
  - unfold kept. clear. induction items as [| x l IH]; simpl; [constructor |].
    destruct (_ && _); [by apply sublist_skip | by apply sublist_cons].
  - apply NoDup_app. split; [done |]. split; [| by apply NoDup_filter_list].
    intros x Hx Hk. apply stored_spec in Hk. tauto.
  - apply Forall_app. split; [done |]. apply Forall_forall.
    intros x Hx. apply stored_spec in Hx. tauto.
  - intros x. rewrite elem_of_app. unfold kept. rewrite stored_spec.
    destruct (decide (x ∈ a)); tauto.
Qed.

(** The two elements that the page collection lacks, pushed with one that
    it holds and with a string. *)
Lemma push_keeps_distinct_items_witness :
  exists kept,
    (exists st',
       EagleJS.push 0 [VNode 5; VStr "p"; VNode 3; VNode 6] Demo.page
       = (Ok (2 + length kept), st')
       /\ arrays st' !! 0 = Some ([VNode 3; VNode 4] ++ kept)
       /\ nodes st' = nodes Demo.page)
    /\ (exists st',
          EagleJS.unshift 0 [VNode 5; VStr "p"; VNode 3; VNode 6] Demo.page
          = (Ok (length kept + 2), st')
          /\ arrays st' !! 0 = Some (kept ++ [VNode 3; VNode 4])
          /\ nodes st' = nodes Demo.page)
    /\ sublist kept [VNode 5; VStr "p"; VNode 3; VNode 6]
    /\ NoDup ([VNode 3; VNode 4] ++ kept)
    /\ Forall (fun x => EagleJS.isDOMItem x = true) ([VNode 3; VNode 4] ++ kept)
    /\ forall x,
         x ∈ [VNode 3; VNode 4] ++ kept
         <-> x ∈ [VNode 3; VNode 4]
             \/ (x ∈ [VNode 5; VStr "p"; VNode 3; VNode 6]
                 /\ EagleJS.isDOMItem x = true).
Proof.
  apply (push_keeps_distinct_items 0 [VNode 3; VNode 4]
           [VNode 5; VStr "p"; VNode 3; VNode 6] Demo.page).
  - reflexivity.
  - by repeat constructor.
  - apply (bool_decide_unpack _). vm_compute. exact I.
  - apply (bool_decide_unpack _). vm_compute. exact I.
Defined.

(** X2.  Pushing a batch a second time changes nothing, whatever the batch
    holds: the first call has made members of all its items. *)
Theorem push_twice (this : loc) (a items : list Value) (st : State) :
  arrays st !! this = Some a ->
  exists n st',
    EagleJS.push this items st = (Ok n, st')
    /\ EagleJS.push this items st' = (Ok n, st')
    /\ (exists m st'',
          EagleJS.unshift this items st = (Ok m, st'')
          /\ EagleJS.unshift this items st'' = (Ok m, st'')).
Proof.
  intros Hthis.
  assert (Hlt : this < length (arrays st)) by (by eapply lookup_lt_Some).
  assert (Hnone : forall a',
            (forall x, x ∈ a -> x ∈ a') ->
            (forall x, x ∈ items -> EagleJS.isDOMItem x = true -> x ∈ a') ->
            List.filter
              (fun item => EagleJS.isDOMItem item && negb (includes a' item))
              items = []).
  { intros a' Ha Hi.
    assert (Hall : forall x, x ∈ items ->
              EagleJS.isDOMItem x && negb (includes a' x) = false).
    { intros x Hx. destruct (EagleJS.isDOMItem x) eqn:E; [| done]. simpl.
      apply negb_false_iff. apply includes_elem_of. by apply Hi. }
    clear Hi. induction items as [| x l IH]; simpl; [done |].
    rewrite Hall by (apply elem_of_cons; by left).
    apply IH. intros y Hy. apply Hall. apply elem_of_cons. by right. }
  set (kept := List.filter
                 (fun item => EagleJS.isDOMItem item && negb (includes a item))
                 items).
  do 2 eexists. split; [| split].
  - unfold EagleJS.push, bind. rewrite (get_array_Some _ _ _ Hthis).
    fold kept. unfold EagleJS.set_array, modify, ret. reflexivity.
  - set (st' := with_arrays _ st).
    assert (Hthis' : arrays st' !! this = Some (a ++ kept)).
    { by apply list_lookup_insert_eq. }
    unfold EagleJS.push, bind. rewrite (get_array_Some _ _ _ Hthis').
    rewrite Hnone.
    + rewrite app_nil_r. unfold EagleJS.set_array, modify, ret.
      by rewrite (with_arrays_id _ _ _ Hthis').
    + intros x Hx. apply elem_of_app. by left.
    + intros x Hx Hi. apply elem_of_app. destruct (decide (x ∈ a)); [by left |].
      right. by apply stored_spec.
  - do 2 eexists. split.
    + unfold EagleJS.unshift, bind. rewrite (get_array_Some _ _ _ Hthis).
      fold kept. unfold EagleJS.set_array, modify, ret. reflexivity.
    + set (st' := with_arrays _ st).
      assert (Hthis' : arrays st' !! this = Some (kept ++ a)).
      { by apply list_lookup_insert_eq. }
      unfold EagleJS.unshift, bind. rewrite (get_array_Some _ _ _ Hthis').
      rewrite Hnone.
      * simpl. unfold EagleJS.set_array, modify, ret.
        by rewrite (with_arrays_id _ _ _ Hthis').
      * intros x Hx. apply elem_of_app. by right.
      * intros x Hx Hi. apply elem_of_app.
        destruct (decide (x ∈ a)); [by right |]. left. by apply stored_spec.
Qed.

(** The defective batch of the repeated argument, pushed twice. *)
Lemma push_twice_witness :
  exists n st',
    EagleJS.push 0 [VNode 5; VNode 5] Demo.page = (Ok n, st')
    /\ EagleJS.push 0 [VNode 5; VNode 5] st' = (Ok n, st')
    /\ (exists m st'',
          EagleJS.unshift 0 [VNode 5; VNode 5] Demo.page = (Ok m, st'')
          /\ EagleJS.unshift 0 [VNode 5; VNode 5] st'' = (Ok m, st'')).
Proof.
  apply (push_twice 0 [VNode 3; VNode 4] [VNode 5; VNode 5] Demo.page).
  reflexivity.
Defined.

(** ** What the insertion of content leaves alone *)

Lemma place_reads (v : Variant) (op : Insertion) (item : Value) (s : State) :
  snd (place v op item s) = s.
Proof.
  destruct op; simpl; unfold bind, get, ret.
  - destruct (EagleJS.isChildNode (nodes s) item); [| done].
    by destruct (EagleJS.item_parent (nodes s) item).
  - destruct (EagleJS.isChildNode (nodes s) item); [| done].
    destruct (EagleJS.item_parent (nodes s) item); [| done]. by destruct item.
  - pose proof (capable_reads v K_querySelector EagleJS.isParentNode item s)
      as Hc.
    destruct (EagleJS.capable v K_querySelector EagleJS.isParentNode item s)
      as [[[] | e] s1]; simpl in Hc; subst; try done. by destruct item.
  - pose proof (capable_reads v K_querySelector EagleJS.isParentNode item s)
      as Hc.
    destruct (EagleJS.capable v K_querySelector EagleJS.isParentNode item s)
      as [[[] | e] s1]; simpl in Hc; subst; try done. by destruct item.
Qed.

Lemma keeps_frame_createTextNode (h0 : list (list Value)) (ns0 : list Node)
    (data : string) :
  keeps (frame h0 ns0) (createTextNode data).
Proof.
  intros s [Ha Hs]. simpl. split; [done |].
  eapply shapes_kept_trans; [exact Hs | apply shapes_kept_app].
Qed.

Lemma keeps_frame_cloneNode (h0 : list (list Value)) (ns0 : list Node)
    (r : ref) (deep : bool) :
  keeps (frame h0 ns0) (cloneNode r deep).
Proof.
  intros s [Ha Hs]. unfold cloneNode. destruct (nodes s !! r) as [n |]; [| done].
  pose proof (shapes_kept_instantiate
                (if deep then snapshot (length (nodes s)) (nodes s) r
                 else Tpl (shape n) []) None (nodes s)) as Hi.
  destruct (instantiate None _ (nodes s)) as [c ns']. simpl in *.
  split; [done |]. by eapply shapes_kept_trans.
Qed.

Lemma keeps_frame_insertBefore (h0 : list (list Value)) (ns0 : list Node)
    (parent node : ref) (child : option ref) :
  keeps (frame h0 ns0) (insertBefore parent node child).
Proof.
  intros s [Ha Hs]. unfold insertBefore.
  destruct (pre_insert_error (nodes s) parent node child); [done |].
  simpl. split; [done |]. eapply shapes_kept_trans; [exact Hs |].
  apply shapes_kept_fold. intros ns x.
  eapply shapes_kept_trans; [apply shapes_kept_detach | apply shapes_kept_attach].
Qed.

Lemma keeps_frame_materialize (h0 : list (list Value)) (ns0 : list Node)
    (content : list Content) :
  keeps (frame h0 ns0) (EagleJS.materialize content).
Proof.
  induction content as [| [data | r] rest IH]; simpl.
  - apply keeps_ret.
  - apply keeps_bind; [apply keeps_frame_createTextNode | intros t].
    apply keeps_bind; [exact IH | intros l; apply keeps_ret].
  - apply keeps_bind; [exact IH | intros l; apply keeps_ret].
Qed.

Lemma keeps_frame_distribute (h0 : list (list Value)) (ns0 : list Node)
    (v : Variant) (op : Insertion) (nodeArray : list ref)
    (targets : list Value) :
  keeps (frame h0 ns0) (clone_into_each (place v op) nodeArray targets)
  /\ keeps (frame h0 ns0) (distribute (place v op) nodeArray targets).
Proof.
  assert (Hclones : forall p, keeps (frame h0 ns0) (insert_clones nodeArray p)).
  { intros p. apply keeps_forEach. intros node.
    apply keeps_bind; [apply keeps_frame_cloneNode | intros c].
    apply keeps_bind; [apply keeps_frame_insertBefore | intros _].
    apply keeps_ret. }
  assert (Horig : forall p,
            keeps (frame h0 ns0) (insert_originals nodeArray p)).
  { intros p. apply keeps_forEach. intros node.
    apply keeps_bind; [apply keeps_frame_insertBefore | intros _].
    apply keeps_ret. }
  assert (Hrest : forall l,
            keeps (frame h0 ns0) (clone_into_each (place v op) nodeArray l)).
  { induction l as [| item rest IH]; simpl; [apply keeps_ret |].
    apply keeps_bind; [apply keeps_reading, place_reads | intros [p |]];
      [| exact IH].
    apply keeps_bind; [apply Hclones | intros _; exact IH]. }
  split; [apply Hrest |].
  induction targets as [| item rest IH]; simpl; [apply keeps_ret |].
  apply keeps_bind; [apply keeps_reading, place_reads | intros [p |]];
    [| exact IH].
  apply keeps_bind; [apply Horig | intros _; apply Hrest].
Qed.

(** With no content, the loop only reads. *)
Lemma distribute_nothing (v : Variant) (op : Insertion)
    (targets : list Value) (s : State) :
  snd (clone_into_each (place v op) [] targets s) = s
  /\ snd (distribute (place v op) [] targets s) = s.
Proof.
  assert (Hrest : forall l, snd (clone_into_each (place v op) [] l s) = s).
  { induction l as [| item rest IH]; simpl; [done |]. unfold bind.
    pose proof (place_reads v op item s) as Hp.
    destruct (place v op item s) as [[[p |] | e] s1]; simpl in Hp; subst;
      done. }
  split; [apply Hrest |].
  induction targets as [| item rest IH]; simpl; [done |]. unfold bind.
  pose proof (place_reads v op item s) as Hp.
  destruct (place v op item s) as [[[p |] | e] s1]; simpl in Hp; subst;
    [| done | done].
  simpl. apply Hrest.
Qed.

(** X3.  [after], [before], [append] and [prepend], in both sources, whether
    they return or the host throws: no collection changes, no node that
    exists changes its type, its attributes, its classes or its data, and
    what is returned is the receiver.  With no content at all, the state is
    left as it is. *)
Theorem insertion_frame (v : Variant) (op : Insertion) (this : loc)
    (content : list Content) (st : State) :
  arrays (snd (insertion v op this content st)) = arrays st
  /\ shapes_kept (nodes st) (nodes (snd (insertion v op this content st)))
  /\ (forall r, fst (insertion v op this content st) = Ok r -> r = this)
  /\ snd (insertion v op this [] st) = st.
Proof.
  rewrite !insertion_distribution.
  assert (Hk : triple (frame (arrays st) (nodes st))
                 (distribution v op this content)
                 (fun r s => r = this /\ frame (arrays st) (nodes st) s)
                 (frame (arrays st) (nodes st))).
  { unfold distribution.
    eapply triple_bind; [apply keeps_frame_materialize | intros nodeArray].
    eapply triple_bind; [apply keeps_reading, get_array_reads | intros items].
    eapply triple_bind;
      [apply (keeps_frame_distribute _ _ v op nodeArray (rev items)) |].
    intros u. by apply triple_ret. }
  specialize (Hk st (conj eq_refl (shapes_kept_refl _))). unfold frame in Hk.
  split; [| split; [| split]].
  - destruct (distribution v op this content st) as [[r | e] s1];
      simpl in *; tauto.
  - destruct (distribution v op this content st) as [[r | e] s1];
      simpl in *; tauto.
  - intros r Hr.
    destruct (distribution v op this content st) as [[r' | e] s1];
      simpl in *; [| done]. injection Hr as ->. tauto.
  - unfold distribution, bind. simpl.
    pose proof (get_array_reads this st) as Hg.
    destruct (EagleJS.get_array this st) as [[items | e] s1]; simpl in Hg;
      subst; [| done].
    pose proof (proj2 (distribute_nothing v op (rev items) st)) as Hd.
    by destruct (distribute (place v op) [] (rev items) st) as [[[] | e] s1].
Qed.



(** ** remove, replaceWith *)

Lemma length_detach (r : ref) (ns : list Node) :
  length (detach r ns) = length ns.
Proof. unfold detach. destruct (parent_of ns r); by rewrite ?length_alter. Qed.

Lemma shape_of_detach (r x : ref) (ns : list Node) :
  shape_of (detach r ns) x = shape_of ns x.
Proof.
  unfold detach. destruct (parent_of ns r); [| done].
  by rewrite !shape_of_alter.
Qed.

Lemma parent_of_detach (r : ref) (ns : list Node) :
  parent_of (detach r ns) r = None.
Proof.
  unfold detach. destruct (parent_of ns r) as [p |] eqn:Hp; [| done].
  unfold parent_of. rewrite list_lookup_alter_eq.
  by destruct (alter _ p ns !! r).
Qed.

Lemma parent_of_detach_other (r x : ref) (ns : list Node) :
  x <> r -> parent_of (detach r ns) x = parent_of ns x.
Proof.
  intros Hx. unfold detach. destruct (parent_of ns r) as [p |]; [| done].
  unfold parent_of at 1. rewrite list_lookup_alter_ne by done.
  by apply (parent_of_alter _ p x ns).
Qed.

Lemma children_of_detach (r q : ref) (ns : list Node) :
  children_of (detach r ns) q
  = if bool_decide (parent_of ns r = Some q)
    then remove_ref r (children_of ns q) else children_of ns q.
Proof.
  unfold detach. destruct (parent_of ns r) as [p |] eqn:Hp.
  - rewrite children_of_alter by done. unfold children_of.
    destruct (decide (p = q)) as [-> | Hne].
    + rewrite bool_decide_eq_true_2 by done. rewrite list_lookup_alter_eq.
      by destruct (ns !! q).
    + rewrite bool_decide_eq_false_2 by congruence.
      by rewrite list_lookup_alter_ne.
  - by rewrite bool_decide_eq_false_2.
Qed.

Lemma elem_of_remove_ref (r x : ref) (l : list ref) :
  x ∈ remove_ref r l <-> x ∈ l /\ x <> r.
Proof.
  unfold remove_ref. rewrite list_elem_of_In, filter_In, <- list_elem_of_In.
  rewrite negb_true_iff, bool_decide_eq_false. tauto.
Qed.

Lemma linked_detach (r : ref) (ns : list Node) :
  linked ns -> linked (detach r ns).
Proof.
  intros Hl q c Hc. rewrite children_of_detach in Hc.
  destruct (bool_decide (parent_of ns r = Some q)) eqn:E.
  - apply elem_of_remove_ref in Hc as [Hc Hne].
    rewrite parent_of_detach_other by done. by apply Hl.
  - apply bool_decide_eq_false in E. pose proof (Hl q c Hc) as Hp.
    rewrite parent_of_detach_other; [done |]. intros ->. congruence.
Qed.

Lemma isChildNode_shape (ns ns' : list Node) (item : Value) :
  (forall x, shape_of ns' x = shape_of ns x) ->
  EagleJS.isChildNode ns' item = EagleJS.isChildNode ns item.
Proof.
  intros Hs. unfold EagleJS.isChildNode, EagleJS.nodeType_of, type_of.
  destruct item; try done. by rewrite Hs.
Qed.

Lemma isChildNode_node (ns : list Node) (item : Value) :
  EagleJS.isChildNode ns item = true -> exists r, item = VNode r.
Proof.
  unfold EagleJS.isChildNode. destruct item; simpl;
    rewrite ?andb_false_r; try discriminate. by exists r.
Qed.

(** One turn of the loop of [remove]. *)
Lemma remove_step_spec (item : Value) (st : State) :
  remove_step item st
  = (Ok tt,
     if EagleJS.isChildNode (nodes st) item then
       match item with
       | VNode r => with_nodes (detach r) st
       | _ => st
       end
     else st).
Proof.
  unfold remove_step, bind, get.
  destruct (EagleJS.isChildNode (nodes st) item) eqn:Hc; [| done].
  destruct (isChildNode_node _ _ Hc) as [r ->]. simpl.
  destruct (parent_of (nodes st) r) as [p |] eqn:Hp.
  - unfold removeChild. by rewrite bool_decide_eq_true_2.
  - unfold ret. f_equal. destruct st as [ns h d ls ts cs].
    unfold with_nodes, detach. simpl in *. by rewrite Hp.
Qed.

(** The loop of [remove]: every member that is a child node ends without a
    parent, and nothing else changes. *)
Lemma remove_loop (items : list Value) :
  forall st,
    exists ns',
      forEach remove_step items st = (Ok tt, with_nodes (fun _ => ns') st)
      /\ length ns' = length (nodes st)
      /\ (forall x, shape_of ns' x = shape_of (nodes st) x)
      /\ (forall x, parent_of ns' x = parent_of (nodes st) x
                    \/ parent_of ns' x = None)
      /\ (forall r, VNode r ∈ items ->
            EagleJS.isChildNode (nodes st) (VNode r) = true ->
            parent_of ns' r = None)
      /\ (forall x, VNode x ∉ items \/
                    EagleJS.isChildNode (nodes st) (VNode x) = false ->
            parent_of ns' x = parent_of (nodes st) x)
      /\ (forall q, children_of ns' q ⊆ children_of (nodes st) q)
      /\ (linked (nodes st) -> linked ns').
Proof.
  induction items as [| item rest IH]; intros st.
  - exists (nodes st). split; [by destruct st |]. repeat split; try done.
    + by left.
    + intros r Hr. by apply elem_of_nil in Hr.
  - simpl. unfold bind. rewrite remove_step_spec.
    set (st1 := if EagleJS.isChildNode (nodes st) item then
                  match item with
                  | VNode r => with_nodes (detach r) st
                  | _ => st
                  end
                else st).
    assert (Hshape1 : forall x, shape_of (nodes st1) x = shape_of (nodes st) x).
    { intros x. unfold st1. destruct (EagleJS.isChildNode _ _); [| done].
      destruct item; try done. apply shape_of_detach. }
    assert (Hlen1 : length (nodes st1) = length (nodes st)).
    { unfold st1. destruct (EagleJS.isChildNode _ _); [| done].
      destruct item; try done. apply length_detach. }
    assert (Hpar1 : forall x,
              parent_of (nodes st1) x
              = if EagleJS.isChildNode (nodes st) item
                   && bool_decide (item = VNode x)
                then None else parent_of (nodes st) x).
    { intros x. unfold st1.
      destruct (EagleJS.isChildNode (nodes st) item) eqn:Hc; [| done].
      destruct (isChildNode_node _ _ Hc) as [r ->]. simpl.
      destruct (decide (r = x)) as [-> | Hne].
      - rewrite bool_decide_eq_true_2 by done. apply parent_of_detach.
      - rewrite bool_decide_eq_false_2 by congruence.
        by apply parent_of_detach_other. }
    assert (Hkids1 : forall q,
              children_of (nodes st1) q ⊆ children_of (nodes st) q).
    { intros q. unfold st1. destruct (EagleJS.isChildNode _ _); [| done].
      destruct item; try done. simpl. rewrite children_of_detach.
      destruct (bool_decide _); [| done].
      intros c Hc. by apply elem_of_remove_ref in Hc as [Hc _]. }
    assert (Hl1 : linked (nodes st) -> linked (nodes st1)).
    { intros Hl. unfold st1. destruct (EagleJS.isChildNode _ _); [| done].
      destruct item; try done. by apply linked_detach. }
    assert (Harr : forall ns', with_nodes (fun _ => ns') st1
                               = with_nodes (fun _ => ns') st).
    { intros ns'. unfold st1. destruct (EagleJS.isChildNode _ _); [| done].
      by destruct item. }
    destruct (IH st1) as (ns' & Hrun & Hlen & Hshape & Hmono & Hgone & Hkeep
                          & Hkids & Hl).
    exists ns'. rewrite Hrun, Harr. split; [done |].
    split; [congruence |]. split; [intros x; by rewrite Hshape |].
    split; [| split; [| split; [| split]]].
    + intros x. destruct (Hmono x) as [Hx | Hx]; [| by right].
      rewrite Hx, Hpar1. destruct (_ && _); [by right | by left].
    + intros r Hr Hc. apply elem_of_cons in Hr as [<- | Hr].
      * destruct (Hmono r) as [Hx | Hx]; [| done].
        rewrite Hx, Hpar1, Hc. by rewrite bool_decide_eq_true_2.
      * apply Hgone; [done |].
        by rewrite (isChildNode_shape (nodes st) (nodes st1)).
    + intros x Hx. rewrite Hkeep.
      * rewrite Hpar1.
        destruct (EagleJS.isChildNode (nodes st) item) eqn:Hc; [| done].
        simpl. destruct (decide (item = VNode x)) as [-> | Hne].
        -- destruct Hx as [Hx | Hx]; [| congruence].
           exfalso. apply Hx. apply elem_of_cons. by left.
        -- by rewrite bool_decide_eq_false_2.
      * rewrite (isChildNode_shape (nodes st) (nodes st1)) by done.
        destruct Hx as [Hx | Hx]; [left | by right].
        intros Hin. apply Hx. apply elem_of_cons. by right.
    + intros q c Hc. by apply Hkids1, Hkids.
    + intros Hlk. by apply Hl, Hl1.
Qed.

(** The loop does nothing once the members that are child nodes have no
    parent. *)
Lemma remove_loop_done (items : list Value) (st : State) :
  (forall r, VNode r ∈ items ->
     EagleJS.isChildNode (nodes st) (VNode r) = true ->
     parent_of (nodes st) r = None) ->
  forEach remove_step items st = (Ok tt, st).
Proof.
  induction items as [| item rest IH]; intros Hdone; [done |].
  simpl. unfold bind. rewrite remove_step_spec.
  assert (Hsame : (if EagleJS.isChildNode (nodes st) item then
                     match item with
                     | VNode r => with_nodes (detach r) st
                     | _ => st
                     end
                   else st) = st).
  { destruct (EagleJS.isChildNode (nodes st) item) eqn:Hc; [| done].
    destruct (isChildNode_node _ _ Hc) as [r ->].
    destruct st as [ns h d ls ts cs]. unfold with_nodes, detach. simpl in *.
    rewrite Hdone; [done | apply elem_of_cons; by left | done]. }
  rewrite Hsame. apply IH. intros r Hr. apply Hdone. apply elem_of_cons.
  by right.
Qed.

(** X4.  [remove], in both sources, never throws: it returns the receiver; every
    member that is a child node ends without a parent, and, in a tree
    whose children point to their parents, in no child list; no other node
    moves, no node changes, no collection changes.  A second [remove]
    changes nothing. *)
Theorem remove_detaches_members (this : loc) (items : list Value)
    (st : State) :
  arrays st !! this = Some items ->
  exists st',
    EagleJS.remove this st = (Ok this, st')
    /\ arrays st' = arrays st
    /\ length (nodes st') = length (nodes st)
    /\ (forall x, shape_of (nodes st') x = shape_of (nodes st) x)
    /\ (forall r, VNode r ∈ items ->
          EagleJS.isChildNode (nodes st) (VNode r) = true ->
          parent_of (nodes st') r = None)
    /\ (forall x, VNode x ∉ items \/
                  EagleJS.isChildNode (nodes st) (VNode x) = false ->
          parent_of (nodes st') x = parent_of (nodes st) x)
    /\ (forall q, children_of (nodes st') q ⊆ children_of (nodes st) q)
    /\ (linked (nodes st) ->
        linked (nodes st')
        /\ forall r q, VNode r ∈ items ->
             EagleJS.isChildNode (nodes st) (VNode r) = true ->
             r ∉ children_of (nodes st') q)
    /\ EagleJS.remove this st' = (Ok this, st').
Proof.
  intros Hthis.
  destruct (remove_loop items st)
    as (ns' & Hrun & Hlen & Hshape & Hmono & Hgone & Hkeep & Hkids & Hl).
  exists (with_nodes (fun _ => ns') st).
  assert (Hfirst : EagleJS.remove this st
                   = (Ok this, with_nodes (fun _ => ns') st)).
  { unfold EagleJS.remove, bind. rewrite (get_array_Some _ _ _ Hthis).
    change (forEach _ items st) with (forEach remove_step items st).
    by rewrite Hrun. }
  split; [done |]. split; [done |]. split; [done |]. split; [done |].
  split; [done |]. split; [done |]. split; [done |]. split.
  - intros Hlk. split; [by apply Hl |]. intros r q Hr Hc Hin.
    apply (Hl Hlk) in Hin. simpl in Hin. rewrite (Hgone r Hr Hc) in Hin.
    discriminate.
  - unfold EagleJS.remove, bind.
    rewrite (get_array_Some (with_nodes (fun _ => ns') st) this items)
      by done.
    change (forEach _ items ?s) with (forEach remove_step items s).
    rewrite remove_loop_done; [done |]. intros r Hr Hc. simpl.
    apply Hgone; [done |]. simpl in Hc.
    by rewrite <- (isChildNode_shape (nodes st) ns').
Qed.

(** The [div] and the [span] of the page. *)
Lemma remove_detaches_members_witness :
  exists st',
    EagleJS.remove 0 Demo.page = (Ok 0, st')
    /\ arrays st' = arrays Demo.page
    /\ length (nodes st') = length (nodes Demo.page)
    /\ (forall x, shape_of (nodes st') x = shape_of (nodes Demo.page) x)
    /\ (forall r, VNode r ∈ [VNode 3; VNode 4] ->
          EagleJS.isChildNode (nodes Demo.page) (VNode r) = true ->
          parent_of (nodes st') r = None)
    /\ (forall x, VNode x ∉ [VNode 3; VNode 4] \/
                  EagleJS.isChildNode (nodes Demo.page) (VNode x) = false ->
          parent_of (nodes st') x = parent_of (nodes Demo.page) x)
    /\ (forall q,
          children_of (nodes st') q ⊆ children_of (nodes Demo.page) q)
    /\ (linked (nodes Demo.page) ->
        linked (nodes st')
        /\ forall r q, VNode r ∈ [VNode 3; VNode 4] ->
             EagleJS.isChildNode (nodes Demo.page) (VNode r) = true ->
             r ∉ children_of (nodes st') q)
    /\ EagleJS.remove 0 st' = (Ok 0, st').
Proof.
  apply (remove_detaches_members 0 [VNode 3; VNode 4] Demo.page).
  reflexivity.
Defined.

(** One text input at the only target [a]: the text node is attached at
    the place of the operation. *)
Lemma text_at_one_target (v : Variant) (op : Insertion) (this : loc)
    (data : string) (a pa : ref) (st : State) :
  arrays st !! this = Some [VNode a] ->
  receiver op (nodes st) a = Some pa ->
  accepts_text (nodes st) pa = true ->
  (forall c, reference op (nodes st) a = Some c ->
     parent_of (nodes st) c = Some pa) ->
  insertion v op this [CText data] st
  = (Ok this,
     with_nodes (fun ns =>
       attach pa (reference op (ns ++ [text_leaf data]) a) (length ns)
         (ns ++ [text_leaf data])) st).
Proof.
  intros Hthis Ha Hpa Href. rewrite insertion_distribution.
  set (ns := nodes st) in *. set (t := length ns).
  set (ns1 := ns ++ [text_leaf data]).
  set (st1 := with_nodes (fun l => l ++ [text_leaf data]) st).
  pose proof (receiver_allocated _ _ _ _ Ha) as Hla.
  assert (Ht1 : ns1 !! t = Some (text_leaf data)) by apply lookup_leaf.
  assert (Ha1 : receiver op ns1 a = Some pa).
  { rewrite <- Ha. apply receiver_kept;
      [by apply shape_of_leaf | apply parent_of_leaf]. }
  assert (Hr1 : reference op ns1 a = reference op ns a).
  { destruct op; unfold reference, nextSibling, firstChild, ns1, text_leaf;
      rewrite ?parent_of_leaf; try destruct (parent_of ns a);
      by rewrite ?children_of_leaf. }
  assert (Hins : insertBefore pa t (reference op ns1 a) st1
                 = (Ok t, with_nodes
                            (fun _ => attach pa (reference op ns1 a) t ns1)
                            st1)).
  { apply insertBefore_text.
    - change (nodes st1) with ns1. rewrite <- Hpa.
      apply accepts_text_kept. apply shape_of_leaf.
      by apply accepts_text_allocated.
    - change (nodes st1) with ns1. unfold type_of, shape_of. by rewrite Ht1.
    - change (nodes st1) with ns1. unfold children_of. by rewrite Ht1.
    - change (nodes st1) with ns1. unfold parent_of. by rewrite Ht1.
    - intros c Hc. change (nodes st1) with ns1. unfold ns1, text_leaf.
      rewrite parent_of_leaf. apply Href. by rewrite <- Hr1. }
  unfold distribution. unfold bind at 1.
  change (EagleJS.materialize [CText data] st) with (Ok [t], st1).
  cbv beta iota. unfold bind at 1.
  rewrite (get_array_Some st1 this [VNode a]) by done.
  cbv beta iota. simpl rev. unfold distribute, clone_into_each.
  unfold bind at 1. unfold bind at 1. rewrite place_node.
  change (nodes st1) with ns1. rewrite Ha1. cbv beta iota.
  unfold insert_originals, forEach. simpl fst. simpl snd.
  unfold bind at 1. unfold bind at 1. unfold bind at 1.
  by rewrite Hins.
Qed.

Lemma remove_ref_absent (r : ref) (l : list ref) :
  r ∉ l -> remove_ref r l = l.
Proof.
  induction l as [| x l IH]; simpl; intros Hr; [done |].
  apply not_elem_of_cons in Hr as [Hne Hr].
  rewrite bool_decide_eq_false_2 by done. simpl. f_equal. by apply IH.
Qed.

Lemma remove_ref_app (r : ref) (l k : list ref) :
  remove_ref r (l ++ k) = remove_ref r l ++ remove_ref r k.
Proof. unfold remove_ref. apply List.filter_app. Qed.

(** X5.  [replaceWith] of one text on the only member [a], a child of an
    element or of a fragment: a new text node takes the place of [a] in
    the child list, and [a] is left without a parent. *)
Theorem replaceWith_text_takes_place (this : loc) (data : string)
    (a p : ref) (pre post : list ref) (st : State) :
  arrays st !! this = Some [VNode a] ->
  EagleJS.isChildNode (nodes st) (VNode a) = true ->
  parent_of (nodes st) a = Some p ->
  accepts_text (nodes st) p = true ->
  children_of (nodes st) p = pre ++ a :: post ->
  NoDup (children_of (nodes st) p) ->
  exists st',
    EagleJS.replaceWith this [CText data] st = (Ok this, st')
    /\ arrays st' = arrays st
    /\ children_of (nodes st') p = pre ++ length (nodes st) :: post
    /\ parent_of (nodes st') a = None
    /\ parent_of (nodes st') (length (nodes st)) = Some p
    /\ shape_of (nodes st') (length (nodes st)) = text_shape data
    /\ (forall x, x < length (nodes st) ->
          shape_of (nodes st') x = shape_of (nodes st) x
          /\ (x <> a -> parent_of (nodes st') x = parent_of (nodes st) x)).
Proof.
  intros Hthis Hc Hpa Hp Hkids Hnd.
  set (ns := nodes st) in *. set (t := length ns).
  assert (Ha : receiver IBefore ns a = Some p).
  { unfold receiver. unfold EagleJS.isChildNode in Hc.
    apply andb_true_iff in Hc as [_ Hc]. simpl EagleJS.nodeType_of in Hc.
    by rewrite Hc. }
  pose proof (receiver_allocated _ _ _ _ Ha) as Hla.
  pose proof (accepts_text_allocated _ _ Hp) as Hlp.
  assert (Hrun := text_at_one_target Typed IBefore this data a p st Hthis Ha Hp).
  simpl insertion in Hrun. simpl reference in Hrun. fold ns t in Hrun.
  assert (Href : forall c, Some a = Some c -> parent_of ns c = Some p)
    by (by intros c [= <-]).
  specialize (Hrun Href).
  set (ns1 := ns ++ [text_leaf data]) in *.
  set (ns2 := attach p (Some a) t ns1) in *.
  set (st2 := with_nodes _ st) in Hrun.
  assert (Hlen1 : length ns1 = S t)
    by (unfold ns1; rewrite length_app; simpl; lia).
  assert (Ht1 : ns1 !! t = Some (text_leaf data)) by apply lookup_leaf.
  assert (Hc2 : EagleJS.isChildNode ns2 (VNode a) = true).
  { rewrite <- Hc. unfold EagleJS.isChildNode, EagleJS.nodeType_of, type_of.
    unfold ns2. rewrite shape_of_attach. unfold ns1.
    by rewrite shape_of_leaf. }
  assert (Hpa2 : parent_of ns2 a = Some p).
  { unfold ns2. rewrite parent_of_attach_other by lia.
    unfold ns1, text_leaf. by rewrite parent_of_leaf. }
  assert (Ha_pre : (a ∉ pre) /\ (a ∉ post)).
  { rewrite Hkids in Hnd. apply NoDup_app in Hnd as (_ & Hdis & Hnd).
    apply NoDup_cons in Hnd as [Hpost _]. split; [| done].
    intros Hin. apply (Hdis a Hin). apply elem_of_cons. by left. }
  destruct Ha_pre as [Ha_pre Ha_post].
  assert (Hkids2 : children_of ns2 p = pre ++ t :: a :: post).
  { unfold ns2. rewrite children_of_attach by lia.
    unfold ns1, text_leaf. rewrite children_of_leaf, Hkids.
    change (Some a) with (head (a :: post)).
    rewrite insert_before_split; [done |]. by intros y [= <-]. }
  exists (with_nodes (detach a) st2).
  assert (Hrem : EagleJS.remove this st2 = (Ok this, with_nodes (detach a) st2)).
  { unfold EagleJS.remove, bind.
    rewrite (get_array_Some st2 this [VNode a]) by done.
    change (forEach _ [VNode a] st2) with (forEach remove_step [VNode a] st2).
    simpl. unfold bind. rewrite remove_step_spec.
    change (nodes st2) with ns2. by rewrite Hc2. }
  split; [unfold EagleJS.replaceWith, bind; by rewrite Hrun |].
  split; [done |].
  change (nodes (with_nodes (detach a) st2)) with (detach a ns2).
  split; [| split; [| split; [| split]]].
  - rewrite children_of_detach, bool_decide_eq_true_2 by done.
    rewrite Hkids2, remove_ref_app, remove_ref_absent by done. f_equal.
    simpl. rewrite bool_decide_eq_false_2 by lia. simpl.
    rewrite bool_decide_eq_true_2 by done. simpl.
    by rewrite remove_ref_absent.
  - apply parent_of_detach.
  - rewrite parent_of_detach_other by lia. unfold ns2.
    apply parent_of_attach. lia.
  - rewrite shape_of_detach. unfold ns2. rewrite shape_of_attach.
    unfold shape_of. by rewrite Ht1.
  - intros x Hx. split.
    + rewrite shape_of_detach. unfold ns2. rewrite shape_of_attach.
      by apply shape_of_leaf.
    + intros Hne. rewrite parent_of_detach_other by done. unfold ns2.
      rewrite parent_of_attach_other by lia. apply parent_of_leaf.
Qed.

(** The [span] of the page, between the [div] and the [p]. *)
Lemma replaceWith_text_takes_place_witness :
  let st := with_arrays (fun h => h ++ [[VNode 4]]) Demo.page in
  exists st',
    EagleJS.replaceWith 2 [CText "x"] st = (Ok 2, st')
    /\ arrays st' = arrays st
    /\ children_of (nodes st') 2 = [3; 7; 5]
    /\ parent_of (nodes st') 4 = None
    /\ parent_of (nodes st') 7 = Some 2
    /\ shape_of (nodes st') 7 = text_shape "x"
    /\ (forall x, x < 7 ->
          shape_of (nodes st') x = shape_of (nodes st) x
          /\ (x <> 4 -> parent_of (nodes st') x = parent_of (nodes st) x)).
Proof.
  apply (replaceWith_text_takes_place 2 "x" 4 2 [3] [5]
           (with_arrays (fun h => h ++ [[VNode 4]]) Demo.page));
    try reflexivity.
  apply (bool_decide_unpack _). vm_compute. exact I.
Defined.

(** ** Loops that reshape the eligible members *)

Lemma forEach_ext {A} (f g : A -> M unit) (l : list A) (st : State) :
  (forall x s, f x s = g x s) -> forEach f l st = forEach g l st.
Proof.
  intros Hfg. revert st. induction l as [| x l IH]; intros st; [done |].
  simpl. unfold bind. rewrite Hfg.
  destruct (g x st) as [[[] | e] s1]; [apply IH | done].
Qed.

(** A method that applies a setter to every eligible member and returns
    the receiver. *)
Lemma mutator_all (v : Variant) (k : PropertyKey)
    (legacy : list Node -> Value -> bool) (setter : ref -> M unit)
    (this : loc) (items : list Value) (st : State) :
  legacy_check legacy -> k <> K_addEventListener ->
  (forall r s, kinds_kept (nodes s) (nodes (snd (setter r s)))) ->
  arrays st !! this = Some items ->
  Forall (live (nodes st)) items ->
  (let! items := EagleJS.get_array this in
   forEach (fun item =>
     let! ok := EagleJS.capable v k legacy item in
     if ok then let! r := EagleJS.as_node item in setter r
     else ret tt) items ;;
   ret this) st
  = (forEach setter (eligible_refs (eligible v k legacy (nodes st)) items) ;;
     ret this) st.
Proof.
  intros Hlegacy Hk Hkinds Hthis Hlive. unfold bind at 1.
  rewrite (get_array_Some _ _ _ Hthis). unfold bind at 1 3.
  rewrite (forEach_eligible (EagleJS.capable v k legacy)
             (eligible v k legacy) setter) with (st0 := st); try done.
  - intros ns ns' item. by apply eligible_kinds.
  - intros s item. apply capable_live.
  - intros ns item. by apply eligible_node.
Qed.

Lemma set_shape_same (n : Node) : set_shape (shape n) n = n.
Proof. by destruct n. Qed.

(** An idempotent change of shape, applied to a list of nodes: the nodes
    of the list are reshaped, once, and nothing else changes. *)
Lemma reshape_all (F : Shape -> Shape) (refs : list ref) :
  (forall s, F (F s) = F s) ->
  forall st,
    exists ns',
      forEach (fun r => update_shape r F) refs st
      = (Ok tt, with_nodes (fun _ => ns') st)
      /\ length ns' = length (nodes st)
      /\ forall r,
           ns' !! r
           = (fun n => if bool_decide (r ∈ refs)
                       then set_shape (F (shape n)) n else n)
               <$> nodes st !! r.
Proof.
  intros Hid. induction refs as [| x refs IH]; intros st.
  - exists (nodes st). split; [by destruct st |]. split; [done |].
    intros r. rewrite bool_decide_eq_false_2 by apply not_elem_of_nil.
    by destruct (nodes st !! r).
  - simpl. unfold bind, update_shape at 1, modify.
    set (g := fun n : Node => set_shape (F (shape n)) n).
    set (st1 := with_nodes (alter g x) st).
    destruct (IH st1) as (ns' & Hrun & Hlen & Hlook).
    exists ns'. rewrite Hrun. split; [done |].
    split; [by rewrite Hlen; simpl; rewrite length_alter |].
    intros r. rewrite Hlook. simpl.
    destruct (decide (r = x)) as [-> | Hne].
    + rewrite list_lookup_alter_eq.
      rewrite (bool_decide_eq_true_2 (x ∈ x :: refs))
        by (apply elem_of_cons; by left).
      destruct (nodes st !! x) as [n |]; [| done]. simpl. f_equal.
      destruct (bool_decide (x ∈ refs)); [| done].
      unfold g, set_shape. simpl. by rewrite Hid.
    + rewrite list_lookup_alter_ne by done.
      destruct (nodes st !! r) as [n |]; [| done]. simpl. f_equal.
      rewrite (bool_decide_ext (r ∈ x :: refs) (r ∈ refs)); [done |].
      rewrite elem_of_cons. tauto.
Qed.

Lemma reshaped_facts (F : Shape -> Shape) (refs : list ref)
    (ns ns' : list Node) :
  (forall r,
     ns' !! r
     = (fun n => if bool_decide (r ∈ refs)
                 then set_shape (F (shape n)) n else n) <$> ns !! r) ->
  (forall r, parent_of ns' r = parent_of ns r
             /\ children_of ns' r = children_of ns r)
  /\ (forall r, r ∈ refs -> r < length ns ->
        shape_of ns' r = F (shape_of ns r))
  /\ (forall r, r ∉ refs -> shape_of ns' r = shape_of ns r).
Proof.
  intros Hlook. split; [| split].
  - intros r. unfold parent_of, children_of. rewrite Hlook.
    destruct (ns !! r) as [n |]; [| done]. simpl.
    by destruct (bool_decide (r ∈ refs)).
  - intros r Hr Hlt. unfold shape_of. rewrite Hlook.
    destruct (lookup_lt_is_Some_2 _ _ Hlt) as [n Hn]. rewrite Hn. simpl.
    by rewrite bool_decide_eq_true_2.
  - intros r Hr. unfold shape_of. rewrite Hlook.
    destruct (ns !! r) as [n |]; [| done]. simpl.
    by rewrite bool_decide_eq_false_2.
Qed.

(** The loop of a mutator whose setter reshapes: what it leaves, and that
    a second run changes nothing. *)
Lemma reshape_members {B} (v : Variant) (k : PropertyKey)
    (legacy : list Node -> Value -> bool) (F : Shape -> Shape)
    (b : B) (items : list Value) (st : State) :
  legacy_check legacy ->
  (forall s, F (F s) = F s) -> (forall s, kind (F s) = kind s) ->
  Forall (live (nodes st)) items ->
  let refs := eligible_refs (eligible v k legacy (nodes st)) items in
  exists ns',
    (forEach (fun r => update_shape r F) refs ;; ret b) st
    = (Ok b, with_nodes (fun _ => ns') st)
    /\ length ns' = length (nodes st)
    /\ (forall r,
          ns' !! r
          = (fun n => if bool_decide (r ∈ refs)
                      then set_shape (F (shape n)) n else n)
              <$> nodes st !! r)
    /\ eligible_refs (eligible v k legacy ns') items = refs
    /\ Forall (live ns') items
    /\ (forEach (fun r => update_shape r F) refs ;; ret b)
         (with_nodes (fun _ => ns') st)
       = (Ok b, with_nodes (fun _ => ns') st).
Proof.
  intros Hlegacy Hid Hkind Hlive refs.
  destruct (reshape_all F refs Hid st) as (ns' & Hrun & Hlen & Hlook).
  exists ns'. unfold bind at 1. rewrite Hrun.
  split; [done |]. split; [done |]. split; [done |].
  assert (Hkinds : kinds_kept (nodes st) ns').
  { split; [lia |]. intros r Hr. unfold shape_of. rewrite Hlook.
    destruct (nodes st !! r) as [n |]; [| done]. simpl.
    destruct (bool_decide (r ∈ refs)); [apply Hkind | done]. }
  assert (Hsame : forall item, item ∈ items ->
            eligible v k legacy ns' item
            = eligible v k legacy (nodes st) item).
  { intros item Hitem. apply eligible_kinds; [done | | done].
    rewrite Forall_forall in Hlive. by apply Hlive. }
  split; [| split].
  - unfold refs. clear -Hsame.
    induction items as [| x items IH]; [done |]. simpl.
    rewrite IH by (intros y Hy; apply Hsame, elem_of_cons; by right).
    destruct x; try done.
    by rewrite (Hsame (VNode r)) by (apply elem_of_cons; by left).
  - eapply Forall_impl; [exact Hlive |]. intros item [Hi Hr].
    split; [done |]. intros r Hitem. rewrite Hlen. by apply Hr.
  - destruct (reshape_all F refs Hid (with_nodes (fun _ => ns') st))
      as (ns2 & Hrun2 & Hlen2 & Hlook2).
    unfold bind. rewrite Hrun2. unfold ret. f_equal.
    assert (Heq : ns2 = ns').
    { apply list_eq. intros r. rewrite Hlook2. simpl. rewrite Hlook.
      destruct (nodes st !! r) as [n |]; [| done]. simpl. f_equal.
      destruct (bool_decide (r ∈ refs)); [| done].
      unfold set_shape. simpl. by rewrite Hid. }
    rewrite Heq. by destruct st.
Qed.

(** ** addClass, removeClass, hasClass *)

Lemma token_in_elem_of (name : string) (l : list string) :
  token_in name l = true <-> name ∈ l.
Proof.
  unfold token_in. rewrite existsb_exists. split.
  - intros (t & Ht & Heq). apply bool_decide_eq_true in Heq. subst.
    by apply list_elem_of_In.
  - intros Hin. exists name. split; [by apply list_elem_of_In |].
    by apply bool_decide_eq_true.
Qed.

Lemma elem_of_tokens_added (names l : list string) (t : string) :
  t ∈ fold_left (fun acc n => token_add n acc) names l <-> t ∈ l \/ t ∈ names.
Proof.
  revert l. induction names as [| n names IH]; intros l; simpl.
  - rewrite elem_of_nil. tauto.
  - rewrite IH, elem_of_cons. unfold token_add.
    destruct (token_in n l) eqn:E.
    + apply token_in_elem_of in E. split; [tauto |].
      intros [H | [-> | H]]; tauto.
    + rewrite elem_of_app, list_elem_of_singleton. tauto.
Qed.

Lemma tokens_added_present (names l : list string) :
  (forall t, t ∈ names -> t ∈ l) ->
  fold_left (fun acc n => token_add n acc) names l = l.
Proof.
  revert l. induction names as [| n names IH]; intros l Hall; simpl; [done |].
  unfold token_add.
  rewrite (proj2 (token_in_elem_of n l)) by (apply Hall, elem_of_cons; by left).
  apply IH. intros t Ht. apply Hall, elem_of_cons. by right.
Qed.

Lemma tokens_added_twice (names l : list string) :
  fold_left (fun acc n => token_add n acc) names
    (fold_left (fun acc n => token_add n acc) names l)
  = fold_left (fun acc n => token_add n acc) names l.
Proof.
  apply tokens_added_present. intros t Ht. apply elem_of_tokens_added.
  by right.
Qed.

Lemma tokens_added_extend (names l : list string) :
  exists extra,
    fold_left (fun acc n => token_add n acc) names l = l ++ extra
    /\ forall t, t ∈ extra -> t ∈ names.
Proof.
  revert l. induction names as [| n names IH]; intros l; simpl.
  - exists []. by rewrite app_nil_r.
  - destruct (IH (token_add n l)) as (extra & He & Hin). rewrite He.
    unfold token_add. destruct (token_in n l).
    + exists extra. split; [done |].
      intros t Ht. apply elem_of_cons. right. by apply Hin.
    + exists (n :: extra).
      rewrite <- app_assoc. split; [done |]. intros t Ht.
      apply elem_of_cons in Ht as [-> | Ht]; apply elem_of_cons;
        [by left | right; by apply Hin].
Qed.

Lemma tokens_removed_filter (names l : list string) :
  fold_left (fun acc n => token_remove n acc) names l
  = List.filter (fun t => negb (token_in t names)) l.
Proof.
  revert l. induction names as [| n names IH]; intros l; simpl.
  - induction l as [| t l IHl]; simpl; [done |]. by rewrite <- IHl.
  - rewrite IH. unfold token_remove. clear IH.
    induction l as [| t l IHl]; simpl; [done |].
    rewrite (bool_decide_ext (n = t) (t = n)) by (split; congruence).
    destruct (bool_decide (t = n)); simpl; [exact IHl |].
    destruct (token_in t names); simpl; [exact IHl |]. by rewrite IHl.
Qed.

Lemma assoc_get_set_other (k k' v : string) (l : list (string * string)) :
  k' <> k -> assoc_get k' (assoc_set k v l) = assoc_get k' l.
Proof.
  intros Hne. induction l as [| [k0 v0] l IH]; simpl.
  - by rewrite bool_decide_eq_false_2 by congruence.
  - destruct (decide (k0 = k)) as [-> | Hk].
    + rewrite bool_decide_eq_true_2 by done. simpl.
      by rewrite !(bool_decide_eq_false_2 (k = k')) by congruence.
    + rewrite (bool_decide_eq_false_2 (k0 = k)) by done. simpl.
      by rewrite IH.
Qed.

Lemma assoc_set_twice (k v : string) (l : list (string * string)) :
  assoc_set k v (assoc_set k v l) = assoc_set k v l.
Proof.
  induction l as [| [k0 v0] l IH]; simpl.
  - by rewrite bool_decide_eq_true_2.
  - destruct (bool_decide (k0 = k)) eqn:E; simpl.
    + by rewrite bool_decide_eq_true_2.
    + by rewrite E, IH.
Qed.

(** The update steps leave the class list, and running them twice is
    running them once. *)
Lemma classList_update_steps (s : Shape) :
  classList (update_steps s) = classList s.
Proof.
  unfold update_steps.
  destruct (assoc_get "class" (attributes s)); [done |].
  by destruct (classList s) eqn:E.
Qed.

Lemma classList_tokens_changed (f : list string -> list string) (s : Shape) :
  classList (tokens_changed f s) = f (classList s).
Proof. unfold tokens_changed. by rewrite classList_update_steps. Qed.

Lemma with_classList_same (f : list string -> list string) (s : Shape) :
  f (classList s) = classList s -> with_classList f s = s.
Proof. intros Hf. unfold with_classList. rewrite Hf. by destruct s. Qed.

Lemma update_steps_twice (s : Shape) :
  update_steps (update_steps s) = update_steps s.
Proof.
  assert (Hset : forall v x,
            update_steps (with_attributes (assoc_set "class" v) x)
            = with_attributes
                (assoc_set "class" (serialize_tokens (classList x)))
                (with_attributes (assoc_set "class" v) x)).
  { intros v x. unfold update_steps at 1.
    cbn [attributes with_attributes classList].
    by rewrite assoc_get_set. }
  assert (Hwritten : update_steps
                       (with_attributes
                          (assoc_set "class" (serialize_tokens (classList s)))
                          s)
                     = with_attributes
                         (assoc_set "class" (serialize_tokens (classList s)))
                         s).
  { rewrite Hset. unfold with_attributes.
    cbn [attributes classList nodeType localName dataset nodeData].
    by rewrite assoc_set_twice. }
  unfold update_steps at 2 3.
  destruct (assoc_get "class" (attributes s)) as [v |] eqn:Hv;
    [exact Hwritten |].
  destruct (classList s) as [| t l] eqn:Hl; [| exact Hwritten].
  unfold update_steps. by rewrite Hv, Hl.
Qed.

(** A change of the tokens that changes nothing when it is repeated. *)
Lemma tokens_changed_twice (f : list string -> list string) (s : Shape) :
  (forall l, f (f l) = f l) ->
  tokens_changed f (tokens_changed f s) = tokens_changed f s.
Proof.
  intros Hf. unfold tokens_changed at 1.
  rewrite with_classList_same
    by (by rewrite classList_tokens_changed, Hf).
  unfold tokens_changed. apply update_steps_twice.
Qed.

Lemma tokens_removed_twice (names l : list string) :
  fold_left (fun acc n => token_remove n acc) names
    (fold_left (fun acc n => token_remove n acc) names l)
  = fold_left (fun acc n => token_remove n acc) names l.
Proof.
  rewrite !tokens_removed_filter.
  induction l as [| t l IH]; simpl; [done |].
  destruct (token_in t names) eqn:E; simpl; [exact IH |].
  by rewrite E, IH.
Qed.

Lemma classes_added_twice (names : list string) (s : Shape) :
  classes_added names (classes_added names s) = classes_added names s.
Proof.
  apply tokens_changed_twice. intros l. apply tokens_added_twice.
Qed.

Lemma classes_removed_twice (names : list string) (s : Shape) :
  classes_removed names (classes_removed names s) = classes_removed names s.
Proof.
  apply tokens_changed_twice. intros l. apply tokens_removed_twice.
Qed.

Lemma kinds_kept_classList_add (names : list string) (r : ref) (s : State) :
  kinds_kept (nodes s) (nodes (snd (classList_add r names s))).
Proof.
  unfold classList_add. destruct (tokens_error names);
    [apply kinds_kept_refl |].
  apply kinds_kept_update_shape. intros x. apply kind_tokens_changed.
Qed.

Lemma kinds_kept_classList_remove (names : list string) (r : ref)
    (s : State) :
  kinds_kept (nodes s) (nodes (snd (classList_remove r names s))).
Proof.
  unfold classList_remove. destruct (tokens_error names);
    [apply kinds_kept_refl |].
  apply kinds_kept_update_shape. intros x. apply kind_tokens_changed.
Qed.

Lemma live_allocated (ns : list Node) (items : list Value)
    (ok : Value -> bool) (r : ref) :
  Forall (live ns) items -> r ∈ eligible_refs ok items -> r < length ns.
Proof.
  intros Hlive Hr. apply eligible_refs_elem in Hr as [Hr _].
  rewrite Forall_forall in Hlive. by apply (Hlive _ Hr).
Qed.

(** What [hasClass] returns: whether some eligible member carries the
    class. *)
Lemma hasClass_spec (v : Variant) (this : loc) (items : list Value)
    (name : string) (st : State) :
  arrays st !! this = Some items ->
  Forall (live (nodes st)) items ->
  EagleJS.hasClass v this name st
  = (Ok (existsb (fun r => classList_contains (nodes st) r name)
           (eligible_refs (eligible v K_classList EagleJS.isElement (nodes st))
              items)), st).
Proof.
  intros Hthis Hlive. unfold EagleJS.hasClass, EagleJS.some, bind at 1.
  rewrite (get_array_Some _ _ _ Hthis). clear Hthis.
  set (cb := fun (item : Value) (_ : nat) (_ : list Value) => _).
  generalize 0 at 1. generalize items at 1.
  induction items as [| x items IH]; intros a i; [done |].
  apply Forall_cons in Hlive as [Hx Hlive]. simpl. unfold bind at 1.
  unfold cb at 1. unfold bind at 1. rewrite capable_live by apply Hx.
  destruct (eligible v K_classList EagleJS.isElement (nodes st) x) eqn:Hok.
  - destruct (eligible_node v K_classList EagleJS.isElement (nodes st) x)
      as [r ->]; [constructor | done | done |].
    simpl. rewrite Hok. simpl.
    destruct (classList_contains (nodes st) r name); [done |].
    cbn [orb]. by apply IH.
  - unfold ret at 1. cbv beta iota. rewrite IH by done.
    destruct x; simpl; try done. by rewrite Hok.
Qed.

Lemma token_in_added (names l : list string) (name : string) :
  token_in name (fold_left (fun acc n => token_add n acc) names l)
  = token_in name l || bool_decide (name ∈ names).
Proof.
  apply eq_true_iff_eq.
  rewrite orb_true_iff, bool_decide_eq_true, !token_in_elem_of.
  apply elem_of_tokens_added.
Qed.

Lemma token_in_removed (names l : list string) (name : string) :
  token_in name (List.filter (fun t => negb (token_in t names)) l)
  = token_in name l && negb (bool_decide (name ∈ names)).
Proof.
  apply eq_true_iff_eq.
  rewrite andb_true_iff, negb_true_iff, bool_decide_eq_false.
  rewrite !token_in_elem_of, list_elem_of_In, filter_In, <- list_elem_of_In.
  rewrite negb_true_iff, <- not_true_iff_false, token_in_elem_of. tauto.
Qed.

Lemma filter_nothing_to_drop {A} (f : A -> bool) (l : list A) :
  (forall x, x ∈ l -> f x = true) -> List.filter f l = l.
Proof.
  induction l as [| x l IH]; intros Hall; simpl; [done |].
  rewrite Hall by (apply elem_of_cons; by left). f_equal. apply IH.
  intros y Hy. apply Hall, elem_of_cons. by right.
Qed.

Lemma filter_all_dropped {A} (f : A -> bool) (l : list A) :
  (forall x, x ∈ l -> f x = false) -> List.filter f l = [].
Proof.
  induction l as [| x l IH]; intros Hall; simpl; [done |].
  rewrite Hall by (apply elem_of_cons; by left). apply IH.
  intros y Hy. apply Hall, elem_of_cons. by right.
Qed.

(** The two class methods as loops over the eligible members. *)
Lemma addClass_loop (v : Variant) (this : loc) (items : list Value)
    (names : list string) (st : State) :
  arrays st !! this = Some items ->
  Forall (live (nodes st)) items ->
  EagleJS.addClass v this names st
  = (forEach (fun r => classList_add r names)
       (eligible_refs (eligible v K_classList EagleJS.isElement (nodes st))
          items) ;;
     ret this) st.
Proof.
  intros Hthis Hlive. unfold EagleJS.addClass.
  apply (mutator_all v K_classList EagleJS.isElement
           (fun r => classList_add r names)); try done; [constructor |].
  intros r s. apply kinds_kept_classList_add.
Qed.

Lemma removeClass_loop (v : Variant) (this : loc) (items : list Value)
    (names : list string) (st : State) :
  arrays st !! this = Some items ->
  Forall (live (nodes st)) items ->
  EagleJS.removeClass v this names st
  = (forEach (fun r => classList_remove r names)
       (eligible_refs (eligible v K_classList EagleJS.isElement (nodes st))
          items) ;;
     ret this) st.
Proof.
  intros Hthis Hlive. unfold EagleJS.removeClass.
  apply (mutator_all v K_classList EagleJS.isElement
           (fun r => classList_remove r names)); try done; [constructor |].
  intros r s. apply kinds_kept_classList_remove.
Qed.

Lemma bind_forEach_ext {A B} (f g : A -> M unit) (l : list A) (k : M B)
    (st : State) :
  (forall x s, f x s = g x s) ->
  (forEach f l ;; k) st = (forEach g l ;; k) st.
Proof. intros Hfg. unfold bind. by rewrite (forEach_ext f g). Qed.

(** The attributes after a change of the class list. *)
Lemma attribute_tokens_changed (f : list string -> list string) (s : Shape)
    (name : string) :
  assoc_get (ascii_lowercase name) (attributes (tokens_changed f s))
  = if bool_decide (ascii_lowercase name = "class")
    then class_attribute (assoc_get "class" (attributes s)) (f (classList s))
    else assoc_get (ascii_lowercase name) (attributes s).
Proof.
  unfold tokens_changed, update_steps, class_attribute.
  cbn [with_classList attributes classList].
  destruct (assoc_get "class" (attributes s)) as [c |] eqn:Hc;
    destruct (f (classList s)) as [| t l] eqn:Hl;
    case_bool_decide as Hn; cbn [with_attributes attributes];
    rewrite ?Hn, ?assoc_get_set, ?Hc; try done;
    by apply assoc_get_set_other.
Qed.

(** X6.  [addClass] with valid names, in both sources, on a collection of live
    items: every eligible member (an element) gets the names it lacks, in
    their order, after the classes it has, and its [class] attribute is
    then the serialization of its class list (it stays absent when there
    was none and there is no class); its other attributes, and everything
    else, are as they were; then [hasClass] of any of the names holds
    exactly when the collection has an element; and a second [addClass]
    changes nothing. *)
Theorem addClass_adds_classes (v : Variant) (this : loc)
    (items : list Value) (names : list string) (st : State) :
  arrays st !! this = Some items ->
  Forall (live (nodes st)) items ->
  tokens_error names = None ->
  let refs :=
    eligible_refs (eligible v K_classList EagleJS.isElement (nodes st)) items
  in
  exists st',
    EagleJS.addClass v this names st = (Ok this, st')
    /\ arrays st' = arrays st
    /\ (forall r, parent_of (nodes st') r = parent_of (nodes st) r
                  /\ children_of (nodes st') r = children_of (nodes st) r)
    /\ (forall r, r ∈ refs ->
          shape_of (nodes st') r = classes_added names (shape_of (nodes st) r)
          /\ (exists extra,
                classList (shape_of (nodes st') r)
                = classList (shape_of (nodes st) r) ++ extra
                /\ forall t, t ∈ extra -> t ∈ names)
          /\ (forall name,
                classList_contains (nodes st') r name
                = classList_contains (nodes st) r name
                  || bool_decide (name ∈ names))
          /\ forall name,
               getAttribute (nodes st') r name
               = if bool_decide (ascii_lowercase name = "class")
                 then class_attribute (getAttribute (nodes st) r "class")
                        (classList (shape_of (nodes st') r))
                 else getAttribute (nodes st) r name)
    /\ (forall r, r ∉ refs ->
          shape_of (nodes st') r = shape_of (nodes st) r)
    /\ (forall name, name ∈ names ->
          EagleJS.hasClass v this name st'
          = (Ok (negb (bool_decide (refs = []))), st'))
    /\ EagleJS.addClass v this names st' = (Ok this, st').
Proof.
  intros Hthis Hlive Hvalid refs.
  assert (Hsetter : forall r s,
            classList_add r names s
            = update_shape r (classes_added names) s).
  { intros r s. unfold classList_add. by rewrite Hvalid. }
  destruct (reshape_members v K_classList EagleJS.isElement
              (classes_added names) this items st)
    as (ns' & Hrun & Hlen & Hlook & Hrefs & Hlive' & Hagain);
    [constructor | apply classes_added_twice
     | intros s0; apply kind_tokens_changed | done |].
  fold refs in Hrun, Hlook, Hrefs, Hagain.
  destruct (reshaped_facts _ _ _ _ Hlook) as (Hlinks & Hin & Hout).
  exists (with_nodes (fun _ => ns') st).
  split.
  { rewrite (addClass_loop v this items names st Hthis Hlive). fold refs.
    by rewrite (bind_forEach_ext _ _ _ _ _ Hsetter). }
  split; [done |]. split; [exact Hlinks |].
  assert (Hshape : forall r, r ∈ refs ->
            shape_of ns' r = classes_added names (shape_of (nodes st) r)).
  { intros r Hr. apply Hin; [done |].
    by apply (live_allocated _ items
                (eligible v K_classList EagleJS.isElement (nodes st))). }
  split; [| split; [exact Hout | split]].
  - intros r Hr. simpl. rewrite (Hshape r Hr). split; [done |].
    unfold classes_added. rewrite classList_tokens_changed.
    split; [| split].
    + apply tokens_added_extend.
    + intros name. unfold classList_contains. rewrite (Hshape r Hr).
      unfold classes_added. rewrite classList_tokens_changed.
      apply token_in_added.
    + intros name. unfold getAttribute. rewrite (Hshape r Hr).
      unfold classes_added. apply attribute_tokens_changed.
  - intros name Hname.
    rewrite (hasClass_spec v this items name (with_nodes (fun _ => ns') st))
      by done.
    simpl. rewrite Hrefs. f_equal. f_equal.
    destruct refs as [| r refs'] eqn:E; [done |].
    simpl. unfold classList_contains at 1.
    rewrite Hshape by (apply elem_of_cons; by left).
    unfold classes_added. rewrite classList_tokens_changed.
    rewrite token_in_added, (bool_decide_eq_true_2 _ Hname).
    by rewrite orb_true_r.
  - rewrite (addClass_loop v this items names
               (with_nodes (fun _ => ns') st) Hthis Hlive').
    simpl nodes. rewrite Hrefs.
    by rewrite (bind_forEach_ext _ _ _ _ _ Hsetter).
Qed.

(** The classes [on] and [new] on the three elements of the page. *)
Lemma addClass_adds_classes_witness :
  let refs :=
    eligible_refs
      (eligible Typed K_classList EagleJS.isElement (nodes Demo.trio))
      [VNode 3; VNode 4; VNode 5] in
  exists st',
    EagleJS.addClass Typed 2 ["on"; "new"] Demo.trio = (Ok 2, st')
    /\ arrays st' = arrays Demo.trio
    /\ (forall r, parent_of (nodes st') r = parent_of (nodes Demo.trio) r
                  /\ children_of (nodes st') r
                     = children_of (nodes Demo.trio) r)
    /\ (forall r, r ∈ refs ->
          shape_of (nodes st') r
          = classes_added ["on"; "new"] (shape_of (nodes Demo.trio) r)
          /\ (exists extra,
                classList (shape_of (nodes st') r)
                = classList (shape_of (nodes Demo.trio) r) ++ extra
                /\ forall t, t ∈ extra -> t ∈ ["on"; "new"])
          /\ (forall name,
                classList_contains (nodes st') r name
                = classList_contains (nodes Demo.trio) r name
                  || bool_decide (name ∈ ["on"; "new"]))
          /\ forall name,
               getAttribute (nodes st') r name
               = if bool_decide (ascii_lowercase name = "class")
                 then class_attribute
                        (getAttribute (nodes Demo.trio) r "class")
                        (classList (shape_of (nodes st') r))
                 else getAttribute (nodes Demo.trio) r name)
    /\ (forall r, r ∉ refs ->
          shape_of (nodes st') r = shape_of (nodes Demo.trio) r)
    /\ (forall name, name ∈ ["on"; "new"] ->
          EagleJS.hasClass Typed 2 name st'
          = (Ok (negb (bool_decide (refs = []))), st'))
    /\ EagleJS.addClass Typed 2 ["on"; "new"] st' = (Ok 2, st').
Proof.
  apply (addClass_adds_classes Typed 2 [VNode 3; VNode 4; VNode 5]
           ["on"; "new"] Demo.trio); [reflexivity | | reflexivity].
  repeat (constructor; [split; [reflexivity | intros r [= <-]; simpl; lia] |]).
  constructor.
Defined.

(** X7.  [removeClass] with valid names: every eligible member keeps, in their
    order, the classes that are not among the names, and its [class]
    attribute is then the serialization of its class list (it stays
    absent when there was none and there is no class); its other
    attributes, and everything else, are as they were; then [hasClass] of
    any of the names is false; a second [removeClass] changes nothing; and
    [removeClass] after [addClass] of the same names leaves the class
    lists that [removeClass] alone leaves, which are the old ones where
    none of the names was present. *)
Theorem removeClass_removes_classes (v : Variant) (this : loc)
    (items : list Value) (names : list string) (st : State) :
  arrays st !! this = Some items ->
  Forall (live (nodes st)) items ->
  tokens_error names = None ->
  let refs :=
    eligible_refs (eligible v K_classList EagleJS.isElement (nodes st)) items
  in
  let kept r :=
    List.filter (fun t => negb (token_in t names))
      (classList (shape_of (nodes st) r)) in
  exists st',
    EagleJS.removeClass v this names st = (Ok this, st')
    /\ arrays st' = arrays st
    /\ (forall r, parent_of (nodes st') r = parent_of (nodes st) r
                  /\ children_of (nodes st') r = children_of (nodes st) r)
    /\ (forall r, r ∈ refs ->
          shape_of (nodes st') r
          = classes_removed names (shape_of (nodes st) r)
          /\ classList (shape_of (nodes st') r) = kept r
          /\ (forall name,
                classList_contains (nodes st') r name
                = classList_contains (nodes st) r name
                  && negb (bool_decide (name ∈ names)))
          /\ forall name,
               getAttribute (nodes st') r name
               = if bool_decide (ascii_lowercase name = "class")
                 then class_attribute (getAttribute (nodes st) r "class")
                        (kept r)
                 else getAttribute (nodes st) r name)
    /\ (forall r, r ∉ refs ->
          shape_of (nodes st') r = shape_of (nodes st) r)
    /\ (forall name, name ∈ names ->
          EagleJS.hasClass v this name st' = (Ok false, st'))
    /\ EagleJS.removeClass v this names st' = (Ok this, st')
    /\ exists sa sb,
         EagleJS.addClass v this names st = (Ok this, sa)
         /\ EagleJS.removeClass v this names sa = (Ok this, sb)
         /\ forall r, r ∈ refs ->
              classList (shape_of (nodes sb) r) = kept r
              /\ ((forall t, t ∈ names ->
                     classList_contains (nodes st) r t = false) ->
                  classList (shape_of (nodes sb) r)
                  = classList (shape_of (nodes st) r)).
Proof.
  intros Hthis Hlive Hvalid refs kept.
  assert (Hsetter : forall r s,
            classList_remove r names s
            = update_shape r (classes_removed names) s).
  { intros r s. unfold classList_remove. by rewrite Hvalid. }
  assert (Hadd : forall r s,
            classList_add r names s
            = update_shape r (classes_added names) s).
  { intros r s. unfold classList_add. by rewrite Hvalid. }
  assert (Hremoved : forall (ns0 ns1 : list Node) (rs : list ref) (r : ref),
            (forall x,
               ns1 !! x
               = (fun n => if bool_decide (x ∈ rs)
                           then set_shape (classes_removed names (shape n)) n
                           else n) <$> ns0 !! x) ->
            r ∈ rs -> r < length ns0 ->
            shape_of ns1 r = classes_removed names (shape_of ns0 r)
            /\ classList (shape_of ns1 r)
               = List.filter (fun t => negb (token_in t names))
                   (classList (shape_of ns0 r))).
  { intros ns0 ns1 rs r Hlook Hr Hlt.
    destruct (reshaped_facts _ _ _ _ Hlook) as (_ & Hin & _).
    rewrite (Hin r Hr Hlt). split; [done |]. unfold classes_removed.
    rewrite classList_tokens_changed. apply tokens_removed_filter. }
  assert (Halloc : forall r, r ∈ refs -> r < length (nodes st)).
  { intros r Hr.
    by apply (live_allocated _ items
                (eligible v K_classList EagleJS.isElement (nodes st))). }
  destruct (reshape_members v K_classList EagleJS.isElement
              (classes_removed names) this items st)
    as (ns' & Hrun & Hlen & Hlook & Hrefs & Hlive' & Hagain);
    [constructor | apply classes_removed_twice
     | intros s0; apply kind_tokens_changed | done |].
  fold refs in Hrun, Hlook, Hrefs, Hagain.
  destruct (reshaped_facts _ _ _ _ Hlook) as (Hlinks & Hin & Hout).
  exists (with_nodes (fun _ => ns') st).
  split.
  { rewrite (removeClass_loop v this items names st Hthis Hlive). fold refs.
    by rewrite (bind_forEach_ext _ _ _ _ _ Hsetter). }
  split; [done |]. split; [exact Hlinks |].
  split; [| split; [exact Hout | split; [| split]]].
  - intros r Hr. simpl.
    destruct (Hremoved _ _ _ r Hlook Hr (Halloc r Hr)) as [Hs Hc].
    split; [done |]. split; [done |]. split.
    + intros name. unfold classList_contains. rewrite Hc.
      apply token_in_removed.
    + intros name. unfold getAttribute. rewrite Hs. unfold classes_removed.
      rewrite attribute_tokens_changed. unfold kept.
      by rewrite <- tokens_removed_filter.
  - intros name Hname.
    rewrite (hasClass_spec v this items name (with_nodes (fun _ => ns') st))
      by done.
    simpl. rewrite Hrefs. f_equal. f_equal.
    assert (Hall : forall r, r ∈ refs ->
              classList_contains ns' r name = false).
    { intros r Hr. unfold classList_contains.
      destruct (Hremoved _ _ _ r Hlook Hr (Halloc r Hr)) as [_ ->].
      rewrite token_in_removed, (bool_decide_eq_true_2 _ Hname).
      apply andb_false_r. }
    clear -Hall. induction refs as [| r refs' IH]; [done |]. simpl.
    rewrite Hall by (apply elem_of_cons; by left). simpl. apply IH.
    intros x Hx. apply Hall, elem_of_cons. by right.
  - rewrite (removeClass_loop v this items names
               (with_nodes (fun _ => ns') st) Hthis Hlive').
    simpl nodes. rewrite Hrefs.
    by rewrite (bind_forEach_ext _ _ _ _ _ Hsetter).
  - destruct (reshape_members v K_classList EagleJS.isElement
                (classes_added names) this items st)
      as (nsa & Hruna & Hlena & Hlooka & Hrefsa & Hlivea & _);
      [constructor | apply classes_added_twice
     | intros s0; apply kind_tokens_changed | done |].
    fold refs in Hruna, Hlooka, Hrefsa.
    set (sa := with_nodes (fun _ => nsa) st).
    destruct (reshape_members v K_classList EagleJS.isElement
                (classes_removed names) this items sa)
      as (nsb & Hrunb & Hlenb & Hlookb & _);
      [constructor | apply classes_removed_twice
     | intros s0; apply kind_tokens_changed | done |].
    simpl nodes in Hrunb, Hlookb, Hlenb. rewrite Hrefsa in Hrunb, Hlookb.
    exists sa, (with_nodes (fun _ => nsb) st). split; [| split].
    + rewrite (addClass_loop v this items names st Hthis Hlive). fold refs.
      by rewrite (bind_forEach_ext _ _ _ _ _ Hadd).
    + rewrite (removeClass_loop v this items names sa Hthis Hlivea).
      simpl nodes. rewrite Hrefsa.
      by rewrite (bind_forEach_ext _ _ _ _ _ Hsetter).
    + intros r Hr. simpl.
      destruct (Hremoved _ _ _ r Hlookb Hr) as [_ Hc];
        [rewrite Hlena; by apply Halloc |].
      destruct (reshaped_facts _ _ _ _ Hlooka) as (_ & Hina & _).
      rewrite Hc, (Hina r Hr (Halloc r Hr)). unfold classes_added.
      rewrite classList_tokens_changed.
      destruct (tokens_added_extend names (classList (shape_of (nodes st) r)))
        as (extra & -> & Hextra).
      rewrite List.filter_app.
      rewrite (filter_all_dropped _ extra), app_nil_r.
      * split; [done |]. intros Hnone. apply filter_nothing_to_drop.
        intros t Ht. apply negb_true_iff.
        destruct (token_in t names) eqn:E; [| done].
        apply token_in_elem_of in E. specialize (Hnone t E).
        unfold classList_contains in Hnone.
        apply token_in_elem_of in Ht. congruence.
      * intros t Ht. apply negb_false_iff. apply token_in_elem_of.
        by apply Hextra.
Qed.

(** The class [on], which the [div] of the page carries. *)
Lemma removeClass_removes_classes_witness :
  let refs :=
    eligible_refs
      (eligible Legacy K_classList EagleJS.isElement (nodes Demo.trio))
      [VNode 3; VNode 4; VNode 5] in
  let kept r :=
    List.filter (fun t => negb (token_in t ["on"]))
      (classList (shape_of (nodes Demo.trio) r)) in
  exists st',
    EagleJS.removeClass Legacy 2 ["on"] Demo.trio = (Ok 2, st')
    /\ arrays st' = arrays Demo.trio
    /\ (forall r, parent_of (nodes st') r = parent_of (nodes Demo.trio) r
                  /\ children_of (nodes st') r
                     = children_of (nodes Demo.trio) r)
    /\ (forall r, r ∈ refs ->
          shape_of (nodes st') r
          = classes_removed ["on"] (shape_of (nodes Demo.trio) r)
          /\ classList (shape_of (nodes st') r) = kept r
          /\ (forall name,
                classList_contains (nodes st') r name
                = classList_contains (nodes Demo.trio) r name
                  && negb (bool_decide (name ∈ ["on"])))
          /\ forall name,
               getAttribute (nodes st') r name
               = if bool_decide (ascii_lowercase name = "class")
                 then class_attribute
                        (getAttribute (nodes Demo.trio) r "class") (kept r)
                 else getAttribute (nodes Demo.trio) r name)
    /\ (forall r, r ∉ refs ->
          shape_of (nodes st') r = shape_of (nodes Demo.trio) r)
    /\ (forall name, name ∈ ["on"] ->
          EagleJS.hasClass Legacy 2 name st' = (Ok false, st'))
    /\ EagleJS.removeClass Legacy 2 ["on"] st' = (Ok 2, st')
    /\ exists sa sb,
         EagleJS.addClass Legacy 2 ["on"] Demo.trio = (Ok 2, sa)
         /\ EagleJS.removeClass Legacy 2 ["on"] sa = (Ok 2, sb)
         /\ forall r, r ∈ refs ->
              classList (shape_of (nodes sb) r) = kept r
              /\ ((forall t, t ∈ ["on"] ->
                     classList_contains (nodes Demo.trio) r t = false) ->
                  classList (shape_of (nodes sb) r)
                  = classList (shape_of (nodes Demo.trio) r)).
Proof.
  apply (removeClass_removes_classes Legacy 2 [VNode 3; VNode 4; VNode 5]
           ["on"] Demo.trio); [reflexivity | | reflexivity].
  repeat (constructor; [split; [reflexivity | intros r [= <-]; simpl; lia] |]).
  constructor.
Defined.

(** X8.  The names are checked only when there is an element to change: with a
    name that is empty or holds whitespace, [addClass] and [removeClass]
    throw, and change nothing, on a collection that has an element, and
    return the receiver on one that has none.  The first offending name
    decides: [SyntaxError] when it is empty, [InvalidCharacterError]
    otherwise. *)
Theorem class_names_checked_late (v : Variant) (this : loc)
    (items : list Value) (names : list string) (e : Exn) (st : State) :
  arrays st !! this = Some items ->
  Forall (live (nodes st)) items ->
  tokens_error names = Some e ->
  let refs :=
    eligible_refs (eligible v K_classList EagleJS.isElement (nodes st)) items
  in
  EagleJS.addClass v this names st
  = (if bool_decide (refs = []) then Ok this else Throw e, st)
  /\ EagleJS.removeClass v this names st
     = (if bool_decide (refs = []) then Ok this else Throw e, st)
  /\ exists before t after,
       names = before ++ t :: after
       /\ tokens_error before = None
       /\ (t = "" /\ e = SyntaxError
           \/ t <> "" /\ has_whitespace t = true
              /\ e = InvalidCharacterError).
Proof.
  intros Hthis Hlive Herr refs. split; [| split].
  - rewrite (addClass_loop v this items names st Hthis Hlive). fold refs.
    destruct refs as [| r refs']; [done |]. simpl. unfold bind.
    unfold classList_add. by rewrite Herr.
  - rewrite (removeClass_loop v this items names st Hthis Hlive). fold refs.
    destruct refs as [| r refs']; [done |]. simpl. unfold bind.
    unfold classList_remove. by rewrite Herr.
  - clear -Herr. induction names as [| n names IH]; [done |].
    simpl in Herr. destruct (decide (n = "")) as [-> | Hne].
    + rewrite bool_decide_eq_true_2 in Herr by done. injection Herr as <-.
      exists [], "", names. split; [done |]. split; [done |]. by left.
    + rewrite bool_decide_eq_false_2 in Herr by done.
      destruct (has_whitespace n) eqn:Hw.
      * injection Herr as <-. exists [], n, names.
        split; [done |]. split; [done |]. by right.
      * destruct (IH Herr) as (before & t & after & -> & Hb & Ht).
        exists (n :: before), t, after. split; [done |]. split; [| done].
        simpl. rewrite bool_decide_eq_false_2 by done. by rewrite Hw.
Qed.

(** A name with a space, on the elements of the page and on a text node. *)
Lemma class_names_checked_late_witness :
  (EagleJS.addClass Typed 2 ["ok"; "a b"] Demo.trio
   = (Throw InvalidCharacterError, Demo.trio)
   /\ EagleJS.removeClass Typed 2 ["ok"; "a b"] Demo.trio
      = (Throw InvalidCharacterError, Demo.trio)
   /\ exists before t after,
        ["ok"; "a b"] = before ++ t :: after
        /\ tokens_error before = None
        /\ (t = "" /\ InvalidCharacterError = SyntaxError
            \/ t <> "" /\ has_whitespace t = true
               /\ InvalidCharacterError = InvalidCharacterError)).
Proof.
  apply (class_names_checked_late Typed 2 [VNode 3; VNode 4; VNode 5]
           ["ok"; "a b"] InvalidCharacterError Demo.trio);
    [reflexivity | | reflexivity].
  repeat (constructor; [split; [reflexivity | intros r [= <-]; simpl; lia] |]).
  constructor.
Defined.

(** ** Attributes and data: what is written is read back *)

Lemma assoc_get_removed (names : list string) (name : string)
    (l : list (string * string)) :
  assoc_get name (fold_left (fun acc n => assoc_remove n acc) names l)
  = if bool_decide (name ∈ names) then None else assoc_get name l.
Proof.
  assert (Hone : forall n l0,
            assoc_get name (assoc_remove n l0)
            = if bool_decide (name = n) then None else assoc_get name l0).
  { intros n l0. unfold assoc_remove.
    induction l0 as [| [k0 v0] l0 IH]; simpl; [by case_bool_decide |].
    repeat case_bool_decide; simpl; rewrite ?IH; repeat case_bool_decide;
      simplify_eq; done. }
  revert l. induction names as [| n names IH]; intros l; simpl; [done |].
  rewrite IH, Hone.
  pose proof (elem_of_cons names name n) as Hin.
  repeat case_bool_decide; try done; exfalso; tauto.
Qed.

Lemma assoc_removed_twice (names : list string) (l : list (string * string)) :
  fold_left (fun acc n => assoc_remove n acc) names
    (fold_left (fun acc n => assoc_remove n acc) names l)
  = fold_left (fun acc n => assoc_remove n acc) names l.
Proof.
  assert (Hf : forall ns l0,
            fold_left (fun acc n => assoc_remove n acc) ns l0
            = List.filter (fun p => negb (token_in (fst p) ns)) l0).
  { induction ns as [| n ns IHn]; intros l0; simpl.
    - induction l0 as [| p l0 IHl]; simpl; [done |]. by rewrite <- IHl.
    - rewrite IHn. unfold assoc_remove. clear IHn.
      induction l0 as [| p l0 IHl]; simpl; [done |].
      rewrite (bool_decide_ext (n = fst p) (fst p = n)) by (split; congruence).
      destruct (bool_decide (fst p = n)); simpl; [exact IHl |].
      destruct (token_in (fst p) ns); simpl; [exact IHl |]. by rewrite IHl. }
  rewrite !Hf. induction l as [| p l IH]; simpl; [done |].
  destruct (token_in (fst p) names) eqn:E; simpl; [exact IH |].
  by rewrite E, IH.
Qed.

Lemma alter_pointwise (f g : Node -> Node) (r : ref) (ns : list Node) :
  (forall n, f n = g n) -> alter f r ns = alter g r ns.
Proof.
  intros Hfg. apply list_eq. intros i. destruct (decide (i = r)) as [-> | Hne].
  - rewrite !list_lookup_alter_eq. destruct (ns !! r); [| done].
    simpl. by rewrite Hfg.
  - by rewrite !list_lookup_alter_ne.
Qed.

Lemma alter_twice (f g : Node -> Node) (r : ref) (ns : list Node) :
  alter g r (alter f r ns) = alter (fun n => g (f n)) r ns.
Proof.
  apply list_eq. intros i. destruct (decide (i = r)) as [-> | Hne].
  - rewrite !list_lookup_alter_eq. by destruct (ns !! r).
  - by rewrite !list_lookup_alter_ne.
Qed.

(** Removing attributes one by one is one change of shape. *)
Lemma removeAttribute_each (r : ref) (names : list string) (s : State) :
  forEach (fun name => removeAttribute r name) names s
  = update_shape r (attributes_removed names) s.
Proof.
  unfold update_shape, modify. revert s.
  induction names as [| n names IH]; intros s.
  - simpl. unfold ret. f_equal. destruct s as [ns h d ls ts cs].
    unfold with_nodes. simpl. f_equal. symmetry. apply list_alter_id.
    intros x. destruct x as [sh p c rs]. by destruct sh.
  - simpl. unfold bind, removeAttribute at 1, update_shape, modify.
    rewrite IH. f_equal. unfold with_nodes. simpl. f_equal.
    rewrite alter_twice. by apply alter_pointwise.
Qed.

Lemma eligible_attribute_keys (v : Variant) (ns : list Node) (item : Value) :
  eligible v K_getAttribute EagleJS.isElement ns item
  = eligible v K_setAttribute EagleJS.isElement ns item
  /\ eligible v K_removeAttribute EagleJS.isElement ns item
     = eligible v K_setAttribute EagleJS.isElement ns item.
Proof.
  destruct v; simpl; [| done]. by destruct item.
Qed.

Lemma eligible_refs_ext (ok ok' : Value -> bool) (items : list Value) :
  (forall item, ok item = ok' item) ->
  eligible_refs ok items = eligible_refs ok' items.
Proof.
  intros Hok. induction items as [| x items IH]; [done |]. simpl.
  rewrite IH. destruct x; try done. by rewrite Hok.
Qed.

(** What a getter returns when every eligible member holds the same
    value. *)
Lemma get_first_constant (ok : Value -> bool) (value : ref -> Returned)
    (default result : Returned) (items : list Value) :
  (forall r, r ∈ eligible_refs ok items -> value r = result) ->
  get_first ok value default items
  = if bool_decide (eligible_refs ok items = []) then default else result.
Proof.
  intros Hall. unfold get_first.
  destruct (eligible_refs ok items) as [| r refs]; [done |]. simpl.
  apply Hall. apply elem_of_cons. by left.
Qed.

Lemma attribute_set_twice (name value : string) (s : Shape) :
  attribute_set name value (attribute_set name value s)
  = attribute_set name value s.
Proof.
  unfold attribute_set, attribute_changed. destruct s as [t ln ats cl ds nd].
  destruct (data_key (ascii_lowercase name)) as [key |];
    destruct (bool_decide (ascii_lowercase name = "class"));
    unfold with_dataset, with_classList, with_attributes;
    cbn [nodeType localName attributes classList dataset nodeData];
    rewrite assoc_set_twice; try done.
  all: f_equal; destruct ds as [d |]; simpl; [| done];
    by rewrite assoc_set_twice.
Qed.

(** The class list after [setAttribute]: the tokens of the value when the
    attribute is [class]. *)
Lemma classList_attribute_set (name value : string) (s : Shape) :
  classList (attribute_set name value s)
  = if bool_decide (ascii_lowercase name = "class") then parse_tokens value
    else classList s.
Proof.
  unfold attribute_set, attribute_changed.
  destruct (data_key (ascii_lowercase name));
    by destruct (bool_decide (ascii_lowercase name = "class")).
Qed.

(** X9.  [attr(name, value)] with a valid name, then [attr(name)]: the value is
    read back when the collection has an element, [null] otherwise.  The
    name counts without its letter case: the attributes whose lower-cased
    name is another are as they were.  When the attribute is [class], the
    class list of every element of the collection is the list of the
    tokens of the value; otherwise the class lists are as they were.
    Nothing changes for the other nodes, and a second [attr(name, value)]
    changes nothing. *)
Theorem attr_written_is_read `{Engines} (v : Variant) (this : loc)
    (items : list Value) (name value : string) (st : State) :
  arrays st !! this = Some items ->
  Forall (live (nodes st)) items ->
  attribute_name_valid name = true ->
  let refs :=
    eligible_refs (eligible v K_setAttribute EagleJS.isElement (nodes st))
      items in
  exists st',
    EagleJS.attr v this name (Some value) st = (Ok (RetThis this), st')
    /\ arrays st' = arrays st
    /\ (forall r, parent_of (nodes st') r = parent_of (nodes st) r
                  /\ children_of (nodes st') r = children_of (nodes st) r)
    /\ (forall r other, r ∈ refs ->
          getAttribute (nodes st') r other
          = if bool_decide (ascii_lowercase other = ascii_lowercase name)
            then Some value
            else getAttribute (nodes st) r other)
    /\ (forall r, r ∈ refs ->
          classList (shape_of (nodes st') r)
          = if bool_decide (ascii_lowercase name = "class")
            then parse_tokens value
            else classList (shape_of (nodes st) r))
    /\ (forall r, r ∉ refs ->
          shape_of (nodes st') r = shape_of (nodes st) r)
    /\ (forall name', ascii_lowercase name' = ascii_lowercase name ->
          EagleJS.attr v this name' None st'
          = (Ok (if bool_decide (refs = []) then RetNull else RetStr value),
             st'))
    /\ EagleJS.attr v this name (Some value) st' = (Ok (RetThis this), st').
Proof.
  intros Hthis Hlive Hvalid refs.
  assert (Hsetter : forall r s,
            setAttribute r name value s
            = update_shape r (attribute_set name value) s).
  { intros r s. unfold setAttribute. by rewrite Hvalid. }
  destruct (reshape_members v K_setAttribute EagleJS.isElement
              (attribute_set name value) (RetThis this) items st)
    as (ns' & Hrun & Hlen & Hlook & Hrefs & Hlive' & Hagain);
    [constructor | apply attribute_set_twice
     | intros s0; apply kind_attribute_set | done |].
  fold refs in Hrun, Hlook, Hrefs, Hagain.
  destruct (reshaped_facts _ _ _ _ Hlook) as (Hlinks & Hin & Hout).
  assert (Halloc : forall r, r ∈ refs -> r < length (nodes st)).
  { intros r Hr.
    by apply (live_allocated _ items
                (eligible v K_setAttribute EagleJS.isElement (nodes st))). }
  assert (Hattr : forall r other, r ∈ refs ->
            getAttribute ns' r other
            = if bool_decide (ascii_lowercase other = ascii_lowercase name)
              then Some value
              else getAttribute (nodes st) r other).
  { intros r other Hr. unfold getAttribute.
    rewrite (Hin r Hr (Halloc r Hr)), attributes_attribute_set.
    case_bool_decide as Ho.
    - rewrite Ho. apply assoc_get_set.
    - by apply assoc_get_set_other. }
  exists (with_nodes (fun _ => ns') st).
  split.
  { rewrite (attr_set v this items st Hthis Hlive). unfold set_all.
    fold refs. by rewrite (bind_forEach_ext _ _ _ _ _ Hsetter). }
  split; [done |]. split; [exact Hlinks |]. split; [exact Hattr |].
  split.
  { intros r Hr. simpl. rewrite (Hin r Hr (Halloc r Hr)).
    apply classList_attribute_set. }
  split; [exact Hout |]. split.
  - intros name' Hname'.
    rewrite (attr_get v this items (with_nodes (fun _ => ns') st) Hthis Hlive').
    simpl nodes. f_equal. f_equal.
    assert (Hg : get_first
                   (eligible v K_getAttribute EagleJS.isElement ns')
                   (fun r => EagleJS.of_nullable (getAttribute ns' r name'))
                   RetNull items
                 = if bool_decide
                        (eligible_refs
                           (eligible v K_getAttribute EagleJS.isElement ns')
                           items = [])
                   then RetNull else RetStr value).
    { apply get_first_constant. intros r Hr.
      rewrite (eligible_refs_ext _
                 (eligible v K_setAttribute EagleJS.isElement ns'))
        in Hr by (intros item; apply eligible_attribute_keys).
      rewrite Hrefs in Hr. rewrite (Hattr r name' Hr).
      by rewrite bool_decide_eq_true_2. }
    rewrite Hg.
    rewrite (eligible_refs_ext _
               (eligible v K_setAttribute EagleJS.isElement ns'))
      by (intros item; apply eligible_attribute_keys).
    by rewrite Hrefs.
  - rewrite (attr_set v this items (with_nodes (fun _ => ns') st) Hthis Hlive').
    unfold set_all. simpl nodes. rewrite Hrefs.
    by rewrite (bind_forEach_ext _ _ _ _ _ Hsetter).
Qed.

(** The attribute [title] on the three elements of the page. *)
Lemma attr_written_is_read_witness :
  let refs :=
    eligible_refs
      (eligible Typed K_setAttribute EagleJS.isElement (nodes Demo.trio))
      [VNode 3; VNode 4; VNode 5] in
  exists st',
    EagleJS.attr (H := Demo.engines) Typed 2 "title" (Some "t") Demo.trio
    = (Ok (RetThis 2), st')
    /\ arrays st' = arrays Demo.trio
    /\ (forall r, parent_of (nodes st') r = parent_of (nodes Demo.trio) r
                  /\ children_of (nodes st') r
                     = children_of (nodes Demo.trio) r)
    /\ (forall r other, r ∈ refs ->
          getAttribute (nodes st') r other
          = if bool_decide (ascii_lowercase other = ascii_lowercase "title")
            then Some "t"
            else getAttribute (nodes Demo.trio) r other)
    /\ (forall r, r ∈ refs ->
          classList (shape_of (nodes st') r)
          = if bool_decide (ascii_lowercase "title" = "class")
            then parse_tokens "t"
            else classList (shape_of (nodes Demo.trio) r))
    /\ (forall r, r ∉ refs ->
          shape_of (nodes st') r = shape_of (nodes Demo.trio) r)
    /\ (forall name', ascii_lowercase name' = ascii_lowercase "title" ->
          EagleJS.attr (H := Demo.engines) Typed 2 name' None st'
          = (Ok (if bool_decide (refs = []) then RetNull else RetStr "t"),
             st'))
    /\ EagleJS.attr (H := Demo.engines) Typed 2 "title" (Some "t") st'
       = (Ok (RetThis 2), st').
Proof.
  apply (attr_written_is_read (H := Demo.engines) Typed 2
           [VNode 3; VNode 4; VNode 5] "title" "t" Demo.trio);
    [reflexivity | | reflexivity].
  repeat (constructor; [split; [reflexivity | intros r [= <-]; simpl; lia] |]).
  constructor.
Defined.

(** *** removeAttr *)

Lemma assoc_remove_absent (k : string) (l : list (string * string)) :
  assoc_get k l = None -> assoc_remove k l = l.
Proof.
  unfold assoc_remove. induction l as [| [k0 v0] l IH]; [done |]. simpl.
  case_bool_decide; [done |]. intros Hl. simpl. by rewrite IH.
Qed.

Lemma attributes_attribute_removed (name : string) (s : Shape) :
  attributes (attribute_removed name s)
  = assoc_remove (ascii_lowercase name) (attributes s).
Proof.
  unfold attribute_removed.
  destruct (assoc_get (ascii_lowercase name) (attributes s)) eqn:Hget.
  - by rewrite attributes_attribute_changed.
  - by rewrite assoc_remove_absent.
Qed.

Lemma attributes_attributes_removed (names : list string) (s : Shape) :
  attributes (attributes_removed names s)
  = fold_left (fun acc n => assoc_remove n acc) (map ascii_lowercase names)
      (attributes s).
Proof.
  unfold attributes_removed. revert s.
  induction names as [| n names IH]; intros s; [done |]. simpl.
  by rewrite IH, attributes_attribute_removed.
Qed.

Lemma kind_attributes_removed (names : list string) (s : Shape) :
  kind (attributes_removed names s) = kind s.
Proof.
  unfold attributes_removed. revert s.
  induction names as [| n names IH]; intros s; [done |]. simpl.
  by rewrite IH, kind_attribute_removed.
Qed.

(** Removing again what is removed changes nothing. *)
Lemma attributes_removed_twice (names : list string) (s : Shape) :
  attributes_removed names (attributes_removed names s)
  = attributes_removed names s.
Proof.
  assert (Hgone : forall n, n ∈ names ->
            assoc_get (ascii_lowercase n)
              (attributes (attributes_removed names s)) = None).
  { intros n Hn. rewrite attributes_attributes_removed, assoc_get_removed.
    rewrite bool_decide_eq_true_2; [done |].
    apply list_elem_of_fmap. by exists n. }
  generalize dependent (attributes_removed names s). intros s' Hgone.
  unfold attributes_removed.
  assert (Hall : forall l, (forall n, n ∈ l -> n ∈ names) ->
            fold_left (fun acc n => attribute_removed n acc) l s' = s').
  { induction l as [| n l IH]; intros Hl; [done |]. simpl.
    unfold attribute_removed at 2.
    rewrite Hgone by (apply Hl, elem_of_cons; by left).
    apply IH. intros x Hx. apply Hl, elem_of_cons. by right. }
  by apply Hall.
Qed.

Lemma removeAttr_loop (v : Variant) (this : loc) (items : list Value)
    (names : list string) (st : State) :
  arrays st !! this = Some items ->
  Forall (live (nodes st)) items ->
  EagleJS.removeAttr v this names st
  = (forEach (fun r => update_shape r (attributes_removed names))
       (eligible_refs
          (eligible v K_removeAttribute EagleJS.isElement (nodes st)) items) ;;
     ret this) st.
Proof.
  intros Hthis Hlive. unfold EagleJS.removeAttr.
  rewrite (mutator_all v K_removeAttribute EagleJS.isElement
             (fun r => forEach (fun name => removeAttribute r name) names)
             this items st); try done; [| constructor |].
  - apply bind_forEach_ext. intros r s. apply removeAttribute_each.
  - intros r s. rewrite removeAttribute_each.
    apply kinds_kept_update_shape. intros x. apply kind_attributes_removed.
Qed.

(** X10.  [removeAttr], in both sources, on a collection of live items, never
    throws, whatever the names: on every element of the collection the
    attributes of these names, taken without their letter case, are gone
    and the others are as they were; nothing changes for the other nodes;
    [attr] of a removed name is then [null]; and a second [removeAttr]
    changes nothing. *)
Theorem removeAttr_removes `{Engines} (v : Variant) (this : loc)
    (items : list Value) (names : list string) (st : State) :
  arrays st !! this = Some items ->
  Forall (live (nodes st)) items ->
  let refs :=
    eligible_refs (eligible v K_setAttribute EagleJS.isElement (nodes st))
      items in
  exists st',
    EagleJS.removeAttr v this names st = (Ok this, st')
    /\ arrays st' = arrays st
    /\ (forall r, parent_of (nodes st') r = parent_of (nodes st) r
                  /\ children_of (nodes st') r = children_of (nodes st) r)
    /\ (forall r name, r ∈ refs ->
          getAttribute (nodes st') r name
          = if bool_decide
                 (ascii_lowercase name ∈ map ascii_lowercase names)
            then None
            else getAttribute (nodes st) r name)
    /\ (forall r, r ∉ refs ->
          shape_of (nodes st') r = shape_of (nodes st) r)
    /\ (forall name, ascii_lowercase name ∈ map ascii_lowercase names ->
          EagleJS.attr v this name None st' = (Ok RetNull, st'))
    /\ EagleJS.removeAttr v this names st' = (Ok this, st').
Proof.
  intros Hthis Hlive refs.
  assert (Hkeys : forall ns,
            eligible_refs (eligible v K_removeAttribute EagleJS.isElement ns)
              items
            = eligible_refs (eligible v K_setAttribute EagleJS.isElement ns)
                items).
  { intros ns. apply eligible_refs_ext. intros item.
    apply eligible_attribute_keys. }
  destruct (reshape_members v K_setAttribute EagleJS.isElement
              (attributes_removed names) this items st)
    as (ns' & Hrun & Hlen & Hlook & Hrefs & Hlive' & Hagain);
    [constructor | apply attributes_removed_twice
     | intros s0; apply kind_attributes_removed | done |].
  fold refs in Hrun, Hlook, Hrefs, Hagain.
  destruct (reshaped_facts _ _ _ _ Hlook) as (Hlinks & Hin & Hout).
  assert (Hattr : forall r name, r ∈ refs ->
            getAttribute ns' r name
            = if bool_decide
                   (ascii_lowercase name ∈ map ascii_lowercase names)
              then None
              else getAttribute (nodes st) r name).
  { intros r name Hr. unfold getAttribute. rewrite Hin; [| done |].
    - rewrite attributes_attributes_removed. apply assoc_get_removed.
    - by apply (live_allocated _ items
                  (eligible v K_setAttribute EagleJS.isElement (nodes st))). }
  exists (with_nodes (fun _ => ns') st).
  split.
  { rewrite (removeAttr_loop v this items names st Hthis Hlive).
    by rewrite Hkeys. }
  split; [done |]. split; [exact Hlinks |]. split; [exact Hattr |].
  split; [exact Hout |]. split.
  - intros name Hname.
    rewrite (attr_get v this items (with_nodes (fun _ => ns') st) Hthis Hlive').
    simpl nodes. f_equal. f_equal.
    rewrite (get_first_constant _ _ RetNull RetNull);
      [by destruct (bool_decide _) |].
    intros r Hr.
    rewrite (eligible_refs_ext _
               (eligible v K_setAttribute EagleJS.isElement ns'))
      in Hr by (intros item; apply eligible_attribute_keys).
    rewrite Hrefs in Hr. rewrite (Hattr r name Hr).
    by rewrite bool_decide_eq_true_2.
  - rewrite (removeAttr_loop v this items names
               (with_nodes (fun _ => ns') st) Hthis Hlive').
    simpl nodes. by rewrite Hkeys, Hrefs.
Qed.

(** The attribute [id] of the three elements of the page, asked for as
    [ID]. *)
Lemma removeAttr_removes_witness :
  let refs :=
    eligible_refs
      (eligible Legacy K_setAttribute EagleJS.isElement (nodes Demo.trio))
      [VNode 3; VNode 4; VNode 5] in
  exists st',
    EagleJS.removeAttr Legacy 2 ["ID"] Demo.trio = (Ok 2, st')
    /\ arrays st' = arrays Demo.trio
    /\ (forall r, parent_of (nodes st') r = parent_of (nodes Demo.trio) r
                  /\ children_of (nodes st') r
                     = children_of (nodes Demo.trio) r)
    /\ (forall r name, r ∈ refs ->
          getAttribute (nodes st') r name
          = if bool_decide
                 (ascii_lowercase name ∈ map ascii_lowercase ["ID"])
            then None
            else getAttribute (nodes Demo.trio) r name)
    /\ (forall r, r ∉ refs ->
          shape_of (nodes st') r = shape_of (nodes Demo.trio) r)
    /\ (forall name, ascii_lowercase name ∈ map ascii_lowercase ["ID"] ->
          EagleJS.attr (H := Demo.engines) Legacy 2 name None st'
          = (Ok RetNull, st'))
    /\ EagleJS.removeAttr Legacy 2 ["ID"] st' = (Ok 2, st').
Proof.
  apply (removeAttr_removes (H := Demo.engines) Legacy 2
           [VNode 3; VNode 4; VNode 5] ["ID"] Demo.trio); [reflexivity |].
  repeat (constructor; [split; [reflexivity | intros r [= <-]; simpl; lia] |]).
  constructor.
Defined.

(** ** The keys of [data] *)

Lemma toUpperCase_not_lower (c : ascii) :
  lower_alpha c = true ->
  lower_alpha (toUpperCase c) = false
  /\ Ascii.eqb (toUpperCase c) "-" = false.
Proof.
  intros Hc. unfold toUpperCase. rewrite Hc. unfold lower_alpha in *.
  apply andb_true_iff in Hc as [Hlo Hhi].
  apply N.leb_le in Hlo, Hhi.
  assert (Hlt : (N_of_ascii c - 32 < 256)%N) by lia.
  split.
  - rewrite N_ascii_embedding by done. apply andb_false_iff. left.
    apply N.leb_gt. lia.
  - apply Ascii.eqb_neq. intros Heq.
    apply (f_equal N_of_ascii) in Heq.
    rewrite N_ascii_embedding in Heq by done. simpl in Heq. lia.
Qed.

(** The first character of a converted key is lower-case only when the
    first character of the key is. *)
Lemma camelCase_head (c : ascii) (rest : string) :
  exists d out,
    camelCase (String c rest) = String d out
    /\ (lower_alpha d = true -> lower_alpha c = true).
Proof.
  simpl. destruct rest as [| d rest']; [by eexists _, _ |].
  destruct (Ascii.eqb c "-" && lower_alpha d) eqn:E.
  - apply andb_true_iff in E as [_ Hd]. eexists _, _. split; [done |].
    intros Hup. destruct (toUpperCase_not_lower d Hd) as [Hno _]. congruence.
  - by eexists _, _.
Qed.

Lemma camelCase_settled_cons (c : ascii) (out : string) :
  camelCase out = out ->
  (Ascii.eqb c "-" = true ->
   match out with
   | String d _ => lower_alpha d = false
   | EmptyString => True
   end) ->
  camelCase (String c out) = String c out.
Proof.
  intros Hout Hc. destruct out as [| d out']; [done |].
  change (camelCase (String c (String d out')))
    with (if Ascii.eqb c "-" && lower_alpha d
          then String (toUpperCase d) (camelCase out')
          else String c (camelCase (String d out'))).
  destruct (Ascii.eqb c "-") eqn:E; cbn [andb].
  - rewrite (Hc eq_refl). by rewrite Hout.
  - by rewrite Hout.
Qed.

(** Converting a key twice is converting it once: a key that is already
    in camel case is left as it is. *)
Lemma camelCase_idempotent (key : string) :
  camelCase (camelCase key) = camelCase key.
Proof.
  assert (Hall : forall n key, String.length key <= n ->
            camelCase (camelCase key) = camelCase key).
  { induction n as [| n IH]; intros k Hlen.
    - destruct k; [done | simpl in Hlen; lia].
    - destruct k as [| c rest]; [done |].
      destruct rest as [| d rest']; [done |].
      simpl in Hlen.
      change (camelCase (String c (String d rest')))
        with (if Ascii.eqb c "-" && lower_alpha d
              then String (toUpperCase d) (camelCase rest')
              else String c (camelCase (String d rest'))).
      destruct (Ascii.eqb c "-" && lower_alpha d) eqn:E.
      + apply andb_true_iff in E as [_ Hd].
        destruct (toUpperCase_not_lower d Hd) as [_ Hdash].
        apply camelCase_settled_cons; [apply IH; lia |].
        intros Heq. congruence.
      + apply camelCase_settled_cons; [apply IH; simpl; lia |].
        intros Hc. rewrite Hc in E. simpl in E.
        destruct (camelCase_head d rest') as (d' & out & -> & Hd').
        destruct (lower_alpha d') eqn:E'; [| done].
        rewrite Hd' in E by done. discriminate. }
  by apply (Hall (String.length key)).
Qed.

(** X11.  [data(key, value)], then [data(key')] for any key that converts to the
    same camel-case key, the converted key itself among them: the value is
    read back when a member of the collection has a dataset, [undefined]
    otherwise.  The other entries are as they were. *)
Theorem data_written_is_read `{Engines} (this : loc) (items : list Value)
    (key value : string) (st : State) :
  arrays st !! this = Some items ->
  Forall (live (nodes st)) items ->
  attribute_name_valid ("data-" +:+ camelCase key) = true ->
  let refs := eligible_refs (probe K_dataset (nodes st)) items in
  exists st',
    EagleJS.data this (Some key) (Some value) st = (Ok (RetThis this), st')
    /\ arrays st' = arrays st
    /\ (forall r other, r ∈ refs ->
          dataset_get (nodes st') r other
          = if bool_decide (other = camelCase key) then Some value
            else dataset_get (nodes st) r other)
    /\ (forall r, r ∉ refs ->
          shape_of (nodes st') r = shape_of (nodes st) r)
    /\ (forall key', camelCase key' = camelCase key ->
          EagleJS.data this (Some key') None st'
          = (Ok (if bool_decide (refs = []) then RetUndefined
                 else RetStr value), st'))
    /\ EagleJS.data this (Some (camelCase key)) None st'
       = (Ok (if bool_decide (refs = []) then RetUndefined
              else RetStr value), st').
Proof.
  intros Hthis Hlive Hvalid refs.
  assert (Hsetter : forall r s,
            dataset_set r (camelCase key) value s
            = update_shape r (data_set_to (camelCase key) value) s).
  { intros r s. unfold dataset_set. by rewrite Hvalid. }
  destruct (reshape_members Typed K_dataset EagleJS.isElement
              (data_set_to (camelCase key) value) (RetThis this) items st)
    as (ns' & Hrun & Hlen & Hlook & Hrefs & Hlive' & _);
    [constructor | | | done |].
  { intros s. unfold data_set_to, with_dataset, with_attributes. simpl.
    rewrite assoc_set_twice. f_equal.
    destruct (dataset s); [| done]. simpl. by rewrite assoc_set_twice. }
  { intros s. apply kind_data_set_to. }
  change (eligible Typed K_dataset EagleJS.isElement) with (probe K_dataset)
    in *.
  fold refs in Hrun, Hlook, Hrefs.
  destruct (reshaped_facts _ _ _ _ Hlook) as (_ & Hin & Hout).
  assert (Halloc : forall r, r ∈ refs -> r < length (nodes st)).
  { intros r Hr.
    by apply (live_allocated _ items (probe K_dataset (nodes st))). }
  assert (Hhas : forall r, r ∈ refs ->
            is_Some (dataset (shape_of (nodes st) r))).
  { intros r Hr. apply eligible_refs_elem in Hr as [_ Hp]. simpl in Hp.
    unfold shape_of. destruct (nodes st !! r) as [n |]; [| done].
    simpl in *. by apply bool_decide_eq_true in Hp. }
  assert (Hdata : forall r other, r ∈ refs ->
            dataset_get ns' r other
            = if bool_decide (other = camelCase key) then Some value
              else dataset_get (nodes st) r other).
  { intros r other Hr. unfold dataset_get.
    rewrite (Hin r Hr (Halloc r Hr)). unfold data_set_to. simpl.
    destruct (Hhas r Hr) as [d ->]. simpl. case_bool_decide as Ho.
    - subst. apply assoc_get_set.
    - by apply assoc_get_set_other. }
  assert (Hread : forall key', camelCase key' = camelCase key ->
            EagleJS.data this (Some key') None (with_nodes (fun _ => ns') st)
            = (Ok (if bool_decide (refs = []) then RetUndefined
                   else RetStr value), with_nodes (fun _ => ns') st)).
  { intros key' Hk.
    rewrite (data_get this items (with_nodes (fun _ => ns') st) Hthis Hlive').
    simpl nodes. f_equal. f_equal.
    rewrite (get_first_constant _ _ RetUndefined (RetStr value)).
    - by rewrite Hrefs.
    - intros r Hr. rewrite Hrefs in Hr. rewrite (Hdata r _ Hr), Hk.
      by rewrite bool_decide_eq_true_2. }
  exists (with_nodes (fun _ => ns') st).
  split.
  { rewrite (data_set this items st Hthis Hlive). unfold set_all.
    fold refs. by rewrite (bind_forEach_ext _ _ _ _ _ Hsetter). }
  split; [done |]. split; [exact Hdata |]. split; [exact Hout |].
  split; [exact Hread |]. apply Hread. apply camelCase_idempotent.
Qed.

(** The key [user-name] on the three elements of the page, read back as
    [userName]. *)
Lemma data_written_is_read_witness :
  let refs := eligible_refs (probe K_dataset (nodes Demo.trio))
                [VNode 3; VNode 4; VNode 5] in
  exists st',
    EagleJS.data (H := hyphen_engines) 2 (Some "user-name") (Some "v") Demo.trio
    = (Ok (RetThis 2), st')
    /\ arrays st' = arrays Demo.trio
    /\ (forall r other, r ∈ refs ->
          dataset_get (nodes st') r other
          = if bool_decide (other = camelCase "user-name") then Some "v"
            else dataset_get (nodes Demo.trio) r other)
    /\ (forall r, r ∉ refs ->
          shape_of (nodes st') r = shape_of (nodes Demo.trio) r)
    /\ (forall key', camelCase key' = camelCase "user-name" ->
          EagleJS.data (H := hyphen_engines) 2 (Some key') None st'
          = (Ok (if bool_decide (refs = []) then RetUndefined
                 else RetStr "v"), st'))
    /\ EagleJS.data (H := hyphen_engines) 2 (Some (camelCase "user-name")) None
         st'
       = (Ok (if bool_decide (refs = []) then RetUndefined
              else RetStr "v"), st').
Proof.
  apply (data_written_is_read (H := hyphen_engines) 2
           [VNode 3; VNode 4; VNode 5] "user-name" "v" Demo.trio);
    [reflexivity | | reflexivity].
  repeat (constructor; [split; [reflexivity | intros r [= <-]; simpl; lia] |]).
  constructor.
Defined.

(** ** is *)

(** The test of [filter] looks at the nodes only. *)
Lemma filter_test_nodes `{Engines} (v : Variant) (selector : Arg)
    (x : Value) (i : nat) (a : list Value) (s s' : State) :
  nodes s = nodes s' ->
  fst (EagleJS.filter_test v selector x i a s)
  = fst (EagleJS.filter_test v selector x i a s').
Proof.
  intros Hn. unfold EagleJS.filter_test.
  destruct selector as [w | l | f]; try done. destruct w; try done.
  unfold bind.
  assert (Hc : forall t,
            EagleJS.capable v K_matches EagleJS.isElement x t
            = (fst (EagleJS.capable v K_matches EagleJS.isElement x t), t)).
  { intros t.
    pose proof (capable_reads v K_matches EagleJS.isElement x t) as Hr.
    destruct (EagleJS.capable _ _ _ _ t); simpl in *. by subst. }
  assert (Hsame : fst (EagleJS.capable v K_matches EagleJS.isElement x s)
                  = fst (EagleJS.capable v K_matches EagleJS.isElement x s')).
  { destruct v; simpl; [| by rewrite Hn].
    unfold has_property. destruct x; try done. rewrite Hn.
    by destruct (nodes s' !! r). }
  rewrite (Hc s), (Hc s'), Hsame.
  destruct (fst (EagleJS.capable v K_matches EagleJS.isElement x s'))
    as [[] | e]; try done.
  destruct x; try done. simpl. unfold matches. rewrite Hn.
  by destruct (selector_valid s0).
Qed.

(** On the same items, [some] accepts exactly when [filter] keeps
    something. *)
Lemma some_loop_filter_loop (cb : EagleJS.Callback) (a : list Value) :
  (forall x i s, snd (cb x i a s) = s) ->
  forall rest i s s' kept,
    EagleJS.filter_loop cb a i rest s = (Ok kept, s') ->
    EagleJS.some_loop cb a i rest s
    = (Ok (negb (bool_decide (kept = []))), s).
Proof.
  intros Hcb rest. induction rest as [| x rest IH]; intros i s s' kept.
  - simpl. by intros [= <- <-].
  - simpl. unfold bind. pose proof (Hcb x i s) as Hx.
    destruct (cb x i a s) as [[b | e] s1]; simpl in Hx; subst;
      [| discriminate].
    destruct (EagleJS.filter_loop cb a (S i) rest s) as [[l | e] s2] eqn:Hl;
      [| discriminate].
    unfold ret. intros [= <- <-]. destruct b; [done |].
    by apply (IH _ _ s2).
Qed.

Lemma filter_loop_nodes (cb : EagleJS.Callback) (a : list Value)
    (s s' : State) :
  (forall x i t, snd (cb x i a t) = t) ->
  (forall x i, fst (cb x i a s) = fst (cb x i a s')) ->
  forall rest i,
    fst (EagleJS.filter_loop cb a i rest s)
    = fst (EagleJS.filter_loop cb a i rest s').
Proof.
  intros Hreads Hsame rest. induction rest as [| x rest IH]; intros i;
    [done |].
  simpl. unfold bind.
  pose proof (Hreads x i s) as H1. pose proof (Hreads x i s') as H2.
  pose proof (Hsame x i) as H3.
  destruct (cb x i a s) as [[b | e] s1], (cb x i a s') as [[b' | e'] s1'];
    simpl in *; subst; try done; [| by injection H3 as ->].
  injection H3 as ->.
  pose proof (filter_loop_reads cb a (fun x i t => Hreads x i t) rest (S i) s)
    as H4.
  pose proof (filter_loop_reads cb a (fun x i t => Hreads x i t) rest (S i) s')
    as H5.
  specialize (IH (S i)).
  destruct (EagleJS.filter_loop cb a (S i) rest s) as [[l | e] s2],
    (EagleJS.filter_loop cb a (S i) rest s') as [[l' | e'] s2'];
    simpl in *; subst; try done; by simplify_eq.
Qed.

Lemma includes_some (w : Value) (a items : list Value) (i : nat)
    (st : State) :
  EagleJS.some_loop (fun item _ _ => ret (strict_eq item w)) a i items st
  = (Ok (includes items w), st).
Proof.
  revert i. induction items as [| x items IH]; intros i; [done |].
  simpl. unfold bind, ret, strict_eq.
  destruct (bool_decide (x = w)); [done | apply IH].
Qed.

(** X12.  [is], in both sources, changes nothing, and agrees with [filter]: when
    [filter] returns, [is] returns whether the filtered collection holds
    anything. *)
Theorem is_iff_filter_keeps `{Engines} (v : Variant) (this : loc)
    (selector : Arg) (st : State) :
  snd (EagleJS.is_ v this selector st) = st
  /\ forall items rf sf,
       arrays st !! this = Some items ->
       EagleJS.filter v this selector st = (Ok rf, sf) ->
       exists kept,
         arrays sf !! rf = Some kept
         /\ EagleJS.is_ v this selector st
            = (Ok (negb (bool_decide (kept = []))), st).
Proof.
  assert (Hsome : forall cb : EagleJS.Callback,
            (forall x i a s, snd (cb x i a s) = s) ->
            snd (EagleJS.some this cb st) = st).
  { intros cb Hcb. unfold EagleJS.some, bind.
    pose proof (get_array_reads this st) as Hg.
    destruct (EagleJS.get_array this st) as [[a | e] s1]; simpl in Hg; subst;
      [| done].
    generalize 0. generalize a at 2. intros rest.
    induction rest as [| x rest IH]; intros i; [done |]. simpl. unfold bind.
    pose proof (Hcb x i a st) as Hx.
    by destruct (cb x i a st) as [[[] | e] s1]; simpl in Hx; subst. }
  assert (Htest : EagleJS.is_ v this selector st
                  = match selector, v with
                    | ArgValue (VStr _), _ | ArgFun _, _ | ArgArray _, _
                    | ArgValue _, Legacy =>
                        EagleJS.some this (EagleJS.filter_test v selector) st
                    | ArgValue w, Typed =>
                        (let! a := EagleJS.get_array this in
                         ret (includes a w)) st
                    end).
  { destruct selector as [w | l | f]; try done. by destruct w, v. }
  split.
  - rewrite Htest.
    assert (Hs : snd (EagleJS.some this (EagleJS.filter_test v selector) st)
                 = st).
    { apply Hsome. intros x i a s. apply filter_test_reads. }
    assert (Hi : forall w,
              snd ((let! a := EagleJS.get_array this in ret (includes a w)) st)
              = st).
    { intros w. unfold bind. pose proof (get_array_reads this st) as Hg.
      by destruct (EagleJS.get_array this st) as [[a | e] s1]; simpl in *;
        subst. }
    destruct selector as [w | l | f]; try done. destruct w, v; try done;
      apply Hi.
  - intros items rf sf Hthis.
    unfold EagleJS.filter, EagleJS.super_filter, bind.
    rewrite (get_array_Some _ _ _ Hthis), new_array_spec.
    set (s1 := with_arrays (fun h => h ++ [[]]) st).
    destruct (EagleJS.filter_loop (EagleJS.filter_test v selector) items 0
                items s1) as [[kept | e] s2] eqn:Hl; [| discriminate].
    pose proof (filter_loop_reads (EagleJS.filter_test v selector) items
                  (fun x i s => filter_test_reads v selector items x i s)
                  items 0 s1) as Hr.
    rewrite Hl in Hr. simpl in Hr. subst s2.
    unfold EagleJS.set_array, modify, ret. intros [= <- <-].
    exists kept. split.
    { simpl. apply list_lookup_insert_eq. rewrite length_app. simpl. lia. }
    assert (Hl' : EagleJS.filter_loop (EagleJS.filter_test v selector) items
                    0 items st = (Ok kept, st)).
    { pose proof (filter_loop_nodes (EagleJS.filter_test v selector) items
                    s1 st
                    (fun x i s => filter_test_reads v selector items x i s)
                    (fun x i => filter_test_nodes v selector x i items s1 st
                                  eq_refl) items 0) as Hf.
      pose proof (filter_loop_reads (EagleJS.filter_test v selector) items
                    (fun x i s => filter_test_reads v selector items x i s)
                    items 0 st) as Hr.
      rewrite Hl in Hf. simpl in Hf.
      destruct (EagleJS.filter_loop _ items 0 items st) as [o s2].
      simpl in *. by subst. }
    assert (Hsomef : EagleJS.some this (EagleJS.filter_test v selector) st
                     = (Ok (negb (bool_decide (kept = []))), st)).
    { unfold EagleJS.some, bind. rewrite (get_array_Some _ _ _ Hthis).
      apply (some_loop_filter_loop _ items
               (fun x i s => filter_test_reads v selector items x i s)
               items 0 st st kept Hl'). }
    rewrite Htest.
    destruct selector as [w | l | f]; try exact Hsomef.
    destruct w, v; try exact Hsomef;
      unfold bind; rewrite (get_array_Some _ _ _ Hthis);
      unfold EagleJS.some, bind in Hsomef;
      rewrite (get_array_Some _ _ _ Hthis) in Hsomef;
      rewrite <- Hsomef; symmetry; apply includes_some.
Qed.

(** The selector [div] on the [div] and the [span] of the page. *)
Lemma is_iff_filter_keeps_witness :
  exists kept,
    arrays (snd (EagleJS.filter (H := Demo.engines) Typed 0
                   (ArgValue (VStr "div")) Demo.page)) !! 2 = Some kept
    /\ EagleJS.is_ (H := Demo.engines) Typed 0 (ArgValue (VStr "div"))
         Demo.page
       = (Ok (negb (bool_decide (kept = []))), Demo.page).
Proof.
  apply (proj2 (is_iff_filter_keeps (H := Demo.engines) Typed 0
                  (ArgValue (VStr "div")) Demo.page)
           [VNode 3; VNode 4] 2); reflexivity.
Defined.

(** ** The two sources agree *)

Ltac unfold_static :=
  unfold EagleJS.isElement, EagleJS.isParentNode, EagleJS.isDocument,
    EagleJS.isNode, EagleJS.nodeType_of, type_of, shape_of.

Lemma probes_node (k : PropertyKey) (legacy : list Node -> Value -> bool)
    (ns : list Node) (r : ref) (n : Node) :
  probes k legacy -> ns !! r = Some n -> nodeType (shape n) <> 0%Z ->
  node_has k (shape n) = legacy ns (VNode r).
Proof.
  intros Hp Hn Ht. apply Z.eqb_neq in Ht.
  destruct Hp; unfold_static; rewrite Hn; simpl; by rewrite Ht.
Qed.

Lemma probes_other (k : PropertyKey) (legacy : list Node -> Value -> bool)
    (ns : list Node) (item : Value) :
  probes k legacy ->
  match item with VNode r => ns !! r = None | _ => True end ->
  probe k ns item = false /\ legacy ns item = false.
Proof.
  intros Hp Hitem.
  destruct item as [| | | | | r | |]; destruct Hp; unfold_static; simpl;
    rewrite ?Hitem; simpl; by rewrite ?andb_false_r.
Qed.

(** On a heap where every node has a type, the probe of the typed source
    and the predicate of the legacy source give the same answer. *)
Lemma eligible_agree (k : PropertyKey)
    (legacy : list Node -> Value -> bool) (ns : list Node) (item : Value) :
  probes k legacy -> well_typed ns ->
  eligible Typed k legacy ns item = eligible Legacy k legacy ns item.
Proof.
  intros Hp Hwt. simpl.
  assert (Hother : forall x,
    match x with VNode r => ns !! r = None | _ => True end ->
    probe k ns x = legacy ns x).
  { intros x Hx. destruct (probes_other k legacy ns x Hp Hx). congruence. }
  destruct item as [| | | | | r | |]; try (by apply Hother).
  destruct (ns !! r) as [n |] eqn:Hn; [| by apply Hother].
  simpl. rewrite Hn. apply probes_node; [done .. |].
  unfold well_typed in Hwt. rewrite Forall_forall in Hwt.
  apply Hwt. apply list_elem_of_lookup. by exists r.
Qed.

Lemma well_typed_kinds (ns ns' : list Node) (item : Value) :
  well_typed ns -> live ns item -> kinds_kept ns ns' ->
  forall k legacy, probes k legacy ->
    eligible Typed k legacy ns' item = eligible Legacy k legacy ns' item.
Proof.
  intros Hwt [Hitem Hr] [Hlen Hk] k legacy Hp. simpl.
  destruct (isDOMItem_inv _ Hitem) as [[r ->] | [t ->]];
    [| by destruct (probes_other k legacy ns' (VTarget t) Hp I) as [-> ->]].
  specialize (Hr r eq_refl). specialize (Hk r Hr).
  destruct (lookup_lt_is_Some_2 ns r Hr) as [n Hn].
  destruct (lookup_lt_is_Some_2 ns' r ltac:(lia)) as [n' Hn'].
  simpl. rewrite Hn'. apply probes_node; [done .. |].
  unfold shape_of in Hk. rewrite Hn, Hn' in Hk. simpl in Hk.
  unfold kind in Hk. injection Hk as Hty _. rewrite Hty.
  unfold well_typed in Hwt. rewrite Forall_forall in Hwt.
  apply (Hwt n). apply list_elem_of_lookup. by exists r.
Qed.

(** Two loops that agree on every member, wherever [I] holds, agree. *)
Lemma forEach_agree {A} (I : State -> Prop) (f g : A -> M unit)
    (l : list A) :
  (forall x, x ∈ l -> forall s, I s -> f x s = g x s) ->
  (forall x, keeps I (g x)) ->
  forall s, I s -> forEach f l s = forEach g l s.
Proof.
  intros Hfg Hg. induction l as [| x l IH]; intros s Hs; [done |].
  simpl. unfold bind. rewrite (Hfg x) by (done || by left).
  pose proof (Hg x s Hs) as Hx.
  destruct (g x s) as [[[] | e] s1]; [| done].
  apply IH; [| done]. intros y Hy. apply Hfg. by right.
Qed.

(** A guard gives the same answer in both sources. *)
Lemma guard_agree {B} (k : PropertyKey)
    (legacy : list Node -> Value -> bool) (x : Value) (body other : M B)
    (s : State) :
  probes k legacy -> well_typed (nodes s) -> EagleJS.isDOMItem x = true ->
  (let! ok := EagleJS.capable Typed k legacy x in
   if ok then body else other) s
  = (let! ok := EagleJS.capable Legacy k legacy x in
     if ok then body else other) s.
Proof.
  intros Hp Hwt Hx. unfold bind. rewrite !capable_live by done.
  by rewrite (eligible_agree k legacy (nodes s) x Hp Hwt).
Qed.

Lemma guard_agree_kinds {B} (k : PropertyKey)
    (legacy : list Node -> Value -> bool) (ns0 : list Node) (x : Value)
    (body other : M B) (s : State) :
  probes k legacy -> well_typed ns0 -> live ns0 x ->
  kinds_kept ns0 (nodes s) ->
  (let! ok := EagleJS.capable Typed k legacy x in
   if ok then body else other) s
  = (let! ok := EagleJS.capable Legacy k legacy x in
     if ok then body else other) s.
Proof.
  intros Hp Hwt Hx Hk. unfold bind. rewrite !capable_live by apply Hx.
  by rewrite (well_typed_kinds ns0 (nodes s) x Hwt Hx Hk k legacy Hp).
Qed.

Lemma keeps_filling_push (ns0 : list Node) (e e' : loc) (xs : list Value) :
  keeps (filling ns0 e) (EagleJS.push e' xs).
Proof.
  intros s [Hn Hi]. unfold EagleJS.push, bind, EagleJS.get_array.
  destruct (arrays s !! e') as [a |] eqn:Ha; simpl; [| done].
  split; [done |]. intros b Hb. simpl in Hb.
  destruct (decide (e = e')) as [-> | Hne].
  - rewrite list_lookup_insert_eq in Hb
      by (by apply lookup_lt_Some in Ha).
    injection Hb as <-. apply Forall_app. split; [by apply Hi |].
    apply Forall_forall. intros x Hx. apply list_elem_of_In in Hx.
    apply List.filter_In in Hx as [_ Hx].
    by apply andb_true_iff in Hx as [Hx _].
  - rewrite list_lookup_insert_ne in Hb by done. by apply Hi.
Qed.

Ltac filling_step :=
  lazymatch goal with
  | |- keeps _ (ret _) => apply keeps_ret
  | |- keeps _ (throw _) => apply keeps_throw
  | |- keeps _ get => apply keeps_get
  | |- keeps _ (bind _ _) => apply keeps_bind; [| intros ?]
  | |- keeps _ (EagleJS.push _ _) => apply keeps_filling_push
  | |- keeps _ (EagleJS.capable _ _ _ _) =>
      apply keeps_reading, capable_reads
  | |- keeps _ (has_property _ _) => apply keeps_reading, has_property_reads
  | |- keeps _ (EagleJS.as_node _) => apply keeps_reading, as_node_reads
  | |- keeps _ (Dom.closest _ _) => apply keeps_reading, closest_reads
  | |- keeps _ (Dom.querySelectorAll _ _) =>
      apply keeps_reading, querySelectorAll_reads
  | |- keeps _ (if ?b then _ else _) => destruct b
  | |- keeps _ (match ?x with _ => _ end) => destruct x
  end.

Lemma keeps_kinds_push (ns0 : list Node) (e : loc) (xs : list Value) :
  keeps (fun s => kinds_kept ns0 (nodes s)) (EagleJS.push e xs).
Proof.
  intros s Hs. unfold EagleJS.push, bind, EagleJS.get_array.
  by destruct (arrays s !! e).
Qed.

Lemma keeps_kinds_cloneNode (ns0 : list Node) (r : ref) (deep : bool) :
  keeps (fun s => kinds_kept ns0 (nodes s)) (cloneNode r deep).
Proof.
  intros s Hs. unfold cloneNode. destruct (nodes s !! r) as [n |]; [| done].
  pose proof (shapes_kept_instantiate
                (if deep then snapshot (length (nodes s)) (nodes s) r
                 else Tpl (shape n) []) None (nodes s)) as Hi.
  destruct (instantiate None _ (nodes s)) as [c ns']. simpl in *.
  eapply kinds_kept_trans; [exact Hs | by apply shapes_kept_kinds].
Qed.

(** The callbacks of [filter] and [not] give the same answers in both
    sources. *)
Lemma filter_loop_agree (cb cb' : EagleJS.Callback) (a : list Value) :
  (forall x i s, snd (cb' x i a s) = s) ->
  forall (s : State) (rest : list Value) (i : nat),
    (forall x j, x ∈ rest -> cb x j a s = cb' x j a s) ->
    EagleJS.filter_loop cb a i rest s = EagleJS.filter_loop cb' a i rest s.
Proof.
  intros Hreads s rest. induction rest as [| x rest IH]; intros i Hcb;
    [done |].
  simpl. unfold bind. rewrite Hcb by by left.
  pose proof (Hreads x i s) as Hr.
  destruct (cb' x i a s) as [[b | e] s1]; simpl in Hr; subst; [| done].
  rewrite IH; [done |]. intros y j Hy. apply Hcb. by right.
Qed.

Lemma super_filter_agree (cb cb' : EagleJS.Callback) (this : loc)
    (s : State) :
  (forall a x i s, snd (cb' x i a s) = s) ->
  (forall a x i s', arrays s !! this = Some a -> x ∈ a ->
     nodes s' = nodes s -> cb x i a s' = cb' x i a s') ->
  EagleJS.super_filter this cb s = EagleJS.super_filter this cb' s.
Proof.
  intros Hreads Hcb. unfold EagleJS.super_filter, bind, EagleJS.get_array.
  destruct (arrays s !! this) as [a |] eqn:Ha; [| done]. simpl.
  rewrite (filter_loop_agree cb cb' a (Hreads a)); [done |].
  intros x j Hx. by apply Hcb.
Qed.

Lemma filter_agree `{Engines} (this : loc) (selector : Arg) (s : State) :
  well_typed (nodes s) -> items_only this s ->
  EagleJS.filter Typed this selector s = EagleJS.filter Legacy this selector s
  /\ EagleJS.not Typed this selector s = EagleJS.not Legacy this selector s.
Proof.
  intros Hwt Hi. split; apply super_filter_agree.
  - intros a x i s'. apply filter_test_reads.
  - intros a x i s' Ha Hx Hn. specialize (Hi a Ha).
    rewrite Forall_forall in Hi. specialize (Hi x Hx).
    unfold EagleJS.filter_test. destruct selector as [w | l | f]; try done.
    destruct w; try done.
    apply guard_agree; [constructor | by rewrite Hn | done].
  - intros a x i s'. apply not_test_reads.
  - intros a x i s' Ha Hx Hn. specialize (Hi a Ha).
    rewrite Forall_forall in Hi. specialize (Hi x Hx).
    unfold EagleJS.not_test. destruct selector as [w | l | f]; try done.
    destruct w; try done.
    apply guard_agree; [constructor | by rewrite Hn | done].
Qed.

Lemma filtered_agree `{Engines} (e : loc) (f : Arg) (s : State) :
  well_typed (nodes s) -> items_only e s ->
  EagleJS.filtered Typed e f s = EagleJS.filtered Legacy e f s.
Proof.
  intros Hwt Hi. unfold EagleJS.filtered. destruct (EagleJS.is_null f); [done |].
  by apply filter_agree.
Qed.

(** The shape shared by the projections, in both sources. *)
Lemma projection_agree (loop : Variant -> loc -> Value -> M unit)
    (finish : Variant -> loc -> M loc) (I : loc -> State -> Prop)
    (this : loc) (items : list Value) (st : State) :
  arrays st !! this = Some items ->
  I (length (arrays st)) (with_arrays (fun h => h ++ [[]]) st) ->
  (forall e x, keeps (I e) (loop Legacy e x)) ->
  (forall e x s, x ∈ items -> I e s -> loop Typed e x s = loop Legacy e x s) ->
  (forall e s, I e s -> finish Typed e s = finish Legacy e s) ->
  (let! elements := EagleJS.new_empty in
   let! items := EagleJS.get_array this in
   forEach (loop Typed elements) items ;; finish Typed elements) st
  = (let! elements := EagleJS.new_empty in
     let! items := EagleJS.get_array this in
     forEach (loop Legacy elements) items ;; finish Legacy elements) st.
Proof.
  intros Hthis Hstart Hkeeps Hloop Hfinish.
  unfold bind, EagleJS.new_empty, EagleJS.new_array, EagleJS.get_array.
  simpl.
  rewrite lookup_app_l by (by apply lookup_lt_Some in Hthis). rewrite Hthis.
  rewrite (forEach_agree (I (length (arrays st)))
             (loop Typed (length (arrays st)))
             (loop Legacy (length (arrays st)))); [| by auto .. ].
  pose proof (keeps_forEach _ _ items (Hkeeps (length (arrays st))) _ Hstart)
    as Hend.
  destruct (forEach _ items _) as [[[] | ex] s2]; [| done].
  by apply Hfinish.
Qed.

(** X13.  On a collection of nodes, in a tree where every node has a type, the
    query-style methods of the two sources do the same: the same result,
    the same state.  (The members are nodes: an event target that is no
    node may have a property that only the typed source looks for, as a
    media query list has [matches], and the two sources then differ.) *)
Theorem projections_agree `{Engines} (p : Projection) (this : loc)
    (items : list Value) (st : State) :
  arrays st !! this = Some items ->
  Forall (live (nodes st)) items ->
  (forall t, VTarget t ∉ items) ->
  well_typed (nodes st) ->
  project Typed p this st = project Legacy p this st.
Proof.
  intros Hthis Hlive _ Hwt.
  assert (Hitems : forall x, x ∈ items -> live (nodes st) x).
  { by apply Forall_forall. }
  assert (Hstart : filling (nodes st) (length (arrays st))
                     (with_arrays (fun h => h ++ [[]]) st)).
  { split; [done |]. intros a. simpl. rewrite lookup_app_r by done.
    rewrite Nat.sub_diag. simpl. intros [= <-]. constructor. }
  assert (Hfinish : forall f e s, filling (nodes st) e s ->
            EagleJS.filtered Typed e f s = EagleJS.filtered Legacy e f s).
  { intros f e s [Hn Hi]. apply filtered_agree; [by rewrite Hn | done]. }
  destruct p as [f | f | f | f | sel | deep | sel | sel | sel]; simpl.
  - apply (projection_agree
             (fun v elements item =>
                let! ok := EagleJS.capable v K_children EagleJS.isParentNode
                             item in
                if ok then
                  let! r := EagleJS.as_node item in
                  let! st := get in
                  EagleJS.push elements
                    (map VNode (element_children (nodes st) r)) ;; ret tt
                else ret tt)
             (fun v elements => EagleJS.filtered v elements f)
             (filling (nodes st)) this items st Hthis Hstart);
      [| | by auto].
    + intros e x. repeat filling_step.
    + intros e x s Hx [Hn _]. apply guard_agree;
        [constructor | by rewrite Hn | by apply Hitems].
  - apply (projection_agree
             (fun v elements item =>
                let! ok := EagleJS.capable v K_parentNode EagleJS.isNode
                             item in
                if ok then
                  let! st := get in
                  match EagleJS.item_parent (nodes st) item with
                  | Some p => EagleJS.push elements [VNode p] ;; ret tt
                  | None => ret tt
                  end
                else ret tt)
             (fun v elements => EagleJS.filtered v elements f)
             (filling (nodes st)) this items st Hthis Hstart);
      [| | by auto].
    + intros e x. repeat filling_step.
    + intros e x s Hx [Hn _]. apply guard_agree;
        [constructor | by rewrite Hn | by apply Hitems].
  - apply (projection_agree
             (fun _ elements item =>
                let! ok := has_property K_nextElementSibling item in
                if ok then
                  let! r := EagleJS.as_node item in
                  let! st := get in
                  match nextElementSibling (nodes st) r with
                  | Some sibling =>
                      EagleJS.push elements [VNode sibling] ;; ret tt
                  | None => ret tt
                  end
                else ret tt)
             (fun v elements => EagleJS.filtered v elements f)
             (filling (nodes st)) this items st Hthis Hstart);
      [| done | by auto].
    intros e x. repeat filling_step.
  - apply (projection_agree
             (fun _ elements item =>
                let! ok := has_property K_previousElementSibling item in
                if ok then
                  let! r := EagleJS.as_node item in
                  let! st := get in
                  match previousElementSibling (nodes st) r with
                  | Some sibling =>
                      EagleJS.push elements [VNode sibling] ;; ret tt
                  | None => ret tt
                  end
                else ret tt)
             (fun v elements => EagleJS.filtered v elements f)
             (filling (nodes st)) this items st Hthis Hstart);
      [| done | by auto].
    intros e x. repeat filling_step.
  - apply (projection_agree
             (fun v elements item =>
                let! ok := EagleJS.capable v K_closest EagleJS.isElement
                             item in
                if ok then
                  let! r := EagleJS.as_node item in
                  let! found := Dom.closest r sel in
                  match found with
                  | Some c => EagleJS.push elements [VNode c] ;; ret tt
                  | None => ret tt
                  end
                else ret tt)
             (fun _ elements => ret elements)
             (filling (nodes st)) this items st Hthis Hstart);
      [| | done].
    + intros e x. repeat filling_step.
    + intros e x s Hx [Hn _]. apply guard_agree;
        [constructor | by rewrite Hn | by apply Hitems].
  - apply (projection_agree
             (fun v elements item =>
                let! ok := EagleJS.capable v K_cloneNode EagleJS.isNode
                             item in
                if ok then
                  let! r := EagleJS.as_node item in
                  let! c := cloneNode r deep in
                  EagleJS.push elements [VNode c] ;; ret tt
                else ret tt)
             (fun _ elements => ret elements)
             (fun _ s => kinds_kept (nodes st) (nodes s)) this items st Hthis);
      [apply kinds_kept_refl | | | done].
    + intros e x.
      apply keeps_bind; [apply keeps_reading, capable_reads | intros ok].
      destruct ok; [| apply keeps_ret].
      apply keeps_bind; [apply keeps_reading, as_node_reads | intros r].
      apply keeps_bind; [apply keeps_kinds_cloneNode | intros c].
      apply keeps_bind; [apply keeps_kinds_push | intros n; apply keeps_ret].
    + intros e x s Hx Hk.
      apply (guard_agree_kinds _ _ (nodes st));
        [constructor | done | by apply Hitems | done].
  - unfold EagleJS.querySelectorAll, EagleJS.find.
    pose proof (projection_agree
             (fun v elements item =>
                let! ok := EagleJS.capable v K_querySelectorAll
                             EagleJS.isParentNode item in
                if ok then
                  let! r := EagleJS.as_node item in
                  let! found := Dom.querySelectorAll r sel in
                  EagleJS.push elements (map VNode found) ;; ret tt
                else ret tt)
             (fun _ elements => ret elements)
             (filling (nodes st)) this items st Hthis Hstart) as Hq.
    simpl in Hq. rewrite Hq; [| | | done].
    + unfold bind, EagleJS.new_empty, EagleJS.new_array, EagleJS.get_array.
      simpl. destruct ((arrays st ++ [[]]) !! this); [| done].
      by destruct (forEach _ _ _) as [[[] | ex] s2].
    + intros e x. repeat filling_step.
    + intros e x s Hx [Hn _]. apply guard_agree;
        [constructor | by rewrite Hn | by apply Hitems].
  - by apply filter_agree; [| intros a Ha; rewrite Hthis in Ha;
      injection Ha as <-; eapply Forall_impl; [exact Hlive | by intros x []]].
  - by apply filter_agree; [| intros a Ha; rewrite Hthis in Ha;
      injection Ha as <-; eapply Forall_impl; [exact Hlive | by intros x []]].
Qed.

Lemma projections_agree_witness :
  project (H := Demo.engines) Typed (PChildren (ArgValue (VStr "div"))) 2
    (with_arrays (fun h => h ++ [[VNode 2; VNode 0; VNode 6]]) Demo.page)
  = project (H := Demo.engines) Legacy (PChildren (ArgValue (VStr "div"))) 2
      (with_arrays (fun h => h ++ [[VNode 2; VNode 0; VNode 6]]) Demo.page).
Proof.
  apply (projections_agree (H := Demo.engines) _ 2
           [VNode 2; VNode 0; VNode 6]).
  - reflexivity.
  - repeat (constructor; [split; [reflexivity | intros r [= <-]; simpl; lia] |]).
    constructor.
  - intros t. rewrite !elem_of_cons, elem_of_nil.
    intros [? | [? | [? | []]]]; discriminate.
  - unfold well_typed. simpl. repeat (constructor; [discriminate |]).
    constructor.
Defined.

(** *** Accessors, class methods, tests and insertions *)

Lemma eligible_refs_agree (k : PropertyKey)
    (legacy : list Node -> Value -> bool) (ns : list Node)
    (items : list Value) :
  probes k legacy -> well_typed ns ->
  eligible_refs (eligible Typed k legacy ns) items
  = eligible_refs (eligible Legacy k legacy ns) items.
Proof.
  intros Hp Hwt. apply eligible_refs_ext. intros item.
  by apply eligible_agree.
Qed.

Lemma some_loop_agree (cb cb' : EagleJS.Callback) (a : list Value) :
  (forall x i s, snd (cb' x i a s) = s) ->
  forall (s : State) (rest : list Value) (i : nat),
    (forall x j, x ∈ rest -> cb x j a s = cb' x j a s) ->
    EagleJS.some_loop cb a i rest s = EagleJS.some_loop cb' a i rest s.
Proof.
  intros Hreads s rest. induction rest as [| x rest IH]; intros i Hcb;
    [done |].
  simpl. unfold bind. rewrite Hcb by by left.
  pose proof (Hreads x i s) as Hr.
  destruct (cb' x i a s) as [[[] | e] s1]; simpl in Hr; subst; try done.
  apply IH. intros y j Hy. apply Hcb. by right.
Qed.

Lemma get_array_bind {B} (this : loc) (items : list Value) (st : State)
    (k : list Value -> M B) :
  arrays st !! this = Some items ->
  (let! a := EagleJS.get_array this in k a) st = k items st.
Proof. intros Hthis. unfold bind. by rewrite (get_array_Some _ _ _ Hthis). Qed.

Lemma forEach_then_agree {A B} (I : State -> Prop) (f g : A -> M unit)
    (l : list A) (k : M B) (s : State) :
  (forall x, x ∈ l -> forall s, I s -> f x s = g x s) ->
  (forall x, keeps I (g x)) -> I s ->
  (forEach f l ;; k) s = (forEach g l ;; k) s.
Proof.
  intros Hfg Hg Hs. unfold bind. by rewrite (forEach_agree I f g l Hfg Hg s Hs).
Qed.

Lemma keeps_frame_insert_originals (h0 : list (list Value))
    (ns0 : list Node) (nodeArray : list ref) (p : ref * option ref) :
  keeps (frame h0 ns0) (insert_originals nodeArray p).
Proof.
  apply keeps_forEach. intros node.
  apply keeps_bind; [apply keeps_frame_insertBefore | intros _].
  apply keeps_ret.
Qed.

Lemma keeps_frame_insert_clones (h0 : list (list Value))
    (ns0 : list Node) (nodeArray : list ref) (p : ref * option ref) :
  keeps (frame h0 ns0) (insert_clones nodeArray p).
Proof.
  apply keeps_forEach. intros node.
  apply keeps_bind; [apply keeps_frame_cloneNode | intros c].
  apply keeps_bind; [apply keeps_frame_insertBefore | intros _].
  apply keeps_ret.
Qed.

(** Two ways to choose the place that agree on every target, wherever [I]
    holds, distribute the content alike. *)
Lemma distribute_agree (I : State -> Prop)
    (pl pl' : Value -> M (option (ref * option ref)))
    (nodeArray : list ref) (targets : list Value) :
  (forall x s, snd (pl' x s) = s) ->
  (forall x, x ∈ targets -> forall s, I s -> pl x s = pl' x s) ->
  (forall p, keeps I (insert_originals nodeArray p)) ->
  (forall p, keeps I (insert_clones nodeArray p)) ->
  forall s, I s ->
    clone_into_each pl nodeArray targets s
    = clone_into_each pl' nodeArray targets s
    /\ distribute pl nodeArray targets s = distribute pl' nodeArray targets s.
Proof.
  intros Hreads Hpl Horig Hclones.
  induction targets as [| x targets IH]; intros s Hs; [done |].
  assert (Hrest : forall s, I s ->
            clone_into_each pl nodeArray targets s
            = clone_into_each pl' nodeArray targets s
            /\ distribute pl nodeArray targets s
               = distribute pl' nodeArray targets s).
  { apply IH. intros y Hy. apply Hpl. by right. }
  simpl. unfold bind. rewrite (Hpl x) by (done || by left).
  pose proof (Hreads x s) as Hr.
  destruct (pl' x s) as [[[p |] | e] s1]; simpl in Hr; subst;
    [| by apply Hrest | done].
  pose proof (Horig p s Hs) as Ho. pose proof (Hclones p s Hs) as Hc.
  destruct (insert_originals nodeArray p s) as [[[] | e] s1],
    (insert_clones nodeArray p s) as [[[] | e'] s2]; split; try done;
    by apply Hrest.
Qed.

(** X14.  On a collection of nodes, in a tree where every node has a type, the
    accessors, the class methods, the tests, [contents], [ready] and the
    four insertions of the two sources do the same: the same result, the
    same state; [html] when no member is a document fragment, and [ready]
    when no member is an element.  (A shadow root, which is a document
    fragment, has an [innerHTML], and a media element has a [readyState]:
    only the typed source, which looks for the property, would write the
    one and call the listener for the other.  An event target that is no
    node may have a [matches] or a [readyState] of its own.) *)
Theorem methods_agree `{Engines} (this : loc) (items : list Value)
    (st : State) :
  arrays st !! this = Some items ->
  Forall (live (nodes st)) items ->
  (forall t, VTarget t ∉ items) ->
  well_typed (nodes st) ->
  (forall name value,
     EagleJS.attr Typed this name value st
     = EagleJS.attr Legacy this name value st)
  /\ (Forall (fun x => EagleJS.nodeType_of (nodes st) x
                       <> DOCUMENT_FRAGMENT_NODE) items ->
      forall value,
        EagleJS.html Typed this value st = EagleJS.html Legacy this value st)
  /\ (forall value,
        EagleJS.text Typed this value st = EagleJS.text Legacy this value st)
  /\ (forall names,
        EagleJS.addClass Typed this names st
        = EagleJS.addClass Legacy this names st)
  /\ (forall names,
        EagleJS.removeClass Typed this names st
        = EagleJS.removeClass Legacy this names st)
  /\ (forall name,
        EagleJS.hasClass Typed this name st
        = EagleJS.hasClass Legacy this name st)
  /\ (forall names,
        EagleJS.removeAttr Typed this names st
        = EagleJS.removeAttr Legacy this names st)
  /\ (forall selector,
        EagleJS.is_ Typed this selector st
        = EagleJS.is_ Legacy this selector st)
  /\ EagleJS.contents Typed this st = EagleJS.contents Legacy this st
  /\ (Forall (fun x => EagleJS.isElement (nodes st) x = false) items ->
      forall listener,
        EagleJS.ready Typed this listener st
        = EagleJS.ready Legacy this listener st)
  /\ (forall op content,
        insertion Typed op this content st
        = insertion Legacy op this content st).
Proof.
  intros Hthis Hlive _ Hwt.
  assert (Hitems : forall x, x ∈ items -> live (nodes st) x).
  { by apply Forall_forall. }
  assert (Hrefs : forall k legacy, probes k legacy ->
            eligible_refs (eligible Typed k legacy (nodes st)) items
            = eligible_refs (eligible Legacy k legacy (nodes st)) items).
  { intros k legacy Hp. by apply eligible_refs_agree. }
  repeat split.
  - intros name [value |].
    + rewrite !(attr_set _ this items st Hthis Hlive). unfold set_all.
      by rewrite Hrefs by constructor.
    + rewrite !(attr_get _ this items st Hthis Hlive). unfold get_first.
      by rewrite Hrefs by constructor.
  - intros _ [value |].
    + rewrite !(html_set _ this items st Hthis Hlive). unfold set_all.
      by rewrite Hrefs by constructor.
    + rewrite !(html_get _ this items st Hthis Hlive). unfold get_first.
      by rewrite Hrefs by constructor.
  - intros [value |].
    + rewrite !(text_set _ this items st Hthis Hlive). unfold set_all.
      by rewrite Hrefs by constructor.
    + rewrite !(text_get _ this items st Hthis Hlive). unfold get_first.
      by rewrite Hrefs by constructor.
  - intros names. rewrite !(addClass_loop _ this items names st Hthis Hlive).
    by rewrite Hrefs by constructor.
  - intros names.
    rewrite !(removeClass_loop _ this items names st Hthis Hlive).
    by rewrite Hrefs by constructor.
  - intros name. rewrite !(hasClass_spec _ this items name st Hthis Hlive).
    by rewrite Hrefs by constructor.
  - intros names.
    rewrite !(removeAttr_loop _ this items names st Hthis Hlive).
    by rewrite Hrefs by constructor.
  - intros selector. unfold EagleJS.is_.
    destruct selector as [w | l | f]; try done.
    destruct w; try (unfold EagleJS.some, bind;
      rewrite (get_array_Some _ _ _ Hthis); symmetry; apply includes_some).
    unfold EagleJS.some, bind. rewrite (get_array_Some _ _ _ Hthis).
    apply some_loop_agree.
    + intros x i s0.
      apply (filter_test_reads Legacy (ArgValue (VStr s)) items x i s0).
    + intros x j Hx. apply guard_agree; [constructor | done |].
      by apply Hitems.
  - apply (projection_agree
             (fun v elements item =>
                let! ok := EagleJS.capable v K_childNodes EagleJS.isNode
                             item in
                if ok then
                  let! r := EagleJS.as_node item in
                  let! st := get in
                  EagleJS.push elements
                    (map VNode (children_of (nodes st) r)) ;; ret tt
                else ret tt)
             (fun _ elements => ret elements)
             (filling (nodes st)) this items st Hthis); [| | | done].
    + split; [done |]. intros a. simpl. rewrite lookup_app_r by done.
      rewrite Nat.sub_diag. simpl. intros [= <-]. constructor.
    + intros e x. repeat filling_step.
    + intros e x s Hx [Hn _]. apply guard_agree;
        [constructor | by rewrite Hn | by apply Hitems].
  - intros _ listener. unfold EagleJS.ready.
    rewrite !(get_array_bind this items st _ Hthis).
    apply (forEach_then_agree (fun s => nodes s = nodes st)); [| | done].
    + intros x Hx s Hn. apply guard_agree;
        [constructor | by rewrite Hn | by apply Hitems].
    + intros x.
      apply keeps_bind; [apply keeps_reading, capable_reads | intros ok].
      destruct ok; [| apply keeps_ret].
      apply keeps_bind; [apply keeps_reading, as_node_reads | intros r].
      apply keeps_bind; [apply keeps_get | intros s0].
      by destruct (bool_decide _); intros s1 Hs1.
  - intros op content. rewrite !insertion_distribution.
    unfold distribution, bind.
    pose proof (keeps_frame_materialize (arrays st) (nodes st) content st
                  (conj eq_refl (shapes_kept_refl _))) as Hm.
    destruct (EagleJS.materialize content st) as [[nodeArray | e] s1];
      [| done].
    destruct Hm as [Ha Hs]. unfold EagleJS.get_array. rewrite Ha, Hthis.
    destruct (distribute_agree (frame (arrays st) (nodes st))
                (place Typed op) (place Legacy op) nodeArray (rev items))
      with (s := s1) as [_ ->]; try done.
    + intros x s. apply place_reads.
    + intros x Hx s [_ Hk]. apply list_elem_of_In, in_rev, list_elem_of_In in Hx.
      destruct op; try done; simpl;
        apply (guard_agree_kinds _ _ (nodes st));
        try (by apply Hitems); try done; try constructor;
        by apply shapes_kept_kinds.
    + apply keeps_frame_insert_originals.
    + apply keeps_frame_insert_clones.
Qed.

Lemma methods_agree_witness :
  EagleJS.text Typed 2 (Some "x")
    (with_arrays (fun h => h ++ [[VNode 2; VNode 0; VNode 6]]) Demo.page)
  = EagleJS.text Legacy 2 (Some "x")
      (with_arrays (fun h => h ++ [[VNode 2; VNode 0; VNode 6]]) Demo.page)
  /\ insertion Typed IAppend 2 [CText "x"]
       (with_arrays (fun h => h ++ [[VNode 2; VNode 0; VNode 6]]) Demo.page)
     = insertion Legacy IAppend 2 [CText "x"]
         (with_arrays (fun h => h ++ [[VNode 2; VNode 0; VNode 6]]) Demo.page).
Proof.
  destruct (methods_agree (H := Demo.engines) 2 [VNode 2; VNode 0; VNode 6]
              (with_arrays (fun h => h ++ [[VNode 2; VNode 0; VNode 6]])
                 Demo.page))
    as (_ & _ & Htext & _ & _ & _ & _ & _ & _ & _ & Hinsertion).
  - reflexivity.
  - repeat (constructor; [split; [reflexivity | intros r [= <-]; simpl; lia] |]).
    constructor.
  - intros t. rewrite !elem_of_cons, elem_of_nil.
    intros [? | [? | [? | []]]]; discriminate.
  - unfold well_typed. simpl. repeat (constructor; [discriminate |]).
    constructor.
  - split; [apply Htext | apply Hinsertion].
Defined.

(** ** empty *)

Lemma length_remove_ref (c : ref) (l : list ref) :
  length (remove_ref c l) <= length l.
Proof.
  unfold remove_ref. induction l as [| x l IH]; simpl; [done |].
  destruct (negb _); simpl; lia.
Qed.

Lemma with_nodes_same (ns : list Node) (f : list Node -> list Node)
    (s : State) :
  with_nodes (fun _ => ns) (with_nodes f s) = with_nodes (fun _ => ns) s.
Proof. by destruct s. Qed.

Lemma with_nodes_id (s : State) : with_nodes (fun _ => nodes s) s = s.
Proof. by destruct s. Qed.

(** The loop of the typed [empty] takes at most one turn per child: with
    more fuel than children it returns, and the node is emptied. *)
Lemma remove_firstChild_loop_fuel (fuel : nat) (r : ref) :
  forall s, linked (nodes s) ->
    length (children_of (nodes s) r) < fuel ->
    exists ns',
      EagleJS.remove_firstChild_loop fuel r s
      = (Ok tt, with_nodes (fun _ => ns') s)
      /\ emptied r (nodes s) ns'.
Proof.
  induction fuel as [| fuel IH]; intros s Hl Hlen; [lia |].
  simpl. unfold bind, get, firstChild.
  destruct (children_of (nodes s) r) as [| c cs] eqn:Hcs; simpl.
  - exists (nodes s). rewrite with_nodes_id. split; [done |].
    repeat split; try done. intros c. rewrite Hcs.
    by rewrite bool_decide_eq_false_2 by apply not_elem_of_nil.
  - assert (Hc : parent_of (nodes s) c = Some r).
    { apply Hl. rewrite Hcs. by left. }
    unfold removeChild. rewrite bool_decide_eq_true_2 by done.
    set (s1 := with_nodes (detach c) s).
    assert (Hkids : children_of (nodes s1) r = remove_ref c cs).
    { simpl. rewrite children_of_detach, bool_decide_eq_true_2 by done.
      rewrite Hcs. unfold remove_ref. simpl.
      by rewrite bool_decide_eq_true_2. }
    destruct (IH s1) as (ns' & Hrun & Hlen' & Hshape & Hnone & Hother & Hpar
                         & Hl').
    { by apply linked_detach. }
    { rewrite Hkids. pose proof (length_remove_ref c cs). simpl in Hlen. lia. }
    exists ns'. rewrite Hrun. unfold s1. rewrite with_nodes_same.
    split; [done |]. repeat split; try done.
    + rewrite Hlen'. apply length_detach.
    + intros x. rewrite Hshape. apply shape_of_detach.
    + intros q Hq. rewrite Hother by done. simpl.
      rewrite children_of_detach, bool_decide_eq_false_2; [done |].
      congruence.
    + intros x. rewrite Hpar, Hkids, Hcs. simpl.
      destruct (decide (x = c)) as [-> | Hne].
      * rewrite bool_decide_eq_false_2.
        -- rewrite bool_decide_eq_true_2 by by left. apply parent_of_detach.
        -- intros Hin. apply elem_of_remove_ref in Hin. by destruct Hin.
      * rewrite parent_of_detach_other by done.
        destruct (decide (x ∈ cs)) as [Hin | Hout].
        -- rewrite !bool_decide_eq_true_2; [done | by right |].
           by apply elem_of_remove_ref.
        -- rewrite !bool_decide_eq_false_2; [done | |].
           ++ intros Hin. apply elem_of_cons in Hin as [-> | Hin]; done.
           ++ intros Hin. by apply elem_of_remove_ref in Hin as [Hin _].
Qed.

Lemma live_length (ns ns' : list Node) (items : list Value) :
  length ns' = length ns -> Forall (live ns) items -> Forall (live ns') items.
Proof.
  intros Hlen Hall. eapply Forall_impl; [exact Hall |].
  intros x [Hx Hr]. split; [done |].
  intros r Hxr. rewrite Hlen. by apply Hr.
Qed.

Lemma emptied_members_nil (ns : list Node) :
  linked ns -> emptied_members [] ns ns.
Proof.
  intros Hl. repeat split; try done.
  - intros q Hq. by apply elem_of_nil in Hq.
  - intros r c Hr. by apply elem_of_nil in Hr.
  - by left.
Qed.

(** An item of the collection that is no node changes nothing. *)
Lemma emptied_members_skip (x : Value) (items : list Value)
    (ns ns' : list Node) :
  (forall r, x <> VNode r) ->
  emptied_members items ns ns' -> emptied_members (x :: items) ns ns'.
Proof.
  intros Hx (Hlen & Hshape & Hnone & Hother & Hgone & Hkeep & Hmono & Hl).
  assert (Hin : forall q, VNode q ∈ x :: items <-> VNode q ∈ items).
  { intros q. rewrite elem_of_cons. split; [| by right].
    intros [Hq | Hq]; [| done]. symmetry in Hq. by apply Hx in Hq. }
  repeat split; try done.
  - intros q Hq. by apply Hnone, Hin.
  - intros q Hq. apply Hother. by rewrite <- Hin.
  - intros r c Hr. apply Hgone. by apply Hin.
  - intros c Hc. apply Hkeep. intros r Hr. apply Hc. by apply Hin.
Qed.

(** One more member emptied. *)
Lemma emptied_members_cons (r : ref) (items : list Value)
    (ns ns1 ns2 : list Node) :
  emptied r ns ns1 -> emptied_members items ns1 ns2 ->
  emptied_members (VNode r :: items) ns ns2.
Proof.
  intros (Hlen1 & Hshape1 & Hnone1 & Hother1 & Hpar1 & Hl1)
    (Hlen & Hshape & Hnone & Hother & Hgone & Hkeep & Hmono & Hl).
  assert (Hkids1 : forall q, VNode q ∈ items ->
            children_of ns1 q = children_of ns q \/ q = r).
  { intros q Hq. destruct (decide (q = r)) as [-> | Hne]; [by right |].
    left. by apply Hother1. }
  repeat split; try done.
  - congruence.
  - intros x. by rewrite Hshape.
  - intros q Hq. destruct (decide (VNode q ∈ items)) as [Hin | Hout];
      [by apply Hnone |].
    rewrite Hother by done. apply elem_of_cons in Hq as [[= ->] | Hq]; done.
  - intros q Hq. rewrite Hother.
    + apply Hother1. intros ->. apply Hq. by left.
    + intros Hin. apply Hq. by right.
  - intros m c Hm Hc.
    assert (Hstep : c ∈ children_of ns r -> parent_of ns2 c = None).
    { intros Hcr. destruct (Hmono c) as [Hsame | Hn]; [| done].
      rewrite Hsame, Hpar1. by rewrite bool_decide_eq_true_2. }
    apply elem_of_cons in Hm as [[= ->] | Hm]; [by apply Hstep |].
    destruct (Hkids1 m Hm) as [Hsame | ->]; [| by apply Hstep].
    apply (Hgone m c Hm). by rewrite Hsame.
  - intros c Hc. rewrite Hkeep.
    + rewrite Hpar1. rewrite bool_decide_eq_false_2; [done |].
      apply Hc. by left.
    + intros m Hm Hin.
      destruct (Hkids1 m Hm) as [Hsame | ->].
      * rewrite Hsame in Hin. revert Hin. apply Hc. by right.
      * rewrite Hnone1 in Hin. by apply elem_of_nil in Hin.
  - intros c. destruct (Hmono c) as [Hsame | Hn]; [| by right].
    rewrite Hsame, Hpar1. destruct (bool_decide _); [by right | by left].
Qed.

Lemma empty_step_node (r : ref) (st : State) :
  r < length (nodes st) -> linked (nodes st) ->
  exists ns',
    empty_step (VNode r) st = (Ok tt, with_nodes (fun _ => ns') st)
    /\ emptied r (nodes st) ns'.
Proof.
  intros Hr Hl. unfold empty_step, bind at 1.
  rewrite has_property_live by done. cbn [probe].
  destruct (lookup_lt_is_Some_2 _ _ Hr) as [n Hn]. rewrite Hn.
  cbn [node_has EagleJS.as_node]. unfold bind, ret, get.
  apply remove_firstChild_loop_fuel; [done | lia].
Qed.

(** The loop of the typed [empty] never runs out of fuel. *)
Lemma empty_typed_loop (items : list Value) :
  forall st, linked (nodes st) -> Forall (live (nodes st)) items ->
    exists ns',
      forEach empty_step items st = (Ok tt, with_nodes (fun _ => ns') st)
      /\ emptied_members items (nodes st) ns'.
Proof.
  induction items as [| x items IH]; intros st Hl Hlive.
  - exists (nodes st). rewrite with_nodes_id. split; [done |].
    by apply emptied_members_nil.
  - apply Forall_cons in Hlive as [[Hx Hr] Hlive].
    cbn [forEach]. unfold bind at 1.
    destruct (isDOMItem_inv _ Hx) as [[r ->] | [t ->]].
    + destruct (empty_step_node r st (Hr r eq_refl) Hl) as (ns1 & Hrun & He).
      rewrite Hrun.
      destruct (IH (with_nodes (fun _ => ns1) st)) as (ns2 & Hrest & Hm).
      { apply He. }
      { apply (live_length (nodes st)); [apply He | done]. }
      exists ns2. rewrite Hrest, with_nodes_same. split; [done |].
      by apply (emptied_members_cons r items (nodes st) ns1).
    + destruct (IH st Hl Hlive) as (ns' & Hrest & Hm).
      exists ns'. change (empty_step (VTarget t) st) with (Ok tt, st).
      cbv beta iota. rewrite Hrest. split; [done |].
      apply emptied_members_skip; [done | exact Hm].
Qed.

Lemma children_typed_child (ns : list Node) (p c : ref) :
  children_typed ns -> c ∈ children_of ns p ->
  EagleJS.isChildNode ns (VNode c) = true.
Proof.
  intros Ht Hc. unfold children_of in Hc.
  destruct (ns !! p) as [n |] eqn:Hn; [| by apply elem_of_nil in Hc].
  simpl in Hc. unfold children_typed in Ht.
  rewrite Forall_forall in Ht.
  assert (Hin : n ∈ ns) by (apply list_elem_of_lookup; by exists p).
  specialize (Ht n Hin). rewrite Forall_forall in Ht. by apply Ht.
Qed.

Lemma with_arrays_insert_insert (e : loc) (a b : list Value) (s : State) :
  with_arrays (fun h => <[e := b]> h) (with_arrays (fun h => <[e := a]> h) s)
  = with_arrays (fun h => <[e := b]> h) s.
Proof.
  destruct s. unfold with_arrays. simpl. by rewrite list_insert_insert_eq.
Qed.

Lemma with_arrays_insert_id (e : loc) (a : list Value) (s : State) :
  arrays s !! e = Some a -> with_arrays (fun h => <[e := a]> h) s = s.
Proof.
  intros He. destruct s. unfold with_arrays. simpl in *.
  by rewrite list_insert_id.
Qed.

(** What [push] leaves in the array, as a set. *)
Lemma push_nodes_elem (e : loc) (acc : list Value) (cs : list ref)
    (s : State) :
  arrays s !! e = Some acc ->
  exists acc',
    EagleJS.push e (map VNode cs) s
    = (Ok (length acc'), with_arrays (fun h => <[e := acc']> h) s)
    /\ forall x, x ∈ acc' <-> x ∈ acc \/ exists c, x = VNode c /\ c ∈ cs.
Proof.
  intros He. unfold EagleJS.push, bind. rewrite (get_array_Some _ _ _ He).
  eexists. split; [reflexivity |]. intros x.
  assert (Hkept : x ∈ List.filter
                    (fun item => EagleJS.isDOMItem item
                                 && negb (includes acc item)) (map VNode cs)
                  <-> (exists c, x = VNode c /\ c ∈ cs)
                      /\ includes acc x = false).
  { rewrite list_elem_of_In, filter_In, <- list_elem_of_In.
    rewrite list_elem_of_fmap, andb_true_iff, negb_true_iff. split.
    - by intros [Hx [_ Hi]].
    - intros [(c & -> & Hc) Hi]. split; [by exists c | done]. }
  rewrite elem_of_app, Hkept. split.
  - intros [Hx | [Hx _]]; [by left | by right].
  - intros [Hx | Hx]; [by left |].
    destruct (includes acc x) eqn:Hi; [| by right].
    left. by apply includes_elem_of.
Qed.

(** The loop of [contents] collects the children of the eligible
    members. *)
Lemma contents_loop (v : Variant) (e : loc) (items : list Value) :
  forall s acc,
    arrays s !! e = Some acc ->
    Forall (live (nodes s)) items ->
    exists acc',
      forEach (fun item =>
        let! ok := EagleJS.capable v K_childNodes EagleJS.isNode item in
        if ok then
          let! r := EagleJS.as_node item in
          let! st := get in
          EagleJS.push e (map VNode (children_of (nodes st) r)) ;; ret tt
        else ret tt) items s
      = (Ok tt, with_arrays (fun h => <[e := acc']> h) s)
      /\ forall x,
           x ∈ acc' <->
           x ∈ acc
           \/ exists r c,
                x = VNode c /\ VNode r ∈ items
                /\ eligible v K_childNodes EagleJS.isNode (nodes s) (VNode r)
                   = true
                /\ c ∈ children_of (nodes s) r.
Proof.
  induction items as [| item items IH]; intros s acc He Hlive.
  - exists acc. rewrite with_arrays_insert_id by done. split; [done |].
    intros x. split; [by left |]. intros [Hx | (r & c & _ & Hr & _)]; [done |].
    by apply elem_of_nil in Hr.
  - apply Forall_cons in Hlive as [[Hitem Hr] Hlive].
    cbn [forEach]. unfold bind at 1. unfold bind at 1.
    rewrite capable_live by done.
    destruct (eligible v K_childNodes EagleJS.isNode (nodes s) item) eqn:Hok.
    + destruct (eligible_node v K_childNodes EagleJS.isNode (nodes s) item)
        as [r ->]; [constructor | done | done |].
      cbn [EagleJS.as_node]. unfold bind at 1, ret at 1.
      unfold bind at 1, get at 1. unfold bind at 1.
      destruct (push_nodes_elem e acc (children_of (nodes s) r) s He)
        as (acc1 & Hpush & Hacc1).
      rewrite Hpush. unfold ret at 1.
      destruct (IH (with_arrays (fun h => <[e := acc1]> h) s) acc1)
        as (acc2 & Hrest & Hacc2).
      { simpl. apply list_lookup_insert_eq. by apply lookup_lt_Some in He. }
      { done. }
      exists acc2. rewrite Hrest, with_arrays_insert_insert.
      split; [done |]. intros x. rewrite Hacc2, Hacc1. simpl. split.
      * intros [[Hx | (c & -> & Hc)] | (m & c & -> & Hm & Hel & Hc)].
        -- by left.
        -- right. exists r, c. repeat split; try done. by left.
        -- right. exists m, c. repeat split; try done. by right.
      * intros [Hx | (m & c & -> & Hm & Hel & Hc)]; [by left; left |].
        apply elem_of_cons in Hm as [[= ->] | Hm].
        -- left. right. by exists c.
        -- right. by exists m, c.
    + unfold ret at 1.
      destruct (IH s acc He Hlive) as (acc' & Hrest & Hacc).
      exists acc'. rewrite Hrest. split; [done |]. intros x. rewrite Hacc.
      split.
      * intros [Hx | (m & c & -> & Hm & Hel & Hc)]; [by left |].
        right. exists m, c. repeat split; try done. by right.
      * intros [Hx | (m & c & -> & Hm & Hel & Hc)]; [by left |].
        apply elem_of_cons in Hm as [<- | Hm]; [congruence |].
        right. by exists m, c.
Qed.

(** The loop of [remove] leaves the child list of [q] alone when no item
    hangs under [q]. *)
Lemma remove_loop_children (q : ref) (items : list Value) :
  forall st,
    (forall c, VNode c ∈ items -> parent_of (nodes st) c <> Some q) ->
    children_of (nodes (snd (forEach remove_step items st))) q
    = children_of (nodes st) q.
Proof.
  induction items as [| item items IH]; intros st Hq; [done |].
  cbn [forEach]. unfold bind. rewrite remove_step_spec.
  destruct (EagleJS.isChildNode (nodes st) item) eqn:Hc.
  - destruct (isChildNode_node _ _ Hc) as [r ->].
    rewrite IH.
    + simpl. rewrite children_of_detach, bool_decide_eq_false_2; [done |].
      apply Hq. by left.
    + intros c Hin. simpl. destruct (decide (c = r)) as [-> | Hne].
      * by rewrite parent_of_detach.
      * rewrite parent_of_detach_other by done. apply Hq. by right.
  - apply IH. intros c Hin. apply Hq. by right.
Qed.

Lemma isNode_live (ns : list Node) (r : ref) :
  well_typed ns -> r < length ns -> EagleJS.isNode ns (VNode r) = true.
Proof.
  intros Hwt Hr. destruct (lookup_lt_is_Some_2 _ _ Hr) as [n Hn].
  unfold EagleJS.isNode, EagleJS.nodeType_of, type_of, shape_of.
  rewrite Hn. simpl. unfold well_typed in Hwt. rewrite Forall_forall in Hwt.
  apply negb_true_iff, Z.eqb_neq, Hwt, list_elem_of_lookup. by exists r.
Qed.

(** X15.  [empty], in both sources, on a collection of items of a tree whose
    children point to their parents and are child nodes: it never throws
    (the loop of the typed source ends), it returns the receiver, every
    node of the collection ends without children, these children end
    without a parent, and no other node moves or changes.  The collections
    that were there are unchanged; the typed source creates none. *)
Theorem empty_empties_members (v : Variant) (this : loc)
    (items : list Value) (st : State) :
  arrays st !! this = Some items ->
  Forall (live (nodes st)) items ->
  linked (nodes st) ->
  well_typed (nodes st) ->
  children_typed (nodes st) ->
  exists st',
    EagleJS.empty v this st = (Ok this, st')
    /\ emptied_members items (nodes st) (nodes st')
    /\ arrays st `prefix_of` arrays st'
    /\ (v = Typed -> arrays st' = arrays st).
Proof.
  intros Hthis Hlive Hl Hwt Hct. destruct v; simpl.
  - destruct (empty_typed_loop items st Hl Hlive) as (ns' & Hrun & Hm).
    exists (with_nodes (fun _ => ns') st).
    unfold EagleJS.empty_typed, bind. rewrite (get_array_Some _ _ _ Hthis).
    change (forEach _ items st) with (forEach empty_step items st).
    rewrite Hrun. split; [done |]. split; [exact Hm |]. by split.
  - unfold EagleJS.empty_legacy, EagleJS.contents. unfold bind at 1.
    unfold bind at 1. rewrite new_array_spec.
    set (s0 := with_arrays (fun h => h ++ [[]]) st).
    set (e := length (arrays st)).
    assert (He : arrays s0 !! e = Some []).
    { unfold s0, e. simpl. rewrite lookup_app_r by done.
      by rewrite Nat.sub_diag. }
    rewrite (get_array_bind this items s0)
      by (simpl; rewrite lookup_app_l; [done | by apply lookup_lt_Some in Hthis]).
    unfold bind at 1.
    destruct (contents_loop Legacy e items s0 [] He Hlive)
      as (C & Hrun & HC).
    rewrite Hrun. unfold ret at 1.
    set (s1 := with_arrays (fun h => <[e := C]> h) s0).
    assert (He1 : arrays s1 !! e = Some C).
    { simpl. apply list_lookup_insert_eq. rewrite length_app. simpl.
      unfold e. lia. }
    unfold bind at 1. unfold EagleJS.remove.
    rewrite (get_array_bind e C s1 _ He1). unfold bind at 1.
    change (forEach _ C s1) with (forEach remove_step C s1).
    pose proof (remove_loop_children) as Hkids_same.
    destruct (remove_loop C s1)
      as (ns' & Hloop & Hlen & Hshape & Hmono & Hgone & Hkeep & Hkids & Hl').
    specialize (Hl' Hl).
    assert (Hmember : forall r c, VNode r ∈ items ->
              c ∈ children_of (nodes st) r -> VNode c ∈ C).
    { intros r c Hr Hc. apply HC. right. exists r, c.
      repeat split; try done. simpl. apply isNode_live; [done |].
      rewrite Forall_forall in Hlive. by apply (Hlive _ Hr). }
    assert (Hfrom : forall c, VNode c ∈ C ->
              exists r, VNode r ∈ items /\ c ∈ children_of (nodes st) r).
    { intros c Hc. apply HC in Hc as [Hc | (r & c' & [= ->] & Hr & _ & Hc)];
        [by apply elem_of_nil in Hc | by exists r]. }
    rewrite Hloop. unfold ret.
    exists (with_nodes (fun _ => ns') s1). split; [done |].
    split; [| split].
    + repeat split; try done.
      * intros q Hq.
        destruct (children_of ns' q) as [| c cs] eqn:Hcs; [done |].
        assert (Hc : c ∈ children_of ns' q) by (rewrite Hcs; by left).
        pose proof (Hl' q c Hc) as Hp.
        rewrite (Hgone c) in Hp; [done | |].
        -- apply (Hmember q); [done |]. by apply Hkids.
        -- apply (children_typed_child _ q); [done |]. by apply Hkids.
      * intros q Hq.
        pose proof (Hkids_same q C s1) as Hsame. rewrite Hloop in Hsame.
        apply Hsame. intros c Hc Hp.
        destruct (Hfrom c Hc) as (r & Hr & Hcr).
        apply Hl in Hcr. simpl in Hp. rewrite Hcr in Hp.
        injection Hp as ->. done.
      * intros r c Hr Hc. apply Hgone; [by apply (Hmember r) |].
        by apply (children_typed_child _ r).
      * intros c Hc. apply Hkeep. left. intros Hin.
        destruct (Hfrom c Hin) as (r & Hr & Hcr). by apply (Hc r).
    + simpl. exists [C].
      rewrite insert_app_r_alt by done.
      by rewrite Nat.sub_diag.
    + discriminate.
Qed.

(** The [body] of the page. *)
Lemma empty_empties_members_witness :
  exists st',
    EagleJS.empty Legacy 2
      (with_arrays (fun h => h ++ [[VNode 2]]) Demo.page) = (Ok 2, st')
    /\ emptied_members [VNode 2] (nodes Demo.page) (nodes st')
    /\ arrays (with_arrays (fun h => h ++ [[VNode 2]]) Demo.page)
         `prefix_of` arrays st'
    /\ (Legacy = Typed ->
        arrays st'
        = arrays (with_arrays (fun h => h ++ [[VNode 2]]) Demo.page)).
Proof.
  apply (empty_empties_members Legacy 2 [VNode 2]
           (with_arrays (fun h => h ++ [[VNode 2]]) Demo.page)).
  - reflexivity.
  - repeat (constructor; [split; [reflexivity | intros r [= <-]; simpl; lia] |]).
    constructor.
  - apply linked_check_linked. reflexivity.
  - unfold well_typed. simpl. repeat (constructor; [discriminate |]).
    constructor.
  - unfold children_typed. simpl. repeat constructor.
Defined.

(** ** clone *)

Lemma snapshot_root (fuel : nat) (ns : list Node) (r : ref) :
  exists kids,
    snapshot fuel ns r = Tpl (shape_of ns r) kids
    /\ (0 < fuel -> length kids = length (children_of ns r)).
Proof.
  destruct fuel as [| fuel]; simpl.
  - exists []. split; [done | lia].
  - eexists. split; [reflexivity |]. intros _. by rewrite length_map.
Qed.

Lemma represents_above (ns : list Node) (lo : nat) (p : option ref)
    (cs : list ref) (kids : list Template) :
  Forall2 (represents ns lo p) cs kids -> Forall (fun k => lo <= k) cs.
Proof.
  induction 1 as [| c k cs kids Hc Hrest IH]; constructor; [| done].
  by inversion Hc.
Qed.

(** [cloneNode] on a node of the tree. *)
Lemma cloneNode_cloned (r : ref) (deep : bool) (s : State) :
  r < length (nodes s) ->
  exists extra,
    cloneNode r deep s
    = (Ok (length (nodes s)), with_nodes (fun ns => ns ++ extra) s)
    /\ cloned deep (nodes s) (nodes s ++ extra) r (length (nodes s)).
Proof.
  intros Hr. unfold cloneNode.
  destruct (lookup_lt_is_Some_2 _ _ Hr) as [n Hn]. rewrite Hn.
  set (t := if deep then snapshot (length (nodes s)) (nodes s) r
            else Tpl (shape n) []).
  assert (Ht : exists kids,
            t = Tpl (shape_of (nodes s) r) kids
            /\ length kids
               = if deep then length (children_of (nodes s) r) else 0).
  { unfold t. destruct deep.
    - destruct (snapshot_root (length (nodes s)) (nodes s) r)
        as (kids & Hk & Hlen).
      exists kids. split; [done |]. apply Hlen. lia.
    - exists []. split; [| done]. unfold shape_of. by rewrite Hn. }
  destruct Ht as (kids & Ht & Hkids).
  pose proof (instantiate_instantiated t None (nodes s)) as Hi.
  destruct (instantiate None t (nodes s)) as [c ns']. simpl in Hi.
  destruct Hi as (-> & [extra ->] & Hrep). exists extra.
  split; [by destruct s |].
  rewrite Ht in Hrep. inversion Hrep as [p c s0 ks cs Hlo Hc Hall]; subst.
  pose proof (Forall2_length _ _ _ Hall) as Hlen.
  unfold cloned. rewrite <- Hkids, <- Hlen.
  unfold parent_of, shape_of, children_of. rewrite Hc. simpl.
  repeat split; try done.
  - by apply lookup_lt_Some in Hc.
  - by apply represents_above in Hall.
Qed.

(** A clone stays one when the tree grows. *)
Lemma cloned_app (deep : bool) (ns ns' extra : list Node) (r c : ref) :
  cloned deep ns ns' r c -> cloned deep ns (ns' ++ extra) r c.
Proof.
  intros ([Hlo Hhi] & Hp & Hs & Hk & Hnew).
  unfold cloned, parent_of, shape_of, children_of in *.
  rewrite lookup_app_l by done. repeat split; try done.
  rewrite length_app. lia.
Qed.

Lemma cloned_from (deep : bool) (ns ns' extra : list Node) (r c : ref) :
  r < length ns -> cloned deep (ns ++ extra) ns' r c -> cloned deep ns ns' r c.
Proof.
  intros Hr ([Hlo Hhi] & Hp & Hs & Hk & Hnew).
  rewrite length_app in Hlo.
  unfold cloned. unfold shape_of, children_of in Hs, Hk.
  rewrite lookup_app_l in Hs, Hk by done.
  repeat split; try done; try lia.
  eapply Forall_impl; [exact Hnew |]. intros k. simpl. rewrite length_app. lia.
Qed.

(** The loop of [clone] over the nodes [rs]: one clone each, in order. *)
Lemma clone_refs (deep : bool) (e : loc) (rs : list ref) :
  forall s cs0,
    arrays s !! e = Some (map VNode cs0) ->
    Forall (fun c => c < length (nodes s)) cs0 ->
    Forall (fun r => r < length (nodes s)) rs ->
    exists extra cs,
      forEach (clone_step deep e) rs s
      = (Ok tt,
         with_arrays (fun h => <[e := map VNode (cs0 ++ cs)]> h)
           (with_nodes (fun ns => ns ++ extra) s))
      /\ Forall2 (cloned deep (nodes s) (nodes s ++ extra)) rs cs
      /\ Forall (fun c => length (nodes s) <= c) cs
      /\ NoDup cs.
Proof.
  induction rs as [| r rs IH]; intros s cs0 He Hcs0 Hrs.
  - exists [], []. rewrite !app_nil_r. split.
    + simpl. unfold ret. f_equal. destruct s. unfold with_arrays, with_nodes.
      simpl in *. by rewrite app_nil_r, list_insert_id.
    + repeat split; constructor.
  - apply Forall_cons in Hrs as [Hr Hrs].
    cbn [forEach]. unfold bind at 1. unfold clone_step at 1, bind at 1.
    destruct (cloneNode_cloned r deep s Hr) as (ex1 & Hclone & Hc).
    rewrite Hclone.
    set (c := length (nodes s)) in *.
    set (s1 := with_nodes (fun ns => ns ++ ex1) s).
    assert (Hfresh : includes (map VNode cs0) (VNode c) = false).
    { apply not_true_iff_false. intros Hin. apply includes_elem_of in Hin.
      apply list_elem_of_fmap in Hin as (c' & [= <-] & Hin).
      rewrite Forall_forall in Hcs0. specialize (Hcs0 _ Hin). unfold c in *.
      lia. }
    assert (Hpush : EagleJS.push e [VNode c] s1
                    = (Ok (length (map VNode (cs0 ++ [c]))),
                       with_arrays
                         (fun h => <[e := map VNode (cs0 ++ [c])]> h) s1)).
    { unfold EagleJS.push, bind.
      rewrite (get_array_Some s1 e (map VNode cs0)) by done.
      simpl. rewrite Hfresh. simpl. by rewrite map_app. }
    unfold bind at 1. rewrite Hpush. unfold ret at 1.
    set (s2 := with_arrays (fun h => <[e := map VNode (cs0 ++ [c])]> h) s1).
    destruct Hc as (Hrange & Hc).
    destruct (IH s2 (cs0 ++ [c])) as (ex2 & cs & Hrest & Hall & Hlo & Hnd).
    { simpl. apply list_lookup_insert_eq. by apply lookup_lt_Some in He. }
    { simpl. apply Forall_app. split.
      - eapply Forall_impl; [exact Hcs0 |]. intros x Hx. simpl in Hx.
        rewrite length_app. lia.
      - constructor; [apply Hrange | constructor]. }
    { simpl. eapply Forall_impl; [exact Hrs |]. intros x Hx. simpl in Hx.
      rewrite length_app. lia. }
    exists (ex1 ++ ex2), (c :: cs). split; [| split; [| split]].
    + rewrite Hrest. f_equal. unfold s2, s1. destruct s.
      unfold with_arrays, with_nodes. simpl.
      by rewrite list_insert_insert_eq, <- !app_assoc.
    + rewrite app_assoc. constructor.
      * by apply cloned_app.
      * simpl in Hall. clear -Hall Hrs.
        induction Hall as [| r' c' rs cs Hr' Hall IHall]; constructor.
        -- apply Forall_cons in Hrs as [Hlt _].
           by apply (cloned_from deep _ _ ex1).
        -- apply IHall. by apply Forall_cons in Hrs as [_ Hrs].
    + constructor; [done |]. simpl in Hlo.
      eapply Forall_impl; [exact Hlo |]. intros x. simpl.
      rewrite length_app. lia.
    + constructor; [| done]. intros Hin. simpl in Hlo.
      rewrite Forall_forall in Hlo. specialize (Hlo _ Hin).
      destruct Hrange as [_ Hhi]. lia.
Qed.

(** X16.  [clone], in both sources, on a collection of items: it never throws and
    returns a new collection that holds one clone for each member that can
    be cloned, in the order of the members.  The clones are new nodes,
    distinct from one another, each with the shape of its original and
    without a parent; a shallow clone has no children, a deep clone as many
    as its original, all new.  The tree that was there and the collections
    that were there are unchanged. *)
Theorem clone_makes_new_nodes (v : Variant) (this : loc) (deep : bool)
    (items : list Value) (st : State) :
  arrays st !! this = Some items ->
  Forall (live (nodes st)) items ->
  exists extra cs,
    EagleJS.clone v this deep st
    = (Ok (length (arrays st)),
       with_arrays (fun h => h ++ [map VNode cs])
         (with_nodes (fun ns => ns ++ extra) st))
    /\ Forall2 (cloned deep (nodes st) (nodes st ++ extra))
         (eligible_refs (eligible v K_cloneNode EagleJS.isNode (nodes st))
            items) cs
    /\ NoDup cs.
Proof.
  intros Hthis Hlive. unfold EagleJS.clone. unfold bind at 1.
  unfold EagleJS.new_empty. rewrite new_array_spec.
  set (s0 := with_arrays (fun h => h ++ [[]]) st).
  set (e := length (arrays st)).
  rewrite (get_array_bind this items s0)
    by (simpl; rewrite lookup_app_l; [done | by apply lookup_lt_Some in Hthis]).
  unfold bind at 1.
  rewrite (forEach_eligible (EagleJS.capable v K_cloneNode EagleJS.isNode)
             (eligible v K_cloneNode EagleJS.isNode) (clone_step deep e))
    with (st0 := s0).
  - destruct (clone_refs deep e
                (eligible_refs
                   (eligible v K_cloneNode EagleJS.isNode (nodes s0)) items)
                s0 [])
      as (extra & cs & Hrun & Hall & _ & Hnd).
    + simpl. rewrite lookup_app_r by done. by rewrite Nat.sub_diag.
    + constructor.
    + apply Forall_forall. intros r Hr.
      apply eligible_refs_elem in Hr as [Hr _].
      rewrite Forall_forall in Hlive. by apply (Hlive _ Hr).
    + exists extra, cs. rewrite Hrun. unfold ret. split; [| by split].
      f_equal. unfold s0, e. destruct st. unfold with_arrays, with_nodes.
      simpl. rewrite insert_app_r_alt by done. by rewrite Nat.sub_diag.
  - intros r s. unfold clone_step.
    pose proof (keeps_kinds_cloneNode (nodes s) r deep s
                  (kinds_kept_refl _)) as Hc.
    unfold bind. destruct (cloneNode r deep s) as [[c | ex] s1]; [| done].
    pose proof (keeps_kinds_push (nodes s) e [VNode c] s1 Hc) as Hp.
    by destruct (EagleJS.push e [VNode c] s1) as [[n | ex] s2].
  - intros ns ns' item. apply eligible_kinds. constructor.
  - intros s item. apply capable_live.
  - intros ns item. by apply eligible_node; [constructor |].
  - apply kinds_kept_refl.
  - done.
Qed.

(** The [div] and the [span] of the page, and the window. *)
Lemma clone_makes_new_nodes_witness :
  exists extra cs,
    EagleJS.clone Legacy 2 true
      (with_arrays (fun h => h ++ [[VNode 3; VTarget 0; VNode 4]]) Demo.page)
    = (Ok 3,
       with_arrays (fun h => h ++ [map VNode cs])
         (with_nodes (fun ns => ns ++ extra)
            (with_arrays (fun h => h ++ [[VNode 3; VTarget 0; VNode 4]])
               Demo.page)))
    /\ Forall2 (cloned true (nodes Demo.page) (nodes Demo.page ++ extra))
         [3; 4] cs
    /\ NoDup cs.
Proof.
  apply (clone_makes_new_nodes Legacy 2 true [VNode 3; VTarget 0; VNode 4]
           (with_arrays (fun h => h ++ [[VNode 3; VTarget 0; VNode 4]])
              Demo.page)).
  - reflexivity.
  - repeat (constructor;
              [split; [reflexivity | intros r [= <-]; simpl; lia] |]).
    constructor.
Defined.

(** ** The constructor on items *)

Lemma filter_isDOMItem_empty (l : list Value) :
  List.filter (fun item => EagleJS.isDOMItem item && negb (includes [] item)) l
  = List.filter EagleJS.isDOMItem l.
Proof.
  apply List.filter_ext. intros x. simpl. apply andb_true_r.
Qed.

Lemma push_new (l : list Value) (st : State) :
  (let! this := EagleJS.new_array in EagleJS.push this l ;; ret this) st
  = (Ok (length (arrays st)),
     with_arrays (fun h => h ++ [List.filter EagleJS.isDOMItem l]) st).
Proof.
  unfold bind at 1. rewrite new_array_spec.
  unfold EagleJS.push, EagleJS.get_array, EagleJS.set_array, bind, modify, ret.
  simpl. rewrite lookup_app_r by done.
  rewrite Nat.sub_diag. simpl.
  rewrite filter_isDOMItem_empty. f_equal.
  destruct st. unfold with_arrays. simpl.
  rewrite insert_app_r_alt by done. by rewrite Nat.sub_diag.
Qed.

(** X17.  The constructor, in both sources, on a selector that is no string (an
    item, an array, [null]): it never throws, it ignores the context, and
    the new collection holds the items among what was given, in the given
    order; what is no item is dropped, and an item given twice is held
    twice.  Nothing else changes. *)
Theorem constructor_keeps_items `{Engines} (v : Variant)
    (selector context : Arg) (st : State) :
  (forall s, selector <> ArgValue (VStr s)) ->
  EagleJS.constructor v selector context st
  = (Ok (length (arrays st)),
     with_arrays
       (fun h => h ++ [List.filter EagleJS.isDOMItem (given selector)]) st).
Proof.
  intros Hs.
  assert (Hboth : forall construct : Arg -> Arg -> M loc,
    (forall sel ctx s,
       construct sel ctx s
       = (let! this := EagleJS.new_array in
          if EagleJS.is_null sel then ret this
          else EagleJS.push this (given sel) ;; ret this) s
       \/ exists str, sel = ArgValue (VStr str)) ->
    construct selector context st
    = (Ok (length (arrays st)),
       with_arrays
         (fun h => h ++ [List.filter EagleJS.isDOMItem (given selector)]) st)).
  { intros construct Hc.
    destruct (Hc selector context st) as [-> | [str ->]]; [| by destruct (Hs str)].
    destruct (EagleJS.is_null selector) eqn:Hnull; [| apply push_new].
    destruct selector as [w | l | f]; try done. by destruct w. }
  unfold EagleJS.constructor, EagleJS.construct. destruct v; apply Hboth.
  - intros sel ctx s. cbn [EagleJS.construct_typed].
    rewrite bind_context_or_default.
    destruct sel as [w | l | f]; try (by left).
    destruct w; try (by left). right. by eexists.
  - intros sel ctx s. cbn [EagleJS.construct_legacy].
    rewrite bind_context_or_default.
    destruct sel as [w | l | f]; try (by left).
    destruct w; try (by left). right. by eexists.
Qed.

(** The [div] twice, a number, and the window. *)
Lemma constructor_keeps_items_witness :
  EagleJS.constructor (H := Demo.engines) Typed
    (ArgArray [VNode 3; VNum 7; VNode 3; VTarget 0]) (ArgValue (VStr "p"))
    Demo.page
  = (Ok 2,
     with_arrays (fun h => h ++ [[VNode 3; VNode 3; VTarget 0]]) Demo.page).
Proof.
  apply (constructor_keeps_items (H := Demo.engines) Typed
           (ArgArray [VNode 3; VNum 7; VNode 3; VTarget 0])
           (ArgValue (VStr "p")) Demo.page).
  intros s. discriminate.
Defined.

(** ** Walks: what the queries collect *)

(** A loop whose every turn adds nodes to the array at [e], and does nothing
    else, collects them. *)
Lemma collect_loop (e : loc) (ns : list Node) (body : Value -> M unit)
    (R : Value -> ref -> Prop) :
  (forall item s acc,
     EagleJS.isDOMItem item = true -> nodes s = ns ->
     arrays s !! e = Some acc ->
     exists acc',
       body item s = (Ok tt, with_arrays (fun h => <[e := acc']> h) s)
       /\ forall x, x ∈ acc' <-> x ∈ acc \/ exists c, x = VNode c /\ R item c) ->
  forall items s acc,
    nodes s = ns -> arrays s !! e = Some acc ->
    Forall (fun x => EagleJS.isDOMItem x = true) items ->
    exists acc',
      forEach body items s = (Ok tt, with_arrays (fun h => <[e := acc']> h) s)
      /\ forall x,
           x ∈ acc' <->
           x ∈ acc \/ exists item c, x = VNode c /\ item ∈ items /\ R item c.
Proof.
  intros Hstep. induction items as [| item items IH]; intros s acc Hn He Hall.
  - exists acc. rewrite with_arrays_insert_id by done. split; [done |].
    intros x. split; [by left |].
    intros [Hx | (item & c & _ & Hin & _)]; [done |].
    by apply elem_of_nil in Hin.
  - apply Forall_cons in Hall as [Hitem Hall].
    destruct (Hstep item s acc Hitem Hn He) as (acc1 & Hrun & Hacc1).
    cbn [forEach]. unfold bind. rewrite Hrun.
    destruct (IH (with_arrays (fun h => <[e := acc1]> h) s) acc1)
      as (acc2 & Hrest & Hacc2); [done | | done |].
    { simpl. apply list_lookup_insert_eq. by apply lookup_lt_Some in He. }
    exists acc2. rewrite Hrest, with_arrays_insert_insert. split; [done |].
    intros x. rewrite Hacc2, Hacc1. split.
    + intros [[Hx | (c & -> & Hc)] | (it & c & -> & Hin & Hc)].
      * by left.
      * right. exists item, c. repeat split; try done. by left.
      * right. exists it, c. repeat split; try done. by right.
    + intros [Hx | (it & c & -> & Hin & Hc)]; [by left; left |].
      apply elem_of_cons in Hin as [-> | Hin].
      * left. right. by exists c.
      * right. by exists it, c.
Qed.

(** A turn that checks a capability and then pushes the nodes [F item]. *)
Lemma collect_step (e : loc) (ns : list Node) (check : Value -> M bool)
    (ok : Value -> bool) (action : Value -> M unit) (F : Value -> list ref) :
  (forall item s, EagleJS.isDOMItem item = true -> nodes s = ns ->
     check item s = (Ok (ok item), s)) ->
  (forall item s acc, ok item = true -> nodes s = ns ->
     arrays s !! e = Some acc ->
     action item s = (EagleJS.push e (map VNode (F item)) ;; ret tt) s) ->
  forall item s acc,
    EagleJS.isDOMItem item = true -> nodes s = ns ->
    arrays s !! e = Some acc ->
    exists acc',
      (let! o := check item in if o then action item else ret tt) s
      = (Ok tt, with_arrays (fun h => <[e := acc']> h) s)
      /\ forall x,
           x ∈ acc' <->
           x ∈ acc \/ exists c, x = VNode c /\ (ok item = true /\ c ∈ F item).
Proof.
  intros Hcheck Haction item s acc Hitem Hn He.
  unfold bind at 1. rewrite Hcheck by done.
  destruct (ok item) eqn:Hok.
  - rewrite (Haction item s acc) by done.
    destruct (push_nodes_elem e acc (F item) s He) as (acc' & Hpush & Hacc).
    exists acc'. unfold bind. rewrite Hpush. split; [done |].
    intros x. rewrite Hacc. split.
    + intros [Hx | (c & -> & Hc)]; [by left | right; by exists c].
    + intros [Hx | (c & -> & _ & Hc)]; [by left | right; by exists c].
  - exists acc. rewrite with_arrays_insert_id by done. split; [done |].
    intros x. split; [by left |]. by intros [Hx | (c & _ & [=] & _)].
Qed.

(** The shape shared by the queries: a new array, a loop that collects,
    and the return of the array. *)
Lemma collect_new (body : loc -> Value -> M unit)
    (R : Value -> ref -> Prop) (this : loc) (items : list Value)
    (st : State) :
  arrays st !! this = Some items ->
  Forall (fun x => EagleJS.isDOMItem x = true) items ->
  (forall e item s acc,
     EagleJS.isDOMItem item = true -> nodes s = nodes st ->
     arrays s !! e = Some acc ->
     exists acc',
       body e item s = (Ok tt, with_arrays (fun h => <[e := acc']> h) s)
       /\ forall x, x ∈ acc' <-> x ∈ acc \/ exists c, x = VNode c /\ R item c) ->
  exists a,
    (let! elements := EagleJS.new_empty in
     let! items := EagleJS.get_array this in
     forEach (body elements) items ;; ret elements) st
    = (Ok (length (arrays st)), with_arrays (fun h => h ++ [a]) st)
    /\ forall x,
         x ∈ a <-> exists item c, x = VNode c /\ item ∈ items /\ R item c.
Proof.
  intros Hthis Hlive Hstep. unfold bind at 1.
  unfold EagleJS.new_empty. rewrite new_array_spec.
  set (s0 := with_arrays (fun h => h ++ [[]]) st).
  set (e := length (arrays st)).
  rewrite (get_array_bind this items s0)
    by (simpl; rewrite lookup_app_l; [done | by apply lookup_lt_Some in Hthis]).
  destruct (collect_loop e (nodes st) (body e) R (Hstep e) items s0 [])
    as (a & Hrun & Ha).
  - done.
  - simpl. rewrite lookup_app_r by done. by rewrite Nat.sub_diag.
  - done.
  - exists a. unfold bind. rewrite Hrun. unfold ret. split.
    + f_equal. unfold s0, e. destruct st. unfold with_arrays. simpl.
      rewrite insert_app_r_alt by done. by rewrite Nat.sub_diag.
    + intros x. rewrite Ha. split; [| by right].
      intros [Hx | Hx]; [by apply elem_of_nil in Hx | done].
Qed.

Lemma push_nothing (e : loc) (acc : list Value) (s : State) :
  arrays s !! e = Some acc -> (EagleJS.push e [] ;; ret tt) s = (Ok tt, s).
Proof.
  intros He. unfold EagleJS.push, EagleJS.set_array, bind, modify, ret.
  rewrite (get_array_Some _ _ _ He). simpl. rewrite app_nil_r.
  by rewrite with_arrays_insert_id.
Qed.

(** Pushing a node that may be absent. *)
Lemma push_option (e : loc) (acc : list Value) (o : option ref)
    (s : State) :
  arrays s !! e = Some acc ->
  match o with
  | Some c => EagleJS.push e [VNode c] ;; ret tt
  | None => ret tt
  end s
  = (EagleJS.push e (map VNode (option_list o)) ;; ret tt) s.
Proof.
  intros He. destruct o; [done |]. simpl. by rewrite (push_nothing e acc).
Qed.

Lemma walks_node (v : Variant) (w : Walk) (ns : list Node) (item : Value) :
  walks v w ns item = true -> exists r, item = VNode r.
Proof.
  destruct item as [| | | | | r | |]; [| | | | | by exists r | |];
    destruct v, w; simpl; unfold EagleJS.isParentNode, EagleJS.isElement,
      EagleJS.isNode; simpl; rewrite ?andb_false_r; discriminate.
Qed.

(** A walk is a new array, the loop of its turns, and the return of the
    array. *)
Lemma walk_loop (v : Variant) `{Engines} (w : Walk) (this : loc)
    (st : State) :
  walk v w this st
  = (let! elements := EagleJS.new_empty in
     let! items := EagleJS.get_array this in
     forEach (walk_step v w elements) items ;; ret elements) st.
Proof.
  destruct w; try reflexivity. destruct v; [reflexivity |].
  simpl. unfold EagleJS.find, bind, EagleJS.new_empty, EagleJS.new_array,
    EagleJS.get_array. simpl.
  destruct ((arrays st ++ [[]]) !! this); [| done].
  match goal with
  | |- context [forEach ?f ?l ?s] =>
      change (forEach f l s)
        with (forEach (walk_step Legacy (WFind selectors) (length (arrays st)))
                l s)
  end.
  by destruct (forEach _ _ _) as [[[] | ex] s2].
Qed.

Lemma walk_step_collects (v : Variant) `{Engines} (w : Walk) (ns : list Node)
    (e : loc) :
  (forall s, walk_selector w = Some s -> selector_valid s = true) ->
  forall item s acc,
    EagleJS.isDOMItem item = true -> nodes s = ns ->
    arrays s !! e = Some acc ->
    exists acc',
      walk_step v w e item s
      = (Ok tt, with_arrays (fun h => <[e := acc']> h) s)
      /\ forall x,
           x ∈ acc' <->
           x ∈ acc
           \/ exists c, x = VNode c
                /\ (walks v w ns item = true /\ c ∈ reached_from w ns item).
Proof.
  intros Hvalid.
  assert (Hcap : forall k legacy item s,
            EagleJS.isDOMItem item = true -> nodes s = ns ->
            EagleJS.capable v k legacy item s
            = (Ok (eligible v k legacy ns item), s)).
  { intros k legacy item s Hitem <-. by apply capable_live. }
  assert (Hprobe : forall k item s,
            EagleJS.isDOMItem item = true -> nodes s = ns ->
            has_property k item s = (Ok (probe k ns item), s)).
  { intros k item s Hitem <-. by apply has_property_live. }
  destruct w as [| | | | | sel | sel].
  - apply (collect_step e ns _ (walks v WChildren ns) _
             (reached_from WChildren ns)); [by apply Hcap |].
    intros item s acc Hok Hn He.
    destruct (walks_node _ _ _ _ Hok) as [r ->]. by rewrite <- Hn.
  - apply (collect_step e ns _ (walks v WParent ns) _
             (reached_from WParent ns)); [by apply Hcap |].
    intros item s acc Hok Hn He.
    destruct (walks_node _ _ _ _ Hok) as [r ->]. rewrite <- Hn.
    apply (push_option e acc (parent_of (nodes s) r) s He).
  - apply (collect_step e ns _ (walks v WNext ns) _
             (reached_from WNext ns)); [by apply Hprobe |].
    intros item s acc Hok Hn He.
    destruct (walks_node _ _ _ _ Hok) as [r ->]. rewrite <- Hn.
    apply (push_option e acc (nextElementSibling (nodes s) r) s He).
  - apply (collect_step e ns _ (walks v WPrev ns) _
             (reached_from WPrev ns)); [by apply Hprobe |].
    intros item s acc Hok Hn He.
    destruct (walks_node _ _ _ _ Hok) as [r ->]. rewrite <- Hn.
    apply (push_option e acc (previousElementSibling (nodes s) r) s He).
  - apply (collect_step e ns _ (walks v WContents ns) _
             (reached_from WContents ns)); [by apply Hcap |].
    intros item s acc Hok Hn He.
    destruct (walks_node _ _ _ _ Hok) as [r ->]. by rewrite <- Hn.
  - apply (collect_step e ns _ (walks v (WClosest sel) ns) _
             (reached_from (WClosest sel) ns)); [by apply Hcap |].
    intros item s acc Hok Hn He.
    destruct (walks_node _ _ _ _ Hok) as [r ->]. rewrite <- Hn.
    cbn [EagleJS.as_node]. unfold bind at 1, ret at 1.
    unfold bind at 1, Dom.closest. rewrite (Hvalid sel eq_refl).
    apply (push_option e acc _ s He).
  - apply (collect_step e ns _ (walks v (WFind sel) ns) _
             (reached_from (WFind sel) ns)); [by apply Hcap |].
    intros item s acc Hok Hn He.
    destruct (walks_node _ _ _ _ Hok) as [r ->]. rewrite <- Hn.
    cbn [EagleJS.as_node]. unfold bind at 1, ret at 1.
    unfold bind at 1, Dom.querySelectorAll. by rewrite (Hvalid sel eq_refl).
Qed.

Lemma is_element_isElement (ns : list Node) (c : ref) :
  is_element ns c = true -> EagleJS.isElement ns (VNode c) = true.
Proof.
  unfold is_element, EagleJS.isElement, EagleJS.isNode. simpl.
  intros Hc. apply Z.eqb_eq in Hc. by rewrite Hc.
Qed.

Lemma elem_of_option_list_head {A} (l : list A) (c : A) :
  c ∈ option_list (head l) -> c ∈ l.
Proof.
  destruct l as [| x l]; simpl; [by intros Hc; apply elem_of_nil in Hc |].
  intros Hc. apply list_elem_of_singleton in Hc as ->. by left.
Qed.

Lemma elem_of_option_list_last {A} (l : list A) (c : A) :
  c ∈ option_list (last l) -> c ∈ l.
Proof.
  intros Hc. destruct (last l) as [x |] eqn:Hl; simpl in Hc;
    [| by apply elem_of_nil in Hc].
  apply list_elem_of_singleton in Hc as ->.
  apply last_Some in Hl as [l' ->]. apply elem_of_app. right. by left.
Qed.

(** What a walk other than [parent] and [contents] reaches is an
    element. *)
Lemma reached_element `{Engines} (w : Walk) (ns : list Node) (r c : ref) :
  w <> WParent -> w <> WContents ->
  c ∈ reached w ns r -> is_element ns c = true.
Proof.
  intros Hp Hc Hin.
  assert (Hfilter : forall l, c ∈ List.filter (is_element ns) l ->
            is_element ns c = true).
  { intros l Hl. apply list_elem_of_In, filter_In in Hl. apply Hl. }
  destruct w as [| | | | | sel | sel]; simpl in Hin; try done.
  - by apply (Hfilter (children_of ns r)).
  - unfold nextElementSibling in Hin.
    destruct (parent_of ns r) as [p |]; [| by apply elem_of_nil in Hin].
    apply elem_of_option_list_head in Hin. by apply Hfilter in Hin.
  - unfold previousElementSibling in Hin.
    destruct (parent_of ns r) as [p |]; [| by apply elem_of_nil in Hin].
    apply elem_of_option_list_last in Hin. by apply Hfilter in Hin.
  - destruct (List.find _ _) as [a |] eqn:Hf; simpl in Hin;
      [| by apply elem_of_nil in Hin].
    apply list_elem_of_singleton in Hin as ->.
    apply find_some in Hf as [_ Hf]. by apply andb_true_iff in Hf as [Hf _].
  - apply list_elem_of_In, filter_In in Hin as [_ Hf].
    by apply andb_true_iff in Hf as [Hf _].
Qed.

Lemma live_items (ns : list Node) (items : list Value) :
  Forall (live ns) items -> Forall (fun x => EagleJS.isDOMItem x = true) items.
Proof. intros Hlive. eapply Forall_impl; [exact Hlive |]. by intros x [Hx _]. Qed.

(** What a walk returns, on a collection of items. *)
Lemma walk_spec (v : Variant) `{Engines} (w : Walk) (this : loc)
    (items : list Value) (st : State) :
  arrays st !! this = Some items ->
  Forall (fun x => EagleJS.isDOMItem x = true) items ->
  (forall s, walk_selector w = Some s -> selector_valid s = true) ->
  exists a,
    walk v w this st
    = (Ok (length (arrays st)), with_arrays (fun h => h ++ [a]) st)
    /\ forall x,
         x ∈ a <->
         exists r c,
           x = VNode c /\ VNode r ∈ items
           /\ walks v w (nodes st) (VNode r) = true
           /\ c ∈ reached w (nodes st) r.
Proof.
  intros Hthis Hitems Hvalid. rewrite walk_loop.
  destruct (collect_new (walk_step v w)
              (fun item c => walks v w (nodes st) item = true
                             /\ c ∈ reached_from w (nodes st) item)
              this items st Hthis Hitems) as (a & Hrun & Ha).
  { intros e. by apply walk_step_collects. }
  exists a. split; [done |]. intros x. rewrite Ha. split.
  - intros (item & c & -> & Hin & Hok & Hc).
    destruct (walks_node _ _ _ _ Hok) as [r ->]. by exists r, c.
  - intros (r & c & -> & Hin & Hok & Hc). by exists (VNode r), c.
Qed.

(** X19.  A walk, in both sources, on a collection of items, with a valid
    selector if it takes one: it never throws, it changes nothing, and the
    new collection it returns holds exactly the nodes that the walk reaches
    from the members that pass its capability check.  But for [parent] and
    [contents], they are elements. *)
Theorem walk_collects (v : Variant) `{Engines} (w : Walk) (this : loc)
    (items : list Value) (st : State) :
  arrays st !! this = Some items ->
  Forall (live (nodes st)) items ->
  (forall s, walk_selector w = Some s -> selector_valid s = true) ->
  exists a,
    walk v w this st
    = (Ok (length (arrays st)), with_arrays (fun h => h ++ [a]) st)
    /\ (forall x,
          x ∈ a <->
          exists r c,
            x = VNode c /\ VNode r ∈ items
            /\ walks v w (nodes st) (VNode r) = true
            /\ c ∈ reached w (nodes st) r)
    /\ (w <> WParent -> w <> WContents ->
        forall x, x ∈ a -> EagleJS.isElement (nodes st) x = true).
Proof.
  intros Hthis Hlive Hvalid.
  destruct (walk_spec v w this items st Hthis (live_items _ _ Hlive) Hvalid)
    as (a & Hrun & Hset).
  exists a. split; [done |]. split; [done |]. intros Hp Hc x Hx.
  apply Hset in Hx as (r & c & -> & _ & _ & Hin).
  apply is_element_isElement. by apply (reached_element w _ r).
Qed.

(** The descendants of the [body] of the page that match [p]. *)
Lemma walk_collects_witness :
  exists a,
    walk (H := Demo.engines) Legacy (WFind "p") 2
      (with_arrays (fun h => h ++ [[VNode 2; VNode 6]]) Demo.page)
    = (Ok 3,
       with_arrays (fun h => h ++ [a])
         (with_arrays (fun h => h ++ [[VNode 2; VNode 6]]) Demo.page))
    /\ (forall x,
          x ∈ a <->
          exists r c,
            x = VNode c /\ VNode r ∈ [VNode 2; VNode 6]
            /\ walks Legacy (WFind "p") (nodes Demo.page) (VNode r) = true
            /\ c ∈ reached (H := Demo.engines) (WFind "p") (nodes Demo.page) r)
    /\ (WFind "p" <> WParent -> WFind "p" <> WContents ->
        forall x, x ∈ a -> EagleJS.isElement (nodes Demo.page) x = true).
Proof.
  apply (walk_collects (H := Demo.engines) Legacy (WFind "p") 2
           [VNode 2; VNode 6]
           (with_arrays (fun h => h ++ [[VNode 2; VNode 6]]) Demo.page)).
  - reflexivity.
  - repeat (constructor;
              [split; [reflexivity | intros r [= <-]; simpl; lia] |]).
    constructor.
  - intros s [= <-]. reflexivity.
Defined.

(** ** siblings and querySelector in the typed source *)

(** The inner loop of [siblings]: the element children of the parent but
    the member itself. *)
Lemma siblings_inner (e : loc) (item : Value) (cs : list ref) :
  forall s acc,
    arrays s !! e = Some acc ->
    exists acc',
      forEach (fun child =>
        if negb (strict_eq (VNode child) item)
        then EagleJS.push e [VNode child] ;; ret tt
        else ret tt) cs s
      = (Ok tt, with_arrays (fun h => <[e := acc']> h) s)
      /\ forall x,
           x ∈ acc' <->
           x ∈ acc \/ exists c, x = VNode c /\ c ∈ cs /\ VNode c <> item.
Proof.
  induction cs as [| child cs IH]; intros s acc He.
  - exists acc. rewrite with_arrays_insert_id by done. split; [done |].
    intros x. split; [by left |]. intros [Hx | (c & _ & Hc & _)]; [done |].
    by apply elem_of_nil in Hc.
  - cbn [forEach]. unfold bind at 1.
    destruct (strict_eq (VNode child) item) eqn:Heq; unfold strict_eq in Heq;
      [apply bool_decide_eq_true in Heq | apply bool_decide_eq_false in Heq].
    + cbn [negb]. unfold ret at 1.
      destruct (IH s acc He) as (acc' & Hrun & Hacc). exists acc'.
      split; [done |]. intros x. rewrite Hacc. split.
      * intros [Hx | (c & -> & Hc & Hn)]; [by left |].
        right. exists c. repeat split; try done. by right.
      * intros [Hx | (c & -> & Hc & Hn)]; [by left |].
        apply elem_of_cons in Hc as [-> | Hc]; [done |]. right. by exists c.
    + cbn [negb].
      destruct (push_nodes_elem e acc [child] s He) as (acc1 & Hpush & Hacc1).
      unfold bind at 1. simpl in Hpush. rewrite Hpush. unfold ret at 1.
      destruct (IH (with_arrays (fun h => <[e := acc1]> h) s) acc1)
        as (acc2 & Hrun & Hacc2).
      { simpl. apply list_lookup_insert_eq. by apply lookup_lt_Some in He. }
      exists acc2. rewrite Hrun, with_arrays_insert_insert. split; [done |].
      intros x. rewrite Hacc2, Hacc1. split.
      * intros [[Hx | (c & -> & Hc)] | (c & -> & Hc & Hn)].
        -- by left.
        -- apply list_elem_of_singleton in Hc as ->. right. exists child.
           repeat split; try done. by left.
        -- right. exists c. repeat split; try done. by right.
      * intros [Hx | (c & -> & Hc & Hn)]; [by left; left |].
        apply elem_of_cons in Hc as [-> | Hc].
        -- left. right. exists child. split; [done | by left].
        -- right. by exists c.
Qed.

(** What [siblings] of the typed source returns, on a collection of
    items. *)
Lemma siblings_typed_spec `{Engines} (this : loc) (items : list Value)
    (st : State) :
  arrays st !! this = Some items ->
  Forall (fun x => EagleJS.isDOMItem x = true) items ->
  let ns := nodes st in
  exists a,
    EagleJS.siblings_typed this (ArgValue VNull) st
    = (Ok (length (arrays st)), with_arrays (fun h => h ++ [a]) st)
    /\ forall x,
         x ∈ a <->
         exists r p c,
           x = VNode c /\ VNode r ∈ items /\ parent_of ns r = Some p
           /\ c ∈ element_children ns p /\ c <> r.
Proof.
  intros Hthis Hitems ns.
  destruct (collect_new
              (fun e item =>
                 let! ok := has_property K_parentNode item in
                 if ok then
                   let! st := get in
                   match EagleJS.item_parent (nodes st) item with
                   | Some p =>
                       forEach (fun child =>
                         if negb (strict_eq (VNode child) item)
                         then EagleJS.push e [VNode child] ;; ret tt
                         else ret tt) (element_children (nodes st) p)
                   | None => ret tt
                   end
                 else ret tt)
              (fun item c =>
                 exists p, EagleJS.item_parent ns item = Some p
                           /\ c ∈ element_children ns p /\ VNode c <> item)
              this items st Hthis Hitems) as (a & Hrun & Ha).
  { intros e item s acc Hitem Hn He. unfold bind at 1.
    rewrite has_property_live by done. rewrite Hn. fold ns.
    assert (Hnone : EagleJS.item_parent ns item = None ->
              exists acc',
                (Ok tt, s) = (Ok tt, with_arrays (fun h => <[e := acc']> h) s)
                /\ forall x,
                     x ∈ acc' <->
                     x ∈ acc
                     \/ exists c, x = VNode c
                          /\ exists p, EagleJS.item_parent ns item = Some p
                               /\ c ∈ element_children ns p
                               /\ VNode c <> item).
    { intros Hp. exists acc. rewrite with_arrays_insert_id by done.
      split; [done |]. intros x. split; [by left |].
      intros [Hx | (c & _ & p & Hsome & _)]; [done | congruence]. }
    destruct (probe K_parentNode ns item) eqn:Hok.
    - unfold bind, get. rewrite Hn. fold ns.
      destruct (EagleJS.item_parent ns item) as [p |] eqn:Hp;
        [| by apply Hnone].
      destruct (siblings_inner e item (element_children ns p) s acc He)
        as (acc' & Hloop & Hacc).
      exists acc'. split; [done |]. intros x. rewrite Hacc. split.
      + intros [Hx | (c & -> & Hc & Hne)]; [by left |].
        right. exists c. split; [done |]. by exists p.
      + intros [Hx | (c & -> & p' & [= <-] & Hc & Hne)]; [by left |].
        right. by exists c.
    - apply Hnone. destruct item as [| | | | | r | |]; try done.
      simpl in *. unfold parent_of. by destruct (ns !! r). }
  exists a. split; [exact Hrun |].
  assert (Hset : forall x,
            x ∈ a <->
            exists r p c,
              x = VNode c /\ VNode r ∈ items /\ parent_of ns r = Some p
              /\ c ∈ element_children ns p /\ c <> r).
  { intros x. rewrite Ha. split.
    - intros (item & c & -> & Hin & p & Hp & Hc & Hne).
      destruct item as [| | | | | r | |]; try done.
      exists r, p, c. repeat split; try done. congruence.
    - intros (r & p & c & -> & Hin & Hp & Hc & Hne).
      exists (VNode r), c. repeat split; try done.
      exists p. repeat split; try done. congruence. }
  exact Hset.
Qed.

(** X20.  [siblings] and [querySelector] of the typed source, on a collection of
    items: they never throw (the selector being valid), they change
    nothing, and the new collection they return holds, for [siblings],
    exactly the element children of the parents of the members, but for a
    member that never counts as its own sibling; for [querySelector],
    exactly the first match of each member that is a parent node.  All are
    elements. *)
Theorem typed_queries_collect `{Engines} (this : loc) (items : list Value)
    (st : State) :
  arrays st !! this = Some items ->
  Forall (live (nodes st)) items ->
  let ns := nodes st in
  (exists a,
     EagleJS.siblings_typed this (ArgValue VNull) st
     = (Ok (length (arrays st)), with_arrays (fun h => h ++ [a]) st)
     /\ (forall x,
           x ∈ a <->
           exists r p c,
             x = VNode c /\ VNode r ∈ items /\ parent_of ns r = Some p
             /\ c ∈ element_children ns p /\ c <> r)
     /\ forall x, x ∈ a -> EagleJS.isElement ns x = true)
  /\ forall selectors,
       selector_valid selectors = true ->
       exists a,
         EagleJS.querySelector this selectors st
         = (Ok (length (arrays st)), with_arrays (fun h => h ++ [a]) st)
         /\ (forall x,
               x ∈ a <->
               exists r c,
                 x = VNode c /\ VNode r ∈ items
                 /\ probe K_querySelector ns (VNode r) = true
                 /\ head (reached (WFind selectors) ns r) = Some c)
         /\ forall x, x ∈ a -> EagleJS.isElement ns x = true.
Proof.
  intros Hthis Hlive ns. split.
  - destruct (siblings_typed_spec this items st Hthis (live_items _ _ Hlive))
      as (a & Hrun & Hset).
    exists a. split; [exact Hrun |].
    split; [done |]. intros x Hx.
    apply Hset in Hx as (r & p & c & -> & _ & _ & Hc & _).
    apply is_element_isElement.
    apply list_elem_of_In, filter_In in Hc. apply Hc.
  - intros selectors Hvalid.
    destruct (collect_new
                (fun e item =>
                   let! ok := has_property K_querySelector item in
                   if ok then
                     let! r := EagleJS.as_node item in
                     let! result := Dom.querySelector r selectors in
                     match result with
                     | Some c => EagleJS.push e [VNode c] ;; ret tt
                     | None => ret tt
                     end
                   else ret tt)
                (fun item c =>
                   probe K_querySelector ns item = true
                   /\ c ∈ option_list
                          (head (reached_from (WFind selectors) ns item)))
                this items st Hthis (live_items _ _ Hlive)) as (a & Hrun & Ha).
    { intros e. apply (collect_step e ns).
      - intros item s Hitem <-. by apply has_property_live.
      - intros item s acc Hok Hn He.
        destruct item as [| | | | | r | |]; try done.
        cbn [EagleJS.as_node reached_from]. unfold bind at 1, ret at 1.
        unfold bind at 1, Dom.querySelector, bind at 1, Dom.querySelectorAll.
        rewrite Hvalid, Hn. unfold ret at 1.
        apply (push_option e acc _ s He). }
    exists a. split; [exact Hrun |].
    assert (Hset : forall x,
              x ∈ a <->
              exists r c,
                x = VNode c /\ VNode r ∈ items
                /\ probe K_querySelector ns (VNode r) = true
                /\ head (reached (WFind selectors) ns r) = Some c).
    { intros x. rewrite Ha. split.
      - intros (item & c & -> & Hin & Hok & Hc).
        destruct item as [| | | | | r | |]; try done.
        exists r, c. repeat split; try done. cbn [reached_from] in Hc.
        destruct (head _) as [c' |]; simpl in Hc;
          [| by apply elem_of_nil in Hc].
        by apply list_elem_of_singleton in Hc as ->.
      - intros (r & c & -> & Hin & Hok & Hc).
        exists (VNode r), c. repeat split; try done. cbn [reached_from].
        rewrite Hc. by left. }
    split; [done |]. intros x Hx.
    apply Hset in Hx as (r & c & -> & _ & _ & Hc).
    apply is_element_isElement.
    apply (reached_element (WFind selectors) ns r); [done | done |].
    apply elem_of_option_list_head. rewrite Hc. by left.
Qed.

(** The [div] and the [span] of the page: the siblings are the three
    element children of the [body]. *)
Lemma typed_queries_collect_witness :
  exists a,
    EagleJS.siblings_typed (H := Demo.engines) 0 (ArgValue VNull) Demo.page
    = (Ok 2, with_arrays (fun h => h ++ [a]) Demo.page)
    /\ (forall x,
          x ∈ a <->
          exists r p c,
            x = VNode c /\ VNode r ∈ [VNode 3; VNode 4]
            /\ parent_of (nodes Demo.page) r = Some p
            /\ c ∈ element_children (nodes Demo.page) p /\ c <> r)
    /\ forall x, x ∈ a -> EagleJS.isElement (nodes Demo.page) x = true.
Proof.
  apply (typed_queries_collect (H := Demo.engines) 0 [VNode 3; VNode 4]
           Demo.page).
  - reflexivity.
  - repeat (constructor;
              [split; [reflexivity | intros r [= <-]; simpl; lia] |]).
    constructor.
Defined.

(** ** concat *)

Lemma spread_all_values (items : list EagleJS.Spread) (extra : list (list Value))
    (s : State) (h : list (list Value)) :
  arrays s = h ++ extra ->
  Forall (spread_allocated h) items ->
  EagleJS.spread_all items s = (Ok (flat_map (spread_values h) items), s).
Proof.
  intros Hs Hall. induction items as [| x items IH]; [done |].
  apply Forall_cons in Hall as [Hx Hall]. cbn [EagleJS.spread_all flat_map].
  unfold bind at 1.
  assert (Hspread : EagleJS.spread x s = (Ok (spread_values h x), s)).
  { destruct x as [w | l | c]; try done. simpl in *.
    destruct (lookup_lt_is_Some_2 h c Hx) as [a Ha].
    unfold EagleJS.get_array. rewrite Hs, lookup_app_l by done.
    by rewrite Ha. }
  rewrite Hspread. unfold bind. by rewrite IH.
Qed.

Lemma constructor_array `{Engines} (v : Variant) (l : list Value)
    (context : Arg) (st : State) :
  EagleJS.constructor v (ArgArray l) context st
  = (let! this := EagleJS.new_array in EagleJS.push this l ;; ret this) st.
Proof.
  unfold EagleJS.constructor.
  destruct v; simpl; by rewrite bind_context_or_default.
Qed.

(** X21.  [concat], in both sources, on collections that exist: it never throws,
    and the new collection it returns holds the items among the members of
    the receiver followed by the arguments, arrays and collections being
    spread, in that order.  Unlike [push], it keeps an item that occurs
    more than once.  The receiver and the arguments are unchanged; one
    more collection is created on the way, which holds the same values
    before they are filtered. *)
Theorem concat_keeps_duplicates `{Engines} (v : Variant) (this : loc)
    (items : list EagleJS.Spread) (a : list Value) (st : State) :
  arrays st !! this = Some a ->
  Forall (spread_allocated (arrays st)) items ->
  let merged := a ++ flat_map (spread_values (arrays st)) items in
  EagleJS.concat v this items st
  = (Ok (S (length (arrays st))),
     with_arrays
       (fun h => h ++ [merged; List.filter EagleJS.isDOMItem merged]) st).
Proof.
  intros Hthis Hall merged. unfold EagleJS.concat. unfold bind at 1.
  rewrite new_array_spec.
  set (s1 := with_arrays (fun h => h ++ [[]]) st).
  rewrite (get_array_bind this a s1)
    by (simpl; rewrite lookup_app_l; [done | by apply lookup_lt_Some in Hthis]).
  unfold bind at 1.
  rewrite (spread_all_values items [[]] s1 (arrays st)) by done.
  fold merged. unfold bind at 1, EagleJS.set_array, modify.
  unfold bind at 1, EagleJS.default_context, bind at 1, get, ret.
  rewrite constructor_array, push_new. simpl.
  rewrite length_insert, length_app. simpl. f_equal; [f_equal; lia |].
  destruct st as [ns h d ls ts cs]. unfold with_arrays. simpl. f_equal.
  rewrite insert_app_r_alt by done. rewrite Nat.sub_diag. simpl.
  by rewrite <- app_assoc.
Qed.

(** The collection of the page, concatenated with itself and a number. *)
Lemma concat_keeps_duplicates_witness :
  EagleJS.concat (H := Demo.engines) Typed 0
    [EagleJS.SCollection 0; EagleJS.SValue (VNum 7)] Demo.page
  = (Ok 3,
     with_arrays
       (fun h => h ++ [[VNode 3; VNode 4; VNode 3; VNode 4; VNum 7];
                       [VNode 3; VNode 4; VNode 3; VNode 4]]) Demo.page).
Proof.
  apply (concat_keeps_duplicates (H := Demo.engines) Typed 0
           [EagleJS.SCollection 0; EagleJS.SValue (VNum 7)]
           [VNode 3; VNode 4] Demo.page).
  - reflexivity.
  - repeat constructor.
Defined.

(** ** text: what is written is read *)

Lemma append_empty (s : string) : s +:+ "" = s.
Proof.
  induction s as [| c s IH]; [done |].
  change (String c (s +:+ "") = String c s). by rewrite IH.
Qed.

Lemma snapshot_childless (fuel : nat) (ns : list Node) (r : ref) :
  children_of ns r = [] -> snapshot fuel ns r = Tpl (shape_of ns r) [].
Proof. intros Hr. destruct fuel; simpl; [done | by rewrite Hr]. Qed.

(** Reading back what the assignment has left. *)
Lemma holds_text_read (value : string) (n0 : nat) (ns : list Node) (r : ref) :
  holds_text value n0 ns r ->
  textContent ns r = if has_text (type_of ns r) then Some value else None.
Proof.
  unfold holds_text, textContent, has_text.
  destruct (Zincludes [1; 11]%Z (type_of ns r)) eqn:Hparent.
  - assert (Hhas : Zincludes [1; 3; 4; 7; 8; 11]%Z (type_of ns r) = true).
    { unfold Zincludes in *. simpl in *.
      destruct (type_of ns r =? 1)%Z; [done |].
      destruct (type_of ns r =? 11)%Z; [| done]. by rewrite !orb_true_r. }
    assert (Hown : Zincludes [3; 4]%Z (nodeType (shape_of ns r)) = false).
    { fold (type_of ns r). unfold Zincludes in *. simpl in *.
      destruct (Z.eqb_spec (type_of ns r) 1) as [-> | _]; [done |].
      destruct (Z.eqb_spec (type_of ns r) 11) as [-> | _]; [done |].
      discriminate. }
    assert (Hfuel : exists f, length ns = S f).
    { destruct ns as [| n ns']; [| by eexists].
      unfold type_of, shape_of in Hparent. by rewrite lookup_nil in Hparent. }
    destruct Hfuel as [f Hf]. rewrite Hhas, Hf.
    intros [[-> Hkids] | (c & _ & Hkids & Hshape & Hleaf)]; f_equal.
    + rewrite snapshot_childless by done. cbn [descendant_text].
      by rewrite Hown.
    + cbn [snapshot]. rewrite Hkids. cbn [map descendant_text].
      rewrite Hown, (snapshot_childless f ns c) by done. rewrite Hshape.
      cbn [descendant_text text_shape nodeType nodeData].
      change (Zincludes [3; 4]%Z TEXT_NODE) with true. cbv iota.
      by rewrite !append_empty.
  - destruct (Zincludes [3; 4; 7; 8]%Z (type_of ns r)) eqn:Hdata.
    + assert (Hhas : Zincludes [1; 3; 4; 7; 8; 11]%Z (type_of ns r) = true).
      { unfold Zincludes in *. simpl in *.
        destruct (type_of ns r =? 3)%Z; [by rewrite ?orb_true_r |].
        destruct (type_of ns r =? 4)%Z; [by rewrite ?orb_true_r |].
        destruct (type_of ns r =? 7)%Z; [by rewrite ?orb_true_r |].
        destruct (type_of ns r =? 8)%Z; [by rewrite ?orb_true_r | done]. }
      rewrite Hhas. by intros ->.
    + assert (Hhas : Zincludes [1; 3; 4; 7; 8; 11]%Z (type_of ns r) = false).
      { unfold Zincludes in *. simpl in *.
        destruct (type_of ns r =? 1)%Z; [done |].
        destruct (type_of ns r =? 3)%Z; [done |].
        destruct (type_of ns r =? 4)%Z; [done |].
        destruct (type_of ns r =? 7)%Z; [done |].
        destruct (type_of ns r =? 8)%Z; [done |].
        by destruct (type_of ns r =? 11)%Z. }
      by rewrite Hhas.
Qed.

Lemma filter_remove_ref (c : ref) (cs l : list ref) :
  List.filter (fun x => negb (bool_decide (x ∈ cs))) (remove_ref c l)
  = List.filter (fun x => negb (bool_decide (x ∈ c :: cs))) l.
Proof.
  unfold remove_ref. induction l as [| x l IHl]; [done |].
  cbn [List.filter].
  destruct (decide (x = c)) as [-> | Hne].
  - rewrite (bool_decide_eq_true_2 (c = c)) by done.
    rewrite (bool_decide_eq_true_2 (c ∈ c :: cs)) by by left.
    cbn [negb]. exact IHl.
  - rewrite (bool_decide_eq_false_2 (x = c)) by done. cbn [negb].
    cbn [List.filter].
    destruct (decide (x ∈ cs)) as [Hin | Hout].
    + rewrite (bool_decide_eq_true_2 (x ∈ cs)) by done.
      rewrite (bool_decide_eq_true_2 (x ∈ c :: cs)) by by right.
      cbn [negb]. exact IHl.
    + rewrite (bool_decide_eq_false_2 (x ∈ cs)) by done.
      rewrite (bool_decide_eq_false_2 (x ∈ c :: cs)).
      * cbn [negb]. by rewrite IHl.
      * intros Hin. apply elem_of_cons in Hin as [-> | Hin]; done.
Qed.

(** Detaching the children of [r], one after the other. *)
Lemma fold_detach_emptied (r : ref) (cs : list ref) :
  forall ns,
    linked ns ->
    (forall c, c ∈ cs -> c ∈ children_of ns r \/ parent_of ns c = None) ->
    let ns' := fold_left (fun acc c => detach c acc) cs ns in
    length ns' = length ns
    /\ (forall x, shape_of ns' x = shape_of ns x)
    /\ children_of ns' r
       = List.filter (fun x => negb (bool_decide (x ∈ cs))) (children_of ns r)
    /\ (forall q, q <> r -> children_of ns' q = children_of ns q)
    /\ linked ns'.
Proof.
  induction cs as [| c cs IH]; intros ns Hl Hcs; cbn [fold_left]; cbv zeta.
  - repeat split; try done. symmetry. apply filter_nothing_to_drop.
    by intros x _.
  - assert (Hdetach : children_of (detach c ns) r = remove_ref c (children_of ns r)
                      /\ forall q, q <> r ->
                           children_of (detach c ns) q = children_of ns q).
    { destruct (Hcs c) as [Hin | Hnone]; [by left | |].
      - pose proof (Hl r c Hin) as Hp. split.
        + by rewrite children_of_detach, bool_decide_eq_true_2.
        + intros q Hq. rewrite children_of_detach, bool_decide_eq_false_2;
            [done | congruence].
      - unfold detach. rewrite Hnone. split; [| done].
        symmetry. apply remove_ref_absent. intros Hin.
        apply Hl in Hin. congruence. }
    destruct Hdetach as [Hr Hother].
    destruct (IH (detach c ns)) as (Hlen & Hshape & Hkids & Hq & Hl').
    { by apply linked_detach. }
    { intros x Hx. destruct (decide (x = c)) as [-> | Hne].
      - right. apply parent_of_detach.
      - destruct (Hcs x) as [Hin | Hnone]; [by right | |].
        + left. rewrite Hr. by apply elem_of_remove_ref.
        + right. by rewrite parent_of_detach_other. }
    repeat split; try done.
    + by rewrite Hlen, length_detach.
    + intros x. by rewrite Hshape, shape_of_detach.
    + rewrite Hkids, Hr. apply filter_remove_ref.
    + intros q Hne. by rewrite Hq, Hother.
Qed.

Lemma remove_children_emptied (r : ref) (ns : list Node) :
  linked ns ->
  length (remove_children r ns) = length ns
  /\ (forall x, shape_of (remove_children r ns) x = shape_of ns x)
  /\ children_of (remove_children r ns) r = []
  /\ (forall q, q <> r ->
        children_of (remove_children r ns) q = children_of ns q)
  /\ linked (remove_children r ns).
Proof.
  intros Hl.
  destruct (fold_detach_emptied r (children_of ns r) ns Hl)
    as (Hlen & Hshape & Hkids & Hq & Hl'); [by left |].
  unfold remove_children. repeat split; try done.
  rewrite Hkids. apply filter_all_dropped. intros x Hx.
  by rewrite bool_decide_eq_true_2.
Qed.

(** One assignment [node.textContent = value], in a tree whose children
    point to their parents: the node holds the text, and the shapes and the
    children of the other nodes are as they were. *)
Lemma set_textContent_holds (value : string) (n0 : nat) (r : ref)
    (s : State) :
  linked (nodes s) -> r < n0 -> n0 <= length (nodes s) ->
  exists ns',
    set_textContent r value s = (Ok tt, with_nodes (fun _ => ns') s)
    /\ linked ns'
    /\ length (nodes s) <= length ns'
    /\ (forall x, x < length (nodes s) ->
          type_of ns' x = type_of (nodes s) x)
    /\ holds_text value n0 ns' r
    /\ (forall x, x <> r -> x < length (nodes s) ->
          shape_of ns' x = shape_of (nodes s) x
          /\ children_of ns' x = children_of (nodes s) x).
Proof.
  intros Hl Hr Hn0. unfold set_textContent, bind at 1, get at 1.
  set (ns := nodes s) in *.
  destruct (Zincludes [1; 11]%Z (type_of ns r)) eqn:Hparent.
  - destruct (remove_children_emptied r ns Hl)
      as (Hlen1 & Hshape1 & Hnone1 & Hother1 & Hl1).
    set (ns1 := remove_children r ns) in *.
    unfold bind at 1, modify at 1.
    destruct (bool_decide (value = "")) eqn:Hvalue.
    + apply bool_decide_eq_true in Hvalue. exists ns1. unfold ret.
      split; [by destruct s |]. split; [done |]. split; [lia |].
      split; [intros x _; unfold type_of; by rewrite Hshape1 |].
      split.
      * unfold holds_text, type_of. rewrite Hshape1. fold (type_of ns r).
        rewrite Hparent. by left.
      * intros x Hx _. split; [apply Hshape1 | by apply Hother1].
    + apply bool_decide_eq_false in Hvalue.
      unfold bind at 1, createTextNode, modify. cbn [nodes with_nodes].
      set (leaf := mkNode (text_shape value) None [] "").
      set (c := length ns1).
      set (ns2 := ns1 ++ [leaf]).
      set (ns3 := attach r None c ns2).
      assert (Hc : c = length ns) by done.
      assert (Hlen2 : length ns2 = S (length ns)).
      { unfold ns2. rewrite length_app. simpl. lia. }
      exists ns3. split; [by destruct s |].
      assert (Hshape3 : forall x, x < length ns ->
                shape_of ns3 x = shape_of ns x).
      { intros x Hx. unfold ns3. rewrite shape_of_attach. unfold ns2.
        rewrite shape_of_leaf by lia. apply Hshape1. }
      split; [| split; [| split; [| split]]].
      * apply linked_attach; [by apply linked_leaf | | lia | lia].
        unfold ns2, leaf. rewrite parent_of_leaf. unfold parent_of.
        by rewrite lookup_ge_None_2.
      * unfold ns3. rewrite length_attach. lia.
      * intros x Hx. unfold type_of. by rewrite Hshape3.
      * unfold holds_text, type_of. rewrite Hshape3 by lia.
        fold (type_of ns r). rewrite Hparent. right. exists c.
        split; [lia |]. split; [| split].
        -- unfold ns3. rewrite children_of_attach by lia.
           unfold ns2, leaf. by rewrite children_of_leaf, Hnone1.
        -- unfold ns3. rewrite shape_of_attach. unfold ns2, shape_of, c.
           by rewrite lookup_leaf.
        -- unfold ns3. rewrite children_of_attach_other by lia.
           unfold ns2, children_of, c. by rewrite lookup_leaf.
      * intros x Hx Hlt. split; [by apply Hshape3 |].
        unfold ns3. rewrite children_of_attach_other by done.
        unfold ns2, leaf. rewrite children_of_leaf. by apply Hother1.
  - destruct (Zincludes [3; 4; 7; 8]%Z (type_of ns r)) eqn:Hdata.
    + unfold update_shape, modify.
      exists (alter (fun n => set_shape (with_nodeData value (shape n)) n) r ns).
      split; [done |].
      assert (Hkids : forall x,
                children_of
                  (alter (fun n => set_shape (with_nodeData value (shape n)) n)
                     r ns) x = children_of ns x).
      { intros x. by apply children_of_alter. }
      assert (Hpar : forall x,
                parent_of
                  (alter (fun n => set_shape (with_nodeData value (shape n)) n)
                     r ns) x = parent_of ns x).
      { intros x. by apply parent_of_alter. }
      assert (Hshape : forall x,
                shape_of
                  (alter (fun n => set_shape (with_nodeData value (shape n)) n)
                     r ns) x
                = if decide (x = r) then with_nodeData value (shape_of ns r)
                  else shape_of ns x).
      { intros x. unfold shape_of. destruct (decide (x = r)) as [-> | Hne].
        - rewrite list_lookup_alter_eq.
          destruct (lookup_lt_is_Some_2 ns r ltac:(lia)) as [n Hn].
          by rewrite Hn.
        - by rewrite list_lookup_alter_ne. }
      split; [| split; [| split; [| split]]].
      * intros p x Hx. rewrite Hkids in Hx. rewrite Hpar. by apply Hl.
      * by rewrite length_alter.
      * intros x _. unfold type_of. rewrite Hshape.
        by destruct (decide (x = r)) as [-> | _].
      * unfold holds_text, type_of. rewrite Hshape.
        rewrite decide_True by done. cbn [with_nodeData nodeType nodeData].
        fold (type_of ns r). by rewrite Hparent, Hdata.
      * intros x Hx _. rewrite Hshape, Hkids. by rewrite decide_False.
    + exists ns. unfold ret. split; [by destruct s |].
      repeat split; try done. unfold holds_text. fold ns.
      by rewrite Hparent, Hdata.
Qed.

(** A node that holds the text still does after an assignment to another
    node. *)
Lemma holds_text_kept (value : string) (n0 : nat) (ns ns' : list Node)
    (r r' : ref) :
  r < n0 -> r' < n0 -> r' <> r -> n0 <= length ns ->
  (forall x, x < length ns -> type_of ns' x = type_of ns x) ->
  (forall x, x <> r -> x < length ns ->
     shape_of ns' x = shape_of ns x /\ children_of ns' x = children_of ns x) ->
  holds_text value n0 ns r' -> holds_text value n0 ns' r'.
Proof.
  intros Hr Hr' Hne Hn0 Htype Hsame. unfold holds_text.
  rewrite Htype by lia.
  destruct (Hsame r' Hne ltac:(lia)) as [Hshape Hkids].
  rewrite Hshape, Hkids.
  destruct (Zincludes [1; 11]%Z (type_of ns r')); [| done].
  intros [Hempty | (c & Hc & Hone & Htext & Hleaf)]; [by left |].
  right. exists c.
  assert (Hlt : c < length ns).
  { destruct (decide (c < length ns)) as [Hlt | Hge]; [done |].
    unfold shape_of in Htext. rewrite lookup_ge_None_2 in Htext by lia.
    discriminate. }
  destruct (Hsame c ltac:(lia) Hlt) as [Hshape_c Hkids_c].
  by rewrite Hshape_c, Hkids_c.
Qed.

(** The loop of the setter: every node it visits holds the text in the
    end. *)
Lemma text_loop (value : string) (n0 : nat) (refs : list ref) :
  forall s done,
    linked (nodes s) -> n0 <= length (nodes s) ->
    Forall (fun r => r < n0) refs ->
    Forall (fun r => r < n0) done ->
    Forall (holds_text value n0 (nodes s)) done ->
    exists ns',
      forEach (fun r => set_textContent r value) refs s
      = (Ok tt, with_nodes (fun _ => ns') s)
      /\ kinds_kept (nodes s) ns'
      /\ (forall x, x < length (nodes s) -> type_of ns' x = type_of (nodes s) x)
      /\ Forall (holds_text value n0 ns') (done ++ refs).
Proof.
  induction refs as [| r refs IH]; intros s done Hl Hn0 Hrefs Hdone Hholds.
  - exists (nodes s). rewrite with_nodes_id, app_nil_r. split; [done |].
    split; [apply kinds_kept_refl |]. by split.
  - apply Forall_cons in Hrefs as [Hr Hrefs].
    destruct (set_textContent_holds value n0 r s Hl Hr Hn0)
      as (ns1 & Hrun & Hl1 & Hlen1 & Htype1 & Hheld & Hsame).
    pose proof (kinds_kept_set_textContent value r s) as Hk1.
    rewrite Hrun in Hk1. simpl in Hk1.
    cbn [forEach]. unfold bind. rewrite Hrun.
    destruct (IH (with_nodes (fun _ => ns1) s) (done ++ [r]))
      as (ns' & Hrest & Hk & Htype & Hall).
    + done.
    + simpl. lia.
    + done.
    + apply Forall_app. split; [done | by constructor].
    + simpl. apply Forall_app. split; [| by constructor].
      rewrite Forall_forall in *. intros r' Hin.
      destruct (decide (r' = r)) as [-> | Hne]; [done |].
      apply (holds_text_kept value n0 (nodes s) ns1 r r'); try done.
      * by apply Hdone.
      * by apply Hholds.
    + exists ns'. rewrite Hrest, with_nodes_same. split; [done |].
      split; [by eapply kinds_kept_trans |]. split.
      * intros x Hx. simpl in Htype. rewrite Htype by lia. by apply Htype1.
      * by rewrite <- app_assoc in Hall.
Qed.

Lemma eligible_refs_kinds (v : Variant) (k : PropertyKey)
    (legacy : list Node -> Value -> bool) (ns ns' : list Node)
    (items : list Value) :
  legacy_check legacy -> Forall (live ns) items -> kinds_kept ns ns' ->
  eligible_refs (eligible v k legacy ns') items
  = eligible_refs (eligible v k legacy ns) items.
Proof.
  intros Hlegacy Hlive Hk. induction items as [| x items IH]; [done |].
  apply Forall_cons in Hlive as [Hx Hlive]. simpl. rewrite IH by done.
  destruct x; try done. by rewrite (eligible_kinds v k legacy ns ns').
Qed.

(** X22.  [text(value)], then [text()], in both sources, on a collection of
    items of a tree whose children point to their parents: the value is
    read back when the first node of the collection has a text content (an
    element, a fragment, character data); [null] is read when it has none
    (a document, a doctype) or when the collection has no node.  No
    collection changes. *)
Theorem text_written_is_read (v : Variant) (this : loc) (items : list Value)
    (value : string) (st : State) :
  arrays st !! this = Some items ->
  Forall (live (nodes st)) items ->
  linked (nodes st) ->
  let refs :=
    eligible_refs (eligible v K_textContent EagleJS.isNode (nodes st)) items
  in
  exists st',
    EagleJS.text v this (Some value) st = (Ok (RetThis this), st')
    /\ arrays st' = arrays st
    /\ EagleJS.text v this None st'
       = (Ok match head refs with
             | Some r =>
                 if has_text (type_of (nodes st) r) then RetStr value
                 else RetNull
             | None => RetNull
             end, st').
Proof.
  intros Hthis Hlive Hl refs.
  assert (Hrefs : Forall (fun r => r < length (nodes st)) refs).
  { apply Forall_forall. intros r Hr.
    by apply (live_allocated (nodes st) items
                (eligible v K_textContent EagleJS.isNode (nodes st)) r Hlive). }
  destruct (text_loop value (length (nodes st)) refs st [] Hl ltac:(lia) Hrefs)
    as (ns' & Hrun & Hk & Htype & Hall); [constructor | constructor |].
  exists (with_nodes (fun _ => ns') st).
  rewrite (text_set v this items st Hthis Hlive). unfold set_all, bind.
  fold refs. rewrite Hrun. split; [done |]. split; [done |].
  assert (Hlive' : Forall (live ns') items).
  { eapply Forall_impl; [exact Hlive |]. intros x [Hx Hr]. split; [done |].
    intros r Hxr. destruct Hk as [Hlen _]. specialize (Hr r Hxr). lia. }
  rewrite (text_get v this items (with_nodes (fun _ => ns') st) Hthis Hlive').
  cbn [nodes with_nodes]. unfold get_first.
  rewrite (eligible_refs_kinds v K_textContent EagleJS.isNode (nodes st) ns')
    by (done || constructor).
  fold refs. destruct refs as [| r0 refs'] eqn:Hrefs0; [done |]. simpl.
  apply Forall_cons in Hall as [Hheld _].
  apply Forall_cons in Hrefs as [Hr0 _].
  rewrite (holds_text_read value (length (nodes st)) ns' r0 Hheld).
  rewrite Htype by done. by destruct (has_text _).
Qed.

(** The [div] and the [span] of the page. *)
Lemma text_written_is_read_witness :
  exists st',
    EagleJS.text Typed 0 (Some "x") Demo.page = (Ok (RetThis 0), st')
    /\ arrays st' = arrays Demo.page
    /\ EagleJS.text Typed 0 None st' = (Ok (RetStr "x"), st').
Proof.
  apply (text_written_is_read Typed 0 [VNode 3; VNode 4] "x" Demo.page).
  - reflexivity.
  - repeat (constructor;
              [split; [reflexivity | intros r [= <-]; simpl; lia] |]).
    constructor.
  - apply linked_check_linked. reflexivity.
Defined.

(** ** siblings in the legacy source *)

Lemma constructor_item `{Engines} (v : Variant) (item : Value)
    (context : Arg) (s : State) :
  EagleJS.isDOMItem item = true ->
  EagleJS.constructor v (ArgValue item) context s
  = (Ok (length (arrays s)), with_arrays (fun h => h ++ [[item]]) s).
Proof.
  intros Hitem.
  assert (Hpush : EagleJS.constructor v (ArgValue item) context s
                  = (let! this := EagleJS.new_array in
                     EagleJS.push this [item] ;; ret this) s).
  { unfold EagleJS.constructor.
    destruct (isDOMItem_inv _ Hitem) as [[r ->] | [t ->]]; destruct v; simpl;
      by rewrite bind_context_or_default. }
  rewrite Hpush, push_new. simpl. by rewrite Hitem.
Qed.

Lemma filter_loop_pure (cb : EagleJS.Callback) (f : Value -> bool)
    (a : list Value) :
  (forall x i s, cb x i a s = (Ok (f x), s)) ->
  forall rest i s,
    EagleJS.filter_loop cb a i rest s = (Ok (List.filter f rest), s).
Proof.
  intros Hcb rest. induction rest as [| x rest IH]; intros i s; [done |].
  cbn [EagleJS.filter_loop List.filter]. unfold bind. rewrite Hcb, IH.
  unfold ret. by destruct (f x).
Qed.

(** [not] with an array keeps the members that the array does not hold. *)
Lemma not_array `{Engines} (v : Variant) (this : loc) (l a : list Value)
    (s : State) :
  arrays s !! this = Some a ->
  EagleJS.not v this (ArgArray l) s
  = (Ok (length (arrays s)),
     with_arrays
       (fun h => h ++ [List.filter (fun x => negb (includes l x)) a]) s).
Proof.
  intros Hthis. unfold EagleJS.not, EagleJS.super_filter.
  rewrite (get_array_bind this a s _ Hthis). unfold bind at 1.
  rewrite new_array_spec. unfold bind at 1.
  rewrite (filter_loop_pure _ (fun x => negb (includes l x))) by done.
  unfold bind, EagleJS.set_array, modify, ret. f_equal.
  destruct s as [ns h d ls ts cs]. unfold with_arrays. simpl. f_equal.
  rewrite insert_app_r_alt by done. by rewrite Nat.sub_diag.
Qed.

Lemma nodes_only (l : list Value) :
  (forall x, x ∈ l -> exists c, x = VNode c) -> exists cs, l = map VNode cs.
Proof.
  induction l as [| x l IH]; intros Hl; [by exists [] |].
  destruct (Hl x) as [c ->]; [by left |].
  destruct IH as [cs ->]; [intros y Hy; apply Hl; by right |].
  by exists (c :: cs).
Qed.

(** One turn of the loop of the legacy [siblings]: four collections are
    created, and the siblings of the item are pushed. *)
Lemma siblings_legacy_step `{Engines} (e : loc) (item : Value) (s : State)
    (acc : list Value) :
  EagleJS.isDOMItem item = true ->
  arrays s !! e = Some acc ->
  exists s' acc',
    (let! d := EagleJS.default_context in
     let! element := EagleJS.constructor Legacy (ArgValue item) d in
     let! p := EagleJS.parent Legacy element (ArgValue VNull) in
     let! c := EagleJS.children Legacy p (ArgValue VNull) in
     let! self := EagleJS.get_array element in
     let! n := EagleJS.not Legacy c (ArgArray self) in
     let! found := EagleJS.get_array n in
     EagleJS.push e found ;; ret tt) s
    = (Ok tt, s')
    /\ grown e 4 s s'
    /\ arrays s' !! e = Some acc'
    /\ forall x,
         x ∈ acc' <->
         x ∈ acc
         \/ exists r c, x = VNode c /\ item = VNode r
              /\ sibling_legacy (nodes s) r c.
Proof.
  intros Hitem He.
  pose proof (lookup_lt_Some _ _ _ He) as Hlt.
  set (ns := nodes s). set (n := length (arrays s)) in *.
  unfold bind at 1, EagleJS.default_context at 1, bind at 1, get at 1,
    ret at 1.
  unfold bind at 1. rewrite (constructor_item Legacy item _ s Hitem).
  set (s1 := with_arrays (fun h => h ++ [[item]]) s).
  assert (H1 : arrays s1 !! n = Some [item]).
  { simpl. rewrite lookup_app_r by done. by rewrite Nat.sub_diag. }
  destruct (walk_spec Legacy WParent n [item] s1 H1)
    as (P & HP & HPset); [by constructor | done |].
  change (walk Legacy WParent n s1)
    with (EagleJS.parent Legacy n (ArgValue VNull) s1) in HP.
  unfold bind at 1. fold n. rewrite HP.
  set (s2 := with_arrays (fun h => h ++ [P]) s1).
  assert (Hlen1 : length (arrays s1) = S n).
  { simpl. rewrite length_app. simpl. unfold n. lia. }
  assert (H2 : arrays s2 !! S n = Some P).
  { simpl. rewrite <- Hlen1. rewrite lookup_app_r by done.
    by rewrite Nat.sub_diag. }
  assert (HPitems : Forall (fun x => EagleJS.isDOMItem x = true) P).
  { apply Forall_forall. intros x Hx.
    by apply HPset in Hx as (r & c & -> & _). }
  rewrite Hlen1.
  destruct (walk_spec Legacy WChildren (S n) P s2 H2 HPitems)
    as (C & HC & HCset); [done |].
  change (walk Legacy WChildren (S n) s2)
    with (EagleJS.children Legacy (S n) (ArgValue VNull) s2) in HC.
  unfold bind at 1. rewrite HC.
  set (s3 := with_arrays (fun h => h ++ [C]) s2).
  assert (Hlen2 : length (arrays s2) = S (S n)).
  { simpl. rewrite length_app. simpl. simpl in Hlen1. lia. }
  assert (H3 : arrays s3 !! S (S n) = Some C).
  { simpl. rewrite <- Hlen2. rewrite lookup_app_r by done.
    by rewrite Nat.sub_diag. }
  assert (H3self : arrays s3 !! n = Some [item]).
  { simpl. rewrite lookup_app_l by (simpl in Hlen2; lia).
    rewrite lookup_app_l by (simpl in Hlen1; lia). exact H1. }
  rewrite Hlen2, (get_array_bind n [item] s3 _ H3self).
  unfold bind at 1. rewrite (not_array Legacy (S (S n)) [item] C s3 H3).
  set (N := List.filter (fun x => negb (includes [item] x)) C).
  set (s4 := with_arrays (fun h => h ++ [N]) s3).
  assert (Hlen3 : length (arrays s3) = S (S (S n))).
  { simpl. rewrite length_app. simpl. simpl in Hlen2. lia. }
  assert (H4 : arrays s4 !! S (S (S n)) = Some N).
  { simpl. rewrite <- Hlen3. rewrite lookup_app_r by done.
    by rewrite Nat.sub_diag. }
  assert (Hold : forall l, l < n -> arrays s4 !! l = arrays s !! l).
  { intros l Hl. simpl. rewrite !lookup_app_l; try done.
    - rewrite length_app. simpl. unfold n in Hl. lia.
    - rewrite !length_app. simpl. unfold n in Hl. lia.
    - rewrite !length_app. simpl. unfold n in Hl. lia. }
  assert (H4e : arrays s4 !! e = Some acc) by (by rewrite Hold).
  rewrite Hlen3, (get_array_bind (S (S (S n))) N s4 _ H4).
  assert (HNset : forall x,
            x ∈ N <->
            exists r c, x = VNode c /\ item = VNode r
                        /\ sibling_legacy ns r c).
  { intros x. unfold N.
    rewrite list_elem_of_In, filter_In, <- list_elem_of_In, HCset.
    rewrite negb_true_iff. split.
    - intros [(p & c & -> & Hp & Hok & Hc) Hne].
      apply HPset in Hp as (r & p' & [= <-] & Hr & Hnode & Hpar).
      apply list_elem_of_singleton in Hr. cbn [reached] in Hpar.
      change (nodes s1) with ns in Hpar, Hnode.
      destruct (parent_of ns r) as [p0 |] eqn:Hp0; simpl in Hpar;
        [| by apply elem_of_nil in Hpar].
      apply list_elem_of_singleton in Hpar as ->.
      exists r, c. repeat split; try done. exists p0.
      repeat split; try done. intros ->.
      apply not_true_iff_false in Hne. apply Hne.
      apply includes_elem_of. rewrite Hr. by left.
    - intros (r & c & -> & -> & Hnode & p & Hpar & Hok & Hc & Hne). split.
      + exists p, c. repeat split; try done.
        apply HPset. exists r, p. repeat split; try done; [by left |].
        cbn [reached]. change (nodes s1) with ns. rewrite Hpar. by left.
      + apply not_true_iff_false. intros Hin.
        apply includes_elem_of in Hin.
        apply list_elem_of_singleton in Hin. congruence. }
  destruct (nodes_only N) as [cs HN].
  { intros x Hx. apply HNset in Hx as (r & c & -> & _). by exists c. }
  destruct (push_nodes_elem e acc cs s4 H4e) as (acc' & Hpush & Hacc).
  rewrite <- HN in Hpush. unfold bind. rewrite Hpush. unfold ret.
  exists (with_arrays (fun h => <[e := acc']> h) s4), acc'.
  split; [done |]. split; [| split].
  - split; [done |]. split.
    + simpl. rewrite length_insert, !length_app. simpl. unfold n. lia.
    + intros l Hl Hne. simpl.
      rewrite list_lookup_insert_ne by done. by apply Hold.
  - simpl. apply list_lookup_insert_eq.
    rewrite !length_app. simpl. lia.
  - intros x. rewrite Hacc. split.
    + intros [Hx | (c & -> & Hc)]; [by left |]. right.
      assert (Hin : VNode c ∈ N).
      { rewrite HN. apply list_elem_of_fmap. by exists c. }
      apply HNset in Hin as (r & c' & [= <-] & Hr & Hs). by exists r, c.
    + intros [Hx | (r & c & -> & Hr & Hs)]; [by left |]. right.
      exists c. split; [done |].
      assert (Hin : VNode c ∈ N) by (apply HNset; by exists r, c).
      rewrite HN in Hin. apply list_elem_of_fmap in Hin as (c' & [= <-] & Hin).
      done.
Qed.

Lemma grown_trans (e : loc) (j k : nat) (s s1 s2 : State) :
  grown e j s s1 -> grown e k s1 s2 -> grown e (j + k) s s2.
Proof.
  intros (Hn1 & Hl1 & Ho1) (Hn2 & Hl2 & Ho2). split; [congruence |].
  split; [lia |]. intros l Hl Hne. rewrite Ho2 by (done || lia).
  by apply Ho1.
Qed.

(** The loop of the legacy [siblings] over the members. *)
Lemma siblings_legacy_loop `{Engines} (e : loc) (items : list Value) :
  Forall (fun x => EagleJS.isDOMItem x = true) items ->
  forall s acc,
    arrays s !! e = Some acc ->
    exists s' acc',
      forEach (fun item =>
        let! d := EagleJS.default_context in
        let! element := EagleJS.constructor Legacy (ArgValue item) d in
        let! p := EagleJS.parent Legacy element (ArgValue VNull) in
        let! c := EagleJS.children Legacy p (ArgValue VNull) in
        let! self := EagleJS.get_array element in
        let! n := EagleJS.not Legacy c (ArgArray self) in
        let! found := EagleJS.get_array n in
        EagleJS.push e found ;; ret tt) items s
      = (Ok tt, s')
      /\ grown e (4 * length items) s s'
      /\ arrays s' !! e = Some acc'
      /\ forall x,
           x ∈ acc' <->
           x ∈ acc
           \/ exists r c, x = VNode c /\ VNode r ∈ items
                /\ sibling_legacy (nodes s) r c.
Proof.
  induction 1 as [| item items Hitem Hitems IH]; intros s acc He.
  - exists s, acc. split; [done |]. split; [by repeat split |].
    split; [done |]. intros x. split; [by left |].
    intros [Hx | (r & c & _ & Hr & _)]; [done | by apply elem_of_nil in Hr].
  - destruct (siblings_legacy_step e item s acc Hitem He)
      as (s1 & acc1 & Hstep & Hgrown & He1 & Hacc1).
    destruct (IH s1 acc1 He1) as (s2 & acc2 & Hrun & Hgrown2 & He2 & Hacc2).
    exists s2, acc2. split.
    { cbn [forEach]. unfold bind at 1. by rewrite Hstep. }
    split.
    { replace (4 * length (item :: items)) with (4 + 4 * length items)
        by (simpl; lia).
      by apply (grown_trans e 4 _ s s1 s2). }
    split; [done |]. destruct Hgrown as (Hnodes & _).
    intros x. rewrite Hacc2, Hacc1, Hnodes. split.
    + intros [[Hx | (r & c & -> & -> & Hs)] | (r & c & -> & Hr & Hs)].
      * by left.
      * right. exists r, c. split; [done |]. split; [by left | done].
      * right. exists r, c. split; [done |]. split; [by right | done].
    + intros [Hx | (r & c & -> & Hr & Hs)]; [by left; left |].
      apply elem_of_cons in Hr as [<- | Hr].
      * left. right. by exists r, c.
      * right. by exists r, c.
Qed.

(** What [siblings] of the legacy source returns, on a collection of
    items. *)
Lemma siblings_legacy_spec `{Engines} (this : loc) (items : list Value)
    (st : State) :
  arrays st !! this = Some items ->
  Forall (fun x => EagleJS.isDOMItem x = true) items ->
  let ns := nodes st in
  let n := length (arrays st) in
  exists st' a,
    EagleJS.siblings Legacy this (ArgValue VNull) st = (Ok n, st')
    /\ nodes st' = ns
    /\ length (arrays st') = n + 1 + 4 * length items
    /\ (forall l, l < n -> arrays st' !! l = arrays st !! l)
    /\ arrays st' !! n = Some a
    /\ forall x,
         x ∈ a <->
         exists r c, x = VNode c /\ VNode r ∈ items /\ sibling_legacy ns r c.
Proof.
  intros Hthis Hitems ns n. cbn [EagleJS.siblings].
  unfold EagleJS.siblings_legacy. unfold bind at 1.
  unfold EagleJS.new_empty. rewrite new_array_spec.
  set (s0 := with_arrays (fun h => h ++ [[]]) st).
  assert (Hthis0 : arrays s0 !! this = Some items).
  { simpl. rewrite lookup_app_l by (by apply lookup_lt_Some in Hthis).
    exact Hthis. }
  assert (He0 : arrays s0 !! n = Some []).
  { simpl. rewrite lookup_app_r by done. unfold n. by rewrite Nat.sub_diag. }
  fold n. rewrite (get_array_bind this items s0 _ Hthis0).
  destruct (siblings_legacy_loop n items Hitems s0 [] He0)
    as (st' & a & Hrun & (Hnodes & Hlen & Hold) & He & Ha).
  unfold bind at 1. rewrite Hrun. unfold ret. exists st', a.
  split; [done |]. split; [done |]. split.
  { rewrite Hlen. simpl. rewrite length_app. simpl. unfold n. lia. }
  split.
  { intros l Hl. rewrite Hold.
    - simpl. by rewrite lookup_app_l.
    - simpl. rewrite length_app. simpl. unfold n in Hl. lia.
    - unfold n in *. lia. }
  split; [done |]. intros x. rewrite Ha. split; [| by right].
  intros [Hx | Hx]; [by apply elem_of_nil in Hx | done].
Qed.

(** X23.  [siblings] of the legacy source, on a collection of items: it never
    throws and leaves the tree and the collections there were as they are.
    The new collection it returns holds exactly the element children of the
    parents of the members that are nodes, but for a member itself, which
    never counts as its own sibling; all are elements.  On the way it
    creates four more collections for every member. *)
Theorem siblings_legacy_collects `{Engines} (this : loc)
    (items : list Value) (st : State) :
  arrays st !! this = Some items ->
  Forall (fun x => EagleJS.isDOMItem x = true) items ->
  let ns := nodes st in
  let n := length (arrays st) in
  exists st' a,
    EagleJS.siblings Legacy this (ArgValue VNull) st = (Ok n, st')
    /\ nodes st' = ns
    /\ length (arrays st') = n + 1 + 4 * length items
    /\ (forall l, l < n -> arrays st' !! l = arrays st !! l)
    /\ arrays st' !! n = Some a
    /\ (forall x,
          x ∈ a <->
          exists r c, x = VNode c /\ VNode r ∈ items /\ sibling_legacy ns r c)
    /\ forall x, x ∈ a -> EagleJS.isElement ns x = true.
Proof.
  intros Hthis Hitems ns n.
  destruct (siblings_legacy_spec this items st Hthis Hitems)
    as (st' & a & Hrun & Hnodes & Hlen & Hold & Ha & Hset).
  exists st', a. repeat (split; [done |]). intros x Hx.
  apply Hset in Hx as (r & c & -> & _ & _ & p & _ & _ & Hc & _).
  apply is_element_isElement. apply list_elem_of_In, filter_In in Hc.
  apply Hc.
Qed.

(** The [div] and the [span] of the page. *)
Lemma siblings_legacy_collects_witness :
  exists st' a,
    EagleJS.siblings (H := Demo.engines) Legacy 0 (ArgValue VNull) Demo.page
    = (Ok 2, st')
    /\ nodes st' = nodes Demo.page
    /\ length (arrays st') = 2 + 1 + 4 * 2
    /\ (forall l, l < 2 -> arrays st' !! l = arrays Demo.page !! l)
    /\ arrays st' !! 2 = Some a
    /\ (forall x,
          x ∈ a <->
          exists r c,
            x = VNode c /\ VNode r ∈ [VNode 3; VNode 4]
            /\ sibling_legacy (nodes Demo.page) r c)
    /\ forall x, x ∈ a -> EagleJS.isElement (nodes Demo.page) x = true.
Proof.
  apply (siblings_legacy_collects (H := Demo.engines) 0 [VNode 3; VNode 4]
           Demo.page).
  - reflexivity.
  - repeat (constructor; [reflexivity |]). constructor.
Defined.

(** X24.  [siblings] in the two sources, on a collection of items whose node
    members that have a parent are nodes under a parent node, as in every
    document: both return a new collection at the same place, with the same
    members, and the typed source creates no other collection, where the
    legacy source creates four more for every member. *)
Theorem siblings_agree `{Engines} (this : loc) (items : list Value)
    (st : State) :
  arrays st !! this = Some items ->
  Forall (fun x => EagleJS.isDOMItem x = true) items ->
  (forall r p,
     VNode r ∈ items -> parent_of (nodes st) r = Some p ->
     EagleJS.isNode (nodes st) (VNode r) = true
     /\ EagleJS.isParentNode (nodes st) (VNode p) = true) ->
  let n := length (arrays st) in
  exists a b st',
    EagleJS.siblings Typed this (ArgValue VNull) st
    = (Ok n, with_arrays (fun h => h ++ [a]) st)
    /\ EagleJS.siblings Legacy this (ArgValue VNull) st = (Ok n, st')
    /\ arrays st' !! n = Some b
    /\ (forall x, x ∈ a <-> x ∈ b)
    /\ nodes st' = nodes st
    /\ length (arrays st') = n + 1 + 4 * length items.
Proof.
  intros Hthis Hitems Hdoc n.
  destruct (siblings_typed_spec this items st Hthis Hitems)
    as (a & Htyped & Ha).
  destruct (siblings_legacy_spec this items st Hthis Hitems)
    as (st' & b & Hlegacy & Hnodes & Hlen & _ & Hb & Hbset).
  exists a, b, st'. split; [exact Htyped |]. split; [exact Hlegacy |].
  split; [exact Hb |]. split; [| by split].
  intros x. rewrite Ha, Hbset. split.
  - intros (r & p & c & -> & Hr & Hp & Hc & Hne).
    destruct (Hdoc r p Hr Hp) as [Hnode Hparent].
    exists r, c. split; [done |]. split; [done |]. split; [done |].
    by exists p.
  - intros (r & c & -> & Hr & _ & p & Hp & _ & Hc & Hne). by exists r, p, c.
Qed.

(** The [div] and the [span] of the page. *)
Lemma siblings_agree_witness :
  exists a b st',
    EagleJS.siblings (H := Demo.engines) Typed 0 (ArgValue VNull) Demo.page
    = (Ok 2, with_arrays (fun h => h ++ [a]) Demo.page)
    /\ EagleJS.siblings (H := Demo.engines) Legacy 0 (ArgValue VNull)
         Demo.page
       = (Ok 2, st')
    /\ arrays st' !! 2 = Some b
    /\ (forall x, x ∈ a <-> x ∈ b)
    /\ nodes st' = nodes Demo.page
    /\ length (arrays st') = 2 + 1 + 4 * 2.
Proof.
  apply (siblings_agree (H := Demo.engines) 0 [VNode 3; VNode 4] Demo.page).
  - reflexivity.
  - repeat (constructor; [reflexivity |]). constructor.
  - intros r p Hr Hp.
    apply elem_of_cons in Hr as [[= ->] | Hr];
      [| apply elem_of_cons in Hr as [[= ->] | Hr];
         [| by apply elem_of_nil in Hr]];
      vm_compute in Hp; injection Hp as <-; by vm_compute.
Defined.

(** ** Markup in the legacy source *)

Lemma alter_tail (f : Node -> Node) (ns L : list Node) (k : nat) :
  alter f (length ns + k) (ns ++ L) = ns ++ alter f k L.
Proof.
  rewrite alter_app_r_alt by lia. f_equal. f_equal. lia.
Qed.

Lemma alter_tail_root (f : Node -> Node) (ns L : list Node) :
  alter f (length ns) (ns ++ L) = ns ++ alter f 0 L.
Proof.
  rewrite alter_app_r_alt by lia. by rewrite Nat.sub_diag.
Qed.

Lemma lookup_tail (ns L : list Node) (k : nat) :
  (ns ++ L) !! (length ns + k) = L !! k.
Proof. rewrite lookup_app_r by lia. f_equal. lia. Qed.

Lemma lookup_tail_root (ns L : list Node) :
  (ns ++ L) !! length ns = L !! 0.
Proof. rewrite lookup_app_r by lia. by rewrite Nat.sub_diag. Qed.

Ltac layout :=
  repeat (first [ rewrite <- app_assoc
                | rewrite length_app
                | rewrite alter_tail
                | rewrite alter_tail_root
                | rewrite <- Nat.add_assoc ];
          cbn [app length alter list_alter Nat.add set_children shape
               parentNode childNodes readyState]).

Lemma createHTMLDocument_spec `{Engines} (st : State) :
  createHTMLDocument st
  = (Ok (length (nodes st)),
     with_nodes (fun ns => ns ++ new_document (length ns) []) st).
Proof.
  unfold createHTMLDocument. cbn [instantiate]. layout. reflexivity.
Qed.

(** The tree of the new document, read where it lies in the heap. *)
Ltac read_tail :=
  unfold type_of; unfold children_of, shape_of, parent_of;
  rewrite ?lookup_tail, ?lookup_tail_root;
  cbn [lookup list_lookup new_document app from_option childNodes shape
       parentNode nodeType localName element_shape text_shape
       document_shape doctype_shape].

Lemma descendants_new_document (ns extra : list Node) :
  let n := length ns in
  descendants (ns ++ new_document n [] ++ extra) n
  = [n + 1; n + 2; n + 3; n + 4; n + 5; n + 6].
Proof.
  intros n. unfold descendants. rewrite !length_app. cbn [length new_document].
  fold n.
  assert (Hfuel : n + (7 + length extra)
                  = S (S (S (S (S (n + length extra + 2)))))) by lia.
  rewrite Hfuel. clear Hfuel. generalize (n + length extra + 2). intros m.
  cbn [subtree tail]. subst n.
  by repeat (read_tail; cbn [flat_map app]).
Qed.

(** The query of [body] on the new document finds its body. *)
Lemma querySelectorAll_body `{Engines} (st : State) (ns extra : list Node) :
  knows_body ->
  nodes st = ns ++ new_document (length ns) [] ++ extra ->
  Dom.querySelectorAll (length ns) "body" st = (Ok [length ns + 6], st).
Proof.
  intros [Hvalid Hmatch] Hnodes. unfold Dom.querySelectorAll.
  rewrite Hvalid, Hnodes, descendants_new_document. f_equal. f_equal.
  set (L := ns ++ new_document (length ns) [] ++ extra).
  assert (Htest : forall d,
            is_element L d && selector_matches "body" L (length ns) d
            = is_element L d
              && bool_decide (localName (shape_of L d) = "body")).
  { intros d. destruct (is_element L d) eqn:E; [| done]. simpl.
    by apply Hmatch. }
  cbn [List.filter]. rewrite !Htest. unfold is_element, L. read_tail.
  reflexivity.
Qed.

(** [new EagleJS('body', doc)] in the legacy source, on the new document:
    the collections of the constructor, of its context and of the query. *)
Lemma constructor_body `{Engines} (st : State) (ns : list Node) :
  knows_body ->
  nodes st = ns ++ new_document (length ns) [] ->
  EagleJS.constructor Legacy (ArgValue (VStr "body"))
    (ArgValue (VNode (length ns))) st
  = (Ok (length (arrays st) + 2),
     with_arrays
       (fun h => h ++ [[]; [VNode (length ns)]; [VNode (length ns + 6)]]) st).
Proof.
  intros Hbody Hnodes. unfold EagleJS.constructor.
  cbn [EagleJS.construct EagleJS.construct_legacy].
  rewrite bind_context_or_default. cbn [effective_context].
  unfold bind at 1. rewrite new_array_spec.
  cbn [EagleJS.is_null]. change (test_html "body") with false. cbv iota.
  set (s1 := with_arrays (fun h => h ++ [[]]) st).
  unfold bind at 1, EagleJS.default_context at 1, bind at 1, get at 1,
    ret at 1.
  unfold bind at 1. rewrite bind_context_or_default, push_new.
  cbn [List.filter EagleJS.isDOMItem truthy andb].
  set (s2 := with_arrays (fun h => h ++ [[VNode (length ns)]]) s1).
  unfold bind at 1, EagleJS.find, bind at 1, EagleJS.new_empty.
  rewrite new_array_spec.
  set (s3 := with_arrays (fun h => h ++ [[]]) s2).
  assert (Hc : arrays s3 !! length (arrays s1) = Some [VNode (length ns)]).
  { simpl. rewrite lookup_app_l by (rewrite !length_app; simpl; lia).
    rewrite lookup_app_r by done. by rewrite Nat.sub_diag. }
  assert (He : arrays s3 !! length (arrays s2) = Some []).
  { simpl. rewrite lookup_app_r by done. by rewrite Nat.sub_diag. }
  assert (Hn3 : nodes s3 = ns ++ new_document (length ns) [] ++ []).
  { by rewrite app_nil_r. }
  rewrite (get_array_bind _ _ s3 _ Hc). cbn [forEach].
  unfold bind at 1. unfold bind at 1. unfold bind at 1, get at 1.
  assert (Hparent : EagleJS.isParentNode (nodes s3) (VNode (length ns))
                    = true).
  { rewrite Hn3. unfold EagleJS.isParentNode, EagleJS.isNode.
    cbn [truthy EagleJS.nodeType_of]. by read_tail. }
  rewrite Hparent. cbn [EagleJS.as_node]. unfold bind at 1, ret at 1.
  unfold bind at 1. rewrite (querySelectorAll_body s3 ns [] Hbody Hn3).
  unfold bind at 1. rewrite push_nodes_empty by exact He.
  unfold ret. cbv beta iota. f_equal.
  - f_equal. simpl. rewrite !length_app. simpl. lia.
  - destruct st as [ns0 h d ls ts cs]. unfold s3, s2, s1, with_arrays.
    simpl. f_equal. rewrite insert_app_r_alt by done.
    rewrite Nat.sub_diag. simpl. by rewrite <- !app_assoc.
Qed.

(** The markup set as the HTML of the new body: the parsed fragment
    becomes its children. *)
Lemma set_innerHTML_body `{Engines} (s : string) (st : State)
    (ns : list Node) :
  nodes st = ns ++ new_document (length ns) [] ->
  exists cs extra,
    set_innerHTML (length ns + 6) s st
    = (Ok tt,
       with_nodes (fun _ => ns ++ new_document (length ns) cs ++ extra) st)
    /\ Forall2
         (represents (ns ++ new_document (length ns) cs ++ extra)
            (length ns + 7) (Some (length ns + 6)))
         cs (parse_fragment "body" s).
Proof.
  intros Hnodes. unfold set_innerHTML. rewrite Hnodes.
  set (L0 := ns ++ new_document (length ns) []).
  assert (Hname : localName (shape_of L0 (length ns + 6)) = "body").
  { unfold L0. by read_tail. }
  assert (Hkids : remove_children (length ns + 6) L0 = L0).
  { unfold remove_children, L0. by read_tail. }
  rewrite Hname, Hkids.
  destruct (instantiate_all_instantiated (parse_fragment "body" s))
    with (p := Some (length ns + 6)) (l := L0) as ([extra He] & Hall).
  { apply Forall_forall. intros k _. apply instantiate_instantiated. }
  destruct (instantiate_all (Some (length ns + 6)) (parse_fragment "body" s)
              L0) as [cs ns'].
  simpl in He, Hall. subst ns'. exists cs, extra.
  assert (Hfinal : alter (set_children cs) (length ns + 6) (L0 ++ extra)
                   = ns ++ new_document (length ns) cs ++ extra).
  { unfold L0. rewrite <- app_assoc, alter_tail. reflexivity. }
  rewrite Hfinal. split; [reflexivity |].
  eapply Forall2_represents_weaken; [| | exact Hall].
  - unfold L0. rewrite length_app. simpl. lia.
  - intros i n Hi Hn. rewrite <- Hfinal.
    rewrite list_lookup_alter_ne; [done |].
    unfold L0 in Hi. rewrite length_app in Hi. simpl in Hi. lia.
Qed.

(** The legacy path for markup, step by step: a new document is
    allocated, its body is found by the query of [body], the parsed
    fragment becomes the children of the body, and the new collection
    holds the elements among them. *)
Lemma markup_legacy_spec `{Engines} (s : string) (st : State) :
  knows_body ->
  let n := length (nodes st) in
  exists cs extra,
    let ns' := nodes st ++ new_document n cs ++ extra in
    markup_legacy s st
    = (Ok (length (arrays st) + 3),
       with_arrays
         (fun h => h ++ [[]; [VNode n]; [VNode (n + 6)];
                         map VNode (element_children ns' (n + 6))])
         (with_nodes (fun _ => ns') st))
    /\ children_of ns' (n + 6) = cs
    /\ Forall2 (represents ns' (n + 7) (Some (n + 6))) cs
         (parse_fragment "body" s).
Proof.
  intros Hbody n.
  set (s1 := with_nodes (fun ns => ns ++ new_document (length ns) []) st).
  set (s2 := with_arrays
               (fun h => h ++ [[]; [VNode n]; [VNode (n + 6)]]) s1).
  assert (Hn1 : nodes s1 = nodes st ++ new_document n []) by done.
  destruct (set_innerHTML_body s s2 (nodes st) Hn1)
    as (cs & extra & Hset & Hrep).
  fold n in Hset, Hrep. exists cs, extra. intros ns'. fold ns' in Hset, Hrep.
  assert (Hkids : children_of ns' (n + 6) = cs).
  { unfold ns', n. by read_tail. }
  split; [| by split].
  unfold markup_legacy. unfold bind at 1.
  rewrite createHTMLDocument_spec. fold s1.
  unfold bind at 1. rewrite (constructor_body s1 (nodes st) Hbody Hn1).
  fold n. fold s2.
  assert (Hb : arrays s2 !! (length (arrays s1) + 2) = Some [VNode (n + 6)]).
  { simpl. rewrite lookup_app_r by lia.
    by replace (length (arrays st) + 2 - length (arrays st)) with 2 by lia. }
  unfold bind at 1, EagleJS.html. rewrite (get_array_bind _ _ s2 _ Hb).
  cbn [forEach]. unfold bind at 1. unfold bind at 1. unfold bind at 1.
  cbn [EagleJS.capable]. unfold bind at 1, get at 1, ret at 1.
  assert (Hel : EagleJS.isElement (nodes s2) (VNode (n + 6)) = true).
  { change (nodes s2) with (nodes s1). rewrite Hn1.
    unfold EagleJS.isElement, EagleJS.isNode.
    cbn [truthy EagleJS.nodeType_of]. unfold n. by read_tail. }
  rewrite Hel. cbn [EagleJS.as_node]. unfold bind at 1, ret at 1.
  rewrite Hset. unfold ret at 1. unfold ret at 1. cbv beta iota.
  set (s3 := with_nodes (fun _ => ns') s2).
  unfold EagleJS.children, bind at 1, EagleJS.new_empty.
  rewrite new_array_spec. set (s4 := with_arrays (fun h => h ++ [[]]) s3).
  assert (Hb4 : arrays s4 !! (length (arrays s1) + 2)
                = Some [VNode (n + 6)]).
  { simpl. rewrite lookup_app_l by (rewrite length_app; simpl; lia).
    exact Hb. }
  assert (He4 : arrays s4 !! length (arrays s3) = Some []).
  { simpl. rewrite lookup_app_r by done. by rewrite Nat.sub_diag. }
  rewrite (get_array_bind _ _ s4 _ Hb4). cbn [forEach].
  unfold bind at 1. unfold bind at 1. unfold bind at 1.
  cbn [EagleJS.capable]. unfold bind at 1, get at 1, ret at 1.
  assert (Hpar : EagleJS.isParentNode (nodes s4) (VNode (n + 6)) = true).
  { change (nodes s4) with ns'.
    unfold EagleJS.isParentNode, EagleJS.isNode.
    cbn [truthy EagleJS.nodeType_of]. unfold ns', n. by read_tail. }
  rewrite Hpar. cbn [EagleJS.as_node]. unfold bind at 1, ret at 1.
  unfold bind at 1, get at 1. unfold bind at 1.
  rewrite push_nodes_empty by exact He4.
  unfold ret at 1. unfold ret at 1. cbv beta iota.
  unfold EagleJS.filtered. cbn [EagleJS.is_null]. unfold ret. f_equal.
  - f_equal. simpl. rewrite length_app. simpl. lia.
  - change (nodes s4) with ns'.
    destruct st as [ns0 h d ls ts cl]. unfold s4, s3, s2, s1, with_arrays,
      with_nodes. simpl. f_equal. rewrite insert_app_r_alt by done.
    rewrite Nat.sub_diag. simpl. by rewrite <- !app_assoc.
Qed.

Lemma body_new_document `{Engines} (ns extra : list Node) (cs : list ref) :
  body (ns ++ new_document (length ns) cs ++ extra) (length ns)
  = Some (length ns + 6).
Proof.
  set (L := ns ++ new_document (length ns) cs ++ extra).
  assert (Hdoc : children_of L (length ns) = [length ns + 1; length ns + 2])
    by (unfold L; by read_tail).
  assert (Hhtml : children_of L (length ns + 2)
                  = [length ns + 3; length ns + 6])
    by (unfold L; by read_tail).
  assert (H1 : shape_of L (length ns + 1) = doctype_shape)
    by (unfold L; by read_tail).
  assert (H2 : shape_of L (length ns + 2) = element_shape "html")
    by (unfold L; by read_tail).
  assert (H3 : shape_of L (length ns + 3) = element_shape "head")
    by (unfold L; by read_tail).
  assert (H6 : shape_of L (length ns + 6) = element_shape "body")
    by (unfold L; by read_tail).
  unfold body, element_children, is_element, type_of. rewrite Hdoc.
  cbn [List.filter]. rewrite H1, H2. cbn. rewrite Hhtml. cbn [find].
  by rewrite H3, H6.
Qed.

(** ** The dispatch of the constructor on a string *)

(** C3, amended.  The test of the constructor accepts the strings made of
    optional whitespace, [<], one or more characters that are not line
    terminators, [>], optional whitespace.  A context that is [undefined]
    stands for the document.  On a string that passes the test:
    - the typed constructor returns a new collection that holds exactly the
      children of the body of the parsed document, which are the roots of
      the parsed templates, whatever the context;
    - the legacy constructor, with a context that is no document, returns
      a new, empty collection and does nothing else;
    - the legacy constructor, with a document as context, allocates a new
      HTML document, finds its body by the query of [body], has the markup
      parsed as a fragment in the body, whose children are then the roots
      of the parsed templates, and returns a new collection that holds
      exactly the elements among these children, in their order; four
      other collections are created on the way.
    On any other string, both constructors build the collection of the
    context, by the same dispatch, and return its descendant query.  The
    nesting of these calls never reaches its bound. *)
Theorem constructor_string_dispatch `{Engines} (s : string) (context : Arg)
    (st : State) :
  let ctx := effective_context st context in
  let n := length (nodes st) in
  (test_html s = true <-> html_shaped false (list_ascii_of_string s))
  /\ (test_html s = true ->
      exists b st',
        EagleJS.constructor Typed (ArgValue (VStr s)) context st
        = (Ok (length (arrays st)), st')
        /\ (exists extra, nodes st' = nodes st ++ extra)
        /\ body (nodes st') (length (nodes st)) = Some b
        /\ fst (parseFromString s st) = Ok (length (nodes st))
        /\ arrays st' = arrays st ++ [map VNode (children_of (nodes st') b)]
        /\ Forall2 (represents (nodes st') (length (nodes st)) (Some b))
             (children_of (nodes st') b) (parse_document_body s))
  /\ (test_html s = false ->
      forall v,
        EagleJS.constructor v (ArgValue (VStr s)) context st
        = (EagleJS.new_array ;; query_context v s ctx) st)
  /\ (test_html s = true ->
      EagleJS.arg_isDocument (nodes st) ctx = false ->
      EagleJS.constructor Legacy (ArgValue (VStr s)) context st
      = (Ok (length (arrays st)), with_arrays (fun h => h ++ [[]]) st))
  /\ (test_html s = true ->
      EagleJS.arg_isDocument (nodes st) ctx = true ->
      knows_body ->
      exists b cs extra,
        let ns' := nodes st ++ new_document n cs ++ extra in
        EagleJS.constructor Legacy (ArgValue (VStr s)) context st
        = (Ok (length (arrays st) + 4),
           with_arrays
             (fun h => h ++ [[]; []; [VNode n]; [VNode b];
                             map VNode (element_children ns' b)])
             (with_nodes (fun _ => ns') st))
        /\ body ns' n = Some b
        /\ children_of ns' b = cs
        /\ Forall2 (represents ns' n (Some b)) cs (parse_fragment "body" s))
  /\ (forall v k,
        EagleJS.construct v (5 + k) (ArgValue (VStr s)) context st
        = EagleJS.constructor v (ArgValue (VStr s)) context st).
Proof.
  intros ctx n.
  split; [apply test_html_chars_spec |].
  split; [by apply construct_typed_markup |].
  split; [intros Hsel v; by apply construct_selector |].
  split.
  { intros Hhtml Hdoc. rewrite construct_legacy_markup by done.
    fold ctx. by rewrite Hdoc. }
  split.
  { intros Hhtml Hdoc Hbody. rewrite construct_legacy_markup by done.
    fold ctx. rewrite Hdoc. unfold bind. rewrite new_array_spec.
    destruct (markup_legacy_spec s (with_arrays (fun h => h ++ [[]]) st)
                Hbody) as (cs & extra & Hrun & Hkids & Hrep).
    change (nodes (with_arrays (fun h => h ++ [[]]) st)) with (nodes st)
      in Hrun, Hkids, Hrep.
    fold n in Hrun, Hkids, Hrep. exists (n + 6), cs, extra.
    set (ns' := nodes st ++ new_document n cs ++ extra) in *.
    rewrite Hrun. split; [| split; [apply body_new_document | split]].
    - f_equal; [f_equal; simpl; rewrite length_app; simpl; lia |].
      destruct st as [ns0 h d ls ts cl]. unfold with_arrays, with_nodes.
      simpl. f_equal. by rewrite <- app_assoc.
    - exact Hkids.
    - eapply Forall2_represents_weaken; [| | exact Hrep]; [lia | done]. }
  intros v k. unfold EagleJS.constructor, EagleJS.construct.
  change (5 + k) with (S (S (S (S (S k))))). destruct v.
  - by rewrite (construct_typed_fuel (S (S k))), (construct_typed_fuel 2).
  - by rewrite (construct_legacy_fuel (S k)), (construct_legacy_fuel 1).
Qed.

(** The markup [<b>x</b>y<i>z</i>] with the document of the page as
    context, in the legacy source: of the three children of the new body,
    the collection holds the two elements. *)
Lemma constructor_string_dispatch_witness :
  exists b cs extra,
    let ns' := nodes Demo.page ++ new_document 7 cs ++ extra in
    EagleJS.constructor (H := Demo.engines) Legacy
      (ArgValue (VStr "<b>x</b>y<i>z</i>")) (ArgValue (VNode 0)) Demo.page
    = (Ok (2 + 4),
       with_arrays
         (fun h => h ++ [[]; []; [VNode 7]; [VNode b];
                         map VNode (element_children ns' b)])
         (with_nodes (fun _ => ns') Demo.page))
    /\ body ns' 7 = Some b
    /\ children_of ns' b = cs
    /\ Forall2 (represents ns' 7 (Some b)) cs
         (parse_fragment (Engines := Demo.engines) "body"
            "<b>x</b>y<i>z</i>").
Proof.
  apply (proj1 (proj2 (proj2 (proj2 (proj2
           (constructor_string_dispatch (H := Demo.engines)
              "<b>x</b>y<i>z</i>" (ArgValue (VNode 0)) Demo.page)))))).
  - reflexivity.
  - reflexivity.
  - split; [reflexivity |]. intros ns root d _. reflexivity.
Defined.

(** C3, as stated, fails in three ways.  The legacy constructor, given
    markup and a context that is not a document (here the [div] of the
    page), parses nothing and returns an empty collection.  Given markup
    with a text node between two elements and the document as context, it
    returns the two elements only, where the typed constructor returns the
    three child nodes.  And a string with a line feed between [<] and [>]
    fits the pattern as worded, but fails the test of both sources: it is
    taken for a selector, which the engine rejects. *)
Lemma constructor_markup_not_always_parsed :
  (test_html "<p>hi</p>" = true
   /\ exists st',
       EagleJS.constructor (H := Demo.engines) Legacy
         (ArgValue (VStr "<p>hi</p>")) (ArgValue (VNode 3)) Demo.page
       = (Ok 2, st')
       /\ arrays st' !! 2 = Some []
       /\ nodes st' = nodes Demo.page
       /\ length (parse_document_body (Engines := Demo.engines) "<p>hi</p>")
          = 1)
  /\ (test_html "<b>x</b>y<i>z</i>" = true
      /\ (exists r st',
            EagleJS.constructor (H := Demo.engines) Legacy
              (ArgValue (VStr "<b>x</b>y<i>z</i>")) (ArgValue (VNode 0))
              Demo.page = (Ok r, st')
            /\ arrays st' !! r = Some [VNode 14; VNode 17]
            /\ children_of (nodes st') 13 = [14; 16; 17]
            /\ type_of (nodes st') 16 = TEXT_NODE)
      /\ exists r st',
           EagleJS.constructor (H := Demo.engines) Typed
             (ArgValue (VStr "<b>x</b>y<i>z</i>")) (ArgValue (VNode 0))
             Demo.page = (Ok r, st')
           /\ arrays st' !! r = Some [VNode 11; VNode 13; VNode 14]
           /\ type_of (nodes st') 13 = TEXT_NODE)
  /\ (html_shaped true (list_ascii_of_string Demo.two_lines)
      /\ test_html Demo.two_lines = false
      /\ fst (EagleJS.constructor (H := Demo.engines) Typed
                (ArgValue (VStr Demo.two_lines)) (ArgValue (VNode 0))
                Demo.page) = Throw SyntaxError
      /\ fst (EagleJS.constructor (H := Demo.engines) Legacy
                (ArgValue (VStr Demo.two_lines)) (ArgValue (VNode 0))
                Demo.page) = Throw SyntaxError).
Proof.
  split; [| split].
  - split; [reflexivity |]. eexists. split; [vm_compute; reflexivity |].
    by repeat split.
  - split; [reflexivity |]. split.
    + do 2 eexists. split; [vm_compute; reflexivity |]. by repeat split.
    + do 2 eexists. split; [vm_compute; reflexivity |]. by repeat split.
  - split; [| by repeat split].
    exists [], ["a"%char; ascii_of_nat 10; "b"%char], [].
    split; [reflexivity |]. split; [constructor |]. split; [constructor |].
    split; [discriminate | discriminate].
Qed.

(** C4, amended.  Given markup and a context that is not a document, the
    legacy constructor returns a new, empty collection and does nothing
    else: the markup is neither parsed nor queried.  A context that is
    [undefined] is no such context: it stands for the document, in both
    sources and for every selector.  The typed constructor does not look
    at the context: it parses the markup. *)
Theorem markup_with_other_context `{Engines} (s : string) (context : Arg)
    (st : State) :
  test_html s = true ->
  (EagleJS.arg_isDocument (nodes st) (effective_context st context) = false ->
   EagleJS.constructor Legacy (ArgValue (VStr s)) context st
   = (Ok (length (arrays st)), with_arrays (fun h => h ++ [[]]) st))
  /\ (forall v selector,
        EagleJS.constructor v selector (ArgValue VUndefined) st
        = EagleJS.constructor v selector (ArgValue (VNode (document st))) st)
  /\ (forall context',
        EagleJS.constructor Typed (ArgValue (VStr s)) context st
        = EagleJS.constructor Typed (ArgValue (VStr s)) context' st)
  /\ exists b st',
       EagleJS.constructor Typed (ArgValue (VStr s)) context st
       = (Ok (length (arrays st)), st')
       /\ body (nodes st') (length (nodes st)) = Some b
       /\ arrays st' = arrays st ++ [map VNode (children_of (nodes st') b)].
Proof.
  intros Hhtml. split; [| split; [| split]].
  - intros Hdoc. rewrite construct_legacy_markup by done. by rewrite Hdoc.
  - intros v selector. unfold EagleJS.constructor.
    destruct v; cbn [EagleJS.construct EagleJS.construct_typed
                     EagleJS.construct_legacy];
      by rewrite !bind_context_or_default.
  - intros context'. unfold EagleJS.constructor. simpl.
    by rewrite Hhtml, !bind_context_or_default.
  - destruct (construct_typed_markup s context st Hhtml)
      as (b & st' & Hrun & _ & Hb & _ & Harr & _).
    by exists b, st'.
Qed.

(** The markup [<p>hi</p>] with the [div] of the page as context. *)
Lemma markup_with_other_context_witness :
  (EagleJS.arg_isDocument (nodes Demo.page)
     (effective_context Demo.page (ArgValue (VNode 3))) = false ->
   EagleJS.constructor (H := Demo.engines) Legacy
     (ArgValue (VStr "<p>hi</p>")) (ArgValue (VNode 3)) Demo.page
   = (Ok 2, with_arrays (fun h => h ++ [[]]) Demo.page))
  /\ (forall v selector,
        EagleJS.constructor (H := Demo.engines) v selector
          (ArgValue VUndefined) Demo.page
        = EagleJS.constructor (H := Demo.engines) v selector
            (ArgValue (VNode 0)) Demo.page)
  /\ (forall context',
        EagleJS.constructor (H := Demo.engines) Typed
          (ArgValue (VStr "<p>hi</p>")) (ArgValue (VNode 3)) Demo.page
        = EagleJS.constructor (H := Demo.engines) Typed
            (ArgValue (VStr "<p>hi</p>")) context' Demo.page)
  /\ exists b st',
       EagleJS.constructor (H := Demo.engines) Typed
         (ArgValue (VStr "<p>hi</p>")) (ArgValue (VNode 3)) Demo.page
       = (Ok 2, st')
       /\ body (nodes st') 7 = Some b
       /\ arrays st'
          = arrays Demo.page ++ [map VNode (children_of (nodes st') b)].
Proof.
  apply (markup_with_other_context (H := Demo.engines) "<p>hi</p>"
           (ArgValue (VNode 3)) Demo.page).
  reflexivity.
Defined.

(** C4, as stated, fails: with the markup [<p>hi</p>] and the [div] of the
    page as context, the legacy constructor returns an empty collection
    and the typed constructor the parsed [p], while the query of the string
    as a selector against that context is rejected by the engine. *)
Lemma markup_is_not_queried :
  test_html "<p>hi</p>" = true
  /\ EagleJS.arg_isDocument (nodes Demo.page) (ArgValue (VNode 3)) = false
  /\ (exists st',
        EagleJS.constructor (H := Demo.engines) Legacy
          (ArgValue (VStr "<p>hi</p>")) (ArgValue (VNode 3)) Demo.page
        = (Ok 2, st')
        /\ arrays st' !! 2 = Some [])
  /\ (exists st',
        EagleJS.constructor (H := Demo.engines) Typed
          (ArgValue (VStr "<p>hi</p>")) (ArgValue (VNode 3)) Demo.page
        = (Ok 2, st')
        /\ arrays st' !! 2 = Some [VNode 11]
        /\ localName (shape_of (nodes st') 11) = "p")
  /\ fst (query_context (H := Demo.engines) Legacy "<p>hi</p>"
            (ArgValue (VNode 3)) Demo.page) = Throw SyntaxError
  /\ fst (query_context (H := Demo.engines) Typed "<p>hi</p>"
            (ArgValue (VNode 3)) Demo.page) = Throw SyntaxError.
Proof.
  split; [reflexivity |]. split; [reflexivity |]. split; [| split].
  - eexists. split; [vm_compute; reflexivity |]. reflexivity.
  - eexists. split; [vm_compute; reflexivity |]. by split.
  - by split.
Qed.

(** ** toggleClass *)

Lemma update_shape_id (r : ref) (f : Shape -> Shape) (s : State) :
  f (shape_of (nodes s) r) = shape_of (nodes s) r ->
  update_shape r f s = (Ok tt, s).
Proof.
  intros Hf. unfold update_shape, modify. f_equal. destruct s as [ns h d l t c].
  unfold with_nodes. simpl in *. f_equal.
  unfold shape_of in Hf. apply list_eq. intros i.
  destruct (decide (i = r)) as [-> | Hne].
  - rewrite list_lookup_alter_eq. destruct (ns !! r) as [n |]; [| done].
    simpl in *. by rewrite Hf, set_shape_same.
  - by rewrite list_lookup_alter_ne.
Qed.

(** Two changes of shape that agree on the shape of the node. *)
Lemma update_shape_ext (r : ref) (f g : Shape -> Shape) (s : State) :
  f (shape_of (nodes s) r) = g (shape_of (nodes s) r) ->
  update_shape r f s = update_shape r g s.
Proof.
  intros Hfg. unfold update_shape, modify. f_equal. unfold with_nodes. f_equal.
  apply list_eq. intros i. destruct (decide (i = r)) as [-> | Hne].
  - rewrite !list_lookup_alter_eq. unfold shape_of in Hfg.
    destruct (nodes s !! r) as [n |]; [| done]. simpl in *. by rewrite Hfg.
  - by rewrite !list_lookup_alter_ne.
Qed.

Lemma token_remove_absent (name : string) (l : list string) :
  token_in name l = false -> token_remove name l = l.
Proof.
  unfold token_in, token_remove. induction l as [| t l IH]; [done |]. simpl.
  intros Hno. apply orb_false_iff in Hno as [Ht Hl]. rewrite Ht. simpl.
  by rewrite IH.
Qed.

Lemma token_in_token_remove (name : string) (l : list string) :
  token_in name (token_remove name l) = false.
Proof.
  unfold token_in, token_remove. induction l as [| t l IH]; [done |]. simpl.
  destruct (bool_decide (t = name)) eqn:E; simpl; [done |]. by rewrite E.
Qed.

Lemma token_in_appended (name : string) (l : list string) :
  token_in name (l ++ [name]) = true.
Proof. apply token_in_elem_of, elem_of_app. right. by apply list_elem_of_singleton. Qed.

(** [classList.toggle] of a token is a change of the shape of the node. *)
Lemma classList_toggle_shape (r : ref) (name : string) (force : option bool)
    (s : State) :
  name <> "" -> has_whitespace name = false ->
  (classList_toggle r name force ;; ret tt) s
  = update_shape r (class_toggled name force) s.
Proof.
  intros Hname Hspace. unfold classList_toggle.
  rewrite bool_decide_eq_false_2 by done. rewrite Hspace.
  unfold bind at 1. unfold bind at 1, get at 1.
  destruct (token_in name (classList (shape_of (nodes s) r))) eqn:Hin.
  - destruct force as [[|] |].
    + unfold ret. symmetry. apply update_shape_id.
      unfold class_toggled. by rewrite Hin.
    + rewrite (update_shape_ext r (class_toggled name (Some false))
                 (tokens_changed (token_remove name)))
        by (unfold class_toggled; by rewrite Hin).
      unfold bind, update_shape, modify, ret. done.
    + rewrite (update_shape_ext r (class_toggled name None)
                 (tokens_changed (token_remove name)))
        by (unfold class_toggled; by rewrite Hin).
      unfold bind, update_shape, modify, ret. done.
  - destruct force as [[|] |].
    + rewrite (update_shape_ext r (class_toggled name (Some true))
                 (tokens_changed (fun l => l ++ [name])))
        by (unfold class_toggled; by rewrite Hin).
      unfold bind, update_shape, modify, ret. done.
    + unfold ret. symmetry. apply update_shape_id.
      unfold class_toggled. by rewrite Hin.
    + rewrite (update_shape_ext r (class_toggled name None)
                 (tokens_changed (fun l => l ++ [name])))
        by (unfold class_toggled; by rewrite Hin).
      unfold bind, update_shape, modify, ret. done.
Qed.

(** [classList.toggle] of what is no token throws, and changes nothing. *)
Lemma classList_toggle_throws (r : ref) (name : string) (force : option bool)
    (s : State) :
  name = "" \/ has_whitespace name = true ->
  (classList_toggle r name force ;; ret tt) s
  = (Throw (if bool_decide (name = "") then SyntaxError
            else InvalidCharacterError), s).
Proof.
  intros Hname. unfold classList_toggle, bind.
  case_bool_decide; [done |]. destruct Hname as [? | ->]; done.
Qed.

Lemma kind_class_toggled (name : string) (force : option bool) (s : Shape) :
  kind (class_toggled name force s) = kind s.
Proof.
  unfold class_toggled.
  destruct (token_in name (classList s)); destruct force as [[|] |];
    try done; apply kind_tokens_changed.
Qed.

Lemma kinds_kept_classList_toggle (name : string) (force : option bool)
    (r : ref) (s : State) :
  kinds_kept (nodes s) (nodes (snd ((classList_toggle r name force ;; ret tt) s))).
Proof.
  destruct (decide (name = "")) as [Hname | Hname];
    [rewrite classList_toggle_throws by (by left); apply kinds_kept_refl |].
  destruct (has_whitespace name) eqn:Hspace;
    [rewrite classList_toggle_throws by (by right); apply kinds_kept_refl |].
  rewrite classList_toggle_shape by done.
  apply kinds_kept_update_shape. intros x. apply kind_class_toggled.
Qed.

(** The two checks of [toggleClass] agree: the member is an element. *)
Lemma eligible_classList (v : Variant) (ns : list Node) (item : Value) :
  eligible v K_classList EagleJS.isElement ns item = EagleJS.isElement ns item.
Proof.
  destruct v; [| done]. simpl.
  unfold EagleJS.isElement, EagleJS.isNode, EagleJS.nodeType_of.
  destruct item as [| | | | | r0 | |]; simpl;
    try (by rewrite ?andb_false_r).
  unfold type_of, shape_of.
  destruct (ns !! r0) as [n |]; simpl; [| done]. unfold node_has.
  change ELEMENT_NODE with 1%Z.
  destruct (nodeType (shape n) =? 1)%Z eqn:E; [| by rewrite andb_false_r].
  apply Z.eqb_eq in E. by rewrite E.
Qed.

(** [toggleClass] is a loop of [classList.toggle] on the elements of the
    collection. *)
Lemma toggleClass_loop `{Engines} (v : Variant) (this : loc)
    (items : list Value) (name : string) (force : option bool) (st : State) :
  arrays st !! this = Some items ->
  Forall (live (nodes st)) items ->
  EagleJS.toggleClass v this name force st
  = (forEach (fun r => classList_toggle r name (force_passed v force) ;; ret tt)
       (eligible_refs (EagleJS.isElement (nodes st)) items) ;;
     ret this) st.
Proof.
  intros Hthis Hlive.
  rewrite <- (eligible_refs_ext
                (eligible v K_classList EagleJS.isElement (nodes st)))
    by (intros item; apply eligible_classList).
  rewrite <- (mutator_all v K_classList EagleJS.isElement
                (fun r => classList_toggle r name (force_passed v force) ;; ret tt)
                this items st); try done;
    [| constructor | intros r s; apply kinds_kept_classList_toggle].
  destruct v; [done |]. simpl. unfold EagleJS.toggleClass_legacy.
  apply bind_ext. intros a s. by destruct force.
Qed.

(** A change of shape, applied along a list of nodes: every node is
    reshaped once for each of its occurrences in the list. *)
Lemma reshape_iter (F : Shape -> Shape) (refs : list ref) (st : State) :
  exists ns',
    forEach (fun r => update_shape r F) refs st
    = (Ok tt, with_nodes (fun _ => ns') st)
    /\ forall r,
         ns' !! r
         = (fun n => set_shape
                       (Nat.iter (count_occ Nat.eq_dec refs r) F (shape n)) n)
             <$> nodes st !! r.
Proof.
  revert st. induction refs as [| r0 refs IH]; intros st.
  - exists (nodes st). split; [by destruct st |]. intros r. simpl.
    destruct (nodes st !! r) as [n |]; [| done]. simpl.
    by rewrite set_shape_same.
  - cbn [forEach]. unfold bind, update_shape at 1, modify.
    destruct (IH (with_nodes
                    (alter (fun n => set_shape (F (shape n)) n) r0) st))
      as (ns' & Hrun & Hlook).
    exists ns'. split; [rewrite Hrun; by destruct st |].
    intros r. rewrite Hlook. simpl nodes.
    destruct (decide (r0 = r)) as [-> | Hne].
    + rewrite list_lookup_alter_eq. cbn [count_occ].
      destruct (Nat.eq_dec r r); [| done].
      destruct (nodes st !! r) as [n |]; [| done]. simpl.
      rewrite <- Nat.iter_succ_r, Nat.iter_succ. by destruct n.
    + rewrite list_lookup_alter_ne by done. cbn [count_occ].
      by destruct (Nat.eq_dec r0 r).
Qed.

Lemma token_in_class_toggled (name : string) (force : option bool)
    (s : Shape) :
  token_in name (classList (class_toggled name force s))
  = match force with
    | Some b => b
    | None => negb (token_in name (classList s))
    end.
Proof.
  unfold class_toggled.
  destruct (token_in name (classList s)) eqn:Hin; destruct force as [[|] |];
    try done; rewrite classList_tokens_changed;
    by rewrite ?token_in_token_remove, ?token_in_appended.
Qed.

Lemma token_in_toggled_times (name : string) (k : nat) (s : Shape) :
  token_in name (classList (Nat.iter k (class_toggled name None) s))
  = xorb (Nat.odd k) (token_in name (classList s)).
Proof.
  induction k as [| k IH]; [done |].
  cbn [Nat.iter nat_rect]. rewrite token_in_class_toggled.
  change (Nat.iter k (class_toggled name None) s)
    with (nat_rect (fun _ => Shape) s (fun _ => class_toggled name None) k)
    in IH.
  rewrite IH, Nat.odd_succ, <- Nat.negb_odd.
  by destruct (Nat.odd k), (token_in name (classList s)).
Qed.

(** What [toggleClass] does with a token, in either source. *)
Lemma toggleClass_effect `{Engines} (v : Variant) (this : loc)
    (items : list Value) (name : string) (force : option bool) (st : State) :
  arrays st !! this = Some items ->
  Forall (live (nodes st)) items ->
  name <> "" -> has_whitespace name = false ->
  let refs := eligible_refs (EagleJS.isElement (nodes st)) items in
  exists st',
    EagleJS.toggleClass v this name force st = (Ok this, st')
    /\ arrays st' = arrays st
    /\ (forall r, parent_of (nodes st') r = parent_of (nodes st) r
                  /\ children_of (nodes st') r = children_of (nodes st) r)
    /\ (forall r,
          shape_of (nodes st') r
          = Nat.iter (count_occ Nat.eq_dec refs r)
              (class_toggled name (force_passed v force))
              (shape_of (nodes st) r)).
Proof.
  intros Hthis Hlive Hname Hspace refs.
  destruct (reshape_iter (class_toggled name (force_passed v force)) refs st)
    as (ns' & Hrun & Hlook).
  exists (with_nodes (fun _ => ns') st). split.
  { rewrite (toggleClass_loop v this items name force st Hthis Hlive).
    fold refs.
    rewrite (bind_forEach_ext _
               (fun r => update_shape r
                           (class_toggled name (force_passed v force))))
      by (intros r s; by apply classList_toggle_shape).
    unfold bind. by rewrite Hrun. }
  split; [done |]. simpl nodes. split.
  - intros r. unfold parent_of, children_of. rewrite Hlook.
    by destruct (nodes st !! r) as [[]|].
  - intros r. unfold shape_of. rewrite Hlook.
    destruct (nodes st !! r) as [n |] eqn:Hr; simpl; [by destruct n |].
    assert (Hno : count_occ Nat.eq_dec refs r = 0).
    { apply count_occ_not_In. intros Hin. apply list_elem_of_In in Hin.
      apply (live_allocated _ _ _ _ Hlive) in Hin.
      apply lookup_ge_None in Hr. lia. }
    by rewrite Hno.
Qed.

(** [toggleClass] with what is no token: an exception as soon as the
    collection has an element. *)
Lemma toggleClass_no_token `{Engines} (v : Variant) (this : loc)
    (items : list Value) (name : string) (force : option bool) (st : State) :
  arrays st !! this = Some items ->
  Forall (live (nodes st)) items ->
  name = "" \/ has_whitespace name = true ->
  EagleJS.toggleClass v this name force st
  = (if bool_decide (eligible_refs (EagleJS.isElement (nodes st)) items = [])
     then Ok this
     else Throw (if bool_decide (name = "") then SyntaxError
                 else InvalidCharacterError), st).
Proof.
  intros Hthis Hlive Hname.
  rewrite (toggleClass_loop v this items name force st Hthis Hlive).
  destruct (eligible_refs (EagleJS.isElement (nodes st)) items) as [| r refs];
    [done |].
  cbn [forEach]. unfold bind at 1. unfold bind at 1.
  by rewrite classList_toggle_throws.
Qed.

(** C10.  In the legacy source [toggleClass] ignores its [force]: the call
    is the call without it.  With a token for name, on a collection of
    live items, [toggleClass] never throws in either source, returns the
    collection, and changes only class lists and class attributes: the
    shape of every node is its shape after one [classList.toggle] for each
    of its occurrences among the elements of the collection, with no
    force in the legacy source, with the [force] of the call in the typed
    one.  So, in the legacy source, whatever the force, an element that
    occurs once has the class removed when it had it and added, after its
    other classes, when it had not; and in general an element has the
    class afterwards exactly when it had it and occurs an even number of
    times, or had it not and occurs an odd number of times.  In the typed
    source, with a force, every element of the collection has the class
    afterwards exactly when the force is [true], and without a force the
    call is the legacy call.  So the two sources differ on
    [toggleClass(name, true)] for an element that occurs once and has the
    class: the typed source keeps the class, the legacy source removes it.
    With a name that is no token, both sources throw as soon as the
    collection has an element, and change nothing. *)
Theorem toggleClass_legacy_ignores_force `{Engines} :
  (forall this name force st,
     EagleJS.toggleClass Legacy this name force st
     = EagleJS.toggleClass Legacy this name None st)
  /\ (forall v this items name force st,
        arrays st !! this = Some items ->
        Forall (live (nodes st)) items ->
        name <> "" -> has_whitespace name = false ->
        let refs := eligible_refs (EagleJS.isElement (nodes st)) items in
        let times r := count_occ Nat.eq_dec refs r in
        let had r := token_in name (classList (shape_of (nodes st) r)) in
        exists st',
          EagleJS.toggleClass v this name force st = (Ok this, st')
          /\ arrays st' = arrays st
          /\ (forall r, parent_of (nodes st') r = parent_of (nodes st) r
                        /\ children_of (nodes st') r
                           = children_of (nodes st) r)
          /\ (forall r,
                shape_of (nodes st') r
                = Nat.iter (times r)
                    (class_toggled name (force_passed v force))
                    (shape_of (nodes st) r))
          /\ (forall r, r ∉ refs ->
                shape_of (nodes st') r = shape_of (nodes st) r)
          /\ (forall r, r ∈ refs ->
                token_in name (classList (shape_of (nodes st') r))
                = match force_passed v force with
                  | Some b => b
                  | None => xorb (Nat.odd (times r)) (had r)
                  end)
          /\ (forall r, times r = 1 -> force_passed v force = None ->
                classList (shape_of (nodes st') r)
                = if had r
                  then token_remove name (classList (shape_of (nodes st) r))
                  else classList (shape_of (nodes st) r) ++ [name]))
  /\ (forall this items name st,
        arrays st !! this = Some items ->
        Forall (live (nodes st)) items ->
        EagleJS.toggleClass Typed this name None st
        = EagleJS.toggleClass Legacy this name None st)
  /\ (forall this items name st r,
        arrays st !! this = Some items ->
        Forall (live (nodes st)) items ->
        name <> "" -> has_whitespace name = false ->
        count_occ Nat.eq_dec
          (eligible_refs (EagleJS.isElement (nodes st)) items) r = 1 ->
        token_in name (classList (shape_of (nodes st) r)) = true ->
        let after v :=
          classList
            (shape_of
               (nodes (snd (EagleJS.toggleClass v this name (Some true) st)))
               r) in
        after Typed = classList (shape_of (nodes st) r)
        /\ after Legacy = token_remove name (classList (shape_of (nodes st) r))
        /\ after Typed <> after Legacy)
  /\ (forall v this items name force st,
        arrays st !! this = Some items ->
        Forall (live (nodes st)) items ->
        name = "" \/ has_whitespace name = true ->
        EagleJS.toggleClass v this name force st
        = (if bool_decide
                (eligible_refs (EagleJS.isElement (nodes st)) items = [])
           then Ok this
           else Throw (if bool_decide (name = "") then SyntaxError
                       else InvalidCharacterError), st)).
Proof.
  split; [| split; [| split; [| split]]].
  - intros this name force st. simpl. unfold EagleJS.toggleClass_legacy.
    by destruct force.
  - intros v this items name force st Hthis Hlive Hname Hspace refs times had.
    destruct (toggleClass_effect v this items name force st Hthis Hlive
                Hname Hspace)
      as (st' & Hrun & Harrays & Hlinks & Hshape).
    fold refs in Hshape. exists st'.
    split; [done |]. split; [done |]. split; [done |]. split; [done |].
    split; [| split].
    + intros r Hr. rewrite Hshape.
      assert (Hno : count_occ Nat.eq_dec refs r = 0).
      { apply count_occ_not_In. by rewrite <- list_elem_of_In. }
      by rewrite Hno.
    + intros r Hr. rewrite Hshape.
      destruct (force_passed v force) as [b |].
      * assert (Hsome : count_occ Nat.eq_dec refs r > 0).
        { apply count_occ_In. by rewrite <- list_elem_of_In. }
        destruct (count_occ Nat.eq_dec refs r) as [| k]; [lia |].
        cbn [Nat.iter nat_rect]. apply token_in_class_toggled.
      * apply token_in_toggled_times.
    + intros r Hr Hforce. rewrite Hshape. fold (times r). rewrite Hr, Hforce.
      cbn [Nat.iter nat_rect]. unfold class_toggled. fold (had r).
      destruct (had r); by rewrite classList_tokens_changed.
  - intros this items name st Hthis Hlive.
    by rewrite !(toggleClass_loop _ this items name None st Hthis Hlive).
  - intros this items name st r Hthis Hlive Hname Hspace Hr Hin after.
    assert (Htyped : after Typed = classList (shape_of (nodes st) r)).
    { unfold after.
      destruct (toggleClass_effect Typed this items name (Some true) st
                  Hthis Hlive Hname Hspace)
        as (st' & Hrun & _ & _ & Hshape).
      rewrite Hrun. simpl snd. rewrite Hshape, Hr.
      cbn [Nat.iter nat_rect force_passed]. unfold class_toggled.
      by rewrite Hin. }
    assert (Hlegacy : after Legacy
                      = token_remove name (classList (shape_of (nodes st) r))).
    { unfold after.
      destruct (toggleClass_effect Legacy this items name (Some true) st
                  Hthis Hlive Hname Hspace)
        as (st' & Hrun & _ & _ & Hshape).
      rewrite Hrun. simpl snd. rewrite Hshape, Hr.
      cbn [Nat.iter nat_rect force_passed]. unfold class_toggled.
      by rewrite Hin, classList_tokens_changed. }
    split; [done |]. split; [done |].
    rewrite Htyped, Hlegacy. intros Heq.
    rewrite Heq, token_in_token_remove in Hin. discriminate.
  - intros v this items name force st. apply toggleClass_no_token.
Qed.

(** [toggleClass('on', true)] on the [div] and the [span] of the page:
    the [div] carries the class [on], the [span] does not. *)
Lemma toggleClass_legacy_ignores_force_witness :
  let st := Demo.page in
  let after v :=
    classList
      (shape_of
         (nodes (snd (EagleJS.toggleClass (H := Demo.engines) v 0 "on"
                        (Some true) st))) 3) in
  after Typed = classList (shape_of (nodes st) 3)
  /\ after Legacy = token_remove "on" (classList (shape_of (nodes st) 3))
  /\ after Typed <> after Legacy.
Proof.
  apply (proj1 (proj2 (proj2 (proj2
           (toggleClass_legacy_ignores_force (H := Demo.engines)))))
           0 [VNode 3; VNode 4] "on" Demo.page 3);
    try reflexivity; [| discriminate].
  repeat (constructor; [split; [reflexivity | intros r [= <-]; simpl; lia] |]).
  constructor.
Defined.

(** ** toggleClass with a force *)

(** Two loops that agree, and keep an invariant of the state. *)
Lemma forEach_ext_on {A} (I : State -> Prop) (f g : A -> M unit)
    (l : list A) (st : State) :
  (forall x s, I s -> f x s = g x s /\ I (snd (g x s))) ->
  I st -> forEach f l st = forEach g l st.
Proof.
  intros Hfg. revert st. induction l as [| x l IH]; intros st HI; [done |].
  simpl. unfold bind. destruct (Hfg x st HI) as [Heq Hkeep]. rewrite Heq.
  destruct (g x st) as [[[] | e] s1]; [by apply IH | done].
Qed.

Lemma bind_same {A B} (m m' : M A) (k : A -> M B) (st : State) :
  m st = m' st -> bind m k st = bind m' k st.
Proof. intros Hm. unfold bind. by rewrite Hm. Qed.

(** After a change of the class list, the class attribute is the
    serialization of the class list. *)
Lemma class_written_update_shape (r : ref) (f : list string -> list string)
    (s : State) :
  (forall x, update_steps (shape_of (nodes s) x) = shape_of (nodes s) x) ->
  forall x,
    update_steps (shape_of (nodes (snd (update_shape r (tokens_changed f) s))) x)
    = shape_of (nodes (snd (update_shape r (tokens_changed f) s))) x.
Proof.
  intros Hs x. unfold update_shape, modify. simpl. unfold shape_of.
  destruct (decide (x = r)) as [-> | Hne].
  - rewrite list_lookup_alter_eq. specialize (Hs r). unfold shape_of in Hs.
    destruct (nodes s !! r) as [n |]; [| done]. destruct n. simpl.
    unfold tokens_changed. apply update_steps_twice.
  - rewrite list_lookup_alter_ne by done. apply Hs.
Qed.

(** [classList.toggle] with a force is [classList.add] or
    [classList.remove] of the one token, on an element whose class
    attribute is the serialization of its class list. *)
Lemma classList_toggle_forced (r : ref) (name : string) (force : bool)
    (s : State) :
  update_steps (shape_of (nodes s) r) = shape_of (nodes s) r ->
  (classList_toggle r name (Some force) ;; ret tt) s
  = (if force then classList_add r [name] else classList_remove r [name]) s.
Proof.
  intros Hs. destruct (decide (name = "")) as [Hname | Hname].
  { rewrite classList_toggle_throws by (by left).
    unfold classList_add, classList_remove. cbn [tokens_error].
    rewrite !bool_decide_eq_true_2 by done. by destruct force. }
  destruct (has_whitespace name) eqn:Hspace.
  { rewrite classList_toggle_throws by (by right).
    unfold classList_add, classList_remove. cbn [tokens_error].
    rewrite !bool_decide_eq_false_2 by done. rewrite Hspace.
    by destruct force. }
  rewrite classList_toggle_shape by done.
  unfold classList_add, classList_remove. cbn [tokens_error].
  rewrite !bool_decide_eq_false_2 by done. rewrite Hspace. cbn [fold_left].
  destruct force; apply update_shape_ext; unfold class_toggled;
    destruct (token_in name (classList (shape_of (nodes s) r))) eqn:Hin.
  - unfold tokens_changed. rewrite with_classList_same; [done |].
    unfold token_add. by rewrite Hin.
  - unfold tokens_changed, with_classList, token_add. by rewrite Hin.
  - done.
  - unfold tokens_changed. rewrite with_classList_same; [done |].
    by apply token_remove_absent.
Qed.

(** X18.  In the typed source, where the class attribute of every node is the
    serialization of its class list, as every change of a class list
    leaves it, [toggleClass(name, true)] is [addClass(name)] and
    [toggleClass(name, false)] is [removeClass(name)]: the same result,
    the same state, the same exception on a name that is no token.
    Elsewhere the two differ on an element that has the class already,
    or has it not: [addClass] and [removeClass] write the class attribute
    anew, and [toggleClass] leaves it as it is.  So on the [div] of the
    page, once its class attribute is [on] followed by a space,
    [toggleClass('on', true)] changes nothing and [addClass('on')] leaves
    the attribute [on]. *)
Theorem toggleClass_forced `{Engines} (this : loc) (name : string)
    (force : bool) (st : State) :
  ((forall r, update_steps (shape_of (nodes st) r) = shape_of (nodes st) r) ->
   EagleJS.toggleClass Typed this name (Some force) st
   = (if force then EagleJS.addClass Typed this [name]
      else EagleJS.removeClass Typed this [name]) st)
  /\ (let st0 :=
        with_arrays (fun h => h ++ [[VNode 3]])
          (snd (setAttribute (H := Demo.engines) 3 "class" "on " Demo.page)) in
      getAttribute (nodes st0) 3 "class" = Some "on "
      /\ classList (shape_of (nodes st0) 3) = ["on"]
      /\ EagleJS.toggleClass (H := Demo.engines) Typed 2 "on" (Some true) st0
         = (Ok 2, st0)
      /\ getAttribute
           (nodes (snd (EagleJS.addClass Typed 2 ["on"] st0))) 3 "class"
         = Some "on").
Proof.
  split; [| vm_compute; by repeat split].
  intros Hst.
  assert (Hloop : forall items,
    forEach (fun item =>
      let! ok := has_property K_classList item in
      if ok then
        let! r := EagleJS.as_node item in
        classList_toggle r name (Some force) ;; ret tt
      else ret tt) items st
    = forEach (fun item =>
        let! ok := has_property K_classList item in
        if ok then
          let! r := EagleJS.as_node item in
          if force then classList_add r [name] else classList_remove r [name]
        else ret tt) items st).
  { intros items.
    apply (forEach_ext_on
             (fun s => forall r,
                update_steps (shape_of (nodes s) r) = shape_of (nodes s) r));
      [| done].
    intros x s Hs. unfold bind, has_property.
    destruct x as [| | | | | r | |]; try done.
    destruct (nodes s !! r) as [n |]; [| done].
    destruct (node_has K_classList (shape n)); [| done].
    simpl EagleJS.as_node. unfold ret at 1 3 4.
    pose proof (classList_toggle_forced r name force s (Hs r)) as Ht.
    unfold bind in Ht. rewrite Ht. split; [done |].
    unfold classList_add, classList_remove.
    destruct force; destruct (tokens_error [name]); try done;
      by apply class_written_update_shape. }
  simpl. unfold EagleJS.toggleClass_typed, EagleJS.addClass,
    EagleJS.removeClass.
  destruct (arrays st !! this) as [items |] eqn:Hthis.
  - destruct force; rewrite !(get_array_bind this items st _ Hthis);
      simpl EagleJS.capable; apply bind_same; apply Hloop.
  - destruct force; unfold bind, EagleJS.get_array; by rewrite Hthis.
Qed.

(** The [div] and the [span] of the page. *)
Lemma toggleClass_forced_witness :
  EagleJS.toggleClass (H := Demo.engines) Typed 0 "on" (Some true) Demo.page
  = EagleJS.addClass Typed 0 ["on"] Demo.page.
Proof.
  apply (proj1 (toggleClass_forced (H := Demo.engines) 0 "on" true
                  Demo.page)).
  intros r. do 8 (destruct r as [| r]; [reflexivity |]). reflexivity.
Defined.
